(** * hanpama/hwp: a shallow embedding of the binary HWP v5 reader, of the
    HWPX section scanner and of the ASCII table renderer, with the
    properties of its specification and further properties of the code.

    Conventions of the embedding.
    - A Go [byte], [uint16], [uint32] is a [Z]; the wrap-around of unsigned
      arithmetic is written out ([mod 2^32]) and the bit operations are
      [Z.land], [Z.lor], [Z.lxor], [Z.shiftl], [Z.shiftr].
    - A Go [int] that holds a length, an index or a display width is a [Z]
      (or a [nat] where the code only counts up from zero); these values are
      bounded by the size of the data in memory, far from 2^63.
    - A Go [[]byte] is a [list Z]; an [io.Reader] over in-memory data is the
      list of the bytes not yet read.
    - A Go [string] is the list of its runes (Unicode code points): every
      string the program builds is valid UTF-8, and the program looks at
      strings only through their runes (splitting at newlines, display
      width) or as a whole (concatenation, emptiness).
    - A loop that Go writes without a bound gets a [fuel] argument and
      returns [None] when the fuel runs out; that enough fuel exists is
      proved, never assumed. *)

From Stdlib Require Import ZArith List Lia Bool String.
From Stdlib Require Import Btauto.
From stdpp Require Import base list.
From coqutil Require Import Z.bitblast.
Import ListNotations.

Local Open Scope Z_scope.

(** ** Errors and results *)

Inductive error : Type :=
| EOF                                  (* io.EOF *)
| ErrUnexpectedEOF                     (* io.ErrUnexpectedEOF *)
| ErrNew (msg : string)                (* errors.New(msg) *)
| ErrWrap (msg : string) (e : error).  (* fmt.Errorf(msg + ": %w", e) *)

Inductive result (A : Type) : Type :=
| Ok (a : A)
| Err (e : error).
Arguments Ok {A} a.
Arguments Err {A} e.

Definition is_byte (b : Z) : Prop := 0 <= b < 256.

(** ** In-memory readers *)

(** [io.ReadFull(r, buf)] with [len(buf) = n] over an in-memory reader: the
    bytes read, the error, and the reader afterwards.  No byte at all is
    [io.EOF], fewer than [n] is [io.ErrUnexpectedEOF]. *)
Definition ReadFull (r : list Z) (n : nat) : list Z * option error * list Z :=
  if (n <=? length r)%nat then (take n r, None, drop n r)
  else if (length r =? 0)%nat then ([], Some EOF, r)
  else (r, Some ErrUnexpectedEOF, []).

(** [binary.LittleEndian.Uint16(b)] and [binary.LittleEndian.Uint32(b)]. *)
Definition Uint16 (b : list Z) : Z :=
  Z.lor (nth 0 b 0) (Z.shiftl (nth 1 b 0) 8).

Definition Uint32 (b : list Z) : Z :=
  Z.lor (Z.lor (Z.lor (nth 0 b 0) (Z.shiftl (nth 1 b 0) 8))
               (Z.shiftl (nth 2 b 0) 16))
        (Z.shiftl (nth 3 b 0) 24).

(** * Key derivation and the streaming decryptor (crypto.go) *)

Module Crypto.

(** msvcRand implements MS Visual C++ rand(). *)
Record msvcRand : Type := { state : Z }.

Definition rand (r : msvcRand) : Z * msvcRand :=
  let st := (state r * 214013 + 2531011) mod 2 ^ 32 in
  (Z.land (Z.shiftr st 16) 0x7FFF, {| state := st |}).

(** The inner loop of deriveKey,
    [for j := 0; j < c && i < 256; j++ { randomArray[i] = v; i++ }],
    by recursion on the [c - j] iterations that remain. *)
Fixpoint fillRun (c : nat) (v : Z) (randomArray : list Z) (i : nat)
  : list Z * nat :=
  match c with
  | O => (randomArray, i)
  | S c' =>
      if (i <? 256)%nat
      then fillRun c' v (<[i := v]> randomArray) (S i)
      else (randomArray, i)
  end.

(** The outer loop [for i := 0; i < 256; { ... }]. *)
Fixpoint fillLoop (fuel : nat) (r : msvcRand) (randomArray : list Z) (i : nat)
  : option (list Z) :=
  if (i <? 256)%nat then
    match fuel with
    | O => None
    | S fuel' =>
        let '(val, r1) := rand r in
        let '(cnt, r2) := rand r1 in
        let v := Z.land val 0xFF in
        let c := Z.to_nat (Z.land cnt 0x0F + 1) in
        let '(randomArray', i') := fillRun c v randomArray i in
        fillLoop fuel' r2 randomArray' i'
    end
  else Some randomArray.

(** deriveKey; [None] only when the fill loop runs out of fuel. *)
Definition deriveKey (fuel : nat) (distData : list Z)
  : option (result (list Z)) :=
  if negb (length distData =? 256)%nat
  then Some (Err (ErrNew "invalid distribution data size"))
  else
    let seed := Uint32 (take 4 distData) in
    match fillLoop fuel {| state := seed |} (replicate 256 0) 0 with
    | None => None
    | Some randomArray =>
        let xorData :=
          map (fun i => Z.lxor (nth i distData 0) (nth i randomArray 0))
              (seq 0 256) in
        let offset := Z.land seed 0x0F + 4 in
        if offset + 16 >? 256
        then Some (Err (ErrNew "invalid key offset"))
        else Some (Ok (take 16 (drop (Z.to_nat offset) xorData)))
    end.

(** *** The derivation as the specification words it (section 4.1.1) *)

(** Step 2: the generator's state update and the value of a draw. *)
Definition lcg (s : Z) : Z := (s * 214013 + 2531011) mod 2 ^ 32.
Definition draw (s : Z) : Z := Z.land (Z.shiftr s 16) 0x7FFF.

(** Step 3: the runs written by [n] rounds of "draw val, then cnt, write
    the byte [val & 0xFF] [(cnt & 0x0F) + 1] times". *)
Fixpoint spec_runs (n : nat) (s : Z) : list Z :=
  match n with
  | O => []
  | S n' =>
      let s1 := lcg s in
      let s2 := lcg s1 in
      replicate (Z.to_nat (Z.land (draw s2) 0x0F + 1)) (Z.land (draw s1) 0xFF)
        ++ spec_runs n' s2
  end.

(** 256 rounds always cover the array; the last run is cut at 256 bytes. *)
Definition spec_randomArray (seed : Z) : list Z := take 256 (spec_runs 256 seed).

(** Steps 1, 4, 5 and 6. *)
Definition spec_deriveKey (distData : list Z) : list Z :=
  let seed := Uint32 (take 4 distData) in
  let xorData := zip_with Z.lxor (spec_randomArray seed) distData in
  take 16 (drop (Z.to_nat (Z.land seed 0x0F + 4)) xorData).

(** A 256-byte input to run the derivation on: the bytes 0, 1, ..., 255. *)
Definition sampleDistData : list Z := map Z.of_nat (seq 0 256).

(** *** The streaming decryptor *)

(** [cipher.Block] as the reader uses it: 16-byte blocks, [Decrypt] fills
    the destination block, and [Decrypt] undoes [Encrypt].  The program
    instantiates it with AES-128 ([aes.NewCipher]). *)
Class Block : Type := {
  Encrypt : list Z -> list Z;
  Decrypt : list Z -> list Z
}.

Record BlockLaws (B : Block) : Prop := {
  Encrypt_length : forall blk, length (Encrypt blk) = length blk;
  Decrypt_length : forall blk, length (Decrypt blk) = length blk;
  Decrypt_Encrypt : forall blk, length blk = 16%nat -> Decrypt (Encrypt blk) = blk
}.

(** cryptoReader implements AES-128 ECB on-the-fly decryption; the field
    [block] is the [Block] instance in scope. *)
Record cryptoReader : Type := { r : list Z; buf : list Z; ptr : nat }.

(** [cr.Read(p)] with [len(p) = lenp]: the bytes copied into [p], the
    error, and the reader afterwards.  [fuel] bounds the depth of the
    final [return cr.Read(p)]. *)
Fixpoint Read `{Block} (fuel : nat) (cr : cryptoReader) (lenp : nat)
  : option (list Z * option error * cryptoReader) :=
  match fuel with
  | O => None
  | S fuel' =>
      if (ptr cr <? length (buf cr))%nat then
        let data := take lenp (drop (ptr cr) (buf cr)) in
        Some (data, None,
              {| r := r cr; buf := buf cr; ptr := ptr cr + length data |})
      else
        let '(blk, err, r') := ReadFull (r cr) 16 in
        let cr' := {| r := r'; buf := buf cr; ptr := ptr cr |} in
        match err with
        | Some EOF =>
            (* [err == io.EOF && readBytes == 0], else the final [return 0, err] *)
            if (length blk =? 0)%nat then Some ([], Some EOF, cr')
            else Some ([], Some EOF, cr')
        | Some ErrUnexpectedEOF =>
            Some ([], Some (ErrNew "encrypted stream not aligned to block size"), cr')
        | Some e => Some ([], Some e, cr')
        | None =>
            Read fuel' {| r := r'; buf := Decrypt blk; ptr := 0 |} lenp
        end
  end.

(** A consumer that reads to exhaustion: call [Read] with a buffer of
    [sizes k] bytes at the [k]-th call until it reports an error, and
    collect the bytes delivered. *)
Fixpoint readToEnd `{Block} (fuel : nat) (sizes : nat -> nat) (k : nat)
  (cr : cryptoReader) : option (list Z * error) :=
  match fuel with
  | O => None
  | S fuel' =>
      match Read fuel cr (sizes k) with
      | None => None
      | Some (data, Some e, _) => Some (data, e)
      | Some (data, None, cr') =>
          match readToEnd fuel' sizes (S k) cr' with
          | None => None
          | Some (rest, e) => Some (data ++ rest, e)
          end
      end
  end.

(** [&cryptoReader{r: currentReader, block: block}]. *)
Definition newCryptoReader (stream : list Z) : cryptoReader :=
  {| r := stream; buf := []; ptr := 0 |}.

(** Electronic-codebook mode: [f] applied to each whole 16-byte block. *)
Fixpoint blocks (n : nat) (l : list Z) : list (list Z) :=
  match n with
  | O => []
  | S n' => take 16 l :: blocks n' (drop 16 l)
  end.

Definition ecb (f : list Z -> list Z) (l : list Z) : list Z :=
  concat (map f (blocks (length l / 16) l)).

(** How reading a stream to its end finishes. *)
Definition finalError (stream : list Z) : error :=
  if (length stream mod 16 =? 0)%nat then EOF
  else ErrNew "encrypted stream not aligned to block size".

(** A toy block cipher to run the reader on: XOR with a fixed byte. *)
Definition xorBlock (k : Z) (blk : list Z) : list Z := map (Z.lxor k) blk.

Definition xorCipher : Block :=
  {| Encrypt := xorBlock 0x5A; Decrypt := xorBlock 0x5A |}.

End Crypto.

(** * The record decoder (record.go and the paragraph-text decoder) *)

Module Record.

Definition recTagBegin : Z := 0x10.
Definition recTagParaHeader : Z := recTagBegin + 50.
Definition recTagParaText : Z := recTagBegin + 51.
Definition recTagParaCharShape : Z := recTagBegin + 52.
Definition recTagParaLineSeg : Z := recTagBegin + 53.
Definition recTagParaRangeTag : Z := recTagBegin + 54.
Definition recTagCtrlHeader : Z := recTagBegin + 55.
Definition recTagListHeader : Z := recTagBegin + 56.
Definition recTagPageDef : Z := recTagBegin + 57.
Definition recTagFootnoteShape : Z := recTagBegin + 58.
Definition recTagPageBorderFill : Z := recTagBegin + 59.
Definition recTagShapeComponent : Z := recTagBegin + 60.
Definition recTagTable : Z := recTagBegin + 61.
Definition recTagShapeComponentLine : Z := recTagBegin + 62.
Definition recTagShapeComponentRectangle : Z := recTagBegin + 63.
Definition recTagShapeComponentEllipse : Z := recTagBegin + 64.
Definition recTagShapeComponentArc : Z := recTagBegin + 65.
Definition recTagShapeComponentPolygon : Z := recTagBegin + 66.
Definition recTagShapeComponentCurve : Z := recTagBegin + 67.
Definition recTagShapeComponentOLE : Z := recTagBegin + 68.
Definition recTagShapeComponentPicture : Z := recTagBegin + 69.
Definition recTagShapeComponentContainer : Z := recTagBegin + 70.
Definition recTagCtrlData : Z := recTagBegin + 71.
Definition recTagEqEdit : Z := recTagBegin + 72.
Definition recTagShapeComponentTextArt : Z := recTagBegin + 74.
Definition recTagFormObject : Z := recTagBegin + 75.
Definition recTagMemoShape : Z := recTagBegin + 76.
Definition recTagMemoList : Z := recTagBegin + 77.
Definition recTagChartData : Z := recTagBegin + 79.
Definition recTagVideoData : Z := recTagBegin + 82.
Definition recTagShapeComponentUnknown : Z := recTagBegin + 99.

(** recHeader holds the common metadata shared by all concrete record nodes. *)
Record recHeader : Type := { TagID : Z; Level : Z; Size : Z }.

(** *** Paragraph text *)

Definition paraTextCodeUnusable : Z := 0.
Definition paraTextCodeReserved1 : Z := 1.
Definition paraTextCodeSectionColDef : Z := 2.
Definition paraTextCodeFieldStart : Z := 3.
Definition paraTextCodeFieldEnd : Z := 4.
Definition paraTextCodeReserved5 : Z := 5.
Definition paraTextCodeReserved6 : Z := 6.
Definition paraTextCodeReserved7 : Z := 7.
Definition paraTextCodeTitleMark : Z := 8.
Definition paraTextCodeTab : Z := 9.
Definition paraTextCodeLineBreak : Z := 10.
Definition paraTextCodeGsoTable : Z := 11.
Definition paraTextCodeReserved12 : Z := 12.
Definition paraTextCodeParaBreak : Z := 13.
Definition paraTextCodeReserved14 : Z := 14.
Definition paraTextCodeHiddenComment : Z := 15.
Definition paraTextCodeHeaderFooter : Z := 16.
Definition paraTextCodeFootnoteEndnote : Z := 17.
Definition paraTextCodeAutoNumber : Z := 18.
Definition paraTextCodeReserved19 : Z := 19.
Definition paraTextCodeReserved20 : Z := 20.
Definition paraTextCodePageControl : Z := 21.
Definition paraTextCodeBookmarkIndex : Z := 22.
Definition paraTextCodeAddTextOverlap : Z := 23.
Definition paraTextCodeHyphen : Z := 24.
Definition paraTextCodeReserved25 : Z := 25.
Definition paraTextCodeReserved26 : Z := 26.
Definition paraTextCodeReserved27 : Z := 27.
Definition paraTextCodeReserved28 : Z := 28.
Definition paraTextCodeReserved29 : Z := 29.
Definition paraTextCodeBundleSpace : Z := 30.
Definition paraTextCodeFixedSpace : Z := 31.

(** The variants of ParaTextElement; each carries the [Code] of its
    paraTextBase, ParaTextString also its [Value]. *)
Inductive ParaTextElement : Type :=
| ParaTextString (Code : Z) (Value : list Z)
| ParaTextSectionColDef (Code : Z)
| ParaTextFieldStart (Code : Z)
| ParaTextFieldEnd (Code : Z)
| ParaTextTitleMark (Code : Z)
| ParaTextTab (Code : Z)
| ParaTextLineBreak (Code : Z)
| ParaTextGsoTable (Code : Z)
| ParaTextParaBreak (Code : Z)
| ParaTextHiddenComment (Code : Z)
| ParaTextHeaderFooter (Code : Z)
| ParaTextFootnoteEndnote (Code : Z)
| ParaTextAutoNumber (Code : Z)
| ParaTextPageControl (Code : Z)
| ParaTextBookmarkIndex (Code : Z)
| ParaTextAddTextOverlap (Code : Z)
| ParaTextHyphen (Code : Z)
| ParaTextBundleSpace (Code : Z)
| ParaTextFixedSpace (Code : Z).

Definition elementCode (el : ParaTextElement) : Z :=
  match el with
  | ParaTextString c _ => c
  | ParaTextSectionColDef c | ParaTextFieldStart c | ParaTextFieldEnd c
  | ParaTextTitleMark c | ParaTextTab c | ParaTextLineBreak c
  | ParaTextGsoTable c | ParaTextParaBreak c | ParaTextHiddenComment c
  | ParaTextHeaderFooter c | ParaTextFootnoteEndnote c | ParaTextAutoNumber c
  | ParaTextPageControl c | ParaTextBookmarkIndex c | ParaTextAddTextOverlap c
  | ParaTextHyphen c | ParaTextBundleSpace c | ParaTextFixedSpace c => c
  end.

Definition isString (el : ParaTextElement) : bool :=
  match el with ParaTextString _ _ => true | _ => false end.

(** [string(stringBuffer)]: the conversion of a rune slice to a string
    replaces a rune that is no Unicode scalar value (here: half of a
    surrogate pair) by U+FFFD. *)
Definition validRune (c : Z) : Z :=
  if (0xD800 <=? c) && (c <=? 0xDFFF) then 0xFFFD else c.

Definition stringOfRunes (rs : list Z) : list Z := map validRune rs.

(** The closure flushString, on the two variables it captures. *)
Definition flushString (elements : list ParaTextElement) (stringBuffer : list Z)
  : list ParaTextElement * list Z :=
  if (0 <? length stringBuffer)%nat
  then (elements ++ [ParaTextString 0 (stringOfRunes stringBuffer)], [])
  else (elements, stringBuffer).

(** [io.CopyN(io.Discard, d.data, n)]: discards [n] bytes, or what is left. *)
Definition skipBytes (n : nat) (data : list Z) : list Z := drop n data.

(** The [switch code] of decodeParaTextElements. *)
Definition controlCode (code : Z) (data : list Z) (elements : list ParaTextElement)
  : list Z * list ParaTextElement :=
  if code =? paraTextCodeUnusable then (data, elements)
  else if code =? paraTextCodeReserved1 then (data, elements)
  else if code =? paraTextCodeSectionColDef then
    (skipBytes 14 data, elements ++ [ParaTextSectionColDef code])
  else if code =? paraTextCodeFieldStart then
    (skipBytes 14 data, elements ++ [ParaTextFieldStart code])
  else if code =? paraTextCodeFieldEnd then
    (skipBytes 14 data, elements ++ [ParaTextFieldEnd code])
  else if (code =? paraTextCodeReserved5) || (code =? paraTextCodeReserved6)
          || (code =? paraTextCodeReserved7) then
    (skipBytes 14 data, elements)
  else if code =? paraTextCodeTitleMark then
    (skipBytes 14 data, elements ++ [ParaTextTitleMark code])
  else if code =? paraTextCodeTab then
    (skipBytes 14 data, elements ++ [ParaTextTab code])
  else if code =? paraTextCodeLineBreak then
    (data, elements ++ [ParaTextLineBreak code])
  else if code =? paraTextCodeGsoTable then
    (skipBytes 14 data, elements ++ [ParaTextGsoTable code])
  else if code =? paraTextCodeReserved12 then (skipBytes 14 data, elements)
  else if code =? paraTextCodeParaBreak then
    (data, elements ++ [ParaTextParaBreak code])
  else if code =? paraTextCodeReserved14 then (skipBytes 14 data, elements)
  else if code =? paraTextCodeHiddenComment then
    (skipBytes 14 data, elements ++ [ParaTextHiddenComment code])
  else if code =? paraTextCodeHeaderFooter then
    (skipBytes 14 data, elements ++ [ParaTextHeaderFooter code])
  else if code =? paraTextCodeFootnoteEndnote then
    (skipBytes 14 data, elements ++ [ParaTextFootnoteEndnote code])
  else if code =? paraTextCodeAutoNumber then
    (skipBytes 14 data, elements ++ [ParaTextAutoNumber code])
  else if (code =? paraTextCodeReserved19) || (code =? paraTextCodeReserved20) then
    (skipBytes 14 data, elements)
  else if code =? paraTextCodePageControl then
    (skipBytes 14 data, elements ++ [ParaTextPageControl code])
  else if code =? paraTextCodeBookmarkIndex then
    (skipBytes 14 data, elements ++ [ParaTextBookmarkIndex code])
  else if code =? paraTextCodeAddTextOverlap then
    (skipBytes 14 data, elements ++ [ParaTextAddTextOverlap code])
  else if code =? paraTextCodeHyphen then
    (data, elements ++ [ParaTextHyphen code])
  else if (code =? paraTextCodeReserved25) || (code =? paraTextCodeReserved26)
          || (code =? paraTextCodeReserved27) || (code =? paraTextCodeReserved28)
          || (code =? paraTextCodeReserved29) then
    (data, elements)
  else if code =? paraTextCodeBundleSpace then
    (data, elements ++ [ParaTextBundleSpace code])
  else if code =? paraTextCodeFixedSpace then
    (data, elements ++ [ParaTextFixedSpace code])
  else (data, elements).

(** One round of the [for] loop of decodeParaTextElements, after a code
    unit has been read. *)
Definition decodeUnit (code : Z) (data : list Z)
  (elements : list ParaTextElement) (stringBuffer : list Z)
  : list Z * list ParaTextElement * list Z :=
  if 32 <=? code then (data, elements, stringBuffer ++ [code])
  else
    let '(elements1, stringBuffer1) := flushString elements stringBuffer in
    let '(data1, elements2) := controlCode code data elements1 in
    (data1, elements2, stringBuffer1).

(** The loop itself: read a little-endian code unit, stop at the first
    failed read, flush once more at the end. *)
Fixpoint decodeLoop (fuel : nat) (data : list Z)
  (elements : list ParaTextElement) (stringBuffer : list Z)
  : option (list ParaTextElement) :=
  match fuel with
  | O => None
  | S fuel' =>
      let '(raw, err, data1) := ReadFull data 2 in
      match err with
      | Some _ => Some (fst (flushString elements stringBuffer))
      | None =>
          let '(data2, elements1, stringBuffer1) :=
            decodeUnit (Uint16 raw) data1 elements stringBuffer in
          decodeLoop fuel' data2 elements1 stringBuffer1
      end
  end.

Definition decodeParaTextElements (data : list Z) : option (list ParaTextElement) :=
  decodeLoop (S (length data)) data [] [].

(** *** The control codes, by what the decoder does with them *)

(** The marker of a control code that has one. *)
Definition markerOf (code : Z) : option ParaTextElement :=
  match code with
  | 2 => Some (ParaTextSectionColDef code)
  | 3 => Some (ParaTextFieldStart code)
  | 4 => Some (ParaTextFieldEnd code)
  | 8 => Some (ParaTextTitleMark code)
  | 9 => Some (ParaTextTab code)
  | 10 => Some (ParaTextLineBreak code)
  | 11 => Some (ParaTextGsoTable code)
  | 13 => Some (ParaTextParaBreak code)
  | 15 => Some (ParaTextHiddenComment code)
  | 16 => Some (ParaTextHeaderFooter code)
  | 17 => Some (ParaTextFootnoteEndnote code)
  | 18 => Some (ParaTextAutoNumber code)
  | 21 => Some (ParaTextPageControl code)
  | 22 => Some (ParaTextBookmarkIndex code)
  | 23 => Some (ParaTextAddTextOverlap code)
  | 24 => Some (ParaTextHyphen code)
  | 30 => Some (ParaTextBundleSpace code)
  | 31 => Some (ParaTextFixedSpace code)
  | _ => None
  end.

(** The control codes with a marker, those without one, and those that
    are followed by an inline parameter block. *)
Definition markerCodes : list Z :=
  [2; 3; 4; 8; 9; 10; 11; 13; 15; 16; 17; 18; 21; 22; 23; 24; 30; 31].

Definition silentCodes : list Z :=
  [0; 1; 5; 6; 7; 12; 14; 19; 20; 25; 26; 27; 28; 29].

Definition blockCodes : list Z :=
  [2; 3; 4; 5; 6; 7; 8; 9; 11; 12; 14; 15; 16; 17; 18; 19; 20; 21; 22; 23].

Definition memZ (x : Z) (l : list Z) : bool := existsb (Z.eqb x) l.

(** The elements after the pending run has been flushed. *)
Definition flushed (elements : list ParaTextElement) (stringBuffer : list Z)
  : list ParaTextElement :=
  match stringBuffer with
  | [] => elements
  | _ => elements ++ [ParaTextString 0 (stringOfRunes stringBuffer)]
  end.

(** *** Typed records *)

Record RecParaText : Type := { pt_header : recHeader; Els : list ParaTextElement }.

Record RecCtrlHeader : Type :=
  { ch_header : recHeader; CtrlID : Z; ch_Data : list Z }.

Record RecListHeader : Type := {
  lh_header : recHeader;
  IsCell : bool;
  ParaCount : Z;
  Property : Z;
  ColIndex : Z;
  RowIndex : Z;
  ColSpan : Z;
  RowSpan : Z
}.

Record RecTable : Type :=
  { tb_header : recHeader; tb_Data : list Z; RowCount : Z; ColCount : Z }.

Record RecUnknown : Type := { un_header : recHeader; un_Data : list Z }.

(** The interface Rec as the sum of the concrete record types; the types
    that are a bare recHeader share the shape [R_... b]. *)
Inductive Rec : Type :=
| R_ParaHeader (b : recHeader)
| R_ParaText (rec : RecParaText)
| R_ParaCharShape (b : recHeader)
| R_ParaLineSeg (b : recHeader)
| R_ParaRangeTag (b : recHeader)
| R_CtrlHeader (rec : RecCtrlHeader)
| R_ListHeader (rec : RecListHeader)
| R_PageDef (b : recHeader)
| R_FootnoteShape (b : recHeader)
| R_PageBorderFill (b : recHeader)
| R_ShapeComponent (b : recHeader)
| R_Table (rec : RecTable)
| R_ShapeComponentLine (b : recHeader)
| R_ShapeComponentRectangle (b : recHeader)
| R_ShapeComponentEllipse (b : recHeader)
| R_ShapeComponentArc (b : recHeader)
| R_ShapeComponentPolygon (b : recHeader)
| R_ShapeComponentCurve (b : recHeader)
| R_ShapeComponentOLE (b : recHeader)
| R_ShapeComponentPicture (b : recHeader)
| R_ShapeComponentContainer (b : recHeader)
| R_CtrlData (b : recHeader)
| R_EqEdit (b : recHeader)
| R_ShapeComponentTextArt (b : recHeader)
| R_FormObject (b : recHeader)
| R_MemoShape (b : recHeader)
| R_MemoList (b : recHeader)
| R_ChartData (b : recHeader)
| R_VideoData (b : recHeader)
| R_ShapeComponentUnknown (b : recHeader)
| R_Unknown (rec : RecUnknown).

Definition header (rec : Rec) : recHeader :=
  match rec with
  | R_ParaText r => pt_header r
  | R_CtrlHeader r => ch_header r
  | R_ListHeader r => lh_header r
  | R_Table r => tb_header r
  | R_Unknown r => un_header r
  | R_ParaHeader b | R_ParaCharShape b | R_ParaLineSeg b | R_ParaRangeTag b
  | R_PageDef b | R_FootnoteShape b | R_PageBorderFill b | R_ShapeComponent b
  | R_ShapeComponentLine b | R_ShapeComponentRectangle b
  | R_ShapeComponentEllipse b | R_ShapeComponentArc b
  | R_ShapeComponentPolygon b | R_ShapeComponentCurve b
  | R_ShapeComponentOLE b | R_ShapeComponentPicture b
  | R_ShapeComponentContainer b | R_CtrlData b | R_EqEdit b
  | R_ShapeComponentTextArt b | R_FormObject b | R_MemoShape b | R_MemoList b
  | R_ChartData b | R_VideoData b | R_ShapeComponentUnknown b => b
  end.

Definition Tag (rec : Rec) : Z := TagID (header rec).
Definition Lvl (rec : Rec) : Z := Level (header rec).
Definition Len (rec : Rec) : Z := Size (header rec).

(** The raw payload, for the record types that keep it. *)
Definition rawData (rec : Rec) : option (list Z) :=
  match rec with
  | R_CtrlHeader r => Some (ch_Data r)
  | R_Table r => Some (tb_Data r)
  | R_Unknown r => Some (un_Data r)
  | _ => None
  end.

(** [int16(x)] of a [uint16]. *)
Definition int16 (x : Z) : Z := if x <? 2 ^ 15 then x else x - 2 ^ 16.

Definition decodeCtrlHeaderRecord (b : recHeader) (data : list Z) : RecCtrlHeader :=
  {| ch_header := b;
     CtrlID := if (4 <=? length data)%nat then Uint32 (take 4 data) else 0;
     ch_Data := data |}.

Definition decodeListHeaderRecord (b : recHeader) (data : list Z) : RecListHeader :=
  let paraCount := if (6 <=? length data)%nat then int16 (Uint16 data) else 0 in
  let property := if (6 <=? length data)%nat then Uint32 (drop 2 data) else 0 in
  if (33 <=? length data)%nat then
    let cellData := take 26 (drop 7 data) in
    if (8 <=? length cellData)%nat then
      let colSpan := nth 5 cellData 0 in
      let rowSpan := nth 7 cellData 0 in
      {| lh_header := b; IsCell := true;
         ParaCount := paraCount; Property := property;
         ColIndex := nth 1 cellData 0;
         RowIndex := nth 3 cellData 0;
         ColSpan := if colSpan =? 0 then 1 else colSpan;
         RowSpan := if rowSpan =? 0 then 1 else rowSpan |}
    else
      {| lh_header := b; IsCell := true;
         ParaCount := paraCount; Property := property;
         ColIndex := 0; RowIndex := 0; ColSpan := 0; RowSpan := 0 |}
  else
    {| lh_header := b; IsCell := false;
       ParaCount := paraCount; Property := property;
       ColIndex := 0; RowIndex := 0; ColSpan := 0; RowSpan := 0 |}.

Definition decodeTableRecord (b : recHeader) (data : list Z) : RecTable :=
  {| tb_header := b; tb_Data := data;
     RowCount := if (8 <=? length data)%nat then Uint16 (drop 4 data) else 0;
     ColCount := if (8 <=? length data)%nat then Uint16 (drop 6 data) else 0 |}.

Definition decodeParaTextRecord (b : recHeader) (data : list Z) : option Rec :=
  match decodeParaTextElements data with
  | Some els => Some (R_ParaText {| pt_header := b; Els := els |})
  | None => None
  end.

(** *** Framing *)

(** The first half of ScanNext: the tag/level/size header, the extended
    size, and the payload. *)
Definition readFrame (s : list Z) : result (recHeader * list Z) * list Z :=
  let '(raw, err, s1) := ReadFull s 4 in
  match err with
  | Some e => (Err e, s1)
  | None =>
      let headerRaw := Uint32 raw in
      let base := {| TagID := Z.land headerRaw 0x3ff;
                     Level := Z.land (Z.shiftr headerRaw 10) 0x3ff;
                     Size := Z.land (Z.shiftr headerRaw 20) 0xfff |} in
      let '(sized, s2) :=
        if Size base =? 0xfff then
          let '(raw2, err2, s2) := ReadFull s1 4 in
          match err2 with
          | Some e => (Err (ErrWrap "read extended size" e), s2)
          | None => (Ok {| TagID := TagID base; Level := Level base;
                           Size := Uint32 raw2 |}, s2)
          end
        else (Ok base, s1) in
      match sized with
      | Err e => (Err e, s2)
      | Ok base' =>
          let '(data, err3, s3) := ReadFull s2 (Z.to_nat (Size base')) in
          match err3 with
          | Some e => (Err (ErrWrap "read record data" e), s3)
          | None => (Ok (base', data), s3)
          end
      end
  end.

(** The second half of ScanNext: the [switch base.TagID]. *)
Definition decodeRecord (base : recHeader) (data : list Z) : option Rec :=
  let tag := TagID base in
  if tag =? recTagParaHeader then Some (R_ParaHeader base)
  else if tag =? recTagParaText then decodeParaTextRecord base data
  else if tag =? recTagParaCharShape then Some (R_ParaCharShape base)
  else if tag =? recTagParaLineSeg then Some (R_ParaLineSeg base)
  else if tag =? recTagParaRangeTag then Some (R_ParaRangeTag base)
  else if tag =? recTagCtrlHeader then
    Some (R_CtrlHeader (decodeCtrlHeaderRecord base data))
  else if tag =? recTagListHeader then
    Some (R_ListHeader (decodeListHeaderRecord base data))
  else if tag =? recTagPageDef then Some (R_PageDef base)
  else if tag =? recTagFootnoteShape then Some (R_FootnoteShape base)
  else if tag =? recTagPageBorderFill then Some (R_PageBorderFill base)
  else if tag =? recTagShapeComponent then Some (R_ShapeComponent base)
  else if tag =? recTagTable then Some (R_Table (decodeTableRecord base data))
  else if tag =? recTagShapeComponentLine then Some (R_ShapeComponentLine base)
  else if tag =? recTagShapeComponentRectangle then
    Some (R_ShapeComponentRectangle base)
  else if tag =? recTagShapeComponentEllipse then
    Some (R_ShapeComponentEllipse base)
  else if tag =? recTagShapeComponentArc then Some (R_ShapeComponentArc base)
  else if tag =? recTagShapeComponentPolygon then
    Some (R_ShapeComponentPolygon base)
  else if tag =? recTagShapeComponentCurve then Some (R_ShapeComponentCurve base)
  else if tag =? recTagShapeComponentOLE then Some (R_ShapeComponentOLE base)
  else if tag =? recTagShapeComponentPicture then
    Some (R_ShapeComponentPicture base)
  else if tag =? recTagShapeComponentContainer then
    Some (R_ShapeComponentContainer base)
  else if tag =? recTagCtrlData then Some (R_CtrlData base)
  else if tag =? recTagEqEdit then Some (R_EqEdit base)
  else if tag =? recTagShapeComponentTextArt then
    Some (R_ShapeComponentTextArt base)
  else if tag =? recTagFormObject then Some (R_FormObject base)
  else if tag =? recTagMemoShape then Some (R_MemoShape base)
  else if tag =? recTagMemoList then Some (R_MemoList base)
  else if tag =? recTagChartData then Some (R_ChartData base)
  else if tag =? recTagVideoData then Some (R_VideoData base)
  else if tag =? recTagShapeComponentUnknown then
    Some (R_ShapeComponentUnknown base)
  else Some (R_Unknown {| un_header := base; un_Data := data |}).

(** ScanNext over an in-memory reader; [None] only if the paragraph-text
    loop ran out of fuel. *)
Definition ScanNext (s : list Z) : option (result Rec * list Z) :=
  match readFrame s with
  | (Err e, s') => Some (Err e, s')
  | (Ok (base, data), s') =>
      match decodeRecord base data with
      | Some rec => Some (Ok rec, s')
      | None => None
      end
  end.

(** *** The wire format of a record, for the round trip *)

(** [binary.LittleEndian.PutUint32]. *)
Definition PutUint32 (w : Z) : list Z :=
  [Z.land w 0xff; Z.land (Z.shiftr w 8) 0xff;
   Z.land (Z.shiftr w 16) 0xff; Z.land (Z.shiftr w 24) 0xff].

(** Modelled from the spec: the repository only reads records, it has no
    encoder.  A record is framed as "tag/level/size in a single
    little-endian 32-bit header word followed by exactly size payload
    bytes"; the fields sit where ScanNext's masks look for them (tag in
    bits 0-9, level in bits 10-19, size in bits 20-31). *)
Definition headerWord (tag level size : Z) : Z :=
  Z.lor (Z.lor tag (Z.shiftl level 10)) (Z.shiftl size 20).

(** Modelled from the spec: the inline path, for a size below the
    sentinel 0xfff. *)
Definition encodeInline (tag level : Z) (payload : list Z) : list Z :=
  PutUint32 (headerWord tag level (Z.of_nat (length payload))) ++ payload.


End Record.

(** * The content tree (document/types.go) *)

Module Document.

Record Cell : Type :=
  { Row : Z; Col : Z; RowSpan : Z; ColSpan : Z; Text : list Z }.

Record Table : Type := { Rows : Z; Cols : Z; Cells : list Cell }.

Inductive ContentNode : Type :=
| Paragraph (Text : list Z)
| TableNode (t : Table)
| Image.

End Document.

(** * The assembly state machine (content_scanner.go) *)

Module Scanner.
Import Record Document.

(** The Reader, as the scanner uses it: the number of sections and, for
    each index, the decoded (decrypted, decompressed) bytes of the section
    stream or the error of opening it. *)
Record Reader : Type :=
  { SectionCount : Z; OpenSection : Z -> result (list Z) }.

Record paragraphBuilder : Type := { textParts : list (list Z) }.

(** [currentCell] points into [cells]; it is set to the address of the
    last element right after every append, so it is the index of a cell. *)
Record tableBuilder : Type := {
  rows : Z;
  cols : Z;
  cells : list Cell;
  currentCell : option nat;
  tb_tableLevel : Z
}.

(** [scanner] holds the bytes of the open section not yet read; it is nil
    exactly when [sectionCloser] is.  [buffered] is [bufferedRec] when
    [hasBuffered] is set. *)
Record ContentScanner : Type := {
  reader : Reader;
  currentSection : Z;
  scanner : option (list Z);
  buffered : option Rec;
  currentPara : option paragraphBuilder;
  currentTable : option tableBuilder;
  tableLevel : Z
}.

Definition setSection (s : ContentScanner) (n : Z) (sc : option (list Z))
  : ContentScanner :=
  {| reader := reader s; currentSection := n; scanner := sc;
     buffered := buffered s; currentPara := currentPara s;
     currentTable := currentTable s; tableLevel := tableLevel s |}.

Definition setScanner (s : ContentScanner) (sc : option (list Z)) : ContentScanner :=
  setSection s (currentSection s) sc.

Definition setBuffered (s : ContentScanner) (b : option Rec) : ContentScanner :=
  {| reader := reader s; currentSection := currentSection s;
     scanner := scanner s; buffered := b; currentPara := currentPara s;
     currentTable := currentTable s; tableLevel := tableLevel s |}.

Definition setPara (s : ContentScanner) (p : option paragraphBuilder)
  : ContentScanner :=
  {| reader := reader s; currentSection := currentSection s;
     scanner := scanner s; buffered := buffered s; currentPara := p;
     currentTable := currentTable s; tableLevel := tableLevel s |}.

Definition setTable (s : ContentScanner) (t : option tableBuilder)
  : ContentScanner :=
  {| reader := reader s; currentSection := currentSection s;
     scanner := scanner s; buffered := buffered s;
     currentPara := currentPara s; currentTable := t;
     tableLevel := tableLevel s |}.

Definition setTableLevel (s : ContentScanner) (l : Z) : ContentScanner :=
  {| reader := reader s; currentSection := currentSection s;
     scanner := scanner s; buffered := buffered s;
     currentPara := currentPara s; currentTable := currentTable s;
     tableLevel := l |}.

Definition advanceSection (s : ContentScanner) : option error * ContentScanner :=
  let n := currentSection s + 1 in
  if SectionCount (reader s) <=? n then (Some EOF, setSection s n None)
  else
    match OpenSection (reader s) n with
    | Err e => (Some (ErrWrap "failed to open section" e), setSection s n None)
    | Ok sectionReader => (None, setSection s n (Some sectionReader))
    end.

(** Open, after OpenReader has produced the Reader. *)
Definition Open (rd : Reader) : result ContentScanner :=
  let s := {| reader := rd; currentSection := -1; scanner := None;
              buffered := None; currentPara := None; currentTable := None;
              tableLevel := 0 |} in
  match advanceSection s with
  | (Some e, _) => Err e
  | (None, s') => Ok s'
  end.

(** putBack puts a record back into the buffer to be read again. *)
Definition putBack (s : ContentScanner) (rec : Rec) : ContentScanner :=
  setBuffered s (Some rec).

(** The [for] loop of nextRecord. *)
Fixpoint scanLoop (fuel : nat) (s : ContentScanner)
  : option (result Rec * ContentScanner) :=
  match fuel with
  | O => None
  | S fuel' =>
      match scanner s with
      | None => Some (Err EOF, s)
      | Some rd =>
          match ScanNext rd with
          | None => None
          | Some (Ok rec, rd') => Some (Ok rec, setScanner s (Some rd'))
          | Some (Err EOF, rd') =>
              match advanceSection (setScanner s (Some rd')) with
              | (Some advErr, s') => Some (Err advErr, s')
              | (None, s') => scanLoop fuel' s'
              end
          | Some (Err e, rd') => Some (Err e, setScanner s (Some rd'))
          end
      end
  end.

(** nextRecord returns the next record, automatically advancing sections. *)
Definition nextRecord (fuel : nat) (s : ContentScanner)
  : option (result Rec * ContentScanner) :=
  match buffered s with
  | Some rec => Some (Ok rec, setBuffered s None)
  | None => scanLoop fuel s
  end.

(** finishTable completes the current table and returns it.  Both call
    sites have checked that [currentTable] is not nil and pass the builder
    [tb] it points to. *)
Definition finishTable (s : ContentScanner) (tb : tableBuilder)
  : Table * ContentScanner :=
  ({| Rows := rows tb; Cols := cols tb; Cells := cells tb |}, setTable s None).

(** skipChildren skips all records that are children of the given parent
    level. *)
Fixpoint skipChildren (fuel : nat) (s : ContentScanner) (parentLevel : Z)
  : option (option error * ContentScanner) :=
  match fuel with
  | O => None
  | S fuel' =>
      match nextRecord fuel s with
      | None => None
      | Some (Err EOF, s') => Some (None, s')
      | Some (Err e, s') => Some (Some e, s')
      | Some (Ok rec, s') =>
          if Lvl rec <=? parentLevel then Some (None, putBack s' rec)
          else skipChildren fuel' s' parentLevel
      end
  end.

(** joinTextParts joins text parts into a single string. *)
Definition joinTextParts (parts : list (list Z)) : list Z := concat parts.

(** The element switch of the RecParaText case. *)
Definition appendElement (parts : list (list Z)) (el : ParaTextElement)
  : list (list Z) :=
  match el with
  | ParaTextString _ v => parts ++ [v]
  | ParaTextLineBreak _ => parts ++ [[10]]
  | ParaTextTab _ => parts ++ [[9]]
  | _ => parts
  end.

Definition appendText (text : list Z) (cell : Cell) : Cell :=
  {| Row := Row cell; Col := Col cell; RowSpan := RowSpan cell;
     ColSpan := ColSpan cell;
     Text := (match Text cell with [] => [] | t => t ++ [10] end) ++ text |}.

(** What one round of Next's loop does: go round again, or return. *)
Inductive step : Type :=
| Continue (s : ContentScanner)
| Return (r : result ContentNode) (s : ContentScanner).

Definition stateOf (st : step) : ContentScanner :=
  match st with Continue s => s | Return _ s => s end.

(** The [switch r := rec.(type)] of Next. *)
Definition process (fuel : nat) (rec : Rec) (s : ContentScanner) : option step :=
  match rec with
  | R_ParaHeader _ => Some (Continue (setPara s (Some {| textParts := [] |})))
  | R_ParaText r =>
      match currentPara s with
      | Some p =>
          Some (Continue (setPara s
            (Some {| textParts := fold_left appendElement (Els r) (textParts p) |})))
      | None => Some (Continue s)
      end
  | R_ParaCharShape _ | R_ParaLineSeg _ =>
      match currentPara s with
      | Some p =>
          let text := joinTextParts (textParts p) in
          let s1 := setPara s None in
          match currentTable s1 with
          | Some tb =>
              match currentCell tb with
              | Some i =>
                  Some (Continue (setTable s1 (Some
                    {| rows := rows tb; cols := cols tb;
                       cells := alter (appendText text) i (cells tb);
                       currentCell := currentCell tb;
                       tb_tableLevel := tb_tableLevel tb |})))
              | None => Some (Return (Ok (Paragraph text)) s1)
              end
          | None => Some (Return (Ok (Paragraph text)) s1)
          end
      | None => Some (Continue s)
      end
  | R_CtrlHeader r =>
      if CtrlID r =? 0x74626c20 then
        Some (Continue (setTableLevel s (Level (ch_header r))))
      else if CtrlID r =? 0x67736f20 then
        match skipChildren fuel s (Level (ch_header r)) with
        | None => None
        | Some (_, s1) => Some (Return (Ok Image) s1)
        end
      else
        match skipChildren fuel s (Level (ch_header r)) with
        | None => None
        | Some (_, s1) => Some (Continue s1)
        end
  | R_Table r =>
      match currentTable s with
      | None =>
          Some (Continue (setTable s (Some
            {| rows := RowCount r; cols := ColCount r; cells := [];
               currentCell := None; tb_tableLevel := tableLevel s |})))
      | Some _ => Some (Continue s)
      end
  | R_ListHeader r =>
      match currentTable s with
      | Some tb =>
          if IsCell r then
            let rows' := if RowIndex r + Record.RowSpan r >? rows tb
                         then RowIndex r + Record.RowSpan r else rows tb in
            let cols' := if ColIndex r + Record.ColSpan r >? cols tb
                         then ColIndex r + Record.ColSpan r else cols tb in
            let cell := {| Row := RowIndex r; Col := ColIndex r;
                           RowSpan := Record.RowSpan r;
                           ColSpan := Record.ColSpan r;
                           Text := [] |} in
            Some (Continue (setTable s (Some
              {| rows := rows'; cols := cols'; cells := cells tb ++ [cell];
                 currentCell := Some (length (cells tb ++ [cell]) - 1)%nat;
                 tb_tableLevel := tb_tableLevel tb |})))
          else Some (Continue s)
      | None => Some (Continue s)
      end
  | _ => Some (Continue s)
  end.

(** One round of the [for] loop of Next. *)
Definition iteration (fuel : nat) (s : ContentScanner) : option step :=
  match nextRecord fuel s with
  | None => None
  | Some (Err e, s1) =>
      match currentTable s1 with
      | Some tb =>
          let '(table, s2) := finishTable s1 tb in
          Some (Return (Ok (TableNode table)) s2)
      | None => Some (Return (Err e) s1)
      end
  | Some (Ok rec, s1) =>
      match currentTable s1 with
      | Some tb =>
          if Lvl rec <=? tb_tableLevel tb then
            let '(table, s2) := finishTable s1 tb in
            Some (Return (Ok (TableNode table)) (putBack s2 rec))
          else process fuel rec s1
      | None => process fuel rec s1
      end
  end.

(** Next returns the next content node using state machine pattern. *)
Fixpoint Next (fuel : nat) (s : ContentScanner)
  : option (result ContentNode * ContentScanner) :=
  match fuel with
  | O => None
  | S fuel' =>
      match iteration fuel s with
      | None => None
      | Some (Return r s') => Some (r, s')
      | Some (Continue s') => Next fuel' s'
      end
  end.

(** The size declared by the table-size record that instantiated the
    table in progress, if there is one: a ghost value that follows the
    rounds of Next.  It is set when a RecTable creates the builder and
    dropped when the table is finished. *)
Definition declaredNext (fuel : nat) (s : ContentScanner) (d : option (Z * Z))
  : option (Z * Z) :=
  match nextRecord fuel s with
  | None => d
  | Some (Err _, _) => None
  | Some (Ok rec, s1) =>
      match currentTable s1 with
      | Some tb => if Lvl rec <=? tb_tableLevel tb then None else d
      | None =>
          match rec with
          | R_Table r => Some (RowCount r, ColCount r)
          | _ => d
          end
      end
  end.

(** The states the scanner goes through from Open, each with its ghost. *)
Inductive tracks : ContentScanner -> option (Z * Z) -> Prop :=
| tracks_Open rd s : Open rd = Ok s -> tracks s None
| tracks_iteration fuel s d st :
    tracks s d -> iteration fuel s = Some st ->
    tracks (stateOf st) (declaredNext fuel s d).

(** The bounds invariant of a table with its declared size. *)
Definition cellInBounds (nrows ncols : Z) (c : Cell) : Prop :=
  Row c + RowSpan c <= nrows /\ Col c + ColSpan c <= ncols.

Definition tableBounds (d : Z * Z) (nrows ncols : Z) (cs : list Cell) : Prop :=
  fst d <= nrows /\ snd d <= ncols /\ Forall (cellInBounds nrows ncols) cs.

(** The ghost value fits the builder: a table in progress has a declared
    size, its bounds are at least that size and hold every cell; without
    a table in progress there is no declared size. *)
Definition tracked (s : ContentScanner) (d : option (Z * Z)) : Prop :=
  match currentTable s with
  | Some tb =>
      exists dd, d = Some dd /\ tableBounds dd (rows tb) (cols tb) (cells tb)
  | None => d = None
  end.

(** Rounds of Next's loop in a row, with the ghost value. *)
Fixpoint rounds (n fuel : nat) (s : ContentScanner) (d : option (Z * Z))
  : ContentScanner * option (Z * Z) :=
  match n with
  | O => (s, d)
  | S n' =>
      match iteration fuel s with
      | Some st => rounds n' fuel (stateOf st) (declaredNext fuel s d)
      | None => (s, d)
      end
  end.

(** A section to run the scanner on: a table control at level 0, its
    table-size record (1 row, 1 column) and one cell at row 0, column 1
    with row span 2, holding the paragraph "Hi"; then a paragraph header
    back at level 0. *)
Definition sampleTable : list Z :=
  encodeInline recTagCtrlHeader 0 [0x20; 0x6c; 0x62; 0x74]
  ++ encodeInline recTagTable 1 [0; 0; 0; 0; 1; 0; 1; 0]
  ++ encodeInline recTagListHeader 1
       ([1; 0; 0; 0; 0; 0; 0; 0; 1; 0; 0; 0; 1; 0; 2] ++ replicate 18 0)
  ++ encodeInline recTagParaHeader 2 []
  ++ encodeInline recTagParaText 3 [72; 0; 105; 0]
  ++ encodeInline recTagParaCharShape 3 [].

Definition sampleSection : list Z :=
  sampleTable ++ encodeInline recTagParaHeader 0 [].

Definition sampleReader (section : list Z) : Reader :=
  {| SectionCount := 1; OpenSection := fun _ => Ok section |}.

Definition sampleStart (section : list Z) : ContentScanner :=
  match Open (sampleReader section) with
  | Ok s => s
  | Err _ =>
      {| reader := sampleReader section; currentSection := -1; scanner := None;
         buffered := None; currentPara := None; currentTable := None;
         tableLevel := 0 |}
  end.

End Scanner.

(** * The table layout and rendering engine (render/table.go) *)

Module Render.

Record Cell : Type :=
  { Row : Z; Col : Z; Text : list Z; RowSpan : Z; ColSpan : Z }.

(** [Cells] is a slice of pointers; the layout compares and looks up
    cells by pointer.  A cell is identified here by its position in
    [Cells] (every element is an allocation of its own). *)
Record Table : Type := { Rows : Z; Cols : Z; Cells : list Cell }.

(** Layout represents the computed layout of the table. *)
Record Layout : Type := {
  table : Table;
  cellOwner : list (list (option nat));
  colWidths : list Z;
  rowHeights : list Z;
  cellLines : list (list (list Z))
}.

(** Modelled from the spec: displayWidth calls runewidth.StringWidth of
    the external go-runewidth package; the specification defines the
    display width of a string as "the sum of each character's 0/1/2
    contribution".  [RuneWidth] is that contribution of one rune. *)
Class Condition : Type := { RuneWidth : Z -> Z }.

Definition displayWidth `{Condition} (s : list Z) : Z :=
  fold_right (fun c acc => RuneWidth c + acc) 0 s.

(** [strings.Split(s, sep)] for a separator of one rune. *)
Fixpoint Split (s : list Z) (sep : Z) : list (list Z) :=
  match s with
  | [] => [[]]
  | c :: rest =>
      if c =? sep then [] :: Split rest sep
      else
        match Split rest sep with
        | line :: lines => (c :: line) :: lines
        | [] => [[c]]
        end
  end.

(** [strings.Repeat(s, count)] for a string of one rune; a negative
    count panics. *)
Definition Repeat (c : Z) (count : Z) : option (list Z) :=
  if count <? 0 then None else Some (replicate (Z.to_nat count) c).

(** Reading and writing a slice element; [None] is the run-time panic of
    an index out of range. *)
Definition index {A} (l : list A) (i : Z) : option A :=
  if i <? 0 then None else l !! Z.to_nat i.

Definition store {A} (l : list A) (i : Z) (x : A) : option (list A) :=
  if (0 <=? i) && (i <? Z.of_nat (length l))
  then Some (<[Z.to_nat i := x]> l) else None.

(** [make([]T, n)]; a negative length panics. *)
Definition make {A} (n : Z) (x : A) : option (list A) :=
  if n <? 0 then None else Some (replicate (Z.to_nat n) x).

(** A [for _, x := range xs] loop whose body may panic. *)
Fixpoint foldM {A B} (f : B -> A -> option B) (l : list A) (b : B) : option B :=
  match l with
  | [] => Some b
  | x :: l' => match f b x with Some b' => foldM f l' b' | None => None end
  end.

(** The cells with their identities. *)
Definition cellsWithId (t : Table) : list (nat * Cell) :=
  zip (seq 0 (length (Cells t))) (Cells t).

(** [l.cellLines[cell]]; a key that is absent reads as the nil slice. *)
Definition linesOf (lines : list (list (list Z))) (id : nat) : list (list Z) :=
  default [] (lines !! id).

(** *** buildLayout *)

(** [for c := 0; c < cell.ColSpan && cell.Col+c < t.Cols; c++], with [n]
    the iterations left before [c] reaches [cell.ColSpan]. *)
Fixpoint ownCols (n : nat) (c : Z) (t : Table) (cell : Cell) (id : nat) (r : Z)
  (grid : list (list (option nat))) : option (list (list (option nat))) :=
  match n with
  | O => Some grid
  | S n' =>
      if Col cell + c <? Cols t then
        match index grid (Row cell + r) with
        | None => None
        | Some line =>
            match store line (Col cell + c) (Some id) with
            | None => None
            | Some line' =>
                match store grid (Row cell + r) line' with
                | None => None
                | Some grid' => ownCols n' (c + 1) t cell id r grid'
                end
            end
        end
      else Some grid
  end.

(** [for r := 0; r < cell.RowSpan && cell.Row+r < t.Rows; r++]. *)
Fixpoint ownRows (n : nat) (r : Z) (t : Table) (cell : Cell) (id : nat)
  (grid : list (list (option nat))) : option (list (list (option nat))) :=
  match n with
  | O => Some grid
  | S n' =>
      if Row cell + r <? Rows t then
        match ownCols (Z.to_nat (ColSpan cell)) 0 t cell id r grid with
        | None => None
        | Some grid' => ownRows n' (r + 1) t cell id grid'
        end
      else Some grid
  end.

Definition ownCell (t : Table) (grid : list (list (option nat)))
  (ic : nat * Cell) : option (list (list (option nat))) :=
  ownRows (Z.to_nat (RowSpan (snd ic))) 0 t (snd ic) (fst ic) grid.

(** *** computeColWidths *)

(** The maximum display width over the lines of a cell. *)
Definition maxLineWidth `{Condition} (lines : list (list Z)) : Z :=
  fold_left (fun maxWidth line =>
               if displayWidth line >? maxWidth then displayWidth line
               else maxWidth) lines 0.

(** Single-column cells establish initial widths. *)
Definition widenSingle `{Condition} (lines : list (list (list Z)))
  (cw : list Z) (ic : nat * Cell) : option (list Z) :=
  let cell := snd ic in
  if ColSpan cell =? 1 then
    let maxWidth := maxLineWidth (linesOf lines (fst ic)) in
    match index cw (Col cell) with
    | None => None
    | Some w => if maxWidth >? w then store cw (Col cell) maxWidth else Some cw
    end
  else Some cw.

(** [for c := 0; c < cell.ColSpan; c++ { totalWidth += l.colWidths[cell.Col+c] }]. *)
Fixpoint sumWidths (n : nat) (c : Z) (cw : list Z) (col : Z) (totalWidth : Z)
  : option Z :=
  match n with
  | O => Some totalWidth
  | S n' =>
      match index cw (col + c) with
      | None => None
      | Some w => sumWidths n' (c + 1) cw col (totalWidth + w)
      end
  end.

(** [for c := 0; c < cell.ColSpan; c++ { l.colWidths[cell.Col+c] += perCol;
    if c < remainder { l.colWidths[cell.Col+c]++ } }]. *)
Fixpoint addWidths (n : nat) (c : Z) (cw : list Z) (col perCol remainder : Z)
  : option (list Z) :=
  match n with
  | O => Some cw
  | S n' =>
      match index cw (col + c) with
      | None => None
      | Some w =>
          let w' := if c <? remainder then w + perCol + 1 else w + perCol in
          match store cw (col + c) w' with
          | None => None
          | Some cw' => addWidths n' (c + 1) cw' col perCol remainder
          end
      end
  end.

(** Distribute extra width needed for multi-column cells.  Go's [/] and
    [%] on [int] truncate towards zero: [Z.quot] and [Z.rem]. *)
Definition widenSpan `{Condition} (lines : list (list (list Z)))
  (cw : list Z) (ic : nat * Cell) : option (list Z) :=
  let cell := snd ic in
  if ColSpan cell >? 1 then
    let maxWidth := maxLineWidth (linesOf lines (fst ic)) in
    match sumWidths (Z.to_nat (ColSpan cell)) 0 cw (Col cell) 0 with
    | None => None
    | Some totalWidth =>
        if maxWidth >? totalWidth then
          let extra := maxWidth - totalWidth in
          let perCol := Z.quot extra (ColSpan cell) in
          let remainder := Z.rem extra (ColSpan cell) in
          addWidths (Z.to_nat (ColSpan cell)) 0 cw (Col cell) perCol remainder
        else Some cw
    end
  else Some cw.

Definition computeColWidths `{Condition} (t : Table)
  (lines : list (list (list Z))) (cw : list Z) : option (list Z) :=
  let cw1 := map (fun _ => 1) cw in
  match foldM (widenSingle lines) (cellsWithId t) cw1 with
  | None => None
  | Some cw2 => foldM (widenSpan lines) (cellsWithId t) cw2
  end.

(** *** computeRowHeights *)

Definition rowHeight (t : Table) (lines : list (list (list Z))) (row : Z) : Z :=
  fold_left (fun maxLines (ic : nat * Cell) =>
               if Row (snd ic) =? row then
                 let lineCount := Z.of_nat (length (linesOf lines (fst ic))) in
                 if lineCount >? maxLines then lineCount else maxLines
               else maxLines)
            (cellsWithId t) 1.

(** [l.rowHeights[row] = maxLines] for [row] from 0 to [Rows - 1]; the
    slice was made with [Rows] elements. *)
Definition computeRowHeights (t : Table) (lines : list (list (list Z)))
  : list Z :=
  map (fun row => rowHeight t lines (Z.of_nat row)) (seq 0 (Z.to_nat (Rows t))).

(** buildLayout: the slices are made first ([make] panics on a negative
    size), every row of [cellOwner] starts out nil. *)
Definition buildLayout `{Condition} (t : Table) : option Layout :=
  match make (Rows t) (replicate (Z.to_nat (Cols t)) (None : option nat)),
        make (Cols t) (0 : Z) with
  | Some grid0, Some cw0 =>
      match foldM (ownCell t) (cellsWithId t) grid0 with
      | None => None
      | Some grid =>
          let lines := map (fun cell => Split (Text cell) 10) (Cells t) in
          match computeColWidths t lines cw0 with
          | None => None
          | Some cw =>
              Some {| table := t; cellOwner := grid; colWidths := cw;
                      rowHeights := computeRowHeights t lines;
                      cellLines := lines |}
          end
      end
  | _, _ => None
  end.

(** *** Rendering *)

Definition needsHorizontalLine (l : Layout) (rowIdx colIdx : Z) : option bool :=
  if rowIdx =? -1 then Some true
  else if rowIdx =? Rows (table l) - 1 then Some true
  else
    match index (cellOwner l) rowIdx, index (cellOwner l) (rowIdx + 1) with
    | Some above, Some below =>
        match index above colIdx, index below colIdx with
        | Some cellAbove, Some cellBelow =>
            Some (negb (bool_decide (cellAbove = cellBelow)))
        | _, _ => None
        end
    | _, _ => None
    end.

Definition needsVerticalLine (l : Layout) (rowIdx colIdx : Z) : option bool :=
  if rowIdx =? -1 then Some true
  else if rowIdx =? Rows (table l) - 1 then Some true
  else
    match index (cellOwner l) rowIdx, index (cellOwner l) (rowIdx + 1) with
    | Some above, Some below =>
        match index above colIdx, index above (colIdx + 1),
              index below colIdx, index below (colIdx + 1) with
        | Some cellAboveLeft, Some cellAboveRight,
          Some cellBelowLeft, Some cellBelowRight =>
            Some (negb (bool_decide (cellAboveLeft = cellAboveRight))
                  || negb (bool_decide (cellBelowLeft = cellBelowRight)))
        | _, _, _, _ => None
        end
    | _, _ => None
    end.

(** The loop of renderBorderLine, [n] columns to go from [colIdx]. *)
Fixpoint borderLoop (n : nat) (l : Layout) (rowIdx colIdx : Z) (sb : list Z)
  : option (list Z) :=
  match n with
  | O => Some sb
  | S n' =>
      match needsHorizontalLine l rowIdx colIdx, index (colWidths l) colIdx with
      | Some needsHorizontal, Some w =>
          match Repeat (if needsHorizontal then 45 else 32) (w + 2) with
          | None => None
          | Some seg =>
              if colIdx <? Cols (table l) - 1 then
                match needsVerticalLine l rowIdx colIdx with
                | None => None
                | Some needsVertical =>
                    borderLoop n' l rowIdx (colIdx + 1)
                      (sb ++ seg ++ [if needsVertical then 43 else 45])
                end
              else borderLoop n' l rowIdx (colIdx + 1) (sb ++ seg)
          end
      | _, _ => None
      end
  end.

(** renderBorderLine renders a horizontal border line. *)
Definition renderBorderLine (l : Layout) (rowIdx : Z) : option (list Z) :=
  match borderLoop (Z.to_nat (Cols (table l))) l rowIdx 0 [43] with
  | None => None
  | Some sb => Some (sb ++ [43])
  end.

(** The text a cell shows on a display row: rowspan cells only show text
    in their starting row. *)
Definition cellText (l : Layout) (id : nat) (owner : Cell)
  (rowIdx displayRowIdx : Z) : option (list Z) :=
  let lines := linesOf (cellLines l) id in
  if Row owner =? rowIdx then
    if displayRowIdx <? Z.of_nat (length lines) then index lines displayRowIdx
    else Some []
  else Some [].

(** The loop [for colIdx < l.table.Cols] of renderContentLine. *)
Fixpoint contentLoop `{Condition} (fuel : nat) (l : Layout)
  (rowIdx displayRowIdx colIdx : Z) (sb : list Z) : option (list Z) :=
  if colIdx <? Cols (table l) then
    match fuel with
    | O => None
    | S fuel' =>
        match index (cellOwner l) rowIdx with
        | None => None
        | Some line =>
            match index line colIdx with
            | None => None
            | Some None =>
                contentLoop fuel' l rowIdx displayRowIdx (colIdx + 1) sb
            | Some (Some id) =>
                match Cells (table l) !! id with
                | None => None
                | Some owner =>
                    if Col owner =? colIdx then
                      let colspan := ColSpan owner in
                      match sumWidths (Z.to_nat colspan) 0 (colWidths l) colIdx 0 with
                      | None => None
                      | Some spanned =>
                          let totalContentWidth :=
                            if colspan >? 1 then spanned + (colspan - 1) * 3
                            else spanned in
                          match cellText l id owner rowIdx displayRowIdx with
                          | None => None
                          | Some text =>
                              let width := displayWidth text in
                              let padding :=
                                if totalContentWidth - width <? 0 then 0
                                else totalContentWidth - width in
                              match Repeat 32 padding with
                              | None => None
                              | Some pad =>
                                  let nextColIdx := colIdx + colspan in
                                  let field := [32] ++ text ++ pad ++ [32] in
                                  contentLoop fuel' l rowIdx displayRowIdx nextColIdx
                                    (if nextColIdx <? Cols (table l)
                                     then sb ++ field ++ [124] else sb ++ field)
                              end
                          end
                      end
                    else contentLoop fuel' l rowIdx displayRowIdx (colIdx + 1) sb
                end
            end
        end
    end
  else Some sb.

(** renderContentLine renders a single display row of content. *)
Definition renderContentLine `{Condition} (l : Layout) (rowIdx displayRowIdx : Z)
  : option (list Z) :=
  match contentLoop (S (Z.to_nat (Cols (table l)))) l rowIdx displayRowIdx 0 [124] with
  | None => None
  | Some sb => Some (sb ++ [124])
  end.

(** The display rows of one table row. *)
Fixpoint contentLines `{Condition} (n : nat) (l : Layout)
  (rowIdx displayRowIdx : Z) (sb : list Z) : option (list Z) :=
  match n with
  | O => Some sb
  | S n' =>
      match renderContentLine l rowIdx displayRowIdx with
      | None => None
      | Some line =>
          contentLines n' l rowIdx (displayRowIdx + 1) (sb ++ line ++ [10])
      end
  end.

(** The loop over the table rows in render. *)
Fixpoint renderRows `{Condition} (n : nat) (l : Layout) (rowIdx : Z) (sb : list Z)
  : option (list Z) :=
  match n with
  | O => Some sb
  | S n' =>
      match index (rowHeights l) rowIdx with
      | None => None
      | Some displayRows =>
          match contentLines (Z.to_nat displayRows) l rowIdx 0 sb with
          | None => None
          | Some sb1 =>
              match renderBorderLine l rowIdx with
              | None => None
              | Some border => renderRows n' l (rowIdx + 1) (sb1 ++ border ++ [10])
              end
          end
      end
  end.

Definition render `{Condition} (l : Layout) : option (list Z) :=
  match renderBorderLine l (-1) with
  | None => None
  | Some top => renderRows (Z.to_nat (Rows (table l))) l 0 (top ++ [10])
  end.

(** Render renders the table to ASCII string. *)
Definition Render `{Condition} (t : Table) : option (list Z) :=
  match buildLayout t with
  | None => None
  | Some layout => render layout
  end.

Definition sumZ (l : list Z) : Z := fold_right Z.add 0 l.

(** What the distribution loop makes of the spanned columns, from the
    loop counter [c] on. *)
Fixpoint bump (c perCol remainder : Z) (ws : list Z) : list Z :=
  match ws with
  | [] => []
  | w :: ws' =>
      (if c <? remainder then w + perCol + 1 else w + perCol)
        :: bump (c + 1) perCol remainder ws'
  end.

(** *** The 2-by-3 grid of single-character cells *)

(** A cell of the grid: inside 2 rows and 3 columns, no span, one rune. *)
Definition unitCell (cell : Cell) : Prop :=
  0 <= Row cell < 2 /\ 0 <= Col cell < 3
  /\ RowSpan cell = 1 /\ ColSpan cell = 1
  /\ exists ch, Text cell = [ch].

(** A full grid: every cell is such a cell and every position has one. *)
Definition fullGrid (t : Table) : Prop :=
  Rows t = 2 /\ Cols t = 3
  /\ Forall unitCell (Cells t)
  /\ forall r c, 0 <= r < 2 -> 0 <= c < 3 ->
                 exists cell, In cell (Cells t) /\ Row cell = r /\ Col cell = c.

(** The drawing characters '+', '-', '|' and ' ' are one column wide. *)
Definition asciiWidths `{Condition} : Prop :=
  RuneWidth 43 = 1 /\ RuneWidth 45 = 1 /\ RuneWidth 124 = 1 /\ RuneWidth 32 = 1.

Definition noNewline (t : Table) : Prop :=
  Forall (fun cell => ~ In 10 (Text cell)) (Cells t).

(** The ownership grid of 2 rows and 3 columns with the owners [g r c]. *)
Definition grid6 (g : Z -> Z -> option nat) : list (list (option nat)) :=
  [[g 0 0; g 0 1; g 0 2]; [g 1 0; g 1 1; g 1 2]].

Definition setOwner (g : Z -> Z -> option nat) (row col : Z) (id : nat)
  : Z -> Z -> option nat :=
  fun r c => if (r =? row) && (c =? col) then Some id else g r c.

(** Three column widths [w c], and one of them raised. *)
Definition widths3 (w : Z -> Z) : list Z := [w 0; w 1; w 2].

Definition raise (w : Z -> Z) (col width : Z) : Z -> Z :=
  fun c => if c =? col then Z.max (w c) width else w c.

(** What the layout loops see of a cell of [cells]: its identity names it,
    it is a cell of the grid, and it has the one line of its text. *)
Definition seen (cells : list Cell) (ic : nat * Cell) : Prop :=
  cells !! fst ic = Some (snd ic) /\ unitCell (snd ic)
  /\ linesOf (map (fun cell => Split (Text cell) 10) cells) (fst ic)
     = [Text (snd ic)].

(** The owner recorded at a position is a cell at that position. *)
Definition owned (cells : list Cell) (g : Z -> Z -> option nat) : Prop :=
  forall r c id,
    g r c = Some id ->
    exists cell, cells !! id = Some cell /\ unitCell cell
                 /\ Row cell = r /\ Col cell = c
                 /\ linesOf (map (fun cell => Split (Text cell) 10) cells) id
                    = [Text cell].

Definition cellAt (row col : Z) (ch : Z) : Cell :=
  {| Row := row; Col := col; Text := [ch]; RowSpan := 1; ColSpan := 1 |}.

(** The grid of the layout test, and a grid with a newline as the single
    character of one cell. *)
Definition rowMajorGrid (a b c d e f : Z) : Table :=
  {| Rows := 2; Cols := 3;
     Cells := [cellAt 0 0 a; cellAt 0 1 b; cellAt 0 2 c;
               cellAt 1 0 d; cellAt 1 1 e; cellAt 1 2 f] |}.

Definition basicGrid : Table := rowMajorGrid 65 66 67 49 50 51.

(** A table of one row and two columns whose only cell, "Header", starts
    at column 0 and spans three columns: its span reaches past the last
    column. *)
Definition overhangTable : Table :=
  {| Rows := 1; Cols := 2;
     Cells := [{| Row := 0; Col := 0; Text := [72; 101; 97; 100; 101; 114];
                  RowSpan := 1; ColSpan := 3 |}] |}.

Definition newlineGrid : Table := rowMajorGrid 65 10 67 49 50 51.

Definition countLines (out : list Z) : nat := length (filter (Z.eqb 10) out).

(** The runes of an ASCII string literal. *)
Definition runes (s : string) : list Z :=
  map (fun a => Z.of_N (Ascii.N_of_ascii a)) (list_ascii_of_string s).

(** The sum of the widths of the [span] columns from [col] on. *)
Definition spannedWidth (cw : list Z) (col span : Z) : Z :=
  sumZ (take (Z.to_nat span) (drop (Z.to_nat col) cw)).

(** A width-one-per-rune condition to run the layout on: ASCII, control
    characters of width 0, the Hangul syllables of width 2. *)
Definition sampleCondition : Condition :=
  {| RuneWidth := fun c => if c <? 32 then 0
                           else if (0xAC00 <=? c) && (c <=? 0xD7A3) then 2
                           else 1 |}.

End Render.

(** * The shape of a table and of its layout *)

Module Shape.
Import Render.

(** What buildLayout and render need of a cell to index their slices
    in range: a cell that spans columns starts at a column of the table
    and ends at one; a cell that owns grid positions starts at a row that
    is not negative. *)
Definition cellRenders (t : Table) (cell : Cell) : Prop :=
  (1 <= ColSpan cell -> 0 <= Col cell /\ Col cell + ColSpan cell <= Cols t)
  /\ (1 <= RowSpan cell -> 1 <= ColSpan cell -> Row cell < Rows t -> 0 <= Row cell).

Definition renders (t : Table) : Prop :=
  0 <= Rows t /\ 0 <= Cols t /\ Forall (cellRenders t) (Cells t).

(** The ownership grid has [Rows] rows of [Cols] entries. *)
Definition shaped (t : Table) (grid : list (list (option nat))) : Prop :=
  length grid = Z.to_nat (Rows t)
  /\ Forall (fun row => length row = Z.to_nat (Cols t)) grid.

(** An owner recorded in the grid is a cell of the table that spans at
    least one column. *)
Definition spanning (t : Table) (id : nat) : Prop :=
  exists cell, Cells t !! id = Some cell /\ 1 <= ColSpan cell.

Definition owners (t : Table) (grid : list (list (option nat))) : Prop :=
  Forall (Forall (fun o => forall id, o = Some id -> spanning t id)) grid.

(** The lines of the cells, as buildLayout splits them. *)
Definition splitLines (t : Table) : list (list (list Z)) :=
  map (fun cell => Split (Text cell) 10) (Cells t).

(** The text of [ls] written line by line. *)
Definition unlines (ls : list (list Z)) : list Z :=
  concat (map (fun line => line ++ [10]) ls).

(** One border line on top, then for every row its display rows and one
    border line. *)
Definition lineCount (t : Table) : nat :=
  S (list_sum (map (fun row => S (Z.to_nat (rowHeight t (splitLines t) (Z.of_nat row))))
                   (seq 0 (Z.to_nat (Rows t))))).

(** The display rows of a table row, as a number of lines. *)
Definition heightOf (t : Table) (row : nat) : nat :=
  Z.to_nat (rowHeight t (splitLines t) (Z.of_nat row)).

(** The lines of table row [row], [h] display rows high: what
    renderContentLine returns for the display rows 0 to [h - 1], from top
    to bottom, then what renderBorderLine returns for the row. *)
Definition rowLines `{Condition} (l : Layout) (h : nat) (row : Z)
  : list (option (list Z)) :=
  map (fun d => renderContentLine l row (Z.of_nat d)) (seq 0 h)
  ++ [renderBorderLine l row].

(** The lines of a table: the top border, then the lines of every row
    from the first to the last. *)
Definition tableLines `{Condition} (t : Table) (l : Layout)
  : list (option (list Z)) :=
  renderBorderLine l (-1)
  :: concat (map (fun row => rowLines l (heightOf t row) (Z.of_nat row))
                 (seq 0 (Z.to_nat (Rows t)))).

(** The two kinds of line of a rendering, told apart by the first
    character: a border line begins with '+', a content line with '|'. *)
Inductive LineKind : Type := Border | Content.

Definition kindOf (line : list Z) : option LineKind :=
  match line with
  | c :: _ => if c =? 43 then Some Border
              else if c =? 124 then Some Content else None
  | [] => None
  end.

(** The kinds of the lines of a table, from top to bottom. *)
Definition lineKinds (t : Table) : list LineKind :=
  Border
  :: concat (map (fun row => replicate (heightOf t row) Content ++ [Border])
                 (seq 0 (Z.to_nat (Rows t)))).

(** The column widths: one for each column, each at least 1. *)
Definition widthsOK (t : Table) (cw : list Z) : Prop :=
  length cw = Z.to_nat (Cols t) /\ Forall (fun w => 1 <= w) cw.

(** A cell fits: the columns it spans are together as wide as its widest
    line. *)
Definition fits `{Condition} (lines : list (list (list Z))) (cw : list Z)
  (ic : nat * Cell) : Prop :=
  1 <= ColSpan (snd ic) ->
  maxLineWidth (linesOf lines (fst ic))
  <= spannedWidth cw (Col (snd ic)) (ColSpan (snd ic)).

(** What buildLayout has computed when it returns. *)
Definition layoutOK `{Condition} (t : Table) (l : Layout) : Prop :=
  table l = t
  /\ shaped t (cellOwner l) /\ owners t (cellOwner l)
  /\ widthsOK t (colWidths l)
  /\ rowHeights l = computeRowHeights t (splitLines t)
  /\ cellLines l = splitLines t
  /\ Forall (fits (splitLines t) (colWidths l)) (cellsWithId t).

Definition noNewlineIn (line : list Z) : Prop := ~ In 10 line.

(** The number of lines of a text: one more than its newlines. *)
Definition textLines (s : list Z) : Z :=
  Z.of_nat (S (count_occ Z.eq_dec s 10)).

(** A table with a merged header: "Header" over two columns, then "a"
    and "b". *)
Definition headerTable : Table :=
  {| Rows := 2; Cols := 2;
     Cells := [ {| Row := 0; Col := 0; Text := runes "Header"; RowSpan := 1; ColSpan := 2 |};
                cellAt 1 0 97; cellAt 1 1 98 ] |}.

End Shape.

(** * Rendering a document to plain text (RenderText and its helpers) *)

Module Text.
Import Document.

(** An [io.Writer]: [Write] hands the bytes over and may fail. *)
Class Writer (W : Type) : Type := { Write : W -> list Z -> option error * W }.

(** A writer that keeps what is written and never fails, as
    [bytes.Buffer] does. *)
Definition bufferWriter : Writer (list Z) :=
  {| Write := fun w p => (None, w ++ p) |}.

(** A [document.ContentNodeScanner]; the fuel bounds the loops of Next. *)
Class ContentNodeScanner (Sc : Type) : Type :=
  { Next : nat -> Sc -> option (result ContentNode * Sc) }.

(** The scanner of the binary format. *)
Definition v5Scanner : ContentNodeScanner Scanner.ContentScanner :=
  {| Next := Scanner.Next |}.

(** [unicode.IsSpace]: the white space of Unicode. *)
Definition IsSpace (c : Z) : bool :=
  ((0x09 <=? c) && (c <=? 0x0D)) || (c =? 0x20) || (c =? 0x85) || (c =? 0xA0)
  || (c =? 0x1680) || ((0x2000 <=? c) && (c <=? 0x200A))
  || (c =? 0x2028) || (c =? 0x2029) || (c =? 0x202F) || (c =? 0x205F)
  || (c =? 0x3000).

(** [strings.TrimLeftFunc] and [strings.TrimRightFunc]. *)
Fixpoint TrimLeftFunc (f : Z -> bool) (s : list Z) : list Z :=
  match s with
  | [] => []
  | c :: s' => if f c then TrimLeftFunc f s' else s
  end.

Definition TrimRightFunc (f : Z -> bool) (s : list Z) : list Z :=
  rev (TrimLeftFunc f (rev s)).

(** [strings.TrimSpace(s)] and [strings.TrimRight(s, "\n")]. *)
Definition TrimSpace (s : list Z) : list Z :=
  TrimRightFunc IsSpace (TrimLeftFunc IsSpace s).

Definition TrimRight (s : list Z) (c : Z) : list Z := TrimRightFunc (Z.eqb c) s.

(** [fmt.Fprintln(w, text)], [fmt.Fprintln(w)] and [fmt.Fprint(w, s)]: one
    call of [Write] each. *)
Definition Fprintln `{Writer W} (w : W) (text : list Z) : option error * W :=
  Write w (text ++ [10]).

Definition Fprint `{Writer W} (w : W) (s : list Z) : option error * W := Write w s.

Definition renderParagraph `{Writer W} (para : list Z) (w : W) : option error * W :=
  let text := TrimRight para 10 in
  if negb (length text =? 0)%nat then Fprintln w text
  else Fprintln w [].

(** The table that renderTable hands to the layout engine. *)
Definition layoutTable (docTable : Table) : Render.Table :=
  {| Render.Rows := Rows docTable;
     Render.Cols := Cols docTable;
     Render.Cells :=
       map (fun docCell =>
              {| Render.Row := Row docCell;
                 Render.Col := Col docCell;
                 Render.Text := TrimSpace (Text docCell);
                 Render.RowSpan := RowSpan docCell;
                 Render.ColSpan := ColSpan docCell |})
           (Cells docTable) |}.

(** renderTable; [None] is a panic of Render. *)
Definition renderTable `{Render.Condition} `{Writer W} (docTable : Table) (w : W)
  : option (option error * W) :=
  if (length (Cells docTable) =? 0)%nat then Some (None, w)
  else
    match Render.Render (layoutTable docTable) with
    | None => None
    | Some out => Some (Fprint w out)
    end.

Definition renderImage `{Writer W} (w : W) : option error * W :=
  Fprintln w (Render.runes "[IMAGE]").

(** RenderText renders a ContentNodeScanner to plain text with ASCII
    tables: the result is the error returned, the scanner and the writer
    afterwards; [None] is a panic of the table renderer or the fuel run
    out. *)
Fixpoint RenderText `{Render.Condition} `{ContentNodeScanner Sc} `{Writer W}
  (fuel : nat) (scanner : Sc) (w : W) : option (option error * Sc * W) :=
  match fuel with
  | O => None
  | S fuel' =>
      match Next fuel scanner with
      | None => None
      | Some (Err EOF, scanner') => Some (None, scanner', w)
      | Some (Err e, scanner') =>
          Some (Some (ErrWrap "error reading content" e), scanner', w)
      | Some (Ok (Paragraph text), scanner') =>
          match renderParagraph text w with
          | (Some e, w') => Some (Some e, scanner', w')
          | (None, w') => RenderText fuel' scanner' w'
          end
      | Some (Ok (TableNode t), scanner') =>
          match renderTable t w with
          | None => None
          | Some (Some e, w') => Some (Some e, scanner', w')
          | Some (None, w') => RenderText fuel' scanner' (snd (Fprintln w' []))
          end
      | Some (Ok Image, scanner') =>
          match renderImage w with
          | (Some e, w') => Some (Some e, scanner', w')
          | (None, w') => RenderText fuel' scanner' w'
          end
      end
  end.

(** The text a node adds to the output. *)
Definition nodeText `{Render.Condition} (node : ContentNode) : option (list Z) :=
  match node with
  | Paragraph text => Some (TrimRight text 10 ++ [10])
  | TableNode t =>
      match Cells t with
      | [] => Some [10]
      | _ =>
          match Render.Render (layoutTable t) with
          | Some out => Some (out ++ [10])
          | None => None
          end
      end
  | Image => Some (Render.runes "[IMAGE]" ++ [10])
  end.

(** The text of a sequence of nodes; [None] if the renderer panics on
    one of its tables. *)
Fixpoint documentText `{Render.Condition} (nodes : list ContentNode)
  : option (list Z) :=
  match nodes with
  | [] => Some []
  | node :: rest =>
      match nodeText node, documentText rest with
      | Some text, Some more => Some (text ++ more)
      | _, _ => None
      end
  end.

(** The nodes a scanner yields until it reports an error, with the error
    RenderText returns for it (none for io.EOF). *)
Fixpoint drain `{ContentNodeScanner Sc} (fuel : nat) (scanner : Sc)
  : option (list ContentNode * option error * Sc) :=
  match fuel with
  | O => None
  | S fuel' =>
      match Next fuel scanner with
      | None => None
      | Some (Err EOF, scanner') => Some ([], None, scanner')
      | Some (Err e, scanner') =>
          Some ([], Some (ErrWrap "error reading content" e), scanner')
      | Some (Ok node, scanner') =>
          match drain fuel' scanner' with
          | None => None
          | Some (nodes, err, scanner'') => Some (node :: nodes, err, scanner'')
          end
      end
  end.

End Text.

(** * Records and paragraph text: what the statements below speak of *)

Module RecordShape.
Import Record.

(** The tag of each concrete record type; RecUnknown has none of its own. *)
Definition tagOf (rec : Rec) : option Z :=
  match rec with
  | R_ParaHeader _ => Some recTagParaHeader
  | R_ParaText _ => Some recTagParaText
  | R_ParaCharShape _ => Some recTagParaCharShape
  | R_ParaLineSeg _ => Some recTagParaLineSeg
  | R_ParaRangeTag _ => Some recTagParaRangeTag
  | R_CtrlHeader _ => Some recTagCtrlHeader
  | R_ListHeader _ => Some recTagListHeader
  | R_PageDef _ => Some recTagPageDef
  | R_FootnoteShape _ => Some recTagFootnoteShape
  | R_PageBorderFill _ => Some recTagPageBorderFill
  | R_ShapeComponent _ => Some recTagShapeComponent
  | R_Table _ => Some recTagTable
  | R_ShapeComponentLine _ => Some recTagShapeComponentLine
  | R_ShapeComponentRectangle _ => Some recTagShapeComponentRectangle
  | R_ShapeComponentEllipse _ => Some recTagShapeComponentEllipse
  | R_ShapeComponentArc _ => Some recTagShapeComponentArc
  | R_ShapeComponentPolygon _ => Some recTagShapeComponentPolygon
  | R_ShapeComponentCurve _ => Some recTagShapeComponentCurve
  | R_ShapeComponentOLE _ => Some recTagShapeComponentOLE
  | R_ShapeComponentPicture _ => Some recTagShapeComponentPicture
  | R_ShapeComponentContainer _ => Some recTagShapeComponentContainer
  | R_CtrlData _ => Some recTagCtrlData
  | R_EqEdit _ => Some recTagEqEdit
  | R_ShapeComponentTextArt _ => Some recTagShapeComponentTextArt
  | R_FormObject _ => Some recTagFormObject
  | R_MemoShape _ => Some recTagMemoShape
  | R_MemoList _ => Some recTagMemoList
  | R_ChartData _ => Some recTagChartData
  | R_VideoData _ => Some recTagVideoData
  | R_ShapeComponentUnknown _ => Some recTagShapeComponentUnknown
  | R_Unknown _ => None
  end.

(** The tags that have a record type. *)
Definition typedTags : list Z :=
  [recTagParaHeader; recTagParaText; recTagParaCharShape; recTagParaLineSeg;
   recTagParaRangeTag; recTagCtrlHeader; recTagListHeader; recTagPageDef;
   recTagFootnoteShape; recTagPageBorderFill; recTagShapeComponent; recTagTable;
   recTagShapeComponentLine; recTagShapeComponentRectangle;
   recTagShapeComponentEllipse; recTagShapeComponentArc;
   recTagShapeComponentPolygon; recTagShapeComponentCurve;
   recTagShapeComponentOLE; recTagShapeComponentPicture;
   recTagShapeComponentContainer; recTagCtrlData; recTagEqEdit;
   recTagShapeComponentTextArt; recTagFormObject; recTagMemoShape;
   recTagMemoList; recTagChartData; recTagVideoData;
   recTagShapeComponentUnknown].

(** The bytes of the record header at the front of [s]: four, or eight
    when the size field holds the sentinel. *)
Definition headerLength (s : list Z) : nat :=
  if Z.land (Z.shiftr (Uint32 (take 4 s)) 20) 0xfff =? 0xfff then 8%nat else 4%nat.

(** 16-bit code units as little-endian bytes. *)
Definition unitsLE (us : list Z) : list Z :=
  flat_map (fun u => [Z.land u 0xff; Z.shiftr u 8]) us.

(** A rune of a string element: not a control code, and a Unicode scalar
    value. *)
Definition textRune (r : Z) : Prop := 32 <= r /\ ~ (0xD800 <= r <= 0xDFFF).

(** An element as the decoder emits it. *)
Definition okElement (el : ParaTextElement) : Prop :=
  match el with
  | ParaTextString c v => c = 0 /\ v <> [] /\ Forall textRune v
  | _ => markerOf (elementCode el) = Some el
  end.

(** The text a paragraph gets from the elements of its RecParaText
    records, as Next collects and joins it. *)
Definition paragraphText (els : list ParaTextElement) : list Z :=
  Scanner.joinTextParts (fold_left Scanner.appendElement els []).

End RecordShape.

(** * The states of the assembly state machine: invariants and a measure *)

Module Reach.
Import Record Document Scanner.

(** Every section stream the reader hands out is a stream of the kind
    [okStream]. *)
Definition okReader (okStream : list Z -> Prop) (rd : Reader) : Prop :=
  forall i bytes, OpenSection rd i = Ok bytes -> okStream bytes.

(** An invariant of the scanner's state, made of an invariant of the
    streams it reads, one of the records it looks at, and one of the
    table in progress. *)
Definition keeps (okStream : list Z -> Prop) (okRec : Rec -> Prop)
  (J : option tableBuilder -> Prop) (s : ContentScanner) : Prop :=
  okReader okStream (reader s)
  /\ (forall rd, scanner s = Some rd -> okStream rd)
  /\ (forall rec, buffered s = Some rec -> okRec rec)
  /\ J (currentTable s).

(** [currentCell] is nil until the first cell is added, and then points
    at the last element of [cells]. *)
Definition lastCell (otb : option tableBuilder) : Prop :=
  match otb with
  | Some tb =>
      currentCell tb = match cells tb with
                       | [] => None
                       | _ => Some (length (cells tb) - 1)%nat
                       end
  | None => True
  end.

(** What a record decoded from bytes holds: the cell address and spans of
    a cell list header are single bytes, the spans not 0; the sizes of a
    table record are 16-bit values. *)
Definition byteRec (rec : Rec) : Prop :=
  match rec with
  | R_ListHeader r =>
      IsCell r = true ->
      0 <= RowIndex r < 256 /\ 0 <= ColIndex r < 256
      /\ 1 <= Record.RowSpan r < 256 /\ 1 <= Record.ColSpan r < 256
  | R_Table r => 0 <= RowCount r < 65536 /\ 0 <= ColCount r < 65536
  | _ => True
  end.

(** A cell at a position of the grid that spans at least one row and one
    column. *)
Definition wfCell (c : Cell) : Prop :=
  0 <= Row c /\ 0 <= Col c /\ 1 <= RowSpan c /\ 1 <= ColSpan c.

Definition wfTable (otb : option tableBuilder) : Prop :=
  match otb with
  | Some tb => 0 <= rows tb /\ 0 <= cols tb /\ Forall wfCell (cells tb)
  | None => True
  end.

(** The bytes of the [n] sections from [from] on, one more for each
    section. *)
Fixpoint sectionsLeft (rd : Reader) (from : Z) (n : nat) : nat :=
  match n with
  | O => O
  | S n' =>
      S (match OpenSection rd from with
         | Ok bytes => length bytes
         | Err _ => O
         end + sectionsLeft rd (from + 1) n')
  end.

(** What is left for the scanner to read: the record in the lookahead
    buffer, the rest of the open section and the sections after it.
    Nothing is read any more once [scanner] is nil. *)
Definition weight (s : ContentScanner) : nat :=
  (match buffered s with Some _ => 1 | None => 0 end
   + match scanner s with
     | None => 0
     | Some rd =>
         S (length rd)
         + sectionsLeft (reader s) (currentSection s + 1)
             (Z.to_nat (SectionCount (reader s) - currentSection s - 1))
     end)%nat.

(** What is left to read, and one more while a table is in progress. *)
Definition measure (s : ContentScanner) : nat :=
  (weight s + match currentTable s with Some _ => 1 | None => 0 end)%nat.

(** The records that [n] calls of nextRecord return one after another and
    the scanner after them; None when one of the calls returns no record. *)
Fixpoint readRecords (fuel n : nat) (s : ContentScanner)
  : option (list Rec * ContentScanner) :=
  match n with
  | O => Some ([], s)
  | S n' =>
      match nextRecord fuel s with
      | Some (Ok rec, s1) =>
          match readRecords fuel n' s1 with
          | Some (recs, s2) => Some (rec :: recs, s2)
          | None => None
          end
      | _ => None
      end
  end.

(** A section to run the scanner on: a drawing-object control at level 0
    with two records below it, then a paragraph header at level 0. *)
Definition sampleDrawing : list Z :=
  encodeInline recTagCtrlHeader 0 [0x20; 0x6f; 0x73; 0x67]
  ++ encodeInline recTagShapeComponent 1 []
  ++ encodeInline recTagShapeComponentPicture 2 [1; 2; 3]
  ++ encodeInline recTagParaHeader 0 [].

(** The drawing-object control of [sampleDrawing] as ScanNext decodes it,
    and the scanner's state when Next has read it. *)
Definition gsoHeader : RecCtrlHeader :=
  decodeCtrlHeaderRecord {| TagID := recTagCtrlHeader; Level := 0; Size := 4 |}
    [0x20; 0x6f; 0x73; 0x67].

Definition drawingState : ContentScanner :=
  match nextRecord 60 (sampleStart sampleDrawing) with
  | Some (_, s1) => s1
  | None => sampleStart sampleDrawing
  end.

End Reach.

(** * The states of the streaming decryptor *)

Module Decryptor.
Import Crypto.

(** The states a cryptoReader goes through: [buf] is nil or one block, and
    [ptr] is a position in it or its end. *)
Definition okCrypto (cr : cryptoReader) : Prop :=
  (ptr cr <= length (buf cr))%nat
  /\ (length (buf cr) = 0 \/ length (buf cr) = 16)%nat.

(** What a reader has still to deliver: the rest of the decrypted block,
    then the decryption of the whole blocks of the stream. *)
Definition pending `{Block} (cr : cryptoReader) : list Z :=
  drop (ptr cr) (buf cr) ++ ecb Decrypt (r cr).

(** A stream of two blocks and five more bytes. *)
Definition sampleStream : list Z := map Z.of_nat (seq 0 37).

End Decryptor.

(** * The FileHeader stream (fileheader.go) *)

Module FileHeader.

Definition signatureText : list Z := Render.runes "HWP Document File".

(** Version stores the four-part HWP version number (MM.nn.PP.rr). *)
Record Version : Type := { Major : Z; Minor : Z; Patch : Z; Rev : Z }.

(** FileProperties exposes a few frequently used flags. *)
Record FileProperties : Type := { Raw : Z }.

Definition Compressed (p : FileProperties) : bool := negb (Z.land (Raw p) 0x1 =? 0).
Definition Encrypted (p : FileProperties) : bool := negb (Z.land (Raw p) 0x2 =? 0).

(** FileHeader mirrors the 256-byte FileHeader stream; the field
    [HVersion] is the field [Version] of the source.  [Signature] is a
    string made of the bytes read, which the program only compares as a
    whole: it is kept as the list of its bytes. *)
Record FileHeader : Type := {
  Signature : list Z;
  HVersion : Version;
  Properties : FileProperties;
  SecondFlags : Z;
  EncryptVersion : Z;
  KoglLicenseCode : Z;
  Reserved : list Z
}.

(** [var hdr FileHeader]. *)
Definition zeroHeader : FileHeader :=
  {| Signature := [];
     HVersion := {| Major := 0; Minor := 0; Patch := 0; Rev := 0 |};
     Properties := {| Raw := 0 |};
     SecondFlags := 0; EncryptVersion := 0; KoglLicenseCode := 0;
     Reserved := replicate 207 0 |}.

Definition setSignature (hdr : FileHeader) (sig : list Z) : FileHeader :=
  {| Signature := sig; HVersion := HVersion hdr; Properties := Properties hdr;
     SecondFlags := SecondFlags hdr; EncryptVersion := EncryptVersion hdr;
     KoglLicenseCode := KoglLicenseCode hdr; Reserved := Reserved hdr |}.

Definition setVersion (hdr : FileHeader) (v : Version) : FileHeader :=
  {| Signature := Signature hdr; HVersion := v; Properties := Properties hdr;
     SecondFlags := SecondFlags hdr; EncryptVersion := EncryptVersion hdr;
     KoglLicenseCode := KoglLicenseCode hdr; Reserved := Reserved hdr |}.

Definition setProperties (hdr : FileHeader) (raw : Z) : FileHeader :=
  {| Signature := Signature hdr; HVersion := HVersion hdr;
     Properties := {| Raw := raw |};
     SecondFlags := SecondFlags hdr; EncryptVersion := EncryptVersion hdr;
     KoglLicenseCode := KoglLicenseCode hdr; Reserved := Reserved hdr |}.

Definition setSecondFlags (hdr : FileHeader) (v : Z) : FileHeader :=
  {| Signature := Signature hdr; HVersion := HVersion hdr;
     Properties := Properties hdr;
     SecondFlags := v; EncryptVersion := EncryptVersion hdr;
     KoglLicenseCode := KoglLicenseCode hdr; Reserved := Reserved hdr |}.

Definition setEncryptVersion (hdr : FileHeader) (v : Z) : FileHeader :=
  {| Signature := Signature hdr; HVersion := HVersion hdr;
     Properties := Properties hdr;
     SecondFlags := SecondFlags hdr; EncryptVersion := v;
     KoglLicenseCode := KoglLicenseCode hdr; Reserved := Reserved hdr |}.

Definition setKoglLicenseCode (hdr : FileHeader) (v : Z) : FileHeader :=
  {| Signature := Signature hdr; HVersion := HVersion hdr;
     Properties := Properties hdr;
     SecondFlags := SecondFlags hdr; EncryptVersion := EncryptVersion hdr;
     KoglLicenseCode := v; Reserved := Reserved hdr |}.

Definition setReserved (hdr : FileHeader) (v : list Z) : FileHeader :=
  {| Signature := Signature hdr; HVersion := HVersion hdr;
     Properties := Properties hdr;
     SecondFlags := SecondFlags hdr; EncryptVersion := EncryptVersion hdr;
     KoglLicenseCode := KoglLicenseCode hdr; Reserved := v |}.

(** The conversion [byte(x)] of a [uint32]. *)
Definition byte (x : Z) : Z := x mod 256.

(** [binary.Read(r, binary.LittleEndian, &v)] for [v] a [uint32] and a
    [byte]: [io.ReadFull] of the bytes of the value, then their decoding;
    [v] is left as it is if the bytes are not there. *)
Definition ReadUint32 (r : list Z) : result Z * list Z :=
  let '(bs, err, r') := ReadFull r 4 in
  match err with
  | Some e => (Err e, r')
  | None => (Ok (Uint32 bs), r')
  end.

Definition ReadByte (r : list Z) : result Z * list Z :=
  let '(bs, err, r') := ReadFull r 1 in
  match err with
  | Some e => (Err e, r')
  | None => (Ok (nth 0 bs 0), r')
  end.

(** readFileHeader: the header as far as it was filled in, the error, and
    the reader afterwards.  The message of the error for another
    signature also quotes the signature read, which is in the header
    returned. *)
Definition readFileHeader (r : list Z) : FileHeader * option error * list Z :=
  let hdr := zeroHeader in
  let '(sig, err, r) := ReadFull r 32 in
  match err with
  | Some e => (hdr, Some (ErrWrap "read signature" e), r)
  | None =>
  let hdr := setSignature hdr (Text.TrimRight sig 0) in
  if negb (bool_decide (Signature hdr = signatureText))
  then (hdr, Some (ErrNew "unexpected signature"), r)
  else
  match ReadUint32 r with
  | (Err e, r) => (hdr, Some (ErrWrap "read version" e), r)
  | (Ok ver, r) =>
  let hdr := setVersion hdr {| Major := byte (Z.shiftr ver 24);
                               Minor := byte (Z.shiftr ver 16);
                               Patch := byte (Z.shiftr ver 8);
                               Rev := byte ver |} in
  match ReadUint32 r with
  | (Err e, r) => (hdr, Some (ErrWrap "read properties" e), r)
  | (Ok raw, r) =>
  let hdr := setProperties hdr raw in
  match ReadUint32 r with
  | (Err e, r) => (hdr, Some (ErrWrap "read second properties" e), r)
  | (Ok second, r) =>
  let hdr := setSecondFlags hdr second in
  match ReadUint32 r with
  | (Err e, r) => (hdr, Some (ErrWrap "read encrypt version" e), r)
  | (Ok encrypt, r) =>
  let hdr := setEncryptVersion hdr encrypt in
  match ReadByte r with
  | (Err e, r) => (hdr, Some (ErrWrap "read kogl" e), r)
  | (Ok kogl, r) =>
  let hdr := setKoglLicenseCode hdr kogl in
  (* io.ReadFull reads into hdr.Reserved itself *)
  let '(got, err, r) := ReadFull r 207 in
  let hdr := setReserved hdr (got ++ drop (length got) (Reserved hdr)) in
  match err with
  | Some e => (hdr, Some (ErrWrap "read reserved" e), r)
  | None => (hdr, None, r)
  end
  end end end end end
  end.

(** The field whose bytes are missing from a stream of [n] bytes, and the
    error of [io.ReadFull] for it: [io.EOF] if the stream ends where the
    field starts, [io.ErrUnexpectedEOF] if it ends inside the field. *)
Definition missingField (n : nat) : string :=
  if (n <? 32)%nat then "read signature"
  else if (n <? 36)%nat then "read version"
  else if (n <? 40)%nat then "read properties"
  else if (n <? 44)%nat then "read second properties"
  else if (n <? 48)%nat then "read encrypt version"
  else if (n <? 49)%nat then "read kogl"
  else "read reserved".

Definition fieldStarts : list nat := [0; 32; 36; 40; 44; 48; 49]%nat.

Definition truncation (n : nat) : error :=
  if existsb (Nat.eqb n) fieldStarts then EOF else ErrUnexpectedEOF.

(** The first 32 bytes of a FileHeader stream that is accepted. *)
Definition signatureField : list Z := signatureText ++ replicate 15 0.

(** The header read from a stream of 256 bytes or more that starts with
    the signature. *)
Definition headerOf (s : list Z) : FileHeader :=
  let ver := Uint32 (take 4 (drop 32 s)) in
  {| Signature := signatureText;
     HVersion := {| Major := byte (Z.shiftr ver 24);
                    Minor := byte (Z.shiftr ver 16);
                    Patch := byte (Z.shiftr ver 8);
                    Rev := byte ver |};
     Properties := {| Raw := Uint32 (take 4 (drop 36 s)) |};
     SecondFlags := Uint32 (take 4 (drop 40 s));
     EncryptVersion := Uint32 (take 4 (drop 44 s));
     KoglLicenseCode := nth 48 s 0;
     Reserved := take 207 (drop 49 s) |}.

(** A FileHeader stream: version 5.1.0.1, compressed, not encrypted. *)
Definition sampleHeader : list Z :=
  signatureField ++ [1; 0; 1; 5] ++ [1; 0; 0; 0] ++ replicate 216 0.

End FileHeader.

(** * The content of an HWPX section (hwpx/scanner.go) *)

Module Hwpx.

(** The XML element structures that [encoding/xml] fills in; the field
    [XMLName] of each, which the scanner does not read, is left out.  A
    pointer to a [LineBreak] is [true] when it is not nil. *)
Record TextNode : Type := { Text : list Z }.

Record CellAddr : Type := { ColAddr : Z; RowAddr : Z }.

Record CellSpan : Type := { ColSpan : Z; RowSpan : Z }.

Inductive ParagraphElement : Type :=
| Build_ParagraphElement (ID : list Z) (Runs : list Run)
with Run : Type :=
| Build_Run (TextNodes : list TextNode) (LineBreak : bool)
            (Table : option TableElement)
with TableElement : Type :=
| Build_TableElement (ID : list Z) (RowCnt ColCnt : Z) (Rows : list TableRow)
with TableRow : Type :=
| Build_TableRow (Cells : list TableCell)
with TableCell : Type :=
| Build_TableCell (Name : list Z) (SubList : SubList) (CellAddr : CellAddr)
                  (CellSpan : CellSpan)
with SubList : Type :=
| Build_SubList (Paragraphs : list ParagraphElement).

Definition Runs (p : ParagraphElement) : list Run :=
  let 'Build_ParagraphElement _ runs := p in runs.

Definition TextNodes (r : Run) : list TextNode :=
  let 'Build_Run nodes _ _ := r in nodes.

Definition LineBreak (r : Run) : bool :=
  let 'Build_Run _ br _ := r in br.

Definition Table (r : Run) : option TableElement :=
  let 'Build_Run _ _ tbl := r in tbl.

Definition RowCnt (tbl : TableElement) : Z :=
  let 'Build_TableElement _ n _ _ := tbl in n.

Definition ColCnt (tbl : TableElement) : Z :=
  let 'Build_TableElement _ _ n _ := tbl in n.

Definition Rows (tbl : TableElement) : list TableRow :=
  let 'Build_TableElement _ _ _ rows := tbl in rows.

Definition Cells (tr : TableRow) : list TableCell :=
  let 'Build_TableRow cells := tr in cells.

Definition Paragraphs (sl : SubList) : list ParagraphElement :=
  let 'Build_SubList ps := sl in ps.

Definition TcSubList (tc : TableCell) : SubList :=
  let 'Build_TableCell _ sl _ _ := tc in sl.

Definition TcCellAddr (tc : TableCell) : CellAddr :=
  let 'Build_TableCell _ _ addr _ := tc in addr.

Definition TcCellSpan (tc : TableCell) : CellSpan :=
  let 'Build_TableCell _ _ _ span := tc in span.

(** [strings.Join(parts, sep)]. *)
Fixpoint Join (parts : list (list Z)) (sep : list Z) : list Z :=
  match parts with
  | [] => []
  | [part] => part
  | part :: rest => part ++ sep ++ Join rest sep
  end.

(** [text != ""]. *)
Definition nonEmpty (text : list Z) : bool := negb (length text =? 0)%nat.

(** Run.extractText. *)
Definition Run_extractText (r : Run) : list Z :=
  let parts := fold_left (fun parts t => parts ++ [Text t]) (TextNodes r) [] in
  let parts := if LineBreak r then parts ++ [[10]] else parts in
  Join parts [].

(** ParagraphElement.extractText. *)
Definition extractText (p : ParagraphElement) : list Z :=
  let parts :=
    fold_left (fun parts run =>
                 let text := Run_extractText run in
                 if nonEmpty text then parts ++ [text] else parts)
              (Runs p) [] in
  Join parts [].

(** parseCell; the pointer it returns is never nil. *)
Definition parseCell (tc : TableCell) : option Document.Cell :=
  let row := RowAddr (TcCellAddr tc) in
  let col := ColAddr (TcCellAddr tc) in
  let rowSpan := RowSpan (TcCellSpan tc) in
  let colSpan := ColSpan (TcCellSpan tc) in
  let rowSpan := if rowSpan =? 0 then 1 else rowSpan in
  let colSpan := if colSpan =? 0 then 1 else colSpan in
  let textParts :=
    fold_left (fun textParts p =>
                 let text := extractText p in
                 if nonEmpty text then textParts ++ [text] else textParts)
              (Paragraphs (TcSubList tc)) [] in
  let cellText := Join textParts [10] in
  Some {| Document.Row := row; Document.Col := col;
          Document.RowSpan := rowSpan; Document.ColSpan := colSpan;
          Document.Text := cellText |}.

(** parseTableElement; [Ok None] is the return of a nil node and a nil
    error. *)
Definition parseTableElement (tbl : TableElement)
  : result (option Document.ContentNode) :=
  let rowCount := RowCnt tbl in
  let colCount := ColCnt tbl in
  if (rowCount =? 0) || (colCount =? 0) then Ok None
  else
    let cells :=
      fold_left (fun cells tr =>
                   fold_left (fun cells tc =>
                                match parseCell tc with
                                | Some cell => cells ++ [cell]
                                | None => cells
                                end)
                             (Cells tr) cells)
                (Rows tbl) [] in
    Ok (Some (Document.TableNode
                {| Document.Rows := rowCount; Document.Cols := colCount;
                   Document.Cells := cells |})).

(** The loop of parseParagraph over the runs: the table of the first run
    that holds one. *)
Fixpoint firstTable (runs : list Run) : option TableElement :=
  match runs with
  | [] => None
  | run :: rest =>
      match Table run with
      | Some tbl => Some tbl
      | None => firstTable rest
      end
  end.

(** parseParagraph, given what [decoder.DecodeElement] made of the
    element. *)
Definition parseParagraph (decoded : result ParagraphElement)
  : result (option Document.ContentNode) :=
  match decoded with
  | Err e => Err (ErrWrap "failed to decode paragraph" e)
  | Ok para =>
      match firstTable (Runs para) with
      | Some tbl => parseTableElement tbl
      | None =>
          let text := extractText para in
          if (length text =? 0)%nat then Ok None
          else Ok (Some (Document.Paragraph text))
      end
  end.

(** parseTable, given what [decoder.DecodeElement] made of the element. *)
Definition parseTable (decoded : result TableElement)
  : result (option Document.ContentNode) :=
  match decoded with
  | Err e => Err (ErrWrap "failed to decode table" e)
  | Ok tbl => parseTableElement tbl
  end.

(** *** What the elements hold *)

(** The [tc] elements of a table, row after row. *)
Definition tableCells (tbl : TableElement) : list TableCell :=
  concat (map Cells (Rows tbl)).

(** A span as parseCell reads it: a span of 0 (the attribute is missing)
    counts as 1. *)
Definition spanOf (n : Z) : Z := if n =? 0 then 1 else n.

(** The text of a run and of a paragraph: the text nodes one after the
    other, then a newline if the run holds a line break. *)
Definition runText (r : Run) : list Z :=
  concat (map Text (TextNodes r)) ++ (if LineBreak r then [10] else []).

Definition paragraphText (p : ParagraphElement) : list Z :=
  concat (map runText (Runs p)).

(** The text of a cell: its paragraphs that have text, one per line. *)
Definition cellText (tc : TableCell) : list Z :=
  Join (filter (fun text => nonEmpty text = true)
               (map paragraphText (Paragraphs (TcSubList tc)))) [10].

(** The cell parseCell makes of a [tc] element. *)
Definition cellOf (tc : TableCell) : Document.Cell :=
  {| Document.Row := RowAddr (TcCellAddr tc);
     Document.Col := ColAddr (TcCellAddr tc);
     Document.RowSpan := spanOf (RowSpan (TcCellSpan tc));
     Document.ColSpan := spanOf (ColSpan (TcCellSpan tc));
     Document.Text := cellText tc |}.

(** A [tc] element lies in the grid that the attributes of its table
    declare, as far as the layout engine indexes by it. *)
Definition inGrid (tbl : TableElement) (tc : TableCell) : Prop :=
  let colSpan := spanOf (ColSpan (TcCellSpan tc)) in
  let rowSpan := spanOf (RowSpan (TcCellSpan tc)) in
  let col := ColAddr (TcCellAddr tc) in
  let row := RowAddr (TcCellAddr tc) in
  (1 <= colSpan -> 0 <= col /\ col + colSpan <= ColCnt tbl)
  /\ (1 <= rowSpan -> 1 <= colSpan -> row < RowCnt tbl -> 0 <= row).

(** A paragraph of one run with the text nodes [texts]. *)
Definition textParagraph (texts : list (list Z)) : ParagraphElement :=
  Build_ParagraphElement []
    [Build_Run (map (fun t => {| Text := t |}) texts) false None].

(** A [tc] element at [(row, col)] with one paragraph. *)
Definition simpleCell (row col : Z) (text : list Z) : TableCell :=
  Build_TableCell [] (Build_SubList [textParagraph [text]])
    {| ColAddr := col; RowAddr := row |} {| ColSpan := 0; RowSpan := 0 |}.

(** A table that declares one row and one column and holds a cell in
    column 1. *)
Definition strayTable : TableElement :=
  Build_TableElement [] 1 1
    [Build_TableRow [simpleCell 0 0 [65]; simpleCell 0 1 [66]]].

(** A table of one row and two columns. *)
Definition sampleTbl : TableElement :=
  Build_TableElement [] 1 2
    [Build_TableRow [simpleCell 0 0 [65]; simpleCell 0 1 [66]]].

End Hwpx.

(** * Opening a document and its sections (Reader) *)

From Stdlib Require DecimalString.

Module Container.
Import FileHeader.

(** An entry of the compound file as [mscfb] yields it: the names of the
    storages above it, its own name, and the bytes that reading the
    document gives while it is the current entry. *)
Record Entry : Type := { Path : list string; Name : string; Stream : list Z }.

(** The file as [mscfb.New] sees it: its error, or the entries in the
    order [doc.Next] yields them until its first error. *)
Definition File : Type := result (list Entry).

(** The libraries besides [mscfb]: [flate.NewReader] over a stream that
    decompresses without error gives the decompressed bytes (a corrupt
    stream is outside the model), and [aes.NewCipher]. *)
Class Libraries : Type := {
  inflate : list Z -> list Z;
  NewCipher : list Z -> result Crypto.Block
}.

(** Reader wraps an open HWP document. *)
Record Reader : Type := { ra : File; Header : FileHeader; sectionCount : Z }.

Definition fullPathOf (entry : Entry) : string :=
  (fold_left (fun fullPath p => fullPath ++ p ++ "/") (Path entry) "" ++ Name entry)%string.

(** The loop of openStream over the entries. *)
Fixpoint findEntry (entries : list Entry) (name : string) : option Entry :=
  match entries with
  | [] => None
  | entry :: rest =>
      if String.eqb (fullPathOf entry) name then Some entry
      else findEntry rest name
  end.

(** openStream opens a named stream from the OLE container. *)
Definition openStream (file : File) (name : string) : result (list Z) :=
  match file with
  | Err e => Err e
  | Ok entries =>
      match findEntry entries name with
      | Some entry => Ok (Stream entry)
      | None => Err (ErrNew ("stream " ++ name ++ " not found"))
      end
  end.

Definition HWPTAG_DOCUMENT_PROPERTIES : Z := 0x10.

(** The loop of OpenReader over the records of DocInfo: the section count
    it leaves in [r.sectionCount], which is 0 before. *)
Fixpoint scanDocInfo (fuel : nat) (scanner : list Z) : option (result Z) :=
  match fuel with
  | O => None
  | S fuel' =>
      match Record.ScanNext scanner with
      | None => None
      | Some (Err EOF, _) => Some (Ok 0)
      | Some (Err e, _) => Some (Err (ErrWrap "failed to scan DocInfo" e))
      | Some (Ok rec, scanner') =>
          if Record.Tag rec =? HWPTAG_DOCUMENT_PROPERTIES then
            match rec with
            | Record.R_Unknown docProps =>
                if (2 <=? length (Record.un_Data docProps))%nat
                then Some (Ok (Uint16 (take 2 (Record.un_Data docProps))))
                else Some (Ok 0)
            | _ => Some (Ok 0)
            end
          else scanDocInfo fuel' scanner'
      end
  end.

(** OpenReader opens an HWP 5.0 file and returns a Reader. *)
Definition OpenReader `{Libraries} (fuel : nat) (file : File)
  : option (result Reader) :=
  match openStream file "FileHeader" with
  | Err e => Some (Err (ErrWrap "failed to open FileHeader" e))
  | Ok headerStream =>
      match readFileHeader headerStream with
      | (_, Some e, _) => Some (Err (ErrWrap "failed to read FileHeader" e))
      | (hdr, None, _) =>
          if Encrypted (Properties hdr)
          then Some (Err (ErrNew "password encrypted documents are not supported"))
          else
            match openStream file "DocInfo" with
            | Err e => Some (Err (ErrWrap "failed to open DocInfo" e))
            | Ok docInfoStream =>
                let currentReader :=
                  if Compressed (Properties hdr) then inflate docInfoStream
                  else docInfoStream in
                match scanDocInfo fuel currentReader with
                | None => None
                | Some (Err e) => Some (Err e)
                | Some (Ok count) =>
                    Some (Ok {| ra := file; Header := hdr;
                                sectionCount := if count =? 0 then 1 else count |})
                end
            end
      end
  end.

(** IsDistributionDoc returns true if this is a distribution document. *)
Definition IsDistributionDoc (r : Reader) : bool :=
  negb (Z.land (Raw (Properties (Header r))) 0x04 =? 0).

(** SectionCount returns the number of sections in the document. *)
Definition SectionCount (r : Reader) : Z := sectionCount r.

(** [fmt.Sprintf("%d", n)]. *)
Definition itoa (n : Z) : string :=
  DecimalString.NilZero.string_of_int (Z.to_int n).

Definition streamNameOf (r : Reader) (index : Z) : string :=
  if IsDistributionDoc r then ("ViewText/Section" ++ itoa index)%string
  else ("BodyText/Section" ++ itoa index)%string.

(** What OpenSection returns: the readers it has stacked on the stream of
    the section.  [below] is that stream after what OpenSection has read
    of it, [cipher] the key and the block of the cryptoReader of a
    distribution document, [deflated] tells that [flate.NewReader] is on
    top. *)
Record SectionReader : Type := {
  below : list Z;
  cipher : option (list Z * Crypto.Block);
  deflated : bool
}.

Definition HWPTAG_DISTRIBUTE_DOC_DATA : Z := 0x1C.

(** OpenSection opens a section stream by index; [None] only if deriveKey
    runs out of fuel.  The message of the error for another record header
    also holds the tag and the size read. *)
Definition OpenSection `{Libraries} (fuel : nat) (r : Reader) (index : Z)
  : option (result SectionReader) :=
  let streamName := streamNameOf r index in
  match openStream (ra r) streamName with
  | Err e => Some (Err e)
  | Ok rawStream =>
      if IsDistributionDoc r then
        let '(hBuf, err, currentReader) := ReadFull rawStream 4 in
        match err with
        | Some e => Some (Err (ErrWrap "failed to read distribute doc header" e))
        | None =>
            let tagVal := Uint32 hBuf in
            let tagID := Z.land tagVal 0x3FF in
            let size := Z.shiftr tagVal 20 in
            if (tagID =? HWPTAG_DISTRIBUTE_DOC_DATA) && (size =? 256) then
              let '(distData, err, currentReader) := ReadFull currentReader 256 in
              match err with
              | Some e =>
                  Some (Err (ErrWrap "failed to read distribute doc data" e))
              | None =>
                  match Crypto.deriveKey fuel distData with
                  | None => None
                  | Some (Err e) => Some (Err (ErrWrap "failed to derive key" e))
                  | Some (Ok key) =>
                      match NewCipher key with
                      | Err e => Some (Err (ErrWrap "failed to create cipher" e))
                      | Ok block =>
                          Some (Ok {| below := currentReader;
                                      cipher := Some (key, block);
                                      deflated := Compressed (Properties (Header r)) |})
                      end
                  end
              end
            else Some (Err (ErrNew "invalid distribution document stream"))
        end
      else
        Some (Ok {| below := rawStream; cipher := None;
                    deflated := Compressed (Properties (Header r)) |})
  end.

(** *** Documents to run the reader on *)

(** [aes.NewCipher] accepts the key sizes of AES; here with the toy
    cipher of the decryptor in place of AES. *)
Definition sampleLibraries : Libraries :=
  {| inflate := fun s => s;
     NewCipher := fun key =>
       if existsb (Nat.eqb (length key)) [16; 24; 32]%nat
       then Ok Crypto.xorCipher
       else Err (ErrNew "crypto/aes: invalid key size") |}.

(** The record header word of a distribution data record: tag 0x1C, level
    0, size 256. *)
Definition distHeader : list Z := Record.PutUint32 (Z.lor 0x1C (Z.shiftl 256 20)).

(** The section stream of a distribution document: the distribution data
    record and one encrypted block. *)
Definition distSection : list Z :=
  distHeader ++ Crypto.sampleDistData ++ replicate 16 0.

(** A distribution document of one section: the FileHeader has bit 2 of
    the properties set, DocInfo holds a document-properties record that
    counts 3 sections. *)
Definition distFile : File :=
  Ok [ {| Path := []; Name := "FileHeader";
          Stream := signatureField ++ [1; 0; 1; 5] ++ [4; 0; 0; 0] ++ replicate 216 0 |};
       {| Path := []; Name := "DocInfo";
          Stream := Record.PutUint32 (Z.lor 0x10 (Z.shiftl 2 20)) ++ [3; 0] |};
       {| Path := []; Name := "ViewText"; Stream := [] |};
       {| Path := ["ViewText"%string]; Name := "Section0";
          Stream := distSection |} ].

Definition distReader : Reader :=
  match @OpenReader sampleLibraries 10 distFile with
  | Some (Ok r) => r
  | _ => {| ra := distFile; Header := zeroHeader; sectionCount := 0 |}
  end.

End Container.

(** * Tables whose cells tile the grid *)

Module Tiles.
Import Render.

(** The cell covers the position [(r, c)] of the grid. *)
Definition covers (cell : Cell) (r c : Z) : Prop :=
  (Row cell <= r < Row cell + RowSpan cell)
  /\ (Col cell <= c < Col cell + ColSpan cell).

Definition coversb (cell : Cell) (r c : Z) : bool :=
  (Row cell <=? r) && (r <? Row cell + RowSpan cell)
  && (Col cell <=? c) && (c <? Col cell + ColSpan cell).

(** The cells tile the grid: every position of the grid is covered by
    exactly one cell, so no two cells overlap and no position is left
    out. *)
Definition tiles (t : Table) : Prop :=
  forall r c, 0 <= r < Rows t -> 0 <= c < Cols t ->
    exists id cell,
      Cells t !! id = Some cell /\ covers cell r c
      /\ forall id' cell', Cells t !! id' = Some cell' -> covers cell' r c -> id' = id.

(** [l.cellOwner[r][c]]. *)
Definition ownerAt (grid : list (list (option nat))) (r c : Z)
  : option (option nat) :=
  match index grid r with
  | Some line => index line c
  | None => None
  end.

(** What the loop of buildLayout over the cells leaves at a position: the
    last of the cells that cover it. *)
Definition lastOwner (r c : Z) (o : option (option nat)) (ic : nat * Cell)
  : option (option nat) :=
  if coversb (snd ic) r c then Some (Some (fst ic)) else o.

(** The display width of a line of a table with the column widths [cw]:
    the columns, a space on both sides of each, and the bars. *)
Definition tableWidth (cw : list Z) : Z := sumZ cw + 3 * Z.of_nat (length cw) + 1.

(** A line of the rendering of the layout [l] of [t]: a border line or a
    content line of a row of the table. *)
Definition isLine `{Condition} (t : Table) (l : Layout) (line : list Z) : Prop :=
  (exists r, -1 <= r < Rows t /\ renderBorderLine l r = Some line)
  \/ (exists r d, 0 <= r < Rows t /\ 0 <= d /\ renderContentLine l r d = Some line).

End Tiles.

(** * The widths that single-column cells ask for *)

Module SingleWidths.
Import Render Shape.

(** What a cell makes of the width [w] of column [c] in the first pass of
    computeColWidths: a cell of that column that spans one column widens it
    to its widest line. *)
Definition grow `{Condition} (lines : list (list (list Z))) (c : Z) (w : Z)
  (ic : nat * Cell) : Z :=
  if (ColSpan (snd ic) =? 1) && (Col (snd ic) =? c)
  then Z.max w (maxLineWidth (linesOf lines (fst ic)))
  else w.

End SingleWidths.

(** * Theorems *)

Module CryptoFacts.
Import Crypto.

Lemma take_take_app {A} (n : nat) (l x : list A) :
  take n (take n l ++ x) = take n (l ++ x).
Proof.
  destruct (Nat.le_gt_cases n (length l)) as [Hle | Hgt].
  - rewrite (take_app_le (take n l)) by (rewrite length_take; lia).
    rewrite take_take, Nat.min_id.
    now rewrite take_app_le by lia.
  - now rewrite (take_ge l) by lia.
Qed.

Lemma insert_at_end_of_prefix (pre : list Z) (k : nat) (v : Z) :
  <[length pre := v]> (pre ++ replicate (S k) 0) = (pre ++ [v]) ++ replicate k 0.
Proof.
  rewrite insert_app_r_alt by lia.
  rewrite Nat.sub_diag. cbn [replicate]. rewrite <- app_assoc.
  destruct (replicate k 0); reflexivity.
Qed.

(** The inner loop appends the run to the filled prefix, cut at 256. *)
Lemma fillRun_prefix (c : nat) (v : Z) :
  forall (pre : list Z) (i : nat),
    length pre = i -> (i <= 256)%nat ->
    fillRun c v (pre ++ replicate (256 - i) 0) i =
    (take 256 (pre ++ replicate c v) ++ replicate (256 - Nat.min 256 (i + c)) 0,
     Nat.min 256 (i + c)).
Proof.
  induction c as [| c IH]; intros pre i Hlen Hi; cbn [fillRun replicate].
  - rewrite app_nil_r, take_ge by lia.
    now replace (Nat.min 256 (i + 0)) with i by lia.
  - destruct (Nat.ltb_spec i 256) as [Hlt | Hge].
    + replace (256 - i)%nat with (S (256 - S i)) by lia.
      rewrite <- Hlen at 1. rewrite insert_at_end_of_prefix.
      rewrite IH by (rewrite ?length_app; cbn [length]; lia).
      rewrite <- app_assoc. cbn [app].
      now replace (S i + c)%nat with (i + S c)%nat by lia.
    + assert (i = 256%nat) as -> by lia.
      replace (Nat.min 256 (256 + S c)) with 256%nat by lia.
      rewrite take_app_le by lia. rewrite take_ge by lia.
      reflexivity.
Qed.

(** Every round of the outer loop writes at least one byte. *)
Lemma fillRun_progress (cnt v : Z) (arr : list Z) (i : nat) :
  (i < 256)%nat ->
  (i < snd (fillRun (Z.to_nat (Z.land cnt 0x0F + 1)) v arr i))%nat.
Proof.
  intros Hi.
  assert (0 <= Z.land cnt 0x0F) by (apply Z.land_nonneg; lia).
  destruct (Z.to_nat (Z.land cnt 0x0F + 1)) as [| c] eqn:Hc; [lia |].
  simpl. destruct (Nat.ltb_spec i 256); [| lia].
  clear Hc. generalize (<[i:=v]> arr) as a.
  assert (forall (k j : nat) (a : list Z), (j <= snd (fillRun k v a j))%nat) as Hmono.
  { induction k as [| k IHk]; intros j a; simpl; [lia |].
    destruct (j <? 256)%nat; simpl; [| lia].
    specialize (IHk (S j) (<[j:=v]> a)). lia. }
  intros a. specialize (Hmono c (S i) a). lia.
Qed.

Lemma run_length_pos (s : Z) : (1 <= Z.to_nat (Z.land s 0x0F + 1))%nat.
Proof. assert (0 <= Z.land s 0x0F) by (apply Z.land_nonneg; lia). lia. Qed.

(** The outer loop computes the specification's array, whatever fuel is
    given beyond the bytes still to fill. *)
Lemma fillLoop_unfold (fuel : nat) (r : msvcRand) (arr : list Z) (i : nat) :
  fillLoop fuel r arr i =
  if (i <? 256)%nat then
    match fuel with
    | O => None
    | S fuel' =>
        let v := Z.land (draw (lcg (state r))) 0xFF in
        let c := Z.to_nat (Z.land (draw (lcg (lcg (state r)))) 0x0F + 1) in
        fillLoop fuel' {| state := lcg (lcg (state r)) |}
                 (fst (fillRun c v arr i)) (snd (fillRun c v arr i))
    end
  else Some arr.
Proof.
  destruct fuel as [| fuel]; [reflexivity |].
  cbn [fillLoop rand state]. fold (lcg (state r)). fold (lcg (lcg (state r))).
  fold (draw (lcg (state r))). fold (draw (lcg (lcg (state r)))).
  now destruct (fillRun _ _ arr i).
Qed.

Lemma fillLoop_spec (fuel : nat) :
  forall (r : msvcRand) (pre : list Z) (i : nat),
    length pre = i -> (i <= 256)%nat -> (256 <= fuel + i)%nat ->
    fillLoop fuel r (pre ++ replicate (256 - i) 0) i =
    Some (take 256 (pre ++ spec_runs fuel (state r))).
Proof.
  induction fuel as [| fuel IH]; intros r pre i Hlen Hi Hfuel;
    rewrite fillLoop_unfold; destruct (Nat.ltb_spec i 256) as [Hlt | Hge].
  - lia.
  - replace (256 - i)%nat with 0%nat by lia. cbn [replicate spec_runs].
    now rewrite !app_nil_r, take_ge by lia.
  - cbv zeta. cbn [spec_runs].
    set (c := Z.to_nat (Z.land (draw (lcg (lcg (state r)))) 15 + 1)).
    set (v := Z.land (draw (lcg (state r))) 255).
    rewrite (fillRun_prefix c v pre i Hlen Hi). cbn [fst snd].
    pose proof (run_length_pos (draw (lcg (lcg (state r))))) as Hc. fold c in Hc.
    rewrite (IH {| state := lcg (lcg (state r)) |} (take 256 (pre ++ replicate c v))).
    + cbn [state]. now rewrite take_take_app, <- app_assoc.
    + rewrite length_take, length_app, length_replicate. lia.
    + lia.
    + lia.
  - replace (256 - i)%nat with 0%nat by lia. cbn [replicate].
    rewrite app_nil_r. now rewrite take_app_le, take_ge by lia.
Qed.

Lemma take_spec_runs_stable (n : nat) :
  forall (s : Z) (pre : list Z),
    (256 <= n + length pre)%nat ->
    take 256 (pre ++ spec_runs n s) = take 256 (pre ++ spec_runs (S n) s).
Proof.
  induction n as [| n IH]; intros s pre Hn.
  - now rewrite !take_app_le by lia.
  - change (spec_runs (S (S n)) s) with
      (replicate (Z.to_nat (Z.land (draw (lcg (lcg s))) 0x0F + 1))
         (Z.land (draw (lcg s)) 0xFF) ++ spec_runs (S n) (lcg (lcg s))).
    change (spec_runs (S n) s) with
      (replicate (Z.to_nat (Z.land (draw (lcg (lcg s))) 0x0F + 1))
         (Z.land (draw (lcg s)) 0xFF) ++ spec_runs n (lcg (lcg s))).
    rewrite !app_assoc. apply IH.
    pose proof (run_length_pos (draw (lcg (lcg s)))).
    rewrite length_app, length_replicate. lia.
Qed.

Lemma take_spec_runs_ge (m : nat) (s : Z) :
  (256 <= m)%nat -> take 256 (spec_runs m s) = take 256 (spec_runs 256 s).
Proof.
  intros Hm. induction Hm as [| m Hm IHm]; [reflexivity |].
  rewrite <- IHm. symmetry. apply (take_spec_runs_stable m s []).
  cbn [length]. lia.
Qed.

Lemma fillLoop_total (fuel : nat) (seed : Z) :
  (256 <= fuel)%nat ->
  fillLoop fuel {| state := seed |} (replicate 256 0) 0 = Some (spec_randomArray seed).
Proof.
  intros Hf.
  pose proof (fillLoop_spec fuel {| state := seed |} [] 0 eq_refl) as H.
  rewrite Nat.sub_0_r in H. cbn [app state] in H. rewrite H by lia.
  unfold spec_randomArray. f_equal. now apply take_spec_runs_ge.
Qed.

Lemma length_spec_randomArray (seed : Z) : length (spec_randomArray seed) = 256%nat.
Proof.
  unfold spec_randomArray. rewrite length_take.
  assert (forall n s, (n <= length (spec_runs n s))%nat) as H.
  { induction n as [| n IH]; intros s; cbn [spec_runs length]; [lia |].
    rewrite length_app, length_replicate.
    pose proof (run_length_pos (draw (lcg (lcg s)))).
    specialize (IH (lcg (lcg s))). lia. }
  specialize (H 256%nat seed). lia.
Qed.

(** The index loop [xorData[i] = distData[i] ^ randomArray[i]] is the
    byte-for-byte XOR of the two arrays. *)
Lemma xor_loop_zip (n : nat) :
  forall a b : list Z,
    length a = n -> length b = n ->
    map (fun i => Z.lxor (nth i a 0) (nth i b 0)) (seq 0 n) = zip_with Z.lxor b a.
Proof.
  induction n as [| n IH]; intros a b Ha Hb.
  - destruct a; [| discriminate]. now destruct b.
  - destruct a as [| x a]; [discriminate |]. destruct b as [| y b]; [discriminate |].
    cbn [seq map nth zip_with]. rewrite Z.lxor_comm. f_equal.
    rewrite <- seq_shift, map_map. cbn [nth].
    apply IH; cbn [length] in *; lia.
Qed.

Lemma key_offset_bounds (seed : Z) : 4 <= Z.land seed 0x0F + 4 <= 19.
Proof.
  assert (0 <= Z.land seed 0x0F) by (apply Z.land_nonneg; lia).
  assert (Z.land seed 0x0F <= 0x0F); [| lia].
  change 0x0F with (Z.ones 4) at 1. rewrite Z.land_ones by lia.
  pose proof (Z.mod_pos_bound seed (2 ^ 4)). lia.
Qed.

Lemma deriveKey_eq (fuel : nat) (distData : list Z) :
  length distData = 256%nat -> (256 <= fuel)%nat ->
  deriveKey fuel distData = Some (Ok (spec_deriveKey distData)).
Proof.
  intros Hlen Hfuel. unfold deriveKey, spec_deriveKey.
  rewrite Hlen, Nat.eqb_refl. cbn [negb].
  rewrite fillLoop_total by exact Hfuel.
  pose proof (key_offset_bounds (Uint32 (take 4 distData))) as Hoff.
  destruct (Z.gtb_spec (Z.land (Uint32 (take 4 distData)) 15 + 4 + 16) 256); [lia |].
  rewrite xor_loop_zip by (auto using length_spec_randomArray).
  reflexivity.
Qed.

Lemma lxor_is_byte (a b : Z) : is_byte a -> is_byte b -> is_byte (Z.lxor a b).
Proof.
  unfold is_byte. intros Ha Hb.
  assert (0 <= Z.lxor a b) as Hnn by (apply Z.lxor_nonneg; lia).
  split; [exact Hnn |].
  destruct (Z.eq_dec (Z.lxor a b) 0) as [-> | Hne]; [lia |].
  change 256 with (2 ^ 8). apply Z.log2_lt_pow2; [lia |].
  pose proof (Z.log2_lxor a b ltac:(lia) ltac:(lia)) as Hl.
  assert (forall x, 0 <= x < 256 -> Z.log2 x < 8) as Hlog.
  { intros x Hx. destruct (Z.eq_dec x 0) as [-> | Hx0]; [reflexivity |].
    apply Z.log2_lt_pow2; [lia |]. change (2 ^ 8) with 256. lia. }
  pose proof (Hlog a Ha). pose proof (Hlog b Hb). lia.
Qed.

Lemma land_ff_is_byte (v : Z) : is_byte (Z.land v 0xFF).
Proof.
  unfold is_byte. change 0xFF with (Z.ones 8). rewrite Z.land_ones by lia.
  pose proof (Z.mod_pos_bound v (2 ^ 8)). change (2 ^ 8) with 256 in *. lia.
Qed.

Lemma spec_runs_bytes (n : nat) : forall s, Forall is_byte (spec_runs n s).
Proof.
  induction n as [| n IH]; intros s; cbn [spec_runs]; [constructor |].
  apply Forall_app. split; [| apply IH].
  apply Forall_replicate, land_ff_is_byte.
Qed.

Lemma zip_with_bytes (f : Z -> Z -> Z) :
  (forall a b, is_byte a -> is_byte b -> is_byte (f a b)) ->
  forall l1 l2, Forall is_byte l1 -> Forall is_byte l2 ->
                Forall is_byte (zip_with f l1 l2).
Proof.
  intros Hf l1 l2 H1. revert l2.
  induction H1 as [| a l1 Ha H1 IH]; intros l2 H2; [constructor |].
  destruct H2 as [| b l2 Hb H2]; cbn [zip_with]; [constructor |].
  constructor; auto.
Qed.

Lemma spec_deriveKey_length (distData : list Z) :
  length distData = 256%nat -> length (spec_deriveKey distData) = 16%nat.
Proof.
  intros Hlen. unfold spec_deriveKey.
  pose proof (key_offset_bounds (Uint32 (take 4 distData))) as Hoff.
  rewrite length_take, length_drop, length_zip_with, length_spec_randomArray, Hlen.
  lia.
Qed.

Lemma spec_deriveKey_bytes (distData : list Z) :
  Forall is_byte distData -> Forall is_byte (spec_deriveKey distData).
Proof.
  intros Hb. unfold spec_deriveKey.
  apply Forall_take, Forall_drop, zip_with_bytes; [apply lxor_is_byte | | exact Hb].
  apply Forall_take, spec_runs_bytes.
Qed.

Lemma deriveKey_never_bad_offset (fuel : nat) (distData : list Z) :
  deriveKey fuel distData <> Some (Err (ErrNew "invalid key offset")).
Proof.
  unfold deriveKey.
  destruct (negb (length distData =? 256)%nat); [discriminate |].
  destruct (fillLoop _ _ _ _); [| discriminate].
  pose proof (key_offset_bounds (Uint32 (take 4 distData))) as Hoff.
  destruct (Z.gtb_spec (Z.land (Uint32 (take 4 distData)) 15 + 4 + 16) 256);
    [lia | discriminate].
Qed.

(** C2. Key derivation is a pure function of its 256-byte input and is
    bit-exact: whatever fuel the fill loop is given from 256 on, deriveKey
    returns the key that the specification's steps describe: the seed is
    the first four bytes little-endian, the generator iterates
    state*214013 + 2531011 mod 2^32 and draws (state >> 16) & 0x7FFF, every
    round writes the byte val & 0xFF (cnt & 0x0F) + 1 times with the array
    cut at 256 bytes, the array is XORed with the input byte for byte, and
    the key is the 16 bytes at offset (seed & 0x0F) + 4.  The result does
    not depend on anything but the input. *)
Theorem deriveKey_refines_spec (distData : list Z) (fuel : nat) :
  length distData = 256%nat -> (256 <= fuel)%nat ->
  deriveKey fuel distData = Some (Ok (spec_deriveKey distData)).
Proof. apply deriveKey_eq. Qed.

Lemma deriveKey_refines_spec_witness :
  deriveKey 256 sampleDistData = Some (Ok (spec_deriveKey sampleDistData)).
Proof.
  apply (deriveKey_refines_spec sampleDistData 256); [vm_compute; reflexivity | lia].
Defined.

(** C10. Key derivation is total on well-sized input: for every input of
    exactly 256 bytes deriveKey returns a key of 16 bytes (bytes again, when
    the input is); the offset (seed & 0x0F) + 4 is at most 19, so the
    "invalid key offset" branch is never taken, on any input; and the fill
    loop terminates within 256 rounds because every round writes at least
    one byte. *)
Theorem deriveKey_total (distData : list Z) :
  length distData = 256%nat ->
  (forall fuel, (256 <= fuel)%nat ->
     exists key, deriveKey fuel distData = Some (Ok key)
                 /\ length key = 16%nat
                 /\ (Forall is_byte distData -> Forall is_byte key))
  /\ Z.land (Uint32 (take 4 distData)) 0x0F + 4 + 16 <= 35
  /\ (forall fuel d, deriveKey fuel d <> Some (Err (ErrNew "invalid key offset")))
  /\ (forall cnt v arr i, (i < 256)%nat ->
        (i < snd (fillRun (Z.to_nat (Z.land cnt 0x0F + 1)) v arr i))%nat)
  /\ (forall seed, exists arr,
        fillLoop 256 {| state := seed |} (replicate 256 0) 0 = Some arr
        /\ length arr = 256%nat).
Proof.
  intros Hlen. repeat split.
  - intros fuel Hfuel. exists (spec_deriveKey distData).
    rewrite deriveKey_eq by assumption.
    auto using spec_deriveKey_length, spec_deriveKey_bytes.
  - pose proof (key_offset_bounds (Uint32 (take 4 distData))). lia.
  - apply deriveKey_never_bad_offset.
  - apply fillRun_progress.
  - intros seed. exists (spec_randomArray seed).
    split; [apply fillLoop_total; lia | apply length_spec_randomArray].
Qed.

Lemma deriveKey_total_witness :
  exists key, deriveKey 256 sampleDistData = Some (Ok key) /\ length key = 16%nat.
Proof.
  destruct (deriveKey_total sampleDistData ltac:(vm_compute; reflexivity))
    as [Hkey _].
  destruct (Hkey 256%nat ltac:(lia)) as (key & Hk & Hl & _).
  exists key. split; assumption.
Defined.

(** *** The streaming decryptor *)

Section Decryptor.
Context {B : Block} (laws : BlockLaws B).

Lemma div16_step (n : nat) : (16 <= n)%nat -> (n / 16 = S ((n - 16) / 16))%nat.
Proof.
  intros Hn. replace n with ((n - 16) + 1 * 16)%nat at 1 by lia.
  rewrite Nat.div_add by lia. lia.
Qed.

Lemma mod16_step (n : nat) : (16 <= n)%nat -> ((n - 16) mod 16 = n mod 16)%nat.
Proof.
  intros Hn. replace n with ((n - 16) + 1 * 16)%nat at 2 by lia.
  now rewrite Nat.Div0.mod_add.
Qed.

Lemma ecb_short (f : list Z -> list Z) (l : list Z) :
  (length l < 16)%nat -> ecb f l = [].
Proof. intros Hl. unfold ecb. now rewrite Nat.div_small by lia. Qed.

Lemma ecb_step (f : list Z -> list Z) (l : list Z) :
  (16 <= length l)%nat -> ecb f l = f (take 16 l) ++ ecb f (drop 16 l).
Proof.
  intros Hl. unfold ecb. rewrite length_drop, (div16_step _ Hl). reflexivity.
Qed.

Lemma finalError_step (l : list Z) :
  (16 <= length l)%nat -> finalError (drop 16 l) = finalError l.
Proof. intros Hl. unfold finalError. now rewrite length_drop, mod16_step. Qed.

Lemma take_then_rest {A} (n : nat) (l : list A) :
  take n l ++ drop (length (take n l)) l = l.
Proof.
  rewrite length_take. destruct (Nat.le_gt_cases n (length l)).
  - rewrite Nat.min_l by lia. apply take_drop.
  - rewrite Nat.min_r, take_ge, drop_all by lia. apply app_nil_r.
Qed.

Lemma Read_buffered (fuel : nat) (cr : cryptoReader) (n : nat) :
  (ptr cr < length (buf cr))%nat ->
  Read (S fuel) cr n =
  Some (take n (drop (ptr cr) (buf cr)), None,
        {| r := r cr; buf := buf cr;
           ptr := ptr cr + length (take n (drop (ptr cr) (buf cr))) |}).
Proof.
  intros Hp. cbn [Read]. destruct (Nat.ltb_spec (ptr cr) (length (buf cr))); [reflexivity | lia].
Qed.

Lemma Read_end (fuel : nat) (cr : cryptoReader) (n : nat) :
  (length (buf cr) <= ptr cr)%nat -> r cr = [] ->
  exists cr', Read (S fuel) cr n = Some ([], Some EOF, cr').
Proof.
  intros Hp Hr. cbn [Read].
  destruct (Nat.ltb_spec (ptr cr) (length (buf cr))); [lia |].
  rewrite Hr. cbn. eauto.
Qed.

Lemma Read_misaligned (fuel : nat) (cr : cryptoReader) (n : nat) :
  (length (buf cr) <= ptr cr)%nat -> (0 < length (r cr) < 16)%nat ->
  exists cr',
    Read (S fuel) cr n =
    Some ([], Some (ErrNew "encrypted stream not aligned to block size"), cr').
Proof.
  intros Hp Hr. cbn [Read].
  destruct (Nat.ltb_spec (ptr cr) (length (buf cr))); [lia |].
  unfold ReadFull.
  destruct (Nat.leb_spec 16 (length (r cr))); [lia |].
  destruct (Nat.eqb_spec (length (r cr)) 0); [lia |].
  eauto.
Qed.

Lemma Read_refill (fuel : nat) (cr : cryptoReader) (n : nat) :
  (length (buf cr) <= ptr cr)%nat -> (16 <= length (r cr))%nat ->
  Read (S (S fuel)) cr n =
  Some (take n (Decrypt (take 16 (r cr))), None,
        {| r := drop 16 (r cr); buf := Decrypt (take 16 (r cr));
           ptr := length (take n (Decrypt (take 16 (r cr)))) |}).
Proof.
  intros Hp Hr. cbn [Read].
  destruct (Nat.ltb_spec (ptr cr) (length (buf cr))); [lia |].
  unfold ReadFull.
  destruct (Nat.leb_spec 16 (length (r cr))); [| lia].
  cbn [ptr buf r].
  assert (length (Decrypt (take 16 (r cr))) = 16%nat) as Hd
      by (rewrite (Decrypt_length B laws), length_take; lia).
  destruct (Nat.ltb_spec 0 (length (Decrypt (take 16 (r cr))))); [| lia].
  rewrite drop_0. reflexivity.
Qed.

(** Reading to exhaustion delivers what is left of the buffered block,
    then the decryption of every whole block of the stream, and finishes
    with the error that the length of the stream decides. *)
Lemma readToEnd_spec (sizes : nat -> nat) :
  (forall k, (0 < sizes k)%nat) ->
  forall (fuel k : nat) (cr : cryptoReader),
    (length (buf cr) - ptr cr + length (r cr) + 2 <= fuel)%nat ->
    readToEnd fuel sizes k cr =
    Some (drop (ptr cr) (buf cr) ++ ecb Decrypt (r cr), finalError (r cr)).
Proof.
  intros Hsz. induction fuel as [| fuel IH]; intros k cr Hfuel; [lia |].
  cbn [readToEnd]. pose proof (Hsz k) as Hk.
  destruct (Nat.lt_ge_cases (ptr cr) (length (buf cr))) as [Hp | Hp].
  - rewrite Read_buffered by exact Hp.
    set (data := take (sizes k) (drop (ptr cr) (buf cr))).
    assert (0 < length data)%nat as Hdata.
    { unfold data. rewrite length_take, length_drop. lia. }
    assert (length data <= length (buf cr) - ptr cr)%nat as Hdata'.
    { unfold data. rewrite length_take, length_drop. lia. }
    rewrite IH by (cbn [buf ptr r]; lia). cbn [buf ptr r].
    rewrite app_assoc, <- drop_drop. unfold data.
    now rewrite take_then_rest.
  - rewrite (drop_ge (buf cr)) by lia. cbn [app].
    destruct (Nat.lt_ge_cases (length (r cr)) 16) as [Hshort | Hfull].
    + rewrite ecb_short by exact Hshort.
      destruct (r cr) as [| b rest] eqn:Hr.
      * destruct (Read_end fuel cr (sizes k) Hp Hr) as [cr' ->]. reflexivity.
      * destruct (Read_misaligned fuel cr (sizes k) Hp) as [cr' ->].
        { rewrite Hr. cbn [length] in *. lia. }
        unfold finalError. rewrite Nat.mod_small by exact Hshort.
        destruct (Nat.eqb_spec (length (b :: rest)) 0) as [H0 | _];
          [discriminate H0 | reflexivity].
    + destruct fuel as [| fuel']; [lia |].
      rewrite Read_refill by assumption.
      set (blk := Decrypt (take 16 (r cr))).
      assert (length blk = 16%nat) as Hblk
          by (unfold blk; rewrite (Decrypt_length B laws), length_take; lia).
      rewrite IH by (cbn [buf ptr r]; rewrite length_take, length_drop; lia).
      cbn [buf ptr r].
      rewrite app_assoc, take_then_rest, finalError_step by exact Hfull.
      now rewrite (ecb_step Decrypt (r cr)) by exact Hfull.
Qed.

(** Decrypting block by block what was encrypted block by block. *)
Lemma ecb_round_trip (n : nat) :
  forall plain : list Z,
    length plain = (16 * n)%nat ->
    length (ecb Encrypt plain) = (16 * n)%nat
    /\ ecb Decrypt (ecb Encrypt plain) = plain.
Proof.
  induction n as [| n IH]; intros plain Hlen.
  - destruct plain; [| discriminate]. split; reflexivity.
  - assert (length (Encrypt (take 16 plain)) = 16%nat) as Henc
        by (rewrite (Encrypt_length B laws), length_take; lia).
    destruct (IH (drop 16 plain)) as [Hl Hrt]; [rewrite length_drop; lia |].
    rewrite (ecb_step Encrypt plain) by lia. split.
    + rewrite length_app, Henc, Hl. lia.
    + rewrite ecb_step by (rewrite length_app; lia).
      rewrite take_app_le, take_ge, drop_app_length' by lia.
      rewrite Hrt, (Decrypt_Encrypt B laws) by (rewrite length_take; lia).
      apply take_drop.
Qed.

Lemma ecb_length (f : list Z -> list Z) :
  (forall blk, length (f blk) = length blk) ->
  forall (n : nat) (l : list Z),
    (16 * n <= length l)%nat -> length (concat (map f (blocks n l))) = (16 * n)%nat.
Proof.
  intros Hf. induction n as [| n IH]; intros l Hl; [reflexivity |].
  cbn [blocks map concat]. rewrite length_app, Hf, length_take, IH.
  - lia.
  - rewrite length_drop. lia.
Qed.

End Decryptor.

Lemma xorCipher_laws : BlockLaws xorCipher.
Proof.
  split; intros blk; cbn [Encrypt Decrypt xorCipher]; unfold xorBlock.
  - apply length_map.
  - apply length_map.
  - intros _. rewrite map_map. rewrite <- (map_id blk) at 2.
    apply map_ext. intros x.
    now rewrite <- Z.lxor_assoc, Z.lxor_nilpotent, Z.lxor_0_l.
Qed.

(** C4. The streaming block decryptor, read to exhaustion with buffers of
    any positive sizes.  A stream whose length is a multiple of 16 yields
    the block-by-block decryption of the whole stream and then a clean
    end of stream; in particular the block-by-block encryption of a
    plaintext is read back as that plaintext, byte for byte.  A stream
    that ends in a short block yields the decryption of its whole blocks
    only (16 bytes for each of them, nothing for the short block) and
    then fails with the error "encrypted stream not aligned to block
    size". *)
Theorem cryptoReader_reads_to_end {B : Block} (stream : list Z)
  (sizes : nat -> nat) (fuel : nat) :
  BlockLaws B ->
  (forall k, (0 < sizes k)%nat) ->
  (length stream + 2 <= fuel)%nat ->
  ((length stream mod 16 = 0)%nat ->
     readToEnd fuel sizes 0 (newCryptoReader stream)
     = Some (ecb Decrypt stream, EOF))
  /\ (forall plain : list Z,
        (length plain mod 16 = 0)%nat -> stream = ecb Encrypt plain ->
        readToEnd fuel sizes 0 (newCryptoReader stream) = Some (plain, EOF))
  /\ ((length stream mod 16 <> 0)%nat ->
        readToEnd fuel sizes 0 (newCryptoReader stream)
        = Some (ecb Decrypt stream,
                ErrNew "encrypted stream not aligned to block size")
        /\ length (ecb Decrypt stream) = (16 * (length stream / 16))%nat).
Proof.
  intros laws Hsz Hfuel.
  pose proof (readToEnd_spec laws sizes Hsz fuel 0 (newCryptoReader stream)) as H.
  cbn [newCryptoReader buf ptr r length] in H.
  rewrite drop_0 in H. cbn [app] in H. specialize (H ltac:(lia)).
  split; [| split].
  - intros Hmod. rewrite H. unfold finalError. now rewrite Hmod.
  - intros plain Hmod Hst.
    assert (length plain = 16 * (length plain / 16))%nat as Hlen.
    { pose proof (Nat.div_mod_eq (length plain) 16). lia. }
    destruct (ecb_round_trip laws _ plain Hlen) as [Hl Hrt].
    rewrite H, Hst, Hrt. unfold finalError. rewrite Hl.
    replace (16 * (length plain / 16))%nat with (0 + (length plain / 16) * 16)%nat by lia.
    now rewrite Nat.Div0.mod_add.
  - intros Hmod. split.
    + rewrite H. unfold finalError.
      destruct (Nat.eqb_spec (length stream mod 16) 0); [contradiction | reflexivity].
    + unfold ecb. apply ecb_length; [apply (Decrypt_length B laws) |].
      pose proof (Nat.div_mod_eq (length stream) 16). lia.
Qed.

Lemma cryptoReader_reads_to_end_witness :
  @readToEnd xorCipher 50 (fun _ => 5%nat) 0
    (newCryptoReader (ecb (@Encrypt xorCipher) (map Z.of_nat (seq 0 32))))
  = Some (map Z.of_nat (seq 0 32), EOF).
Proof.
  refine (proj1 (proj2 (cryptoReader_reads_to_end (B := xorCipher)
            (ecb (@Encrypt xorCipher) (map Z.of_nat (seq 0 32)))
            (fun _ => 5%nat) 50 xorCipher_laws _ _)) _ _ _).
  - intros k. lia.
  - vm_compute. lia.
  - vm_compute. reflexivity.
  - reflexivity.
Defined.

End CryptoFacts.

Module RecordFacts.
Import Record.

Ltac bits :=
  Z.bitblast; subst;
  repeat match goal with
         | |- context [Z.testbit ?a ?n] => rewrite (Z.testbit_neg_r a n) by lia
         end;
  try btauto.

(** *** Paragraph text *)

Lemma flushString_flushed (elements : list ParaTextElement) (stringBuffer : list Z) :
  flushString elements stringBuffer = (flushed elements stringBuffer, []).
Proof. destruct stringBuffer; reflexivity. Qed.

Lemma control_codes (code : Z) :
  0 <= code < 32 ->
  code = 0 \/ code = 1 \/ code = 2 \/ code = 3 \/ code = 4 \/ code = 5 \/ code = 6
  \/ code = 7 \/ code = 8 \/ code = 9 \/ code = 10 \/ code = 11 \/ code = 12
  \/ code = 13 \/ code = 14 \/ code = 15 \/ code = 16 \/ code = 17 \/ code = 18
  \/ code = 19 \/ code = 20 \/ code = 21 \/ code = 22 \/ code = 23 \/ code = 24
  \/ code = 25 \/ code = 26 \/ code = 27 \/ code = 28 \/ code = 29 \/ code = 30
  \/ code = 31.
Proof. lia. Qed.

Ltac each_control_code H :=
  apply control_codes in H;
  repeat (destruct H as [H | H]; [subst |]); [.. | subst].

(** The switch, code by code. *)
Lemma controlCode_table (code : Z) (data : list Z) (elements : list ParaTextElement) :
  0 <= code < 32 ->
  controlCode code data elements =
  (drop (if memZ code blockCodes then 14 else 0) data,
   elements ++ match markerOf code with Some m => [m] | None => [] end).
Proof.
  intros H. each_control_code H; cbn; rewrite ?app_nil_r; reflexivity.
Qed.

Lemma controlCode_length (code : Z) (data : list Z) (elements : list ParaTextElement) :
  (length (fst (controlCode code data elements)) <= length data)%nat.
Proof.
  unfold controlCode, skipBytes.
  repeat match goal with
         | |- context [if ?c then _ else _] => destruct c
         end; cbn [fst]; rewrite ?length_drop; lia.
Qed.

Lemma decodeUnit_length (code : Z) (data : list Z)
  (elements : list ParaTextElement) (stringBuffer : list Z) :
  (length (fst (fst (decodeUnit code data elements stringBuffer))) <= length data)%nat.
Proof.
  unfold decodeUnit. destruct (32 <=? code); [cbn; lia |].
  rewrite flushString_flushed.
  pose proof (controlCode_length code data (flushed elements stringBuffer)) as H.
  destruct (controlCode code data (flushed elements stringBuffer)). exact H.
Qed.

Lemma decodeLoop_step (fuel : nat) (b0 b1 : Z) (rest : list Z)
  (elements : list ParaTextElement) (stringBuffer : list Z) :
  decodeLoop (S fuel) (b0 :: b1 :: rest) elements stringBuffer =
  let '(data, elements', stringBuffer') :=
    decodeUnit (Uint16 [b0; b1]) rest elements stringBuffer in
  decodeLoop fuel data elements' stringBuffer'.
Proof. reflexivity. Qed.

Lemma decodeLoop_stop (fuel : nat) (data : list Z)
  (elements : list ParaTextElement) (stringBuffer : list Z) :
  (length data < 2)%nat ->
  decodeLoop (S fuel) data elements stringBuffer = Some (flushed elements stringBuffer).
Proof.
  intros Hd. destruct data as [| b0 [| b1 rest]]; cbn [length] in Hd; try lia;
    cbn; now rewrite flushString_flushed.
Qed.

Lemma decodeLoop_total (fuel : nat) :
  forall (data : list Z) (elements : list ParaTextElement) (stringBuffer : list Z),
    (length data < fuel)%nat ->
    exists els, decodeLoop fuel data elements stringBuffer = Some els.
Proof.
  induction fuel as [| fuel IH]; intros data elements stringBuffer Hf; [lia |].
  destruct data as [| b0 [| b1 rest]].
  - rewrite decodeLoop_stop by (cbn; lia). eauto.
  - rewrite decodeLoop_stop by (cbn; lia). eauto.
  - rewrite decodeLoop_step.
    pose proof (decodeUnit_length (Uint16 [b0; b1]) rest elements stringBuffer) as Hl.
    destruct (decodeUnit (Uint16 [b0; b1]) rest elements stringBuffer) as [[d e] b].
    cbn [fst length] in *. apply IH. lia.
Qed.

Lemma decodeParaTextElements_total (data : list Z) :
  exists els, decodeParaTextElements data = Some els.
Proof. apply decodeLoop_total. lia. Qed.

(** C5 (amended). One code unit of a paragraph-text payload: a unit of
    value 32 or more joins the pending literal run; a unit below 32 first
    flushes the pending run (a literal-run element, if the run is not
    empty) and leaves the run empty; then the codes 2, 3, 4, 8, 9, 10, 11,
    13, 15, 16, 17, 18, 21, 22, 23, 24, 30 and 31 emit their typed marker,
    which carries the code, while the unusable and reserved codes 0, 1, 5,
    6, 7, 12, 14, 19, 20 and 25 to 29 emit nothing; the codes 2 to 9, 11,
    12 and 14 to 23 also discard the next 14 bytes (or what is left of the
    payload).  The decoder applies this to each little-endian 16-bit unit
    in turn, stops where fewer than two bytes are left, flushes the run a
    last time, and always returns. *)
Theorem paraText_units (code : Z) (data : list Z)
  (elements : list ParaTextElement) (stringBuffer : list Z) :
  (32 <= code ->
     decodeUnit code data elements stringBuffer
     = (data, elements, stringBuffer ++ [code]))
  /\ (0 <= code < 32 ->
        decodeUnit code data elements stringBuffer
        = (drop (if memZ code blockCodes then 14 else 0) data,
           flushed elements stringBuffer
             ++ match markerOf code with Some m => [m] | None => [] end,
           [])
        /\ (memZ code markerCodes = true ->
              exists m, markerOf code = Some m /\ elementCode m = code
                        /\ isString m = false)
        /\ (memZ code silentCodes = true -> markerOf code = None)
        /\ memZ code silentCodes = negb (memZ code markerCodes))
  /\ (forall fuel b0 b1,
        decodeLoop (S fuel) (b0 :: b1 :: data) elements stringBuffer
        = let '(data', elements', stringBuffer') :=
            decodeUnit (Uint16 [b0; b1]) data elements stringBuffer in
          decodeLoop fuel data' elements' stringBuffer')
  /\ (forall fuel, (length data < 2)%nat ->
        decodeLoop (S fuel) data elements stringBuffer
        = Some (flushed elements stringBuffer))
  /\ (exists els, decodeParaTextElements data = Some els).
Proof.
  split; [| split; [| split; [| split]]].
  - intros H. unfold decodeUnit. destruct (Z.leb_spec 32 code); [reflexivity | lia].
  - intros H. split; [| split; [| split]].
    + unfold decodeUnit. destruct (Z.leb_spec 32 code); [lia |].
      rewrite flushString_flushed, controlCode_table by assumption. reflexivity.
    + intros Hm. each_control_code H; try discriminate Hm; cbn; eauto.
    + intros Hm. each_control_code H; try discriminate Hm; reflexivity.
    + each_control_code H; reflexivity.
  - intros fuel b0 b1. apply decodeLoop_step.
  - intros fuel Hd. now apply decodeLoop_stop.
  - apply decodeParaTextElements_total.
Qed.

Lemma paraText_units_witness :
  decodeUnit 9 (replicate 14 0 ++ [65; 0]) [] [72; 105]
  = ([65; 0], [ParaTextString 0 [72; 105]; ParaTextTab 9], []).
Proof.
  exact (proj1 (proj1 (proj2 (paraText_units 9 (replicate 14 0 ++ [65; 0])
                                [] [72; 105])) ltac:(lia))).
Defined.

(** C5 as stated fails: not every unit below 32 emits a marker.  The
    payload 05 00 holds the one unit 5 and decodes to no element at all;
    so no marker can be named for every control code. *)
Lemma reserved_code_emits_no_marker :
  decodeParaTextElements [5; 0] = Some []
  /\ ~ (forall code data elements stringBuffer,
          0 <= code < 32 ->
          exists m, isString m = false /\ elementCode m = code
                    /\ snd (fst (decodeUnit code data elements stringBuffer))
                       = flushed elements stringBuffer ++ [m]).
Proof.
  split; [reflexivity |].
  intros H. destruct (H 5 [] [] [] ltac:(lia)) as (m & _ & _ & Hm).
  cbn in Hm. discriminate Hm.
Qed.

(** *** List headers *)

Lemma nth_cellData (i : nat) (data : list Z) :
  (i < 26)%nat -> nth i (take 26 (drop 7 data)) 0 = nth (7 + i) data 0.
Proof.
  intros Hi. now rewrite !nth_lookup, lookup_take_lt, lookup_drop by lia.
Qed.

(** C6 (amended). A list-header record whose payload has at least 6 bytes
    gets its paragraph count from the first two bytes (little-endian,
    signed) and its property field from the next four; a shorter payload
    leaves both zero.  The record is flagged as a table cell if and only
    if the payload has at least 33 bytes; then the column index, row
    index, column span and row span are the single bytes at offsets 1, 3,
    5 and 7 of the 26-byte block [data[7:33]] (payload offsets 8, 10, 12
    and 14), a zero span being replaced by 1; a payload shorter than 33
    bytes is never flagged and leaves the four fields zero. *)
Theorem decodeListHeaderRecord_fields (b : recHeader) (data : list Z) :
  let rec := decodeListHeaderRecord b data in
  lh_header rec = b
  /\ ((6 <= length data)%nat ->
        ParaCount rec = int16 (Uint16 data) /\ Property rec = Uint32 (drop 2 data))
  /\ ((length data < 6)%nat -> ParaCount rec = 0 /\ Property rec = 0)
  /\ (IsCell rec = true <-> (33 <= length data)%nat)
  /\ ((33 <= length data)%nat ->
        ColIndex rec = nth 8 data 0
        /\ RowIndex rec = nth 10 data 0
        /\ ColSpan rec = (if nth 12 data 0 =? 0 then 1 else nth 12 data 0)
        /\ RowSpan rec = (if nth 14 data 0 =? 0 then 1 else nth 14 data 0)
        /\ ColSpan rec <> 0 /\ RowSpan rec <> 0)
  /\ ((length data < 33)%nat ->
        IsCell rec = false /\ ColIndex rec = 0 /\ RowIndex rec = 0
        /\ ColSpan rec = 0 /\ RowSpan rec = 0).
Proof.
  cbv zeta. unfold decodeListHeaderRecord.
  assert (length (take 26 (drop 7 data)) = Nat.min 26 (length data - 7)) as Hcd
      by now rewrite length_take, length_drop.
  destruct (Nat.leb_spec 6 (length data)) as [H6 | H6];
    destruct (Nat.leb_spec 33 (length data)) as [H33 | H33]; try lia.
  - destruct (Nat.leb_spec 8 (length (take 26 (drop 7 data)))); [| lia].
    cbn [lh_header ParaCount Property IsCell ColIndex RowIndex ColSpan RowSpan].
    rewrite !nth_cellData by lia. cbn [Nat.add].
    repeat split; try lia; try reflexivity.
    + destruct (Z.eqb_spec (nth 12 data 0) 0); lia.
    + destruct (Z.eqb_spec (nth 14 data 0) 0); lia.
  - cbn [lh_header ParaCount Property IsCell ColIndex RowIndex ColSpan RowSpan].
    repeat split; try lia; try reflexivity; try discriminate.
  - cbn [lh_header ParaCount Property IsCell ColIndex RowIndex ColSpan RowSpan].
    repeat split; try lia; try reflexivity; try discriminate.
Qed.

Lemma decodeListHeaderRecord_fields_witness :
  let rec := decodeListHeaderRecord {| TagID := 72; Level := 2; Size := 33 |}
               (map Z.of_nat (seq 0 33)) in
  IsCell rec = true /\ ColIndex rec = 8 /\ RowIndex rec = 10
  /\ ColSpan rec = 12 /\ RowSpan rec = 14.
Proof.
  pose proof (decodeListHeaderRecord_fields {| TagID := 72; Level := 2; Size := 33 |}
                (map Z.of_nat (seq 0 33))) as H.
  cbv zeta in *. destruct H as (_ & _ & _ & Hc & Hf & _).
  destruct (Hf ltac:(vm_compute; lia)) as (H1 & H2 & H3 & H4 & _).
  split; [apply Hc; vm_compute; lia |].
  rewrite H1, H2, H3, H4. vm_compute. repeat split.
Defined.

(** C6 as stated fails for a short payload: with the four bytes
    01 00 00 00 the head of the payload holds the 16-bit count 1, and the
    decoder leaves the paragraph count zero. *)
Lemma short_list_header_count_not_extracted :
  ParaCount (decodeListHeaderRecord {| TagID := 72; Level := 0; Size := 4 |}
               [1; 0; 0; 0]) = 0
  /\ int16 (Uint16 [1; 0; 0; 0]) = 1.
Proof. split; reflexivity. Qed.

(** *** Framing *)











Lemma decodeListHeaderRecord_header (b : recHeader) (data : list Z) :
  lh_header (decodeListHeaderRecord b data) = b.
Proof.
  unfold decodeListHeaderRecord.
  repeat match goal with
         | |- context [if ?c then _ else _] => destruct c
         end; reflexivity.
Qed.

(** The dispatch keeps the header, and the payload where it keeps one. *)
Lemma decodeRecord_header (base : recHeader) (data : list Z) :
  exists rec, decodeRecord base data = Some rec
              /\ header rec = base
              /\ (forall d, rawData rec = Some d -> d = data).
Proof.
  unfold decodeRecord, decodeParaTextRecord.
  destruct (decodeParaTextElements_total data) as [els ->].
  repeat match goal with
         | |- context [if ?c then _ else _] => destruct c
         end;
    (eexists; split; [reflexivity | split]);
    cbn [header rawData pt_header ch_header tb_header un_header
         decodeCtrlHeaderRecord decodeTableRecord ch_Data tb_Data un_Data];
    try apply decodeListHeaderRecord_header; try reflexivity;
    intros d Hd; congruence.
Qed.







End RecordFacts.

Module RenderFacts.
Import Render.

(** *** Column widths *)

Section Widths.
Context {cond : Condition}.

Lemma sumZ_cons (w : Z) (l : list Z) : sumZ (w :: l) = w + sumZ l.
Proof. reflexivity. Qed.

Lemma index_app_mid (pre mid : list Z) (w : Z) (i : Z) :
  0 <= i -> length pre = Z.to_nat i -> index (pre ++ w :: mid) i = Some w.
Proof.
  intros Hi Hl. unfold index. destruct (Z.ltb_spec i 0); [lia |].
  rewrite <- Hl. rewrite lookup_app_r by lia.
  now rewrite Nat.sub_diag.
Qed.

Lemma store_app_mid (pre mid : list Z) (w w' : Z) (i : Z) :
  0 <= i -> length pre = Z.to_nat i ->
  store (pre ++ w :: mid) i w' = Some (pre ++ w' :: mid).
Proof.
  intros Hi Hl. unfold store.
  rewrite length_app. cbn [length].
  destruct (Z.leb_spec 0 i); [| lia].
  destruct (Z.ltb_spec i (Z.of_nat (length pre + S (length mid)))); [| lia].
  cbn [andb]. rewrite <- Hl, insert_app_r_alt, Nat.sub_diag by lia.
  reflexivity.
Qed.

Lemma sumWidths_app (col : Z) (mid : list Z) :
  forall (pre post : list Z) (c acc : Z),
    0 <= col + c -> length pre = Z.to_nat (col + c) ->
    sumWidths (length mid) c (pre ++ mid ++ post) col acc = Some (acc + sumZ mid).
Proof.
  induction mid as [| w mid IH]; intros pre post c acc Hc Hl; cbn [length sumWidths].
  - cbn. f_equal. lia.
  - cbn [app]. rewrite index_app_mid by assumption.
    replace (pre ++ w :: mid ++ post) with ((pre ++ [w]) ++ mid ++ post)
      by now rewrite <- app_assoc.
    rewrite IH by (rewrite ?length_app; cbn [length]; lia).
    rewrite sumZ_cons. f_equal. lia.
Qed.

Lemma addWidths_app (col perCol remainder : Z) (mid : list Z) :
  forall (pre post : list Z) (c : Z),
    0 <= col + c -> length pre = Z.to_nat (col + c) ->
    addWidths (length mid) c (pre ++ mid ++ post) col perCol remainder
    = Some (pre ++ bump c perCol remainder mid ++ post).
Proof.
  induction mid as [| w mid IH]; intros pre post c Hc Hl;
    cbn [length addWidths bump]; [reflexivity |].
  cbn [app]. rewrite index_app_mid by assumption.
  rewrite store_app_mid by assumption.
  set (w' := if c <? remainder then w + perCol + 1 else w + perCol).
  replace (pre ++ w' :: mid ++ post) with ((pre ++ [w']) ++ mid ++ post)
    by now rewrite <- app_assoc.
  rewrite IH by (rewrite ?length_app; cbn [length]; lia).
  now rewrite <- app_assoc.
Qed.

Lemma bump_length (perCol remainder : Z) (ws : list Z) :
  forall c, length (bump c perCol remainder ws) = length ws.
Proof. induction ws as [| w ws IH]; intros c; cbn [bump length]; auto. Qed.

Lemma bump_nth (perCol remainder : Z) (ws : list Z) :
  forall (c : Z) (k : nat),
    (k < length ws)%nat ->
    nth k (bump c perCol remainder ws) 0
    = nth k ws 0 + perCol + (if c + Z.of_nat k <? remainder then 1 else 0).
Proof.
  induction ws as [| w ws IH]; intros c k Hk; cbn [length] in Hk; [lia |].
  destruct k as [| k]; cbn [bump nth].
  - replace (c + Z.of_nat 0) with c by lia. destruct (c <? remainder); lia.
  - rewrite IH by lia. replace (c + 1 + Z.of_nat k) with (c + Z.of_nat (S k)) by lia.
    reflexivity.
Qed.

Lemma bump_sum (perCol remainder : Z) (ws : list Z) :
  forall c,
    sumZ (bump c perCol remainder ws)
    = sumZ ws + Z.of_nat (length ws) * perCol
      + Z.max 0 (Z.min (c + Z.of_nat (length ws)) remainder - c).
Proof.
  induction ws as [| w ws IH]; intros c; cbn [bump length].
  - cbn. lia.
  - rewrite !sumZ_cons, IH. destruct (Z.ltb_spec c remainder); lia.
Qed.

(** The decomposition of the width slice around the spanned columns. *)
Lemma split_span (cw : list Z) (s n : nat) :
  (s + n <= length cw)%nat ->
  cw = take s cw ++ take n (drop s cw) ++ drop (s + n) cw
  /\ length (take s cw) = s /\ length (take n (drop s cw)) = n.
Proof.
  intros H. split; [| split].
  - rewrite <- drop_drop, take_drop. now rewrite take_drop.
  - rewrite length_take. lia.
  - rewrite length_take, length_drop. lia.
Qed.

Lemma nth_app_mid (pre mid post : list Z) (k : nat) :
  (k < length mid)%nat -> nth (length pre + k) (pre ++ mid ++ post) 0 = nth k mid 0.
Proof.
  intros Hk. rewrite !nth_lookup, lookup_app_r by lia.
  replace (length pre + k - length pre)%nat with k by lia.
  now rewrite lookup_app_l by lia.
Qed.

(** The distribution step on the decomposed slice. *)
Lemma widenSpan_app (lines : list (list (list Z))) (id : nat) (cell : Cell)
  (pre mid post : list Z) :
  1 < ColSpan cell -> 0 <= Col cell ->
  length pre = Z.to_nat (Col cell) -> length mid = Z.to_nat (ColSpan cell) ->
  sumZ mid < maxLineWidth (linesOf lines id) ->
  widenSpan lines (pre ++ mid ++ post) (id, cell)
  = Some (pre ++ bump 0 ((maxLineWidth (linesOf lines id) - sumZ mid) / ColSpan cell)
                       ((maxLineWidth (linesOf lines id) - sumZ mid) mod ColSpan cell)
                       mid ++ post).
Proof.
  intros Hspan Hcol Hpre Hmid Hlt. unfold widenSpan. cbn [fst snd].
  destruct (Z.gtb_spec (ColSpan cell) 1); [| lia].
  rewrite <- Hmid.
  rewrite sumWidths_app by (rewrite ?Z.add_0_r; assumption).
  rewrite Z.add_0_l.
  destruct (Z.gtb_spec (maxLineWidth (linesOf lines id)) (sumZ mid)); [| lia].
  rewrite addWidths_app by (rewrite ?Z.add_0_r; assumption).
  rewrite Z.quot_div_nonneg, Z.rem_mod_nonneg by lia.
  reflexivity.
Qed.

(** X28. The step of the third loop of computeColWidths on a cell that
    spans more than one column, all of them columns of the width slice
    (0 <= Col and Col + ColSpan <= number of columns), and whose required
    width (the maximum display width over its lines) exceeds the sum of
    their current widths: every spanned column gains (shortfall div span),
    the leftmost (shortfall mod span) of them gain one more, no other
    column changes, and the spanned widths then sum to exactly the
    required width.  For a span of 2 the two widths sum to the required
    width and the odd unit, if any, goes to the left column. *)
Theorem widenSpan_distributes (lines : list (list (list Z))) (cw : list Z)
  (id : nat) (cell : Cell) :
  let span := ColSpan cell in
  let col := Col cell in
  let required := maxLineWidth (linesOf lines id) in
  let shortfall := required - spannedWidth cw col span in
  1 < span -> 0 <= col -> col + span <= Z.of_nat (length cw) ->
  spannedWidth cw col span < required ->
  exists cw',
    widenSpan lines cw (id, cell) = Some cw'
    /\ length cw' = length cw
    /\ (forall c, 0 <= c < span ->
          nth (Z.to_nat (col + c)) cw' 0
          = nth (Z.to_nat (col + c)) cw 0 + shortfall / span
            + (if c <? shortfall mod span then 1 else 0))
    /\ (forall j, (j < Z.to_nat col \/ Z.to_nat (col + span) <= j)%nat ->
          cw' !! j = cw !! j)
    /\ spannedWidth cw' col span = required
    /\ (span = 2 ->
          nth (Z.to_nat col) cw' 0 + nth (Z.to_nat (col + 1)) cw' 0 = required
          /\ nth (Z.to_nat col) cw' 0
             = nth (Z.to_nat col) cw 0 + shortfall / 2 + shortfall mod 2
          /\ nth (Z.to_nat (col + 1)) cw' 0
             = nth (Z.to_nat (col + 1)) cw 0 + shortfall / 2).
Proof.
  cbv zeta. intros Hspan Hcol Hin Hlt.
  destruct (split_span cw (Z.to_nat (Col cell)) (Z.to_nat (ColSpan cell)))
    as (Hcw & Hpre & Hmid); [lia |].
  set (pre := take (Z.to_nat (Col cell)) cw) in *.
  set (mid := take (Z.to_nat (ColSpan cell)) (drop (Z.to_nat (Col cell)) cw)) in *.
  set (post := drop (Z.to_nat (Col cell) + Z.to_nat (ColSpan cell)) cw) in *.
  assert (spannedWidth cw (Col cell) (ColSpan cell) = sumZ mid) as Hsum by reflexivity.
  rewrite Hsum in *.
  set (required := maxLineWidth (linesOf lines id)) in *.
  set (q := (required - sumZ mid) / ColSpan cell).
  set (m := (required - sumZ mid) mod ColSpan cell).
  assert (0 <= m < ColSpan cell) as Hm by (apply Z.mod_pos_bound; lia).
  assert (required - sumZ mid = ColSpan cell * q + m) as Hqm
      by (apply Z.div_mod; lia).
  exists (pre ++ bump 0 q m mid ++ post).
  assert (forall c, 0 <= c < ColSpan cell ->
            nth (Z.to_nat (Col cell + c)) (pre ++ bump 0 q m mid ++ post) 0
            = nth (Z.to_nat (Col cell + c)) cw 0 + q + (if c <? m then 1 else 0))
    as Hnth.
  { intros c Hc.
    replace (Z.to_nat (Col cell + c)) with (length pre + Z.to_nat c)%nat by lia.
    rewrite nth_app_mid by (rewrite bump_length; lia).
    rewrite bump_nth by lia.
    rewrite Hcw. rewrite nth_app_mid by lia.
    now rewrite Z2Nat.id, Z.add_0_l by lia. }
  assert (spannedWidth (pre ++ bump 0 q m mid ++ post) (Col cell) (ColSpan cell)
          = required) as Hnew.
  { unfold spannedWidth. rewrite <- Hpre at 1. rewrite drop_app_length.
    rewrite <- (bump_length q m mid 0) in Hmid. rewrite <- Hmid, take_app_length.
    rewrite bump_sum. rewrite bump_length in Hmid. lia. }
  split; [| split; [| split; [| split; [| split]]]].
  - rewrite Hcw. now apply widenSpan_app.
  - rewrite Hcw. rewrite !length_app, bump_length. reflexivity.
  - exact Hnth.
  - intros j Hj. rewrite Hcw. destruct Hj as [Hj | Hj].
    + now rewrite !lookup_app_l by lia.
    + rewrite !lookup_app_r by (rewrite ?bump_length; lia).
      now rewrite bump_length.
  - exact Hnew.
  - intros H2.
    pose proof (Hnth 0 ltac:(lia)) as H0. pose proof (Hnth 1 ltac:(lia)) as H1.
    rewrite Z.add_0_r in H0.
    replace ((required - sumZ mid) / 2) with q by (unfold q; now rewrite H2).
    replace ((required - sumZ mid) mod 2) with m by (unfold m; now rewrite H2).
    assert (sumZ mid = nth 0 mid 0 + nth 1 mid 0) as Htwo.
    { destruct mid as [| a [| b [| c mid']]]; cbn [length] in Hmid; try lia.
      cbn. lia. }
    assert (nth (Z.to_nat (Col cell)) cw 0 = nth 0 mid 0) as Hc0.
    { rewrite Hcw. replace (Z.to_nat (Col cell)) with (length pre + 0)%nat by lia.
      apply nth_app_mid. lia. }
    assert (nth (Z.to_nat (Col cell + 1)) cw 0 = nth 1 mid 0) as Hc1.
    { rewrite Hcw. replace (Z.to_nat (Col cell + 1)) with (length pre + 1)%nat by lia.
      apply nth_app_mid. lia. }
    destruct (Z.ltb_spec 0 m); destruct (Z.ltb_spec 1 m); lia.
Qed.

End Widths.

(** C7. A multi-column cell whose span reaches past the last column.  The
    ownership loop of buildLayout stops at the table's edge: the cell of
    [overhangTable] owns the two positions of the row.  The third loop of
    computeColWidths sums and widens colWidths[cell.Col+c] for every
    c < cell.ColSpan without that test: at c = 2 the index is out of
    range, so computeColWidths, buildLayout and Render panic, whatever the
    display widths of the characters, and no shortfall is distributed. *)
Theorem span_past_last_column_panics (cond : Condition) :
  foldM (ownCell overhangTable) (cellsWithId overhangTable) [[None; None]]
  = Some [[Some 0%nat; Some 0%nat]]
  /\ sumWidths 2 0 [1; 1] 0 0 = Some 2
  /\ sumWidths 3 0 [1; 1] 0 0 = None
  /\ computeColWidths overhangTable
       (map (fun cell => Split (Text cell) 10) (Cells overhangTable)) [0; 0] = None
  /\ buildLayout overhangTable = None
  /\ Render overhangTable = None.
Proof. repeat split; reflexivity. Qed.

Lemma widenSpan_distributes_witness :
  @widenSpan sampleCondition [[[72; 101; 97; 100; 101; 114]]] [1; 2; 1]
    (0%nat, {| Row := 0; Col := 0; Text := [72; 101; 97; 100; 101; 114];
               RowSpan := 1; ColSpan := 2 |})
  = Some [3; 3; 1].
Proof.
  destruct (@widenSpan_distributes sampleCondition
              [[[72; 101; 97; 100; 101; 114]]] [1; 2; 1] 0%nat
              {| Row := 0; Col := 0; Text := [72; 101; 97; 100; 101; 114];
                 RowSpan := 1; ColSpan := 2 |}
              ltac:(cbn; lia) ltac:(cbn; lia) ltac:(cbn; lia)
              ltac:(vm_compute; reflexivity))
    as (cw' & Hw & _).
  rewrite Hw. f_equal. vm_compute in Hw. congruence.
Defined.

(** *** The layout of a full 2-by-3 grid *)

Section Grid.
Context {cond : Condition} (cells : list Cell).

Let t : Table := {| Rows := 2; Cols := 3; Cells := cells |}.
Let lines : list (list (list Z)) := map (fun cell => Split (Text cell) 10) cells.

Let seen := seen cells.
Let owned := owned cells.

Lemma unitCell_position (cell : Cell) :
  unitCell cell ->
  (Row cell = 0 \/ Row cell = 1) /\ (Col cell = 0 \/ Col cell = 1 \/ Col cell = 2).
Proof. unfold unitCell. lia. Qed.

Lemma ownCell_unit (g : Z -> Z -> option nat) (id : nat) (cell : Cell) :
  unitCell cell ->
  ownCell t (grid6 g) (id, cell) = Some (grid6 (setOwner g (Row cell) (Col cell) id)).
Proof.
  intros Hu. destruct (unitCell_position cell Hu) as [Hr Hc].
  destruct Hu as (_ & _ & Hrs & Hcs & _).
  destruct cell as [R C T RS CS]. cbn [Row Col RowSpan ColSpan] in *. subst RS CS.
  destruct Hr as [-> | ->], Hc as [-> | [-> | ->]]; reflexivity.
Qed.

Lemma owners_fold (ics : list (nat * Cell)) :
  forall g, owned g -> Forall seen ics ->
    exists g', foldM (ownCell t) ics (grid6 g) = Some (grid6 g')
               /\ owned g'
               /\ (forall r c, g r c <> None -> g' r c <> None)
               /\ Forall (fun ic => g' (Row (snd ic)) (Col (snd ic)) <> None) ics.
Proof.
  induction ics as [| [id cell] ics IH]; intros g Hg Hseen.
  - exists g. cbn [foldM]. auto.
  - inversion Hseen as [| ? ? (Hid & Hu & Hl) Hrest]; subst. cbn [fst snd] in *.
    cbn [foldM]. rewrite ownCell_unit by exact Hu.
    destruct (IH (setOwner g (Row cell) (Col cell) id)) as (g' & Hf & Hg' & Hkeep & Hcov).
    + intros r c id' Hset. unfold setOwner in Hset.
      destruct ((r =? Row cell) && (c =? Col cell)) eqn:Hpos.
      * inversion Hset; subst. exists cell.
        apply andb_true_iff in Hpos. destruct Hpos as [H1 H2].
        apply Z.eqb_eq in H1, H2. auto.
      * now apply Hg.
    + exact Hrest.
    + exists g'. split; [exact Hf | split; [exact Hg' | split]].
      * intros r c Hne. apply Hkeep. unfold setOwner.
        destruct ((r =? Row cell) && (c =? Col cell)); [discriminate | exact Hne].
      * constructor; [| exact Hcov]. cbn [snd]. apply Hkeep.
        unfold setOwner. now rewrite !Z.eqb_refl.
Qed.

Lemma index3 {A} (a b c : A) :
  index [a; b; c] 0 = Some a /\ index [a; b; c] 1 = Some b
  /\ index [a; b; c] 2 = Some c.
Proof. repeat split. Qed.

Lemma store3 {A} (a b c x : A) :
  store [a; b; c] 0 x = Some [x; b; c] /\ store [a; b; c] 1 x = Some [a; x; c]
  /\ store [a; b; c] 2 x = Some [a; b; x].
Proof. repeat split. Qed.

Lemma widenSingle_unit (w : Z -> Z) (id : nat) (cell : Cell) :
  unitCell cell ->
  widenSingle lines (widths3 w) (id, cell)
  = Some (widths3 (raise w (Col cell) (maxLineWidth (linesOf lines id)))).
Proof.
  intros Hu. destruct (unitCell_position cell Hu) as [_ Hc].
  destruct Hu as (_ & _ & _ & Hcs & _).
  destruct cell as [R C T RS CS]. cbn [Row Col RowSpan ColSpan] in *. subst CS.
  unfold widenSingle. cbn [fst snd ColSpan Col]. change (1 =? 1) with true. cbv iota.
  generalize (maxLineWidth (linesOf lines id)). intros mw.
  unfold widths3, raise.
  destruct (index3 (w 0) (w 1) (w 2)) as (I0 & I1 & I2).
  destruct (store3 (w 0) (w 1) (w 2) mw) as (S0 & S1 & S2).
  destruct Hc as [-> | [-> | ->]];
    rewrite ?I0, ?I1, ?I2, ?S0, ?S1, ?S2;
    change (0 =? 0) with true; change (1 =? 1) with true; change (2 =? 2) with true;
    change (0 =? 1) with false; change (0 =? 2) with false;
    change (1 =? 0) with false; change (1 =? 2) with false;
    change (2 =? 0) with false; change (2 =? 1) with false; cbv iota;
    match goal with
    | |- context [mw >? ?x] => destruct (Z.gtb_spec mw x)
    end; repeat f_equal; lia.
Qed.

Lemma widths_fold (ics : list (nat * Cell)) :
  forall w, Forall seen ics ->
    exists w', foldM (widenSingle lines) ics (widths3 w) = Some (widths3 w')
               /\ (forall c, w c <= w' c)
               /\ Forall (fun ic => maxLineWidth [Text (snd ic)] <= w' (Col (snd ic))) ics.
Proof.
  induction ics as [| [id cell] ics IH]; intros w Hseen.
  - exists w. cbn [foldM]. split; [reflexivity | split; [lia | constructor]].
  - inversion Hseen as [| ? ? (Hid & Hu & Hl) Hrest]; subst. cbn [fst snd] in *.
    change (linesOf lines id = [Text cell]) in Hl.
    cbn [foldM]. rewrite widenSingle_unit by exact Hu. rewrite Hl.
    destruct (IH (raise w (Col cell) (maxLineWidth [Text cell])) Hrest)
      as (w' & Hf & Hmono & Hcov).
    exists w'. split; [exact Hf | split].
    + intros c. specialize (Hmono c). unfold raise in Hmono.
      destruct (c =? Col cell); lia.
    + constructor; [| exact Hcov]. cbn [snd].
      specialize (Hmono (Col cell)). unfold raise in Hmono.
      rewrite Z.eqb_refl in Hmono. lia.
Qed.

Lemma spans_fold (ics : list (nat * Cell)) (cw : list Z) :
  Forall seen ics -> foldM (widenSpan lines) ics cw = Some cw.
Proof.
  induction 1 as [| [id cell] ics (_ & Hu & _) _ IH]; [reflexivity |].
  cbn [foldM]. unfold widenSpan at 1. cbn [snd fst] in *.
  destruct Hu as (_ & _ & _ & -> & _). exact IH.
Qed.

Lemma rowHeight_fold (row : Z) (ics : list (nat * Cell)) :
  Forall seen ics ->
  fold_left (fun maxLines (ic : nat * Cell) =>
               if Row (snd ic) =? row then
                 let lineCount := Z.of_nat (length (linesOf lines (fst ic))) in
                 if lineCount >? maxLines then lineCount else maxLines
               else maxLines) ics 1 = 1.
Proof.
  induction 1 as [| [id cell] ics (_ & _ & Hl) _ IH]; [reflexivity |].
  cbn [fst snd] in Hl. change (linesOf lines id = [Text cell]) in Hl.
  cbn [fold_left fst snd]. rewrite Hl.
  destruct (Row cell =? row); exact IH.
Qed.

Lemma Split_single (ch : Z) : ch <> 10 -> Split [ch] 10 = [[ch]].
Proof. intros H. cbn [Split]. destruct (Z.eqb_spec ch 10); [contradiction | reflexivity]. Qed.

Lemma cellsWithId_lookup (i : nat) (cell : Cell) :
  cells !! i = Some cell -> cellsWithId t !! i = Some (i, cell).
Proof.
  intros H. unfold cellsWithId. cbn [Cells t].
  apply lookup_zip_Some. split; [| exact H].
  apply lookup_seq. split; [reflexivity |]. now apply lookup_lt_Some in H.
Qed.

Lemma cellsWithId_seen :
  Forall unitCell cells -> Forall (fun cell => ~ In 10 (Text cell)) cells ->
  Forall seen (cellsWithId t).
Proof.
  intros Hu Hn. apply Forall_lookup_2. intros i [id cell] Hi.
  unfold cellsWithId in Hi. cbn [Cells t] in Hi.
  apply lookup_zip_Some in Hi. destruct Hi as [Hs Hc].
  apply lookup_seq in Hs. destruct Hs as [-> _]. cbn [Nat.add].
  pose proof (Forall_lookup_1 _ _ _ _ Hu Hc) as Hcell.
  pose proof (Forall_lookup_1 _ _ _ _ Hn Hc) as Hnl. cbn beta in Hnl.
  split; [exact Hc | split; [exact Hcell |]]. cbn [fst snd].
  unfold linesOf. rewrite list_lookup_fmap, Hc. cbn [fmap option_fmap option_map default].
  destruct Hcell as (_ & _ & _ & _ & ch & Hch). rewrite Hch in *.
  rewrite Split_single; [reflexivity |].
  intros ->. apply Hnl. now left.
Qed.

(** The layout of a full grid: every position has an owner, a cell at
    that position; every column is at least 1 wide and as wide as each of
    its cells; every row is one line high. *)
Lemma buildLayout_grid :
  fullGrid t -> noNewline t ->
  exists g w,
    buildLayout t
    = Some {| table := t; cellOwner := grid6 g; colWidths := widths3 w;
              rowHeights := [1; 1]; cellLines := lines |}
    /\ owned g
    /\ (forall r c, 0 <= r < 2 -> 0 <= c < 3 -> g r c <> None)
    /\ (forall c, 1 <= w c)
    /\ (forall id cell, cells !! id = Some cell ->
                        maxLineWidth [Text cell] <= w (Col cell)).
Proof.
  intros (_ & _ & Hu & Hfull) Hn. cbn [Cells t] in Hu, Hfull. unfold noNewline in Hn.
  cbn [Cells t] in Hn.
  pose proof (cellsWithId_seen Hu Hn) as Hseen.
  destruct (owners_fold (cellsWithId t) (fun _ _ => None)) as (g & Hg & Hown & _ & Hcov);
    [intros r c id H; discriminate H | exact Hseen |].
  destruct (widths_fold (cellsWithId t) (fun _ => 1) Hseen) as (w & Hw & Hmono & Hwide).
  exists g, w. split; [| split; [exact Hown | split; [| split]]].
  - unfold buildLayout.
    change (make (Rows t) (replicate (Z.to_nat (Cols t)) None))
      with (Some (grid6 (fun _ _ => None))).
    change (make (Cols t) 0) with (Some [0; 0; 0]).
    cbv iota. rewrite Hg.
    change (map (fun cell : Cell => Split (Text cell) 10) (Cells t)) with lines.
    unfold computeColWidths.
    change (map (fun _ : Z => 1) [0; 0; 0]) with (widths3 (fun _ => 1)).
    rewrite Hw, spans_fold by exact Hseen.
    unfold computeRowHeights. change (Z.to_nat (Rows t)) with 2%nat.
    cbn [seq map]. unfold rowHeight.
    now rewrite !rowHeight_fold by exact Hseen.
  - intros r c Hr Hc. destruct (Hfull r c Hr Hc) as (cell & Hin & <- & <-).
    apply list_elem_of_In, list_elem_of_lookup in Hin. destruct Hin as [i Hi].
    apply cellsWithId_lookup in Hi.
    exact (Forall_lookup_1 _ _ _ _ Hcov Hi).
  - intros c. specialize (Hmono c). cbn beta in Hmono. lia.
  - intros id cell Hid. apply cellsWithId_lookup in Hid.
    exact (Forall_lookup_1 _ _ _ _ Hwide Hid).
Qed.

(** *** Display widths of the rendered pieces *)

Lemma displayWidth_app (a b : list Z) :
  displayWidth (a ++ b) = displayWidth a + displayWidth b.
Proof.
  unfold displayWidth. induction a as [| x a IH]; cbn [app fold_right]; lia.
Qed.

Lemma displayWidth_replicate (n : nat) (c : Z) :
  displayWidth (replicate n c) = Z.of_nat n * RuneWidth c.
Proof.
  unfold displayWidth. induction n as [| n IH]; cbn [replicate fold_right]; lia.
Qed.

Lemma displayWidth_single (c : Z) : displayWidth [c] = RuneWidth c.
Proof. unfold displayWidth. cbn [fold_right]. lia. Qed.

Lemma maxLineWidth_single (line : list Z) : displayWidth line <= maxLineWidth [line].
Proof.
  unfold maxLineWidth. cbn [fold_left].
  destruct (Z.gtb_spec (displayWidth line) 0); lia.
Qed.

Lemma Repeat_ok (c n : Z) : 0 <= n -> Repeat c n = Some (replicate (Z.to_nat n) c).
Proof. intros H. unfold Repeat. destruct (Z.ltb_spec n 0); [lia | reflexivity]. Qed.

Lemma not_In_replicate (n : nat) (c x : Z) : c <> x -> ~ In x (replicate n c).
Proof.
  intros Hc Hin. apply list_elem_of_In, elem_of_replicate in Hin.
  destruct Hin as [Heq _]. congruence.
Qed.

(** The layout of the grid with the owners [g] and the widths [w]. *)
Let layoutOf (g : Z -> Z -> option nat) (w : Z -> Z) : Layout :=
  {| table := t; cellOwner := grid6 g; colWidths := widths3 w;
     rowHeights := [1; 1]; cellLines := lines |}.

Lemma needsHorizontalLine_grid (g : Z -> Z -> option nat) (w : Z -> Z)
  (rowIdx colIdx : Z) :
  rowIdx = -1 \/ rowIdx = 0 \/ rowIdx = 1 ->
  colIdx = 0 \/ colIdx = 1 \/ colIdx = 2 ->
  exists b, needsHorizontalLine (layoutOf g w) rowIdx colIdx = Some b.
Proof.
  intros [-> | [-> | ->]] [-> | [-> | ->]]; eexists; reflexivity.
Qed.

Lemma needsVerticalLine_grid (g : Z -> Z -> option nat) (w : Z -> Z)
  (rowIdx colIdx : Z) :
  rowIdx = -1 \/ rowIdx = 0 \/ rowIdx = 1 ->
  colIdx = 0 \/ colIdx = 1 ->
  exists b, needsVerticalLine (layoutOf g w) rowIdx colIdx = Some b.
Proof.
  intros [-> | [-> | ->]] [-> | ->]; eexists; reflexivity.
Qed.

Lemma renderBorderLine_grid (g : Z -> Z -> option nat) (w : Z -> Z) (rowIdx : Z) :
  (forall c, 1 <= w c) ->
  rowIdx = -1 \/ rowIdx = 0 \/ rowIdx = 1 ->
  exists h0 h1 h2 v0 v1 : bool,
    renderBorderLine (layoutOf g w) rowIdx
    = Some ([43] ++ replicate (Z.to_nat (w 0 + 2)) (if h0 then 45 else 32)
                 ++ [if v0 then 43 else 45]
                 ++ replicate (Z.to_nat (w 1 + 2)) (if h1 then 45 else 32)
                 ++ [if v1 then 43 else 45]
                 ++ replicate (Z.to_nat (w 2 + 2)) (if h2 then 45 else 32)
                 ++ [43]).
Proof.
  intros Hw Hrow.
  destruct (needsHorizontalLine_grid g w rowIdx 0 Hrow ltac:(lia)) as [h0 Hh0].
  destruct (needsHorizontalLine_grid g w rowIdx 1 Hrow ltac:(lia)) as [h1 Hh1].
  destruct (needsHorizontalLine_grid g w rowIdx 2 Hrow ltac:(lia)) as [h2 Hh2].
  destruct (needsVerticalLine_grid g w rowIdx 0 Hrow ltac:(lia)) as [v0 Hv0].
  destruct (needsVerticalLine_grid g w rowIdx 1 Hrow ltac:(lia)) as [v1 Hv1].
  exists h0, h1, h2, v0, v1.
  unfold renderBorderLine.
  change (Z.to_nat (Cols (table (layoutOf g w)))) with 3%nat.
  cbn [borderLoop].
  rewrite Hh0.
  change (index (colWidths (layoutOf g w)) 0) with (Some (w 0)).
  cbv iota. rewrite (Repeat_ok _ (w 0 + 2)) by (specialize (Hw 0); lia).
  change (0 <? Cols (table (layoutOf g w)) - 1) with true. cbv iota.
  rewrite Hv0.
  change (0 + 1) with 1. rewrite Hh1.
  change (index (colWidths (layoutOf g w)) 1) with (Some (w 1)).
  cbv iota. rewrite (Repeat_ok _ (w 1 + 2)) by (specialize (Hw 1); lia).
  change (1 <? Cols (table (layoutOf g w)) - 1) with true. cbv iota.
  rewrite Hv1.
  change (1 + 1) with 2. rewrite Hh2.
  change (index (colWidths (layoutOf g w)) 2) with (Some (w 2)).
  cbv iota. rewrite (Repeat_ok _ (w 2 + 2)) by (specialize (Hw 2); lia).
  change (2 <? Cols (table (layoutOf g w)) - 1) with false. cbv iota.
  rewrite <- !app_assoc. reflexivity.
Qed.

(** One field of a content line: the owner of the position starts here,
    has no span, and shows its single character padded to the column. *)
Lemma contentLoop_field (fuel : nat) (g : Z -> Z -> option nat) (w : Z -> Z)
  (r c : Z) (sb : list Z) (id : nat) (cell : Cell) (ch : Z) :
  r = 0 \/ r = 1 -> c = 0 \/ c = 1 \/ c = 2 ->
  g r c = Some id -> cells !! id = Some cell ->
  Row cell = r -> Col cell = c -> ColSpan cell = 1 -> Text cell = [ch] ->
  linesOf lines id = [[ch]] -> RuneWidth ch <= w c ->
  contentLoop (S fuel) (layoutOf g w) r 0 c sb
  = contentLoop fuel (layoutOf g w) r 0 (c + 1)
      (if c + 1 <? 3
       then sb ++ ([32] ++ [ch] ++ replicate (Z.to_nat (w c - RuneWidth ch)) 32
                        ++ [32]) ++ [124]
       else sb ++ ([32] ++ [ch] ++ replicate (Z.to_nat (w c - RuneWidth ch)) 32
                        ++ [32])).
Proof.
  intros Hr Hc Hg Hid Hrow Hcol Hspan Htext Hlines Hwide.
  cbn [contentLoop].
  assert (index (cellOwner (layoutOf g w)) r = Some [g r 0; g r 1; g r 2]) as ->
      by (destruct Hr as [-> | ->]; reflexivity).
  assert (index [g r 0; g r 1; g r 2] c = Some (g r c)) as ->
      by (destruct Hc as [-> | [-> | ->]]; reflexivity).
  rewrite Hg.
  change (Cells (table (layoutOf g w))) with cells. rewrite Hid.
  rewrite Hcol, Z.eqb_refl, Hspan.
  change (Cols (table (layoutOf g w))) with 3.
  assert ((c <? 3) = true) as -> by (apply Z.ltb_lt; lia).
  change (Z.to_nat 1) with 1%nat. cbn [sumWidths].
  assert (index (colWidths (layoutOf g w)) (c + 0) = Some (w c)) as ->
      by (destruct Hc as [-> | [-> | ->]]; reflexivity).
  cbn [sumWidths]. change (1 >? 1) with false. cbv iota.
  unfold cellText. change (cellLines (layoutOf g w)) with lines.
  rewrite Hlines, Hrow, Z.eqb_refl.
  change (0 <? Z.of_nat (length [[ch]])) with true. cbv iota.
  change (index [[ch]] 0) with (Some [ch]). cbv iota.
  rewrite displayWidth_single, Z.add_0_l.
  destruct (Z.ltb_spec (w c - RuneWidth ch) 0); [lia |].
  rewrite Repeat_ok by lia.
  destruct (c + 1 <? 3); reflexivity.
Qed.

(** What the layout knows of the owner of a position. *)
Lemma owner_at (g : Z -> Z -> option nat) (w : Z -> Z) (r c : Z) :
  owned g ->
  (forall r c, 0 <= r < 2 -> 0 <= c < 3 -> g r c <> None) ->
  (forall id cell, cells !! id = Some cell ->
                   maxLineWidth [Text cell] <= w (Col cell)) ->
  Forall (fun cell => ~ In 10 (Text cell)) cells ->
  0 <= r < 2 -> 0 <= c < 3 ->
  exists id cell ch,
    g r c = Some id /\ cells !! id = Some cell
    /\ Row cell = r /\ Col cell = c /\ ColSpan cell = 1 /\ Text cell = [ch]
    /\ linesOf lines id = [[ch]] /\ RuneWidth ch <= w c /\ ch <> 10.
Proof.
  intros Hown Hcov Hwide Hn Hr Hc.
  destruct (g r c) as [id |] eqn:Hg; [| now destruct (Hcov r c Hr Hc)].
  destruct (Hown r c id Hg) as (cell & Hid & Hu & Hrow & Hcol & Hl).
  pose proof Hu as (_ & _ & _ & Hspan & ch & Hch).
  exists id, cell, ch.
  pose proof (Hwide id cell Hid) as Hw. rewrite Hch, Hcol in Hw.
  pose proof (maxLineWidth_single [ch]) as Hm. rewrite displayWidth_single in Hm.
  pose proof (Forall_lookup_1 _ _ _ _ Hn Hid) as Hnl. cbn beta in Hnl.
  rewrite Hch in Hnl, Hl. change (linesOf lines id = [[ch]]) in Hl.
  repeat split; try assumption; try lia.
  intros ->. apply Hnl. now left.
Qed.

Lemma renderContentLine_grid (g : Z -> Z -> option nat) (w : Z -> Z) (r : Z) :
  owned g ->
  (forall r c, 0 <= r < 2 -> 0 <= c < 3 -> g r c <> None) ->
  (forall id cell, cells !! id = Some cell ->
                   maxLineWidth [Text cell] <= w (Col cell)) ->
  Forall (fun cell => ~ In 10 (Text cell)) cells ->
  r = 0 \/ r = 1 ->
  exists ch0 ch1 ch2,
    (ch0 <> 10 /\ ch1 <> 10 /\ ch2 <> 10)
    /\ (RuneWidth ch0 <= w 0 /\ RuneWidth ch1 <= w 1 /\ RuneWidth ch2 <= w 2)
    /\ renderContentLine (layoutOf g w) r 0
       = Some ([124]
                 ++ ([32] ++ [ch0] ++ replicate (Z.to_nat (w 0 - RuneWidth ch0)) 32
                          ++ [32]) ++ [124]
                 ++ ([32] ++ [ch1] ++ replicate (Z.to_nat (w 1 - RuneWidth ch1)) 32
                          ++ [32]) ++ [124]
                 ++ ([32] ++ [ch2] ++ replicate (Z.to_nat (w 2 - RuneWidth ch2)) 32
                          ++ [32]) ++ [124]).
Proof.
  intros Hown Hcov Hwide Hn Hr.
  destruct (owner_at g w r 0 Hown Hcov Hwide Hn ltac:(lia) ltac:(lia))
    as (id0 & cell0 & ch0 & Hg0 & Hid0 & Hrow0 & Hcol0 & Hs0 & Ht0 & Hl0 & Hw0 & Hc0).
  destruct (owner_at g w r 1 Hown Hcov Hwide Hn ltac:(lia) ltac:(lia))
    as (id1 & cell1 & ch1 & Hg1 & Hid1 & Hrow1 & Hcol1 & Hs1 & Ht1 & Hl1 & Hw1 & Hc1).
  destruct (owner_at g w r 2 Hown Hcov Hwide Hn ltac:(lia) ltac:(lia))
    as (id2 & cell2 & ch2 & Hg2 & Hid2 & Hrow2 & Hcol2 & Hs2 & Ht2 & Hl2 & Hw2 & Hc2).
  exists ch0, ch1, ch2. split; [auto |]. split; [auto |].
  unfold renderContentLine.
  change (Z.to_nat (Cols (table (layoutOf g w)))) with 3%nat.
  rewrite (contentLoop_field 3 g w r 0 [124] id0 cell0 ch0) by (assumption || lia).
  change (0 + 1) with 1. change (1 <? 3) with true. cbv iota.
  rewrite (contentLoop_field 2 g w r 1 _ id1 cell1 ch1) by (assumption || lia).
  change (1 + 1) with 2. change (2 <? 3) with true. cbv iota.
  rewrite (contentLoop_field 1 g w r 2 _ id2 cell2 ch2) by (assumption || lia).
  change (2 + 1) with 3. change (3 <? 3) with false. cbv iota.
  cbn [contentLoop]. change (3 <? Cols (table (layoutOf g w))) with false. cbv iota.
  rewrite <- !app_assoc. reflexivity.
Qed.

Lemma not_In_single (c x : Z) : c <> x -> ~ In x [c].
Proof. intros Hc [H | []]. congruence. Qed.

Ltac no_newline :=
  let Hin := fresh "Hin" in
  intros Hin;
  repeat (apply in_app_or in Hin; destruct Hin as [Hin | Hin]);
  first
    [ apply not_In_replicate in Hin; [exact Hin |];
      repeat match goal with |- context [if ?b then _ else _] => destruct b end;
      lia
    | apply not_In_single in Hin; [exact Hin |];
      repeat match goal with |- context [if ?b then _ else _] => destruct b end;
      first [lia | congruence] ].

Lemma borderLine_props (g : Z -> Z -> option nat) (w : Z -> Z) (rowIdx : Z) :
  asciiWidths -> (forall c, 1 <= w c) ->
  rowIdx = -1 \/ rowIdx = 0 \/ rowIdx = 1 ->
  exists line, renderBorderLine (layoutOf g w) rowIdx = Some line
               /\ ~ In 10 line
               /\ displayWidth line = w 0 + w 1 + w 2 + 10.
Proof.
  intros (H43 & H45 & H124 & H32) Hw Hrow.
  destruct (renderBorderLine_grid g w rowIdx Hw Hrow)
    as (h0 & h1 & h2 & v0 & v1 & Hline).
  eexists. split; [exact Hline | split].
  - no_newline.
  - pose proof (Hw 0). pose proof (Hw 1). pose proof (Hw 2).
    rewrite !displayWidth_app, !displayWidth_replicate, !displayWidth_single.
    destruct h0, h1, h2, v0, v1; rewrite ?H43, ?H45, ?H32, !Z2Nat.id by lia; lia.
Qed.

Lemma contentLine_props (g : Z -> Z -> option nat) (w : Z -> Z) (r : Z) :
  asciiWidths -> owned g ->
  (forall r c, 0 <= r < 2 -> 0 <= c < 3 -> g r c <> None) ->
  (forall id cell, cells !! id = Some cell ->
                   maxLineWidth [Text cell] <= w (Col cell)) ->
  Forall (fun cell => ~ In 10 (Text cell)) cells ->
  r = 0 \/ r = 1 ->
  exists line, renderContentLine (layoutOf g w) r 0 = Some line
               /\ ~ In 10 line
               /\ displayWidth line = w 0 + w 1 + w 2 + 10.
Proof.
  intros (H43 & H45 & H124 & H32) Hown Hcov Hwide Hn Hr.
  destruct (renderContentLine_grid g w r Hown Hcov Hwide Hn Hr)
    as (ch0 & ch1 & ch2 & (Hc0 & Hc1 & Hc2) & (Hw0 & Hw1 & Hw2) & Hline).
  eexists. split; [exact Hline | split].
  - no_newline.
  - rewrite !displayWidth_app, !displayWidth_replicate, !displayWidth_single.
    rewrite ?H124, ?H32, !Z2Nat.id by lia. lia.
Qed.

(** The five lines of the grid. *)
Lemma Render_grid :
  asciiWidths -> fullGrid t -> noNewline t ->
  exists layout top row0 middle row1 bottom width,
    buildLayout t = Some layout
    /\ renderBorderLine layout (-1) = Some top
    /\ renderContentLine layout 0 0 = Some row0
    /\ renderBorderLine layout 0 = Some middle
    /\ renderContentLine layout 1 0 = Some row1
    /\ renderBorderLine layout 1 = Some bottom
    /\ Render t = Some (top ++ [10] ++ row0 ++ [10] ++ middle ++ [10]
                            ++ row1 ++ [10] ++ bottom ++ [10])
    /\ Forall (fun line => ~ In 10 line /\ displayWidth line = width)
              [top; row0; middle; row1; bottom].
Proof.
  intros Hascii Hfull Hnl.
  destruct (buildLayout_grid Hfull Hnl) as (g & w & Hb & Hown & Hcov & Hw1 & Hwide).
  change (buildLayout t = Some (layoutOf g w)) in Hb.
  assert (Forall (fun cell => ~ In 10 (Text cell)) cells) as Hn by exact Hnl.
  destruct (borderLine_props g w (-1) Hascii Hw1 ltac:(lia)) as (top & Htop & Ptop).
  destruct (borderLine_props g w 0 Hascii Hw1 ltac:(lia)) as (mid & Hmid & Pmid).
  destruct (borderLine_props g w 1 Hascii Hw1 ltac:(lia)) as (bot & Hbot & Pbot).
  destruct (contentLine_props g w 0 Hascii Hown Hcov Hwide Hn ltac:(lia))
    as (row0 & Hrow0 & Prow0).
  destruct (contentLine_props g w 1 Hascii Hown Hcov Hwide Hn ltac:(lia))
    as (row1 & Hrow1 & Prow1).
  exists (layoutOf g w), top, row0, mid, row1, bot, (w 0 + w 1 + w 2 + 10).
  repeat (split; [assumption |]). split.
  - unfold Render. rewrite Hb. unfold render. rewrite Htop.
    change (Z.to_nat (Rows (table (layoutOf g w)))) with 2%nat.
    cbn [renderRows].
    change (index (rowHeights (layoutOf g w)) 0) with (Some 1).
    change (index (rowHeights (layoutOf g w)) (0 + 1)) with (Some 1).
    cbv iota. change (Z.to_nat 1) with 1%nat. cbn [contentLines].
    change (0 + 1) with 1.
    rewrite Hrow0, Hmid, Hrow1, Hbot.
    now rewrite <- !app_assoc.
  - repeat constructor; tauto.
Qed.

End Grid.

(** C8 (amended). A full 2-row by 3-column grid of cells without spans,
    each holding a single character other than the newline: Render
    returns five lines, each ended by a newline and holding none: the top
    border, the content line of row 0, the middle border, the content
    line of row 1 and the bottom border; and the five lines have the same
    display width.  The cells may come in any order; the display width of
    a string is the sum of the widths of its characters, the characters
    '+', '-', '|' and ' ' being one column wide. *)
Theorem Render_full_grid {cond : Condition} (t : Table) :
  asciiWidths -> fullGrid t -> noNewline t ->
  exists layout top row0 middle row1 bottom width,
    buildLayout t = Some layout
    /\ renderBorderLine layout (-1) = Some top
    /\ renderContentLine layout 0 0 = Some row0
    /\ renderBorderLine layout 0 = Some middle
    /\ renderContentLine layout 1 0 = Some row1
    /\ renderBorderLine layout 1 = Some bottom
    /\ Render t = Some (top ++ [10] ++ row0 ++ [10] ++ middle ++ [10]
                            ++ row1 ++ [10] ++ bottom ++ [10])
    /\ Forall (fun line => ~ In 10 line /\ displayWidth line = width)
              [top; row0; middle; row1; bottom].
Proof.
  intros Hascii Hfull Hnl. destruct t as [R C cells].
  pose proof Hfull as (HR & HC & _). cbn [Rows Cols] in HR, HC. subst R C.
  now apply Render_grid.
Qed.

Lemma rowMajorGrid_full (a b c d e f : Z) : fullGrid (rowMajorGrid a b c d e f).
Proof.
  split; [reflexivity | split; [reflexivity | split]].
  - repeat constructor; cbn; try lia; eexists; reflexivity.
  - intros r col Hr Hc.
    assert (r = 0 \/ r = 1) as [-> | ->] by lia;
      assert (col = 0 \/ col = 1 \/ col = 2) as [-> | [-> | ->]] by lia.
    + exists (cellAt 0 0 a). cbn. tauto.
    + exists (cellAt 0 1 b). cbn. tauto.
    + exists (cellAt 0 2 c). cbn. tauto.
    + exists (cellAt 1 0 d). cbn. tauto.
    + exists (cellAt 1 1 e). cbn. tauto.
    + exists (cellAt 1 2 f). cbn. tauto.
Qed.

Lemma sampleCondition_ascii : @asciiWidths sampleCondition.
Proof. repeat split. Qed.

Lemma Render_full_grid_witness :
  exists layout top row0 middle row1 bottom width,
    @buildLayout sampleCondition basicGrid = Some layout
    /\ renderBorderLine layout (-1) = Some top
    /\ @renderContentLine sampleCondition layout 0 0 = Some row0
    /\ renderBorderLine layout 0 = Some middle
    /\ @renderContentLine sampleCondition layout 1 0 = Some row1
    /\ renderBorderLine layout 1 = Some bottom
    /\ @Render sampleCondition basicGrid
       = Some (top ++ [10] ++ row0 ++ [10] ++ middle ++ [10]
                   ++ row1 ++ [10] ++ bottom ++ [10])
    /\ Forall (fun line => ~ In 10 line
                           /\ @displayWidth sampleCondition line = width)
              [top; row0; middle; row1; bottom].
Proof.
  apply (@Render_full_grid sampleCondition basicGrid).
  - exact sampleCondition_ascii.
  - apply rowMajorGrid_full.
  - repeat constructor; cbn; intros [H | []]; discriminate H.
Defined.

(** The grid of the layout test, rendered. *)
Example Render_basicGrid :
  @Render sampleCondition basicGrid
  = Some (runes "+---+---+---+" ++ [10] ++ runes "| A | B | C |" ++ [10]
            ++ runes "+---+---+---+" ++ [10] ++ runes "| 1 | 2 | 3 |" ++ [10]
            ++ runes "+---+---+---+" ++ [10]).
Proof. vm_compute. reflexivity. Qed.

(** C8 as stated fails for the newline, which is a single character: the
    grid whose cell at row 0, column 1 holds a newline is a full 2-by-3
    grid of single-character cells without spans, and Render gives row 0
    two content lines, six lines in all. *)
Lemma newline_cell_makes_six_lines :
  fullGrid newlineGrid
  /\ @asciiWidths sampleCondition
  /\ @Render sampleCondition newlineGrid
     = Some (runes "+---+---+---+" ++ [10] ++ runes "| A |   | C |" ++ [10]
               ++ runes "|   |   |   |" ++ [10]
               ++ runes "+---+---+---+" ++ [10] ++ runes "| 1 | 2 | 3 |" ++ [10]
               ++ runes "+---+---+---+" ++ [10])
  /\ forall out, @Render sampleCondition newlineGrid = Some out ->
                 countLines out = 6%nat.
Proof.
  split; [apply rowMajorGrid_full |]. split; [apply sampleCondition_ascii |].
  split; [vm_compute; reflexivity |].
  intros out H. vm_compute in H. inversion H; subst. reflexivity.
Qed.

End RenderFacts.

Module ScannerFacts.
Import Record Document Scanner.

(** *** What reading records leaves alone *)

Lemma advanceSection_builders (s : ContentScanner) :
  currentTable (snd (advanceSection s)) = currentTable s
  /\ buffered (snd (advanceSection s)) = buffered s.
Proof.
  unfold advanceSection.
  destruct (SectionCount (reader s) <=? currentSection s + 1); [now split |].
  destruct (OpenSection (reader s) (currentSection s + 1)); now split.
Qed.

Lemma ScanNext_total (rd : list Z) : exists res, ScanNext rd = Some res.
Proof.
  unfold ScanNext. destruct (readFrame rd) as [[[base data] | e] rd']; [| eauto].
  destruct (RecordFacts.decodeRecord_header base data) as (rec & -> & _). eauto.
Qed.

Lemma scanLoop_currentTable (fuel : nat) :
  forall s res s', scanLoop fuel s = Some (res, s') ->
                   currentTable s' = currentTable s /\ buffered s' = buffered s.
Proof.
  induction fuel as [| fuel IH]; intros s res s' H; [discriminate |].
  cbn [scanLoop] in H.
  destruct (scanner s) as [rd |]; [| now inversion H].
  destruct (ScanNext rd) as [[[rec | e] rd'] |]; [now inversion H | | discriminate].
  destruct e; try (now inversion H).
  pose proof (advanceSection_builders (setScanner s (Some rd'))) as [Ht Hb].
  destruct (advanceSection (setScanner s (Some rd'))) as [[advErr |] s1];
    cbn [snd setScanner setSection currentTable buffered] in Ht, Hb.
  - inversion H; subst. now split.
  - apply IH in H. destruct H as [H1 H2]. split; congruence.
Qed.

Lemma nextRecord_currentTable (fuel : nat) (s : ContentScanner) res s' :
  nextRecord fuel s = Some (res, s') -> currentTable s' = currentTable s.
Proof.
  unfold nextRecord. destruct (buffered s).
  - intros H. now inversion H.
  - intros H. now apply scanLoop_currentTable in H.
Qed.

Lemma skipChildren_currentTable (fuel : nat) :
  forall s lvl err s', skipChildren fuel s lvl = Some (err, s') ->
                       currentTable s' = currentTable s.
Proof.
  induction fuel as [| fuel IH]; intros s lvl err s' H; [discriminate |].
  cbn [skipChildren] in H.
  destruct (nextRecord (S fuel) s) as [[[rec | e] s1] |] eqn:Hn; [| | discriminate].
  - apply nextRecord_currentTable in Hn.
    destruct (Lvl rec <=? lvl).
    + inversion H; subst. exact Hn.
    + apply IH in H. congruence.
  - apply nextRecord_currentTable in Hn.
    destruct e; inversion H; subst; exact Hn.
Qed.

(** *** The end of the record stream *)

Lemma scanLoop_end (fuel : nat) :
  forall s s', scanLoop fuel s = Some (Err EOF, s') -> scanner s' = None.
Proof.
  induction fuel as [| fuel IH]; intros s s' H; [discriminate |].
  cbn [scanLoop] in H.
  destruct (scanner s) as [rd |] eqn:Hs; [| now inversion H; subst].
  destruct (ScanNext rd) as [[[rec | e] rd'] |]; [discriminate | | discriminate].
  destruct e; try discriminate.
  unfold advanceSection in H. cbn [reader currentSection setScanner setSection] in H.
  destruct (SectionCount (reader s) <=? currentSection s + 1).
  - inversion H; subst. reflexivity.
  - destruct (OpenSection (reader s) (currentSection s + 1)); [| discriminate].
    now apply IH in H.
Qed.

Lemma nextRecord_end (fuel : nat) (s s' : ContentScanner) :
  nextRecord fuel s = Some (Err EOF, s') -> scanner s' = None /\ buffered s' = None.
Proof.
  unfold nextRecord. destruct (buffered s) eqn:Hb; [discriminate |].
  intros H. split; [now apply scanLoop_end in H |].
  apply scanLoop_currentTable in H. destruct H as [_ H]. congruence.
Qed.

(** Enough fuel for nextRecord: one round for each section still to open. *)
Lemma scanLoop_total (fuel : nat) :
  forall s, (Z.to_nat (SectionCount (reader s) - currentSection s) < fuel)%nat ->
            exists res, scanLoop fuel s = Some res.
Proof.
  induction fuel as [| fuel IH]; intros s Hf; [lia |].
  cbn [scanLoop]. destruct (scanner s) as [rd |]; [| eauto].
  destruct (ScanNext_total rd) as [[[rec | e] rd'] ->]; [eauto |].
  destruct e; eauto.
  unfold advanceSection. cbn [reader currentSection setScanner setSection].
  destruct (Z.leb_spec (SectionCount (reader s)) (currentSection s + 1)); [eauto |].
  destruct (OpenSection (reader s) (currentSection s + 1)); [| eauto].
  apply IH. cbn [reader currentSection setSection setScanner]. lia.
Qed.

Lemma nextRecord_total (fuel : nat) (s : ContentScanner) :
  (Z.to_nat (SectionCount (reader s) - currentSection s) < fuel)%nat ->
  exists res, nextRecord fuel s = Some res.
Proof.
  intros Hf. unfold nextRecord. destruct (buffered s); [eauto |].
  now apply scanLoop_total.
Qed.

Lemma Next_unfold (fuel : nat) (s : ContentScanner) :
  Next (S fuel) s =
  match iteration (S fuel) s with
  | None => None
  | Some (Return r s') => Some (r, s')
  | Some (Continue s') => Next fuel s'
  end.
Proof. reflexivity. Qed.

Lemma nextRecord_buffered_none (fuel : nat) (s : ContentScanner) res s' :
  nextRecord fuel s = Some (res, s') -> buffered s' = None.
Proof.
  unfold nextRecord. destruct (buffered s) eqn:Hb.
  - intros H. now inversion H.
  - intros H. apply scanLoop_currentTable in H. destruct H as [_ H]. congruence.
Qed.

Lemma setBuffered_same (s : ContentScanner) :
  buffered s = None -> setBuffered s None = s.
Proof. destruct s; cbn. now intros ->. Qed.

Lemma Next_at_end (fuel : nat) (s : ContentScanner) :
  scanner s = None -> buffered s = None -> currentTable s = None ->
  Next (S fuel) s = Some (Err EOF, s).
Proof.
  intros Hs Hb Ht. rewrite Next_unfold. unfold iteration, nextRecord.
  rewrite Hb. cbn [scanLoop]. rewrite Hs, Ht. reflexivity.
Qed.

(** C1. With a table in progress: when the next record's level is less
    than or equal to the table's start level, Next returns the Table node
    made of the builder's rows, columns and cells; nothing of the record
    has been processed (the state is the one nextRecord left, with the
    builder cleared); the record sits in the lookahead buffer, and the
    next nextRecord hands it out again.  When nextRecord fails instead,
    Next returns the same Table node and clears the builder; if the
    failure was the end of the record stream, every later call of Next
    returns end-of-content and changes nothing, so the table is returned
    exactly once.  nextRecord does return when the fuel exceeds the number
    of sections still to open. *)
Theorem table_finalization (fuel : nat) (s : ContentScanner) (tb : tableBuilder) :
  currentTable s = Some tb ->
  let table := {| Rows := rows tb; Cols := cols tb; Cells := cells tb |} in
  (forall rec s1,
     nextRecord (S fuel) s = Some (Ok rec, s1) -> Lvl rec <= tb_tableLevel tb ->
     let s2 := putBack (setTable s1 None) rec in
     Next (S fuel) s = Some (Ok (TableNode table), s2)
     /\ buffered s2 = Some rec /\ currentTable s2 = None
     /\ forall fuel', nextRecord fuel' s2 = Some (Ok rec, setTable s1 None))
  /\ (forall e s1,
        nextRecord (S fuel) s = Some (Err e, s1) ->
        let s2 := setTable s1 None in
        Next (S fuel) s = Some (Ok (TableNode table), s2)
        /\ currentTable s2 = None
        /\ (e = EOF -> forall fuel', Next (S fuel') s2 = Some (Err EOF, s2)))
  /\ ((Z.to_nat (SectionCount (reader s) - currentSection s) < S fuel)%nat ->
        exists res, nextRecord (S fuel) s = Some res).
Proof.
  intros Htb. cbv zeta. split; [| split].
  - intros rec s1 Hn Hlvl.
    pose proof (nextRecord_currentTable _ _ _ _ Hn) as Ht.
    pose proof (nextRecord_buffered_none _ _ _ _ Hn) as Hb.
    split; [| split; [| split]].
    + rewrite Next_unfold. unfold iteration. rewrite Hn, Ht, Htb.
      destruct (Z.leb_spec (Lvl rec) (tb_tableLevel tb)); [reflexivity | lia].
    + reflexivity.
    + reflexivity.
    + intros fuel'. unfold nextRecord, putBack. cbn [buffered setBuffered].
      do 2 f_equal. destruct s1; cbn in *. now subst.
  - intros e s1 Hn.
    pose proof (nextRecord_currentTable _ _ _ _ Hn) as Ht.
    split; [| split].
    + rewrite Next_unfold. unfold iteration. rewrite Hn, Ht, Htb. reflexivity.
    + reflexivity.
    + intros -> fuel'. apply nextRecord_end in Hn. destruct Hn as [Hs Hb].
      apply Next_at_end; cbn [setTable scanner buffered currentTable];
        first [assumption | reflexivity].
  - apply nextRecord_total.
Qed.

Lemma table_finalization_witness :
  (exists s2,
     Next 10 (fst (rounds 6 10 (sampleStart sampleSection) None))
     = Some (Ok (TableNode
                   {| Rows := 2; Cols := 2;
                      Cells := [{| Row := 0; Col := 1; RowSpan := 2;
                                   ColSpan := 1; Text := [72; 105] |}] |}), s2)
     /\ buffered s2 = Some (R_ParaHeader {| TagID := 66; Level := 0; Size := 0 |}))
  /\ (exists s2,
        Next 10 (fst (rounds 6 10 (sampleStart sampleTable) None))
        = Some (Ok (TableNode
                      {| Rows := 2; Cols := 2;
                         Cells := [{| Row := 0; Col := 1; RowSpan := 2;
                                      ColSpan := 1; Text := [72; 105] |}] |}), s2)
        /\ Next 10 s2 = Some (Err EOF, s2)).
Proof.
  split.
  - destruct (table_finalization 9
                (fst (rounds 6 10 (sampleStart sampleSection) None))
                {| rows := 2; cols := 2;
                   cells := [{| Row := 0; Col := 1; RowSpan := 2;
                                ColSpan := 1; Text := [72; 105] |}];
                   currentCell := Some 0%nat; tb_tableLevel := 0 |}
                ltac:(vm_compute; reflexivity)) as [Ha _].
    edestruct Ha as (HN & Hbuf & _);
      [vm_compute; reflexivity | cbn; lia |].
    eexists. split; [exact HN | exact Hbuf].
  - destruct (table_finalization 9
                (fst (rounds 6 10 (sampleStart sampleTable) None))
                {| rows := 2; cols := 2;
                   cells := [{| Row := 0; Col := 1; RowSpan := 2;
                                ColSpan := 1; Text := [72; 105] |}];
                   currentCell := Some 0%nat; tb_tableLevel := 0 |}
                ltac:(vm_compute; reflexivity)) as (_ & Hb & _).
    edestruct Hb as (HN & _ & Hend); [vm_compute; reflexivity |].
    eexists. split; [exact HN | exact (Hend eq_refl 9%nat)].
Defined.

(** *** The bounds of the table in progress *)

Lemma appendText_bounds (nrows ncols : Z) (text : list Z) (c : Cell) :
  cellInBounds nrows ncols c -> cellInBounds nrows ncols (appendText text c).
Proof. unfold cellInBounds. now destruct c. Qed.

Lemma cellInBounds_mono (r c r' c' : Z) (cell : Cell) :
  r <= r' -> c <= c' -> cellInBounds r c cell -> cellInBounds r' c' cell.
Proof. unfold cellInBounds. lia. Qed.

Lemma tracked_same_table (s s' : ContentScanner) (d : option (Z * Z)) :
  currentTable s' = currentTable s -> tracked s d -> tracked s' d.
Proof. unfold tracked. now intros ->. Qed.

Ltac same_table :=
  eapply tracked_same_table; [| eassumption];
  cbn [currentTable setPara setTable setTableLevel setBuffered]; try reflexivity.

(** The switch keeps the ghost value fitting; it is the RecTable case,
    met without a table in progress, that declares a size. *)
Lemma paragraph_end_tracked (s : ContentScanner) (d : option (Z * Z)) (st : step) :
  tracked s d ->
  match currentPara s with
  | Some p =>
      let text := joinTextParts (textParts p) in
      let s1 := setPara s None in
      match currentTable s1 with
      | Some tb =>
          match currentCell tb with
          | Some i =>
              Some (Continue (setTable s1 (Some
                {| rows := rows tb; cols := cols tb;
                   cells := alter (appendText text) i (cells tb);
                   currentCell := currentCell tb;
                   tb_tableLevel := tb_tableLevel tb |})))
          | None => Some (Return (Ok (Paragraph text)) s1)
          end
      | None => Some (Return (Ok (Paragraph text)) s1)
      end
  | None => Some (Continue s)
  end = Some st ->
  tracked (stateOf st) d.
Proof.
  intros Hinv Hp.
  destruct (currentPara s) as [p |]; [| inversion Hp; subst; exact Hinv].
  cbv zeta in Hp. cbn [currentTable setPara] in Hp.
  destruct (currentTable s) as [tb |] eqn:Htb;
    [| inversion Hp; subst; cbn [stateOf]; same_table].
  destruct (currentCell tb);
    [| inversion Hp; subst; cbn [stateOf]; same_table].
  inversion Hp; subst. cbn [stateOf]. unfold tracked in *.
  rewrite Htb in Hinv. cbn [currentTable setTable rows cols cells].
  destruct Hinv as (dd & Hdd & Hr & Hc & Hcells).
  exists dd. repeat split; try assumption.
  apply Forall_alter; [exact Hcells |].
  intros; now apply appendText_bounds.
Qed.

(** The switch keeps the ghost value fitting; it is the RecTable case,
    met without a table in progress, that declares a size. *)
Lemma process_tracked (fuel : nat) (rec : Rec) (s : ContentScanner)
  (d : option (Z * Z)) (st : step) :
  tracked s d -> process fuel rec s = Some st ->
  tracked (stateOf st)
    (match currentTable s with
     | Some _ => d
     | None => match rec with
               | R_Table r => Some (RowCount r, ColCount r)
               | _ => d
               end
     end).
Proof.
  intros Hinv Hp.
  assert (forall r, rec = R_Table r -> currentTable s = None ->
            tracked (stateOf st) (Some (RowCount r, ColCount r))) as Hnew.
  { intros r -> Hnone. cbn [process] in Hp. rewrite Hnone in Hp.
    inversion Hp; subst. cbn [stateOf]. unfold tracked.
    cbn [currentTable setTable rows cols cells].
    exists (RowCount r, ColCount r). split; [reflexivity |].
    split; [cbn [fst]; lia | split; [cbn [snd]; lia | constructor]]. }
  assert ((forall r, rec <> R_Table r) \/ (exists tb, currentTable s = Some tb) ->
          tracked (stateOf st) d) as Hold.
  { intros Hcase.
    destruct rec; cbn [process] in Hp;
      try (inversion Hp; subst; cbn [stateOf]; same_table; fail).
    + destruct (currentPara s); inversion Hp; subst; cbn [stateOf];
        [same_table | exact Hinv].
    + now apply (paragraph_end_tracked s).
    + now apply (paragraph_end_tracked s).
    + destruct (CtrlID rec =? 0x74626c20);
        [inversion Hp; subst; cbn [stateOf]; same_table |].
      destruct (CtrlID rec =? 0x67736f20);
        destruct (skipChildren fuel s (Level (ch_header rec))) as [[err s1] |] eqn:Hs;
        try discriminate; inversion Hp; subst; cbn [stateOf];
        apply skipChildren_currentTable in Hs;
        (eapply tracked_same_table; [exact Hs | exact Hinv]).
    + unfold tracked in Hinv.
      destruct (currentTable s) as [tb |] eqn:Htb;
        [| inversion Hp; subst; cbn [stateOf]; unfold tracked; now rewrite Htb].
      destruct (IsCell rec);
        [| inversion Hp; subst; cbn [stateOf]; unfold tracked; now rewrite Htb].
      inversion Hp; subst. cbn [stateOf]. unfold tracked.
      cbn [currentTable setTable rows cols cells].
      destruct Hinv as (dd & Hdd & Hr & Hc & Hcells).
      exists dd. split; [exact Hdd |].
      set (rows' := if RowIndex rec + Record.RowSpan rec >? rows tb
                    then RowIndex rec + Record.RowSpan rec else rows tb).
      set (cols' := if ColIndex rec + Record.ColSpan rec >? cols tb
                    then ColIndex rec + Record.ColSpan rec else cols tb).
      assert (rows tb <= rows' /\ RowIndex rec + Record.RowSpan rec <= rows')
        as [Hr1 Hr2].
      { unfold rows'.
        destruct (Z.gtb_spec (RowIndex rec + Record.RowSpan rec) (rows tb)); lia. }
      assert (cols tb <= cols' /\ ColIndex rec + Record.ColSpan rec <= cols')
        as [Hc1 Hc2].
      { unfold cols'.
        destruct (Z.gtb_spec (ColIndex rec + Record.ColSpan rec) (cols tb)); lia. }
      split; [lia | split; [lia |]].
      apply Forall_app. split.
      * eapply Forall_impl; [exact Hcells |].
        intros cell Hcell. now apply (cellInBounds_mono (rows tb) (cols tb)).
      * constructor; [| constructor].
        split; cbn [Row Col RowSpan ColSpan]; assumption.
    + destruct Hcase as [Hne | [tb Htb]]; [now destruct (Hne rec) |].
      rewrite Htb in Hp. inversion Hp; subst. exact Hinv. }
  destruct (currentTable s) as [tb |] eqn:Htb; [apply Hold; eauto |].
  destruct rec; try (apply Hold; left; discriminate).
  now apply Hnew.
Qed.

Lemma iteration_tracked (fuel : nat) (s : ContentScanner) (d : option (Z * Z))
  (st : step) :
  tracked s d -> iteration fuel s = Some st ->
  tracked (stateOf st) (declaredNext fuel s d).
Proof.
  intros Hinv Hit. unfold iteration in Hit. unfold declaredNext.
  destruct (nextRecord fuel s) as [[[rec | e] s1] |] eqn:Hn; [| | discriminate].
  - pose proof (nextRecord_currentTable _ _ _ _ Hn) as Ht.
    assert (tracked s1 d) as Hinv1 by now apply (tracked_same_table s).
    pose proof (process_tracked fuel rec s1 d st Hinv1) as Hp.
    destruct (currentTable s1) as [tb |].
    + destruct (Lvl rec <=? tb_tableLevel tb); [| now apply Hp].
      inversion Hit; subst. reflexivity.
    + now apply Hp.
  - destruct (currentTable s1) as [tb |] eqn:Ht1; inversion Hit; subst;
      cbn [stateOf]; unfold tracked.
    + reflexivity.
    + now rewrite Ht1.
Qed.

Lemma tracks_tracked (s : ContentScanner) (d : option (Z * Z)) :
  tracks s d -> tracked s d.
Proof.
  induction 1 as [rd s Hopen | fuel s d st _ IH Hit].
  - unfold Open in Hopen.
    match type of Hopen with
    | context [advanceSection ?s0] =>
        pose proof (advanceSection_builders s0) as [Ht _];
        destruct (advanceSection s0) as [[e |] s1]; [discriminate |];
        inversion Hopen; subst; unfold tracked; cbn [snd] in Ht; now rewrite Ht
    end.
  - now apply iteration_tracked.
Qed.

Lemma process_no_table (fuel : nat) (rec : Rec) (s s' : ContentScanner) (t : Table) :
  process fuel rec s <> Some (Return (Ok (TableNode t)) s').
Proof.
  destruct rec; cbn [process]; try discriminate.
  - destruct (currentPara s); discriminate.
  - destruct (currentPara s); [| discriminate].
    destruct (currentTable (setPara s None)) as [tb |]; [| discriminate].
    destruct (currentCell tb); discriminate.
  - destruct (currentPara s); [| discriminate].
    destruct (currentTable (setPara s None)) as [tb |]; [| discriminate].
    destruct (currentCell tb); discriminate.
  - destruct (CtrlID rec =? 0x74626c20); [discriminate |].
    destruct (CtrlID rec =? 0x67736f20);
      destruct (skipChildren fuel s (Level (ch_header rec))) as [[err s1] |];
      discriminate.
  - destruct (currentTable s); [| discriminate].
    destruct (IsCell rec); discriminate.
  - destruct (currentTable s); discriminate.
Qed.

Lemma iteration_emits (fuel : nat) (s s' : ContentScanner) (t : Table) :
  iteration fuel s = Some (Return (Ok (TableNode t)) s') ->
  exists tb, currentTable s = Some tb
             /\ t = {| Rows := rows tb; Cols := cols tb; Cells := cells tb |}.
Proof.
  unfold iteration.
  destruct (nextRecord fuel s) as [[[rec | e] s1] |] eqn:Hn; [| | discriminate].
  - apply nextRecord_currentTable in Hn. rewrite <- Hn.
    destruct (currentTable s1) as [tb |].
    + destruct (Lvl rec <=? tb_tableLevel tb).
      * intros H. inversion H; subst. eauto.
      * intros H. now apply process_no_table in H.
    + intros H. now apply process_no_table in H.
  - apply nextRecord_currentTable in Hn. rewrite <- Hn.
    destruct (currentTable s1) as [tb |]; intros H; inversion H; subst. eauto.
Qed.

(** What Next returns is what the last round of its loop returns, and the
    states of the rounds are states the scanner goes through. *)
Lemma Next_last_round (fuel : nat) :
  forall s d r s',
    tracks s d -> Next fuel s = Some (r, s') ->
    exists s0 d0 fuel0, tracks s0 d0 /\ iteration fuel0 s0 = Some (Return r s').
Proof.
  induction fuel as [| fuel IH]; intros s d r s' Ht HN; [discriminate |].
  rewrite Next_unfold in HN.
  destruct (iteration (S fuel) s) as [[s1 | r1 s1] |] eqn:Hit; [| | discriminate].
  - apply (IH s1 (declaredNext (S fuel) s d)); [| exact HN].
    exact (tracks_iteration (S fuel) s d (Continue s1) Ht Hit).
  - inversion HN; subst. eauto.
Qed.

Lemma tracks_rounds (n fuel : nat) :
  forall s d, tracks s d ->
              tracks (fst (rounds n fuel s d)) (snd (rounds n fuel s d)).
Proof.
  induction n as [| n IH]; intros s d Ht; cbn [rounds]; [exact Ht |].
  destruct (iteration fuel s) as [st |] eqn:Hit; [| exact Ht].
  apply IH. now apply tracks_iteration.
Qed.

(** C9. Every Table node the state machine emits satisfies the bounds
    invariant.  In every state the scanner goes through from Open, with
    the size declared by the table-size record that instantiated the
    table in progress as ghost value: a round of Next's loop that returns
    a Table node does so with a declared size, the node's row count is at
    least the declared row count and at least row + rowSpan of every cell,
    and its column count is at least the declared column count and at
    least col + colSpan of every cell.  Every Table node that Next returns
    is returned by such a round. *)
Theorem emitted_table_bounds (s : ContentScanner) (d : option (Z * Z)) :
  tracks s d ->
  (forall fuel t s',
     iteration fuel s = Some (Return (Ok (TableNode t)) s') ->
     exists declaredRows declaredCols,
       d = Some (declaredRows, declaredCols)
       /\ declaredRows <= Rows t /\ declaredCols <= Cols t
       /\ Forall (fun c => Row c + RowSpan c <= Rows t
                           /\ Col c + ColSpan c <= Cols t) (Cells t))
  /\ (forall fuel t s',
        Next fuel s = Some (Ok (TableNode t), s') ->
        exists s0 d0 fuel0,
          tracks s0 d0
          /\ iteration fuel0 s0 = Some (Return (Ok (TableNode t)) s')).
Proof.
  intros Ht. split.
  - intros fuel t s' Hit.
    apply tracks_tracked in Ht.
    destruct (iteration_emits _ _ _ _ Hit) as (tb & Htb & ->).
    unfold tracked in Ht. rewrite Htb in Ht.
    destruct Ht as ([dr dc] & -> & Hr & Hc & Hcells).
    exists dr, dc. cbn [Rows Cols Cells fst snd] in *. auto.
  - intros fuel t s' HN. now apply (Next_last_round fuel s d).
Qed.

Lemma emitted_table_bounds_witness :
  exists t s',
    iteration 10 (fst (rounds 6 10 (sampleStart sampleSection) None))
    = Some (Return (Ok (TableNode t)) s')
    /\ 1 <= Rows t /\ 1 <= Cols t
    /\ Forall (fun c => Row c + RowSpan c <= Rows t
                        /\ Col c + ColSpan c <= Cols t) (Cells t).
Proof.
  pose proof (tracks_rounds 6 10 (sampleStart sampleSection) None
                (tracks_Open (sampleReader sampleSection) _ eq_refl)) as Ht.
  destruct (emitted_table_bounds _ _ Ht) as [Hb _].
  eexists. eexists. split; [vm_compute; reflexivity |].
  edestruct (Hb 10%nat) as (dr & dc & Hd & Hr & Hc & Hcells);
    [vm_compute; reflexivity |].
  vm_compute in Hd. inversion Hd; subst. auto.
Defined.

End ScannerFacts.

(** * The layout engine on any table: when it returns, and what *)

Module LayoutFacts.
Import Render Shape.

(** *** Slices *)

Lemma index_in_range {A} (l : list A) (i : Z) :
  0 <= i < Z.of_nat (length l) ->
  exists x, index l i = Some x /\ l !! Z.to_nat i = Some x.
Proof.
  intros Hi. unfold index. destruct (Z.ltb_spec i 0); [lia |].
  destruct (lookup_lt_is_Some_2 l (Z.to_nat i)) as [x Hx]; [lia |].
  exists x. now rewrite Hx.
Qed.

Lemma index_out_of_range {A} (l : list A) (i : Z) :
  i < 0 \/ Z.of_nat (length l) <= i -> index l i = None.
Proof.
  intros Hi. unfold index. destruct (Z.ltb_spec i 0); [reflexivity |].
  apply lookup_ge_None_2. lia.
Qed.

Lemma store_in_range {A} (l : list A) (i : Z) (x : A) :
  0 <= i < Z.of_nat (length l) -> store l i x = Some (<[Z.to_nat i := x]> l).
Proof.
  intros Hi. unfold store.
  destruct (Z.leb_spec 0 i); [| lia].
  destruct (Z.ltb_spec i (Z.of_nat (length l))); [reflexivity | lia].
Qed.

(** *** Loops that may panic *)

Lemma foldM_total {A B} (f : B -> A -> option B) (I : B -> Prop) (Q : A -> Prop)
  (l : list A) :
  (forall b x, I b -> Q x -> exists b', f b x = Some b' /\ I b') ->
  Forall Q l ->
  forall b, I b -> exists b', foldM f l b = Some b' /\ I b'.
Proof.
  intros Hstep Hl. induction Hl as [| x l Hx Hl IH]; intros b Hb; cbn [foldM].
  - eauto.
  - destruct (Hstep b x Hb Hx) as (b1 & -> & Hb1). now apply IH.
Qed.

Lemma foldM_panics {A B} (f : B -> A -> option B) (I : B -> Prop)
  (l : list A) (x : A) :
  (forall b y b', I b -> f b y = Some b' -> I b') ->
  In x l -> (forall b, I b -> f b x = None) ->
  forall b, I b -> foldM f l b = None.
Proof.
  intros Hstep Hin Hx. induction l as [| y l IH]; intros b Hb; [contradiction |].
  cbn [foldM]. destruct (f b y) as [b1 |] eqn:Hy; [| reflexivity].
  destruct Hin as [-> | Hin].
  - rewrite Hx in Hy by exact Hb. discriminate.
  - apply IH; [exact Hin |]. exact (Hstep b y b1 Hb Hy).
Qed.

Lemma foldM_keeps {A B} (f : B -> A -> option B) (I : B -> Prop) (l : list A) :
  (forall b y b', I b -> f b y = Some b' -> I b') ->
  forall b b', I b -> foldM f l b = Some b' -> I b'.
Proof.
  intros Hstep. induction l as [| y l IH]; intros b b' Hb H; cbn [foldM] in H.
  - now inversion H; subst.
  - destruct (f b y) as [b1 |] eqn:Hy; [| discriminate].
    apply (IH b1); [exact (Hstep b y b1 Hb Hy) | exact H].
Qed.

(** The cells with their identities: the cell [id] of the table. *)
Lemma cellsWithId_cells (t : Table) :
  Forall (fun ic => Cells t !! fst ic = Some (snd ic)) (cellsWithId t).
Proof.
  apply Forall_lookup_2. intros i [id cell] Hi. unfold cellsWithId in Hi.
  apply lookup_zip_Some in Hi. destruct Hi as [Hs Hc].
  apply lookup_seq in Hs. destruct Hs as [-> _]. exact Hc.
Qed.

Lemma cellsWithId_at (t : Table) (id : nat) (cell : Cell) :
  Cells t !! id = Some cell -> cellsWithId t !! id = Some (id, cell).
Proof.
  intros Hi. unfold cellsWithId. apply lookup_zip_Some. split; [| exact Hi].
  apply lookup_seq. split; [reflexivity |]. now apply lookup_lt_Some in Hi.
Qed.

(** *** The ownership grid *)

Section Owners.
Variable t : Table.

Lemma ownCols_in_range (cell : Cell) (id : nat) (r : Z) :
  0 <= Row cell + r < Rows t -> spanning t id ->
  forall n c grid,
    0 <= Col cell + c -> shaped t grid -> owners t grid ->
    exists grid', ownCols n c t cell id r grid = Some grid'
                  /\ shaped t grid' /\ owners t grid'.
Proof.
  intros Hr Hid. induction n as [| n IH]; intros c grid Hc Hs Ho; cbn [ownCols].
  - eauto.
  - destruct (Z.ltb_spec (Col cell + c) (Cols t)) as [Hlt |]; [| eauto].
    destruct Hs as [Hlen Hrows].
    destruct (index_in_range grid (Row cell + r)) as (line & -> & Hline); [lia |].
    pose proof (Forall_lookup_1 _ _ _ _ Hrows Hline) as Hll. cbn beta in Hll.
    rewrite store_in_range by lia.
    rewrite store_in_range by lia.
    apply IH; [lia | |].
    + split; [now rewrite length_insert |].
      apply Forall_insert; [exact Hrows |]. now rewrite length_insert.
    + apply Forall_insert; [exact Ho |].
      apply Forall_insert; [exact (Forall_lookup_1 _ _ _ _ Ho Hline) |].
      intros id' Heq. now inversion Heq; subst.
Qed.

Lemma ownCols_writes (cell : Cell) (id : nat) (r : Z) (n : nat) (grid : list (list (option nat))) :
  Row cell + r < 0 -> 0 <= Col cell -> Col cell < Cols t ->
  ownCols (S n) 0 t cell id r grid = None.
Proof.
  intros Hr Hc Hlt. cbn [ownCols]. rewrite Z.add_0_r.
  destruct (Z.ltb_spec (Col cell) (Cols t)); [| lia].
  rewrite index_out_of_range by lia. reflexivity.
Qed.

Lemma ownCols_shape (cell : Cell) (id : nat) (r : Z) :
  forall n c grid grid',
    shaped t grid -> ownCols n c t cell id r grid = Some grid' -> shaped t grid'.
Proof.
  induction n as [| n IH]; intros c grid grid' Hs H; cbn [ownCols] in H.
  - now inversion H; subst.
  - destruct (Col cell + c <? Cols t); [| now inversion H; subst].
    destruct (index grid (Row cell + r)) as [line |] eqn:Hi; [| discriminate].
    destruct (store line (Col cell + c) (Some id)) as [line' |] eqn:Hs1; [| discriminate].
    destruct (store grid (Row cell + r) line') as [grid1 |] eqn:Hs2; [| discriminate].
    refine (IH _ _ _ _ H). clear IH H.
    unfold index in Hi. destruct (Row cell + r <? 0); [discriminate |].
    unfold store in Hs1, Hs2.
    destruct ((0 <=? Col cell + c) && (Col cell + c <? Z.of_nat (length line)));
      [| discriminate].
    destruct ((0 <=? Row cell + r) && (Row cell + r <? Z.of_nat (length grid)));
      [| discriminate].
    inversion Hs1; inversion Hs2; subst. destruct Hs as [Hlen Hrows].
    split; [now rewrite length_insert |].
    apply Forall_insert; [exact Hrows |]. rewrite length_insert.
    exact (Forall_lookup_1 _ _ _ _ Hrows Hi).
Qed.

Lemma ownRows_shape (cell : Cell) (id : nat) :
  forall n r grid grid',
    shaped t grid -> ownRows n r t cell id grid = Some grid' -> shaped t grid'.
Proof.
  induction n as [| n IH]; intros r grid grid' Hs H; cbn [ownRows] in H.
  - now inversion H; subst.
  - destruct (Row cell + r <? Rows t); [| now inversion H; subst].
    destruct (ownCols _ 0 t cell id r grid) as [grid1 |] eqn:Hc; [| discriminate].
    refine (IH _ _ _ _ H). exact (ownCols_shape _ _ _ _ _ _ _ Hs Hc).
Qed.

Lemma ownRows_in_range (cell : Cell) (id : nat) :
  cellRenders t cell -> Cells t !! id = Some cell -> 1 <= RowSpan cell ->
  forall n r grid,
    0 <= r -> shaped t grid -> owners t grid ->
    exists grid', ownRows n r t cell id grid = Some grid'
                  /\ shaped t grid' /\ owners t grid'.
Proof.
  intros [Hcols Hrow] Hid Hrs.
  induction n as [| n IH]; intros r grid Hr Hs Ho; cbn [ownRows].
  - eauto.
  - destruct (Z.ltb_spec (Row cell + r) (Rows t)) as [Hlt |]; [| eauto].
    destruct (Z_lt_le_dec (ColSpan cell) 1) as [Hno | Hspan].
    + replace (Z.to_nat (ColSpan cell)) with 0%nat by lia. cbn [ownCols].
      apply IH; [lia | assumption | assumption].
    + destruct (Hcols Hspan) as [Hc0 _].
      assert (0 <= Row cell) as Hr0 by (apply Hrow; lia).
      destruct (ownCols_in_range cell id r ltac:(lia) ltac:(now exists cell)
                  (Z.to_nat (ColSpan cell)) 0 grid ltac:(lia) Hs Ho)
        as (grid1 & -> & Hs1 & Ho1).
      apply IH; [lia | assumption | assumption].
Qed.

Lemma ownCell_in_range (grid : list (list (option nat))) (ic : nat * Cell) :
  shaped t grid /\ owners t grid ->
  cellRenders t (snd ic) /\ Cells t !! fst ic = Some (snd ic) ->
  exists grid', ownCell t grid ic = Some grid' /\ shaped t grid' /\ owners t grid'.
Proof.
  intros [Hs Ho] [Hr Hid]. unfold ownCell.
  destruct (Z_lt_le_dec (RowSpan (snd ic)) 1) as [Hno | Hspan].
  - replace (Z.to_nat (RowSpan (snd ic))) with 0%nat by lia. cbn [ownRows]. eauto.
  - now apply ownRows_in_range.
Qed.

Lemma ownCell_shape (grid grid' : list (list (option nat))) (ic : nat * Cell) :
  shaped t grid -> ownCell t grid ic = Some grid' -> shaped t grid'.
Proof. intros Hs H. exact (ownRows_shape _ _ _ _ _ _ Hs H). Qed.

(** A cell that owns grid positions and starts above the first row makes
    buildLayout index the grid out of range. *)
Lemma ownCell_negative_row (grid : list (list (option nat))) (ic : nat * Cell) :
  1 <= RowSpan (snd ic) -> 1 <= ColSpan (snd ic) ->
  Row (snd ic) < 0 -> 0 <= Rows t -> 0 <= Col (snd ic) < Cols t ->
  ownCell t grid ic = None.
Proof.
  intros Hrs Hcs Hr Hrows Hc. unfold ownCell.
  destruct (Z.to_nat (RowSpan (snd ic))) as [| n] eqn:Hn; [lia |].
  cbn [ownRows]. rewrite Z.add_0_r.
  destruct (Z.ltb_spec (Row (snd ic)) (Rows t)); [| lia].
  destruct (Z.to_nat (ColSpan (snd ic))) as [| m] eqn:Hm; [lia |].
  rewrite ownCols_writes by lia. reflexivity.
Qed.

Lemma grid0_shaped :
  0 <= Rows t -> 0 <= Cols t ->
  make (Rows t) (replicate (Z.to_nat (Cols t)) (None : option nat))
  = Some (replicate (Z.to_nat (Rows t)) (replicate (Z.to_nat (Cols t)) None))
  /\ shaped t (replicate (Z.to_nat (Rows t)) (replicate (Z.to_nat (Cols t)) None))
  /\ owners t (replicate (Z.to_nat (Rows t)) (replicate (Z.to_nat (Cols t)) None)).
Proof.
  intros Hr Hc. unfold make. destruct (Z.ltb_spec (Rows t) 0); [lia |].
  split; [reflexivity | split].
  - split; [apply length_replicate |].
    apply Forall_replicate. apply length_replicate.
  - apply Forall_replicate, Forall_replicate. discriminate.
Qed.

End Owners.

(** *** The column widths *)

Section ColWidths.
Context {cond : Condition}.
Variable t : Table.
Variable lines : list (list (list Z)).

Lemma sumZ_mono (l l' : list Z) : Forall2 Z.le l l' -> sumZ l <= sumZ l'.
Proof.
  induction 1 as [| x y l l' Hxy _ IH]; [reflexivity |].
  rewrite !RenderFacts.sumZ_cons. lia.
Qed.

Lemma spannedWidth_mono (cw cw' : list Z) (col span : Z) :
  Forall2 Z.le cw cw' -> spannedWidth cw col span <= spannedWidth cw' col span.
Proof.
  intros H. unfold spannedWidth. apply sumZ_mono.
  now apply Forall2_take, Forall2_drop.
Qed.

Lemma le_refl_all (cw : list Z) : Forall2 Z.le cw cw.
Proof. induction cw; constructor; [lia | assumption]. Qed.

Lemma le_trans_all (a b c : list Z) :
  Forall2 Z.le a b -> Forall2 Z.le b c -> Forall2 Z.le a c.
Proof.
  intros Hab. revert c. induction Hab as [| x y a b Hxy _ IH]; intros c Hbc.
  - inversion Hbc. constructor.
  - inversion Hbc; subst. constructor; [lia | now apply IH].
Qed.

Lemma widthsOK_grow (cw cw' : list Z) :
  widthsOK t cw -> Forall2 Z.le cw cw' -> widthsOK t cw'.
Proof.
  intros [Hl Hw] Hle. split.
  - rewrite <- Hl. symmetry. exact (Forall2_length _ _ _ Hle).
  - clear Hl. induction Hle as [| x y a b Hxy _ IH]; [constructor |].
    inversion Hw; subst. constructor; [lia | now apply IH].
Qed.

Lemma spannedWidth_one (cw : list Z) (col w : Z) :
  0 <= col -> cw !! Z.to_nat col = Some w -> spannedWidth cw col 1 = w.
Proof.
  intros Hc Hw. unfold spannedWidth.
  rewrite (drop_S _ _ _ Hw). change (Z.to_nat 1) with 1%nat.
  cbn [take]. rewrite take_0. unfold sumZ. cbn [fold_right]. lia.
Qed.

Lemma fits_mono (cw cw' : list Z) (ic : nat * Cell) :
  fits lines cw ic -> Forall2 Z.le cw cw' -> fits lines cw' ic.
Proof.
  intros Hf Hle Hspan. specialize (Hf Hspan).
  pose proof (spannedWidth_mono cw cw' (Col (snd ic)) (ColSpan (snd ic)) Hle). lia.
Qed.

Lemma widenSingle_in_range (cw : list Z) (ic : nat * Cell) :
  widthsOK t cw -> cellRenders t (snd ic) ->
  exists cw', widenSingle lines cw ic = Some cw'
              /\ widthsOK t cw' /\ Forall2 Z.le cw cw'
              /\ (ColSpan (snd ic) = 1 -> fits lines cw' ic).
Proof.
  intros Hok [Hcols _]. unfold widenSingle.
  destruct (Z.eqb_spec (ColSpan (snd ic)) 1) as [Hone |].
  2:{ exists cw. split; [reflexivity |]. split; [exact Hok |].
      split; [apply le_refl_all | contradiction]. }
  destruct (Hcols ltac:(lia)) as [Hc0 Hc1].
  destruct Hok as [Hlen Hw].
  destruct (index_in_range cw (Col (snd ic))) as (w & -> & Hlook); [lia |].
  destruct (Z.gtb_spec (maxLineWidth (linesOf lines (fst ic))) w) as [Hgt | Hle].
  - rewrite store_in_range by lia.
    eexists. split; [reflexivity |].
    assert (Forall2 Z.le cw (<[Z.to_nat (Col (snd ic)) := maxLineWidth (linesOf lines (fst ic))]> cw)) as Hle.
    { apply Forall2_lookup. intros i.
      destruct (decide (i = Z.to_nat (Col (snd ic)))) as [-> | Hne].
      - rewrite list_lookup_insert_eq by lia. rewrite Hlook. constructor. lia.
      - rewrite list_lookup_insert_ne by congruence.
        destruct (cw !! i); constructor. lia. }
    split; [exact (widthsOK_grow _ _ (conj Hlen Hw) Hle) |].
    split; [exact Hle |].
    intros _ _. rewrite Hone.
    rewrite (spannedWidth_one _ _ (maxLineWidth (linesOf lines (fst ic)))); [lia | lia |].
    apply list_lookup_insert_eq. lia.
  - exists cw. split; [reflexivity |]. split; [now split |].
    split; [apply le_refl_all |].
    intros _ _. rewrite Hone. rewrite (spannedWidth_one _ _ w); [lia | lia | exact Hlook].
Qed.

Lemma bump_grows (perCol remainder : Z) (ws : list Z) :
  0 <= perCol -> forall c, Forall2 Z.le ws (bump c perCol remainder ws).
Proof.
  intros Hp. induction ws as [| w ws IH]; intros c; cbn [bump]; constructor.
  - destruct (c <? remainder); lia.
  - apply IH.
Qed.

Lemma widenSpan_in_range (cw : list Z) (ic : nat * Cell) :
  widthsOK t cw -> cellRenders t (snd ic) ->
  exists cw', widenSpan lines cw ic = Some cw'
              /\ widthsOK t cw' /\ Forall2 Z.le cw cw'
              /\ (1 < ColSpan (snd ic) -> fits lines cw' ic).
Proof.
  intros Hok [Hcols _].
  destruct (Z_le_gt_dec (ColSpan (snd ic)) 1) as [Hno | Hspan].
  { exists cw. unfold widenSpan. destruct (Z.gtb_spec (ColSpan (snd ic)) 1); [lia |].
    split; [reflexivity |]. split; [exact Hok |]. split; [apply le_refl_all | lia]. }
  destruct (Hcols ltac:(lia)) as [Hc0 Hc1].
  pose proof Hok as [Hlen Hw].
  destruct (RenderFacts.split_span cw (Z.to_nat (Col (snd ic)))
              (Z.to_nat (ColSpan (snd ic))) ltac:(lia)) as (Hcw & Hpre & Hmid).
  set (pre := take (Z.to_nat (Col (snd ic))) cw) in *.
  set (mid := take (Z.to_nat (ColSpan (snd ic))) (drop (Z.to_nat (Col (snd ic))) cw)) in *.
  set (post := drop (Z.to_nat (Col (snd ic)) + Z.to_nat (ColSpan (snd ic))) cw) in *.
  assert (spannedWidth cw (Col (snd ic)) (ColSpan (snd ic)) = sumZ mid) as Hsum
    by reflexivity.
  destruct (Z_lt_le_dec (sumZ mid) (maxLineWidth (linesOf lines (fst ic)))) as [Hlt | Hge].
  - pose proof (RenderFacts.widenSpan_app lines (fst ic) (snd ic) pre mid post
                  ltac:(lia) Hc0 Hpre Hmid Hlt) as Hstep.
    rewrite <- Hcw in Hstep. rewrite <- surjective_pairing in Hstep.
    set (extra := maxLineWidth (linesOf lines (fst ic)) - sumZ mid) in *.
    set (q := extra / ColSpan (snd ic)) in *.
    set (rm := extra mod ColSpan (snd ic)) in *.
    assert (0 <= q) as Hq by (apply Z.div_pos; lia).
    assert (0 <= rm < ColSpan (snd ic)) as Hrm by (apply Z.mod_pos_bound; lia).
    eexists. split; [exact Hstep |].
    assert (Forall2 Z.le cw (pre ++ bump 0 q rm mid ++ post)) as Hle.
    { rewrite Hcw at 1. apply Forall2_app; [apply le_refl_all |].
      apply Forall2_app; [now apply bump_grows | apply le_refl_all]. }
    split; [exact (widthsOK_grow _ _ Hok Hle) |]. split; [exact Hle |].
    intros _ _. unfold spannedWidth.
    rewrite <- Hpre at 1. rewrite drop_app_length.
    rewrite <- (RenderFacts.bump_length q rm mid 0) in Hmid.
    rewrite <- Hmid. rewrite take_app_length.
    rewrite RenderFacts.bump_sum. rewrite RenderFacts.bump_length in Hmid.
    pose proof (Z.div_mod extra (ColSpan (snd ic)) ltac:(lia)) as Hdm.
    fold q rm in Hdm. rewrite Hmid. nia.
  - exists cw. unfold widenSpan. destruct (Z.gtb_spec (ColSpan (snd ic)) 1); [| lia].
    rewrite <- Hmid. rewrite Hcw.
    rewrite RenderFacts.sumWidths_app by (rewrite ?Z.add_0_r; assumption).
    rewrite Z.add_0_l.
    destruct (Z.gtb_spec (maxLineWidth (linesOf lines (fst ic))) (sumZ mid)); [lia |].
    rewrite <- Hcw.
    split; [reflexivity |]. split; [exact Hok |]. split; [apply le_refl_all |].
    intros _ _. rewrite Hsum. lia.
Qed.

(** A fold whose steps only raise the widths keeps what was reached. *)
Lemma foldM_widths (f : list Z -> nat * Cell -> option (list Z))
  (P : nat * Cell -> Prop) (l : list (nat * Cell)) :
  (forall cw ic, widthsOK t cw -> cellRenders t (snd ic) ->
     exists cw', f cw ic = Some cw' /\ widthsOK t cw' /\ Forall2 Z.le cw cw'
                 /\ (P ic -> fits lines cw' ic)) ->
  Forall (fun ic => cellRenders t (snd ic)) l ->
  forall cw, widthsOK t cw ->
    exists cw', foldM f l cw = Some cw' /\ widthsOK t cw' /\ Forall2 Z.le cw cw'
                /\ Forall (fun ic => P ic -> fits lines cw' ic) l.
Proof.
  intros Hstep Hl. induction Hl as [| ic l Hic Hl IH]; intros cw Hok; cbn [foldM].
  - exists cw. split; [reflexivity |]. split; [exact Hok |].
    split; [apply le_refl_all | constructor].
  - destruct (Hstep cw ic Hok Hic) as (cw1 & -> & Hok1 & Hle1 & Hfit1).
    destruct (IH cw1 Hok1) as (cw2 & Hf & Hok2 & Hle2 & Hfit2).
    exists cw2. split; [exact Hf |]. split; [exact Hok2 |].
    split; [exact (le_trans_all _ _ _ Hle1 Hle2) |].
    constructor; [| exact Hfit2].
    intros HP. exact (fits_mono _ _ _ (Hfit1 HP) Hle2).
Qed.

Lemma cells_render (l : list (nat * Cell)) :
  Forall (cellRenders t) (Cells t) ->
  Forall (fun ic => Cells t !! fst ic = Some (snd ic)) l ->
  Forall (fun ic => cellRenders t (snd ic)) l.
Proof.
  intros Hc Hl. apply (Forall_impl _ _ _ Hl). intros ic Hic.
  exact (Forall_lookup_1 _ _ _ _ Hc Hic).
Qed.

Lemma computeColWidths_in_range (cw0 : list Z) :
  renders t -> length cw0 = Z.to_nat (Cols t) ->
  exists cw, computeColWidths t lines cw0 = Some cw
             /\ widthsOK t cw /\ Forall (fits lines cw) (cellsWithId t).
Proof.
  intros (_ & _ & Hcells) Hlen. unfold computeColWidths.
  pose proof (cells_render _ Hcells (cellsWithId_cells t)) as Hall.
  assert (widthsOK t (map (fun _ => 1) cw0)) as Hok1.
  { split; [now rewrite length_map |]. apply Forall_fmap, Forall_true. intros; cbn; lia. }
  destruct (foldM_widths (widenSingle lines) (fun ic => ColSpan (snd ic) = 1)
              (cellsWithId t) (fun cw ic => widenSingle_in_range cw ic) Hall _ Hok1)
    as (cw2 & -> & Hok2 & _ & Hfit2).
  destruct (foldM_widths (widenSpan lines) (fun ic => 1 < ColSpan (snd ic))
              (cellsWithId t) (fun cw ic => widenSpan_in_range cw ic) Hall _ Hok2)
    as (cw3 & -> & Hok3 & Hle3 & Hfit3).
  exists cw3. split; [reflexivity |]. split; [exact Hok3 |].
  apply Forall_lookup_2. intros i ic Hi Hspan.
  destruct (Z.eq_dec (ColSpan (snd ic)) 1) as [Hone | Hmore].
  - apply (fits_mono cw2); [| exact Hle3 | exact Hspan].
    exact (Forall_lookup_1 _ _ _ _ Hfit2 Hi Hone).
  - apply (Forall_lookup_1 _ _ _ _ Hfit3 Hi); lia.
Qed.

End ColWidths.

(** *** The layout *)

Section Rendering.
Context {cond : Condition}.
Variable t : Table.

Lemma buildLayout_in_range :
  renders t -> exists l, buildLayout t = Some l /\ layoutOK t l.
Proof.
  intros Hr. pose proof Hr as (Hrows & Hcols & Hcells). unfold buildLayout.
  destruct (grid0_shaped t Hrows Hcols) as (-> & Hs0 & Ho0).
  unfold make at 1. destruct (Z.ltb_spec (Cols t) 0); [lia |].
  destruct (foldM_total (ownCell t) (fun grid => shaped t grid /\ owners t grid)
              (fun ic => cellRenders t (snd ic) /\ Cells t !! fst ic = Some (snd ic))
              (cellsWithId t)) with (b := replicate (Z.to_nat (Rows t))
                                         (replicate (Z.to_nat (Cols t)) (None : option nat)))
    as (grid & -> & Hs & Ho).
  - intros grid ic Hg Hic. destruct (ownCell_in_range t grid ic Hg Hic) as (g' & ? & ? & ?).
    eauto.
  - pose proof (cellsWithId_cells t) as Hids.
    apply Forall_lookup_2. intros i ic Hi.
    pose proof (Forall_lookup_1 _ _ _ _ Hids Hi) as Hid. cbn beta in Hid.
    split; [exact (Forall_lookup_1 _ _ _ _ Hcells Hid) | exact Hid].
  - now split.
  - destruct (computeColWidths_in_range t (splitLines t)
                (replicate (Z.to_nat (Cols t)) 0) Hr (length_replicate _ _))
      as (cw & Hcw & Hok & Hfit).
    unfold splitLines in Hcw at 1. rewrite Hcw.
    eexists. split; [reflexivity |].
    repeat split; try assumption; try reflexivity.
    + apply Hs.
    + apply Hs.
    + apply Hok.
    + apply Hok.
Qed.

(** A negative size makes [make] panic. *)
Lemma buildLayout_negative : Rows t < 0 \/ Cols t < 0 -> buildLayout t = None.
Proof.
  intros H. unfold buildLayout, make.
  destruct (Z.ltb_spec (Rows t) 0); [reflexivity |].
  destruct (Z.ltb_spec (Cols t) 0); [reflexivity | lia].
Qed.

(** *** Rendering a layout *)

Variable l : Layout.
Hypothesis Hl : layoutOK t l.
Hypothesis Hr : renders t.

Lemma owner_lookup (rowIdx colIdx : Z) :
  0 <= rowIdx < Rows t -> 0 <= colIdx < Cols t ->
  exists line o, index (cellOwner l) rowIdx = Some line /\ index line colIdx = Some o
                 /\ forall id, o = Some id -> spanning t id.
Proof.
  intros Hrow Hcol. destruct Hl as (_ & [Hlen Hrows] & Ho & _).
  destruct (index_in_range (cellOwner l) rowIdx) as (line & Hi & Hline); [lia |].
  pose proof (Forall_lookup_1 _ _ _ _ Hrows Hline) as Hll. cbn beta in Hll.
  destruct (index_in_range line colIdx) as (o & Hio & Ho1); [lia |].
  exists line, o. split; [exact Hi |]. split; [exact Hio |].
  exact (Forall_lookup_1 _ _ _ _ (Forall_lookup_1 _ _ _ _ Ho Hline) Ho1).
Qed.

Lemma needsHorizontalLine_in_range (rowIdx colIdx : Z) :
  -1 <= rowIdx < Rows t -> 0 <= colIdx < Cols t ->
  exists b, needsHorizontalLine l rowIdx colIdx = Some b.
Proof.
  intros Hrow Hcol. unfold needsHorizontalLine.
  destruct Hl as (Ht & _). rewrite Ht.
  destruct (Z.eqb_spec rowIdx (-1)); [eauto |].
  destruct (Z.eqb_spec rowIdx (Rows t - 1)); [eauto |].
  destruct (owner_lookup rowIdx colIdx) as (a & oa & -> & Ha & _); [lia | lia |].
  destruct (owner_lookup (rowIdx + 1) colIdx) as (b & ob & -> & Hb & _); [lia | lia |].
  rewrite Ha, Hb. eauto.
Qed.

Lemma needsVerticalLine_in_range (rowIdx colIdx : Z) :
  -1 <= rowIdx < Rows t -> 0 <= colIdx < Cols t - 1 ->
  exists b, needsVerticalLine l rowIdx colIdx = Some b.
Proof.
  intros Hrow Hcol. unfold needsVerticalLine.
  destruct Hl as (Ht & _). rewrite Ht.
  destruct (Z.eqb_spec rowIdx (-1)); [eauto |].
  destruct (Z.eqb_spec rowIdx (Rows t - 1)); [eauto |].
  destruct (owner_lookup rowIdx colIdx) as (a & oa & Ha & Ha1 & _); [lia | lia |].
  destruct (owner_lookup rowIdx (colIdx + 1)) as (a' & oa' & Ha' & Ha2 & _); [lia | lia |].
  destruct (owner_lookup (rowIdx + 1) colIdx) as (b & ob & Hb & Hb1 & _); [lia | lia |].
  destruct (owner_lookup (rowIdx + 1) (colIdx + 1)) as (b' & ob' & Hb' & Hb2 & _); [lia | lia |].
  rewrite Ha' in Ha. inversion Ha; subst a'.
  rewrite Hb' in Hb. inversion Hb; subst b'.
  rewrite Ha', Hb', Ha1, Ha2, Hb1, Hb2. eauto.
Qed.

Lemma width_lookup (colIdx : Z) :
  0 <= colIdx < Cols t -> exists w, index (colWidths l) colIdx = Some w /\ 1 <= w.
Proof.
  intros Hcol. destruct Hl as (_ & _ & _ & [Hlen Hw] & _).
  destruct (index_in_range (colWidths l) colIdx) as (w & Hi & Hlook); [lia |].
  exists w. split; [exact Hi |]. exact (Forall_lookup_1 _ _ _ _ Hw Hlook).
Qed.

Lemma noNewline_replicate (n : nat) (c : Z) : c <> 10 -> noNewlineIn (replicate n c).
Proof.
  intros Hc Hin. apply list_elem_of_In, elem_of_replicate in Hin. destruct Hin. congruence.
Qed.

Lemma noNewline_app (a b : list Z) :
  noNewlineIn a -> noNewlineIn b -> noNewlineIn (a ++ b).
Proof. unfold noNewlineIn. rewrite in_app_iff. tauto. Qed.

Lemma noNewline_one (c : Z) : c <> 10 -> noNewlineIn [c].
Proof. intros Hc [H | []]. congruence. Qed.

Lemma borderLoop_in_range (rowIdx : Z) :
  -1 <= rowIdx < Rows t ->
  forall n colIdx sb,
    0 <= colIdx -> colIdx + Z.of_nat n <= Cols t ->
    exists ext, borderLoop n l rowIdx colIdx sb = Some (sb ++ ext) /\ noNewlineIn ext.
Proof.
  intros Hrow. induction n as [| n IH]; intros colIdx sb Hc Hn; cbn [borderLoop].
  - exists []. rewrite app_nil_r. split; [reflexivity | intros []].
  - destruct (needsHorizontalLine_in_range rowIdx colIdx) as (h & ->); [lia | lia |].
    destruct (width_lookup colIdx) as (w & -> & Hw); [lia |].
    unfold Repeat. destruct (Z.ltb_spec (w + 2) 0); [lia |].
    assert (noNewlineIn (replicate (Z.to_nat (w + 2)) (if h then 45 else 32))) as Hseg
      by (apply noNewline_replicate; destruct h; lia).
    destruct Hl as (Ht & _). rewrite Ht.
    destruct (Z.ltb_spec colIdx (Cols t - 1)).
    + destruct (needsVerticalLine_in_range rowIdx colIdx) as (v & ->); [lia | lia |].
      destruct (IH (colIdx + 1) (sb ++ replicate (Z.to_nat (w + 2)) (if h then 45 else 32)
                                     ++ [if v then 43 else 45])) as (ext & -> & Hext);
        [lia | lia |].
      eexists. rewrite <- !app_assoc. split; [reflexivity |].
      apply noNewline_app; [exact Hseg |].
      apply noNewline_app; [apply noNewline_one; destruct v; lia | exact Hext].
    + destruct (IH (colIdx + 1) (sb ++ replicate (Z.to_nat (w + 2)) (if h then 45 else 32)))
        as (ext & -> & Hext); [lia | lia |].
      eexists. rewrite <- !app_assoc. split; [reflexivity |].
      apply noNewline_app; assumption.
Qed.

Lemma renderBorderLine_in_range (rowIdx : Z) :
  -1 <= rowIdx < Rows t ->
  exists line, renderBorderLine l rowIdx = Some line /\ noNewlineIn line.
Proof.
  intros Hrow. unfold renderBorderLine.
  destruct Hl as (Ht & _). rewrite Ht.
  destruct (borderLoop_in_range rowIdx Hrow (Z.to_nat (Cols t)) 0 [43])
    as (ext & -> & Hext); [lia | destruct Hr as (_ & ? & _); lia |].
  eexists. split; [reflexivity |].
  apply noNewline_app; [| apply noNewline_one; lia].
  apply noNewline_app; [apply noNewline_one; lia | exact Hext].
Qed.

Lemma Split_no_sep (s : list Z) (sep : Z) :
  Split s sep <> [] /\ Forall (fun line => ~ In sep line) (Split s sep).
Proof.
  induction s as [| c s [Hne IH]]; cbn [Split].
  - split; [discriminate |]. constructor; [intros [] | constructor].
  - destruct (Z.eqb_spec c sep) as [-> | Hc].
    + split; [discriminate |]. constructor; [intros [] | exact IH].
    + destruct (Split s sep) as [| line rest]; [contradiction |].
      split; [discriminate |]. inversion IH; subst.
      constructor; [| assumption]. intros [H | H]; [congruence | contradiction].
Qed.

Lemma linesOf_no_newline (id : nat) :
  Forall noNewlineIn (linesOf (cellLines l) id).
Proof.
  destruct Hl as (_ & _ & _ & _ & _ & -> & _). unfold linesOf, splitLines.
  rewrite list_lookup_fmap. destruct (Cells t !! id) as [cell |]; cbn.
  - apply Split_no_sep.
  - constructor.
Qed.

Lemma cellText_in_range (id : nat) (owner : Cell) (rowIdx displayRowIdx : Z) :
  0 <= displayRowIdx ->
  exists text, cellText l id owner rowIdx displayRowIdx = Some text /\ noNewlineIn text.
Proof.
  intros Hd. unfold cellText.
  destruct (Row owner =? rowIdx); [| exists []; split; [reflexivity | intros []]].
  destruct (Z.ltb_spec displayRowIdx (Z.of_nat (length (linesOf (cellLines l) id))));
    [| exists []; split; [reflexivity | intros []]].
  destruct (index_in_range (linesOf (cellLines l) id) displayRowIdx) as (text & -> & Hlook);
    [lia |].
  exists text. split; [reflexivity |].
  exact (Forall_lookup_1 _ _ _ _ (linesOf_no_newline id) Hlook).
Qed.

Lemma sumWidths_in_range (col : Z) (n : nat) :
  0 <= col -> col + Z.of_nat n <= Cols t ->
  sumWidths n 0 (colWidths l) col 0 = Some (spannedWidth (colWidths l) col (Z.of_nat n)).
Proof.
  intros Hc Hn. destruct Hl as (_ & _ & _ & [Hlen _] & _).
  destruct (RenderFacts.split_span (colWidths l) (Z.to_nat col) n ltac:(lia))
    as (Hcw & Hpre & Hmid).
  unfold spannedWidth. rewrite Nat2Z.id.
  rewrite Hcw at 1. rewrite <- Hmid at 1.
  rewrite RenderFacts.sumWidths_app by (rewrite ?Z.add_0_r; assumption).
  now rewrite Z.add_0_l.
Qed.

Lemma contentLoop_in_range (rowIdx displayRowIdx : Z) :
  0 <= rowIdx < Rows t -> 0 <= displayRowIdx ->
  forall fuel colIdx sb,
    0 <= colIdx -> Cols t - colIdx < Z.of_nat fuel ->
    exists ext, contentLoop fuel l rowIdx displayRowIdx colIdx sb = Some (sb ++ ext)
                /\ noNewlineIn ext.
Proof.
  intros Hrow Hd. pose proof Hl as (Ht & _).
  induction fuel as [| fuel IH]; intros colIdx sb Hc Hf.
  - cbn [contentLoop]. rewrite Ht. destruct (Z.ltb_spec colIdx (Cols t)); [lia |].
    exists []. rewrite app_nil_r. split; [reflexivity | intros []].
  - cbn [contentLoop]. rewrite Ht. destruct (Z.ltb_spec colIdx (Cols t)) as [Hlt |].
    2:{ exists []. rewrite app_nil_r. split; [reflexivity | intros []]. }
    destruct (owner_lookup rowIdx colIdx) as (line & o & -> & -> & Ho); [lia | lia |].
    destruct o as [id |]; [| apply IH; lia].
    destruct (Ho id eq_refl) as (owner & Hid & Hspan). rewrite Hid.
    destruct (Z.eqb_spec (Col owner) colIdx) as [Hcol |]; [| apply IH; lia].
    destruct Hr as (_ & _ & Hcells).
    destruct (Forall_lookup_1 _ _ _ _ Hcells Hid) as [Hcols _].
    destruct (Hcols Hspan) as [_ Hend].
    rewrite (sumWidths_in_range colIdx (Z.to_nat (ColSpan owner))) by lia.
    destruct (cellText_in_range id owner rowIdx displayRowIdx Hd) as (text & -> & Htext).
    unfold Repeat.
    match goal with
    | |- context [if ?p <? 0 then None else _] =>
        destruct (Z.ltb_spec p 0) as [Hneg |]
    end.
    { match type of Hneg with
      | (if ?x <? 0 then _ else _) < 0 => destruct (Z.ltb_spec x 0); lia
      end. }
    match goal with
    | |- context [replicate ?n 32] => set (pad := replicate n 32)
    end.
    assert (noNewlineIn ([32] ++ text ++ pad ++ [32])) as Hfield.
    { apply noNewline_app; [apply noNewline_one; lia |].
      apply noNewline_app; [exact Htext |].
      apply noNewline_app; [apply noNewline_replicate; lia | apply noNewline_one; lia]. }
    destruct (colIdx + ColSpan owner <? Cols t).
    + destruct (IH (colIdx + ColSpan owner) (sb ++ ([32] ++ text ++ pad ++ [32]) ++ [124]))
        as (ext & -> & Hext); [lia | lia |].
      eexists. rewrite <- !app_assoc. split; [reflexivity |].
      rewrite !app_assoc. apply noNewline_app; [| exact Hext].
      rewrite <- !app_assoc.
      repeat apply noNewline_app; try assumption;
        try (apply noNewline_one; lia); apply noNewline_replicate; lia.
    + destruct (IH (colIdx + ColSpan owner) (sb ++ ([32] ++ text ++ pad ++ [32])))
        as (ext & -> & Hext); [lia | lia |].
      eexists. rewrite <- !app_assoc. split; [reflexivity |].
      rewrite !app_assoc. apply noNewline_app; [| exact Hext].
      rewrite <- !app_assoc.
      repeat apply noNewline_app; try assumption;
        try (apply noNewline_one; lia); apply noNewline_replicate; lia.
Qed.

Lemma unlines_app (a b : list (list Z)) : unlines (a ++ b) = unlines a ++ unlines b.
Proof. unfold unlines. now rewrite map_app, concat_app. Qed.

Lemma unlines_one (line : list Z) : unlines [line] = line ++ [10].
Proof. unfold unlines. cbn. now rewrite app_nil_r. Qed.

Lemma renderContentLine_in_range (rowIdx displayRowIdx : Z) :
  0 <= rowIdx < Rows t -> 0 <= displayRowIdx ->
  exists line, renderContentLine l rowIdx displayRowIdx = Some line /\ noNewlineIn line.
Proof.
  intros Hrow Hd. unfold renderContentLine. destruct Hl as (Ht & _). rewrite Ht.
  destruct (contentLoop_in_range rowIdx displayRowIdx Hrow Hd
              (S (Z.to_nat (Cols t))) 0 [124]) as (ext & -> & Hext); [lia | lia |].
  eexists. split; [reflexivity |].
  apply noNewline_app; [| apply noNewline_one; lia].
  apply noNewline_app; [apply noNewline_one; lia | exact Hext].
Qed.

Lemma contentLines_in_range (rowIdx : Z) :
  0 <= rowIdx < Rows t ->
  forall n displayRowIdx sb,
    0 <= displayRowIdx ->
    exists ls, contentLines n l rowIdx displayRowIdx sb = Some (sb ++ unlines ls)
               /\ length ls = n /\ Forall noNewlineIn ls.
Proof.
  intros Hrow. induction n as [| n IH]; intros d sb Hd; cbn [contentLines].
  - exists []. cbn. rewrite app_nil_r. auto.
  - destruct (renderContentLine_in_range rowIdx d Hrow Hd) as (line & -> & Hline).
    destruct (IH (d + 1) (sb ++ line ++ [10])) as (ls & -> & Hlen & Hls); [lia |].
    exists (line :: ls). split; [| split; [cbn; lia | now constructor]].
    change (line :: ls) with ([line] ++ ls).
    now rewrite unlines_app, unlines_one, <- !app_assoc.
Qed.

Lemma rowHeights_lookup (rowIdx : Z) :
  0 <= rowIdx < Rows t ->
  index (rowHeights l) rowIdx = Some (rowHeight t (splitLines t) rowIdx).
Proof.
  intros Hrow. destruct Hl as (_ & _ & _ & _ & -> & _).
  unfold index, computeRowHeights. destruct (Z.ltb_spec rowIdx 0); [lia |].
  rewrite list_lookup_fmap.
  rewrite (proj2 (lookup_seq 0 (Z.to_nat (Rows t)) (Z.to_nat rowIdx) (Z.to_nat rowIdx)))
    by (split; lia).
  cbn. now rewrite Z2Nat.id by lia.
Qed.

Lemma renderRows_in_range :
  forall n rowIdx sb,
    0 <= rowIdx -> rowIdx + Z.of_nat n <= Rows t ->
    exists ls, renderRows n l rowIdx sb = Some (sb ++ unlines ls)
               /\ Forall noNewlineIn ls
               /\ length ls
                  = list_sum (map (fun row => S (Z.to_nat (rowHeight t (splitLines t)
                                                             (Z.of_nat row))))
                                  (seq (Z.to_nat rowIdx) n)).
Proof.
  induction n as [| n IH]; intros rowIdx sb Hrow Hn; cbn [renderRows].
  - exists []. cbn. rewrite app_nil_r. auto.
  - rewrite rowHeights_lookup by lia.
    destruct (contentLines_in_range rowIdx ltac:(lia)
                (Z.to_nat (rowHeight t (splitLines t) rowIdx)) 0 sb ltac:(lia))
      as (ls1 & -> & Hlen1 & Hls1).
    destruct (renderBorderLine_in_range rowIdx ltac:(lia)) as (border & -> & Hborder).
    destruct (IH (rowIdx + 1) ((sb ++ unlines ls1) ++ border ++ [10]))
      as (ls2 & -> & Hls2 & Hlen2); [lia | lia |].
    exists (ls1 ++ [border] ++ ls2). split; [| split].
    + now rewrite !unlines_app, unlines_one, <- !app_assoc.
    + apply Forall_app. split; [exact Hls1 |]. now constructor.
    + rewrite !length_app, Hlen1, Hlen2. cbn [length seq map list_sum].
      rewrite Z2Nat.id by lia.
      replace (Z.to_nat (rowIdx + 1)) with (S (Z.to_nat rowIdx)) by lia.
      unfold list_sum. cbn [fold_right]. lia.
Qed.

Lemma render_in_range :
  exists ls, render l = Some (unlines ls)
             /\ Forall noNewlineIn ls /\ length ls = lineCount t.
Proof.
  unfold render. destruct Hl as (Ht & _). rewrite Ht.
  destruct Hr as (Hrows & _).
  destruct (renderBorderLine_in_range (-1) ltac:(lia)) as (top & -> & Htop).
  destruct (renderRows_in_range (Z.to_nat (Rows t)) 0 (top ++ [10]))
    as (ls & -> & Hls & Hlen); [lia | lia |].
  exists (top :: ls). split; [| split; [now constructor |]].
  - change (top :: ls) with ([top] ++ ls). now rewrite unlines_app, unlines_one.
  - unfold lineCount. cbn [length]. now rewrite Hlen.
Qed.

(** *** Which line is which *)

Lemma renderBorderLine_border (rowIdx : Z) :
  -1 <= rowIdx < Rows t ->
  exists line, renderBorderLine l rowIdx = Some line
               /\ noNewlineIn line /\ kindOf line = Some Border.
Proof.
  intros Hrow. destruct (renderBorderLine_in_range rowIdx Hrow) as (line & Hline & Hnl).
  exists line. split; [exact Hline |]. split; [exact Hnl |].
  unfold renderBorderLine in Hline. destruct Hl as (Ht & _). rewrite Ht in Hline.
  destruct (borderLoop_in_range rowIdx Hrow (Z.to_nat (Cols t)) 0 [43])
    as (ext & Hext & _); [lia | destruct Hr as (_ & ? & _); lia |].
  rewrite Hext in Hline. inversion Hline. reflexivity.
Qed.

Lemma renderContentLine_content (rowIdx displayRowIdx : Z) :
  0 <= rowIdx < Rows t -> 0 <= displayRowIdx ->
  exists line, renderContentLine l rowIdx displayRowIdx = Some line
               /\ noNewlineIn line /\ kindOf line = Some Content.
Proof.
  intros Hrow Hd.
  destruct (renderContentLine_in_range rowIdx displayRowIdx Hrow Hd)
    as (line & Hline & Hnl).
  exists line. split; [exact Hline |]. split; [exact Hnl |].
  unfold renderContentLine in Hline. destruct Hl as (Ht & _). rewrite Ht in Hline.
  destruct (contentLoop_in_range rowIdx displayRowIdx Hrow Hd
              (S (Z.to_nat (Cols t))) 0 [124]) as (ext & Hext & _); [lia | lia |].
  rewrite Hext in Hline. inversion Hline. reflexivity.
Qed.

Lemma seq_lines {A} (g : Z -> A) (d : Z) (n : nat) :
  map (fun k => g (d + Z.of_nat k)) (seq 0 (S n))
  = g d :: map (fun k => g (d + 1 + Z.of_nat k)) (seq 0 n).
Proof.
  cbn [seq map]. rewrite Z.add_0_r. f_equal.
  rewrite <- List.seq_shift, List.map_map. apply List.map_ext.
  intros k. f_equal. lia.
Qed.

Lemma contentLines_lines (rowIdx : Z) :
  0 <= rowIdx < Rows t ->
  forall n d sb,
    0 <= d ->
    exists ls, contentLines n l rowIdx d sb = Some (sb ++ unlines ls)
               /\ Forall noNewlineIn ls
               /\ map Some ls
                  = map (fun k => renderContentLine l rowIdx (d + Z.of_nat k)) (seq 0 n)
               /\ map kindOf ls = replicate n (Some Content).
Proof.
  intros Hrow. induction n as [| n IH]; intros d sb Hd.
  - exists []. cbn. rewrite app_nil_r. auto.
  - cbn [contentLines].
    destruct (renderContentLine_content rowIdx d Hrow Hd) as (line & Hline & Hnl & Hk).
    rewrite Hline.
    destruct (IH (d + 1) (sb ++ line ++ [10])) as (ls & -> & Hls & Hfrom & Hkinds); [lia |].
    exists (line :: ls). split; [| split; [now constructor | split]].
    + change (line :: ls) with ([line] ++ ls).
      now rewrite unlines_app, unlines_one, <- !app_assoc.
    + rewrite seq_lines, Hline. cbn [map]. now rewrite Hfrom.
    + cbn [map replicate]. now rewrite Hk, Hkinds.
Qed.

Lemma renderRows_lines :
  forall n rowIdx sb,
    0 <= rowIdx -> rowIdx + Z.of_nat n <= Rows t ->
    exists ls, renderRows n l rowIdx sb = Some (sb ++ unlines ls)
               /\ Forall noNewlineIn ls
               /\ map Some ls
                  = concat (map (fun row => rowLines l (heightOf t row) (Z.of_nat row))
                                (seq (Z.to_nat rowIdx) n))
               /\ map kindOf ls
                  = map Some (concat (map (fun row => replicate (heightOf t row) Content
                                                      ++ [Border])
                                          (seq (Z.to_nat rowIdx) n))).
Proof.
  induction n as [| n IH]; intros rowIdx sb Hrow Hn; cbn [renderRows].
  - exists []. cbn. rewrite app_nil_r. auto.
  - rewrite rowHeights_lookup by lia.
    destruct (contentLines_lines rowIdx ltac:(lia)
                (Z.to_nat (rowHeight t (splitLines t) rowIdx)) 0 sb ltac:(lia))
      as (ls1 & -> & Hls1 & Hfrom1 & Hkinds1).
    destruct (renderBorderLine_border rowIdx ltac:(lia))
      as (border & Hborder & Hnl & Hk).
    rewrite Hborder.
    destruct (IH (rowIdx + 1) ((sb ++ unlines ls1) ++ border ++ [10]))
      as (ls2 & -> & Hls2 & Hfrom2 & Hkinds2); [lia | lia |].
    replace (Z.to_nat (rowIdx + 1)) with (S (Z.to_nat rowIdx)) in * by lia.
    exists (ls1 ++ [border] ++ ls2).
    cbn [seq map concat]. unfold heightOf at 1 3, rowLines at 1.
    rewrite Z2Nat.id by lia.
    split; [| split; [| split]].
    + now rewrite !unlines_app, unlines_one, <- !app_assoc.
    + apply Forall_app. split; [exact Hls1 |]. now constructor.
    + rewrite !map_app, Hfrom1, Hfrom2. cbn [map]. rewrite Hborder, <- !app_assoc.
      reflexivity.
    + rewrite !map_app, Hkinds1, Hkinds2. cbn [map]. rewrite Hk, <- !app_assoc.
      f_equal. clear. induction (Z.to_nat (rowHeight t (splitLines t) rowIdx));
        cbn [replicate map]; congruence.
Qed.

Lemma render_line_order :
  exists ls, render l = Some (unlines ls)
             /\ Forall noNewlineIn ls
             /\ map Some ls = tableLines t l
             /\ map kindOf ls = map Some (lineKinds t).
Proof.
  unfold render. destruct Hl as (Ht & _). rewrite Ht.
  destruct Hr as (Hrows & _).
  destruct (renderBorderLine_border (-1) ltac:(lia)) as (top & Htop & Hnl & Hk).
  rewrite Htop.
  destruct (renderRows_lines (Z.to_nat (Rows t)) 0 (top ++ [10]))
    as (ls & -> & Hls & Hfrom & Hkinds); [lia | lia |].
  exists (top :: ls). split; [| split; [now constructor | split]].
  - change (top :: ls) with ([top] ++ ls). now rewrite unlines_app, unlines_one.
  - unfold tableLines. cbn [map]. now rewrite Htop, Hfrom.
  - unfold lineKinds. cbn [map]. now rewrite Hk, Hkinds.
Qed.

End Rendering.

Lemma lineKinds_length (t : Table) : length (lineKinds t) = lineCount t.
Proof.
  unfold lineKinds, lineCount. cbn [length]. f_equal.
  induction (seq 0 (Z.to_nat (Rows t))) as [| row rows IH]; [reflexivity |].
  cbn [map concat list_sum]. rewrite !length_app, length_replicate, IH.
  unfold heightOf, list_sum. cbn [length fold_right]. lia.
Qed.

(** *** What a layout that was built says about the table *)

Section Built.
Context {cond : Condition}.
Variable t : Table.

Lemma foldM_Some {A B} (f : B -> A -> option B) (I : B -> Prop) (Q : A -> Prop)
  (l : list A) :
  (forall b x b', I b -> f b x = Some b' -> I b' /\ Q x) ->
  forall b b', I b -> foldM f l b = Some b' -> I b' /\ Forall Q l.
Proof.
  intros Hstep. induction l as [| x l IH]; intros b b' Hb H; cbn [foldM] in H.
  - inversion H; subst. split; [assumption | constructor].
  - destruct (f b x) as [b1 |] eqn:Hx; [| discriminate].
    destruct (Hstep b x b1 Hb Hx) as [Hb1 HQ].
    destruct (IH b1 b' Hb1 H) as [Hb' Hl]. split; [assumption | now constructor].
Qed.

Lemma sumWidths_Some (cw : list Z) (col : Z) :
  forall n c acc total,
    sumWidths n c cw col acc = Some total ->
    forall k, c <= k < c + Z.of_nat n -> 0 <= col + k < Z.of_nat (length cw).
Proof.
  induction n as [| n IH]; intros c acc total H k Hk; [lia |].
  cbn [sumWidths] in H.
  destruct (index cw (col + c)) as [w |] eqn:Hi; [| discriminate].
  destruct (Z.eq_dec k c) as [-> | Hne].
  - unfold index in Hi. destruct (Z.ltb_spec (col + c) 0); [discriminate |].
    apply lookup_lt_Some in Hi. lia.
  - apply (IH _ _ _ H). lia.
Qed.

Lemma addWidths_length (col perCol remainder : Z) :
  forall n c cw cw', addWidths n c cw col perCol remainder = Some cw' ->
                     length cw' = length cw.
Proof.
  induction n as [| n IH]; intros c cw cw' H; cbn [addWidths] in H.
  - now inversion H.
  - destruct (index cw (col + c)) as [w |]; [| discriminate].
    destruct (store cw (col + c) _) as [cw1 |] eqn:Hs; [| discriminate].
    rewrite (IH _ _ _ H). unfold store in Hs.
    destruct (_ && _) in Hs; [| discriminate]. inversion Hs. apply length_insert.
Qed.

Lemma widenSingle_Some (lines : list (list (list Z))) (cw cw' : list Z)
  (ic : nat * Cell) :
  length cw = Z.to_nat (Cols t) -> 0 <= Cols t ->
  widenSingle lines cw ic = Some cw' ->
  length cw' = Z.to_nat (Cols t)
  /\ (ColSpan (snd ic) = 1 -> 0 <= Col (snd ic) < Cols t).
Proof.
  intros Hlen Hc. unfold widenSingle.
  destruct (Z.eqb_spec (ColSpan (snd ic)) 1) as [Hone | Hno];
    [| intros Heq; inversion Heq; subst; split; [assumption | contradiction]].
  destruct (index cw (Col (snd ic))) as [w |] eqn:Hi; [| discriminate].
  assert (0 <= Col (snd ic) < Cols t) as Hcol.
  { unfold index in Hi. destruct (Z.ltb_spec (Col (snd ic)) 0); [discriminate |].
    apply lookup_lt_Some in Hi. lia. }
  destruct (_ >? w).
  - rewrite store_in_range by lia. intros Heq; inversion Heq; subst.
    rewrite length_insert. auto.
  - intros Heq; inversion Heq; subst. auto.
Qed.

Lemma widenSpan_Some (lines : list (list (list Z))) (cw cw' : list Z)
  (ic : nat * Cell) :
  length cw = Z.to_nat (Cols t) -> 0 <= Cols t ->
  widenSpan lines cw ic = Some cw' ->
  length cw' = Z.to_nat (Cols t)
  /\ (1 < ColSpan (snd ic) ->
      0 <= Col (snd ic) /\ Col (snd ic) + ColSpan (snd ic) <= Cols t).
Proof.
  intros Hlen Hc. unfold widenSpan.
  destruct (Z.gtb_spec (ColSpan (snd ic)) 1) as [Hspan | Hno];
    [| intros Heq; inversion Heq; subst; split; [assumption | lia]].
  destruct (sumWidths _ 0 cw (Col (snd ic)) 0) as [total |] eqn:Hsum; [| discriminate].
  pose proof (sumWidths_Some _ _ _ _ _ _ Hsum) as Hin.
  pose proof (Hin 0 ltac:(lia)) as Hfirst.
  pose proof (Hin (ColSpan (snd ic) - 1) ltac:(lia)) as Hlast.
  destruct (_ >? total).
  - intros Heq. apply addWidths_length in Heq. split; [congruence | lia].
  - intros Heq; inversion Heq; subst. split; [assumption | lia].
Qed.

Lemma buildLayout_Some (l : Layout) : buildLayout t = Some l -> renders t.
Proof.
  intros H.
  destruct (Z_lt_le_dec (Rows t) 0) as [Hneg | Hrows].
  { rewrite buildLayout_negative in H by (left; exact Hneg). discriminate. }
  destruct (Z_lt_le_dec (Cols t) 0) as [Hneg | Hcols].
  { rewrite buildLayout_negative in H by (right; exact Hneg). discriminate. }
  unfold buildLayout in H.
  destruct (grid0_shaped t Hrows Hcols) as (Hm & Hs0 & _). rewrite Hm in H.
  unfold make in H. destruct (Z.ltb_spec (Cols t) 0); [lia |].
  destruct (foldM (ownCell t) _ _) as [grid |] eqn:Hown; [| discriminate].
  destruct (computeColWidths t _ _) as [cw |] eqn:Hcw; [| discriminate].
  unfold computeColWidths in Hcw.
  destruct (foldM (widenSingle _) _ _) as [cw2 |] eqn:Hsingle; [| discriminate].
  assert (length (map (fun _ : Z => 1) (replicate (Z.to_nat (Cols t)) 0))
          = Z.to_nat (Cols t)) as Hlen1 by now rewrite length_map, length_replicate.
  destruct (foldM_Some _ (fun cw => length cw = Z.to_nat (Cols t))
              (fun ic => ColSpan (snd ic) = 1 -> 0 <= Col (snd ic) < Cols t)
              _ (fun b x b' Hb Hx => widenSingle_Some _ b b' x Hb Hcols Hx)
              _ _ Hlen1 Hsingle)
    as [Hlen2 Hone].
  destruct (foldM_Some _ (fun cw => length cw = Z.to_nat (Cols t))
              (fun ic => 1 < ColSpan (snd ic) ->
                         0 <= Col (snd ic) /\ Col (snd ic) + ColSpan (snd ic) <= Cols t)
              _ (fun b x b' Hb Hx => widenSpan_Some _ b b' x Hb Hcols Hx)
              _ _ Hlen2 Hcw)
    as [_ Hmore].
  destruct (foldM_Some (ownCell t) (shaped t)
              (fun ic => 1 <= RowSpan (snd ic) -> 1 <= ColSpan (snd ic) ->
                         Row (snd ic) < Rows t -> 0 <= Col (snd ic) < Cols t ->
                         0 <= Row (snd ic))
              (cellsWithId t)) with (b := replicate (Z.to_nat (Rows t))
                                         (replicate (Z.to_nat (Cols t)) (None : option nat)))
                                    (b' := grid)
    as [_ Hrow]; [| exact Hs0 | exact Hown |].
  { intros g ic g' Hg Hic. split; [exact (ownCell_shape t _ _ _ Hg Hic) |].
    intros Hrs Hcs Hr Hc. destruct (Z_lt_le_dec (Row (snd ic)) 0) as [Hneg |]; [| assumption].
    rewrite ownCell_negative_row in Hic by assumption. discriminate. }
  split; [exact Hrows |]. split; [exact Hcols |].
  apply Forall_lookup_2. intros id cell Hcell.
  pose proof (cellsWithId_at t id cell Hcell) as Hid.
  pose proof (Forall_lookup_1 _ _ _ _ Hone Hid) as H1.
  pose proof (Forall_lookup_1 _ _ _ _ Hmore Hid) as H2.
  pose proof (Forall_lookup_1 _ _ _ _ Hrow Hid) as H3.
  cbn [snd] in H1, H2, H3.
  assert (1 <= ColSpan cell -> 0 <= Col cell /\ Col cell + ColSpan cell <= Cols t) as Hc.
  { intros Hspan. destruct (Z.eq_dec (ColSpan cell) 1) as [Hone1 | Hne].
    - specialize (H1 Hone1). lia.
    - apply H2. lia. }
  split; [exact Hc |]. intros Hrs Hcs Hr. apply H3; try assumption.
  specialize (Hc Hcs). lia.
Qed.

Lemma Render_in_range :
  renders t ->
  exists ls, Render t = Some (unlines ls)
             /\ Forall noNewlineIn ls /\ length ls = lineCount t.
Proof.
  intros Hr. unfold Render.
  destruct (buildLayout_in_range t Hr) as (l & -> & Hl).
  exact (render_in_range t l Hl Hr).
Qed.

Lemma Render_Some (out : list Z) : Render t = Some out -> renders t.
Proof.
  unfold Render. destruct (buildLayout t) as [l |] eqn:Hb; [| discriminate].
  intros _. exact (buildLayout_Some l Hb).
Qed.

Lemma linesOf_cell (id : nat) (cell : Cell) :
  Cells t !! id = Some cell -> linesOf (splitLines t) id = Split (Text cell) 10.
Proof.
  intros H. unfold linesOf, splitLines. now rewrite list_lookup_fmap, H.
Qed.

Lemma Split_length (s : list Z) :
  Z.of_nat (length (Split s 10)) = textLines s.
Proof.
  unfold textLines. induction s as [| c s IH]; [reflexivity |].
  cbn [Split count_occ]. destruct (Z.eqb_spec c 10) as [-> | Hc].
  - cbn [length]. rewrite Nat2Z.inj_succ, IH.
    destruct (Z.eq_dec 10 10); [lia | contradiction].
  - destruct (Z.eq_dec c 10); [contradiction |].
    rewrite <- IH. destruct (Split s 10) as [| line rest] eqn:Hs.
    + destruct (Split_no_sep s 10) as [Hne _]. congruence.
    + reflexivity.
Qed.

Lemma rowHeight_fold_tallest (row : Z) (l : list (nat * Cell)) :
  Forall (fun ic => Cells t !! fst ic = Some (snd ic)) l ->
  forall acc,
    let h := fold_left (fun maxLines (ic : nat * Cell) =>
               if Row (snd ic) =? row then
                 let lineCount := Z.of_nat (length (linesOf (splitLines t) (fst ic))) in
                 if lineCount >? maxLines then lineCount else maxLines
               else maxLines) l acc in
    acc <= h
    /\ Forall (fun ic => Row (snd ic) = row -> textLines (Text (snd ic)) <= h) l
    /\ (h = acc \/ exists ic, In ic l /\ Row (snd ic) = row
                              /\ h = textLines (Text (snd ic))).
Proof.
  induction 1 as [| ic l Hic Hl IH]; intros acc; cbn [fold_left].
  - split; [lia |]. split; [constructor | now left].
  - cbv zeta. rewrite (linesOf_cell _ _ Hic), Split_length.
    set (acc' := if Row (snd ic) =? row
                 then if textLines (Text (snd ic)) >? acc
                      then textLines (Text (snd ic)) else acc
                 else acc).
    destruct (IH acc') as (Hge & Hall & Hmax). cbv zeta in Hge, Hall, Hmax.
    set (h := fold_left _ l acc') in *.
    assert (acc <= acc' /\ (Row (snd ic) = row -> textLines (Text (snd ic)) <= acc')
            /\ (acc' = acc \/ (Row (snd ic) = row /\ acc' = textLines (Text (snd ic)))))
      as (H1 & H2 & H3).
    { unfold acc'. destruct (Z.eqb_spec (Row (snd ic)) row);
        [destruct (Z.gtb_spec (textLines (Text (snd ic))) acc) |]; lia. }
    split; [lia |]. split.
    + constructor; [intros Hr; specialize (H2 Hr); lia | exact Hall].
    + destruct Hmax as [Heq | (ic' & Hin & Hr & Heq)].
      * destruct H3 as [H3 | [Hr H3]]; [left; lia |].
        right. exists ic. split; [now left |]. split; [exact Hr | lia].
      * right. exists ic'. split; [now right | auto].
Qed.

End Built.

(** X1. Render returns a string exactly for the tables whose cells can be
    laid out: the row and column counts are not negative, every cell that
    spans at least one column starts at a column of the table and ends at
    one, and every cell that owns a grid position starts at a row that is
    not negative.  On every other table it panics (a negative size passed
    to make, or an index out of range in the ownership grid or the column
    widths).  A row span may reach past the last row: those loops stop at
    the table's edge. *)
Theorem Render_returns_iff {cond : Condition} (t : Table) :
  (exists out, Render t = Some out) <-> renders t.
Proof.
  split.
  - intros [out H]. exact (Render_Some t out H).
  - intros Hr. destruct (Render_in_range t Hr) as (ls & H & _). eauto.
Qed.

(** X2. What Render returns is a sequence of lines, each ended by a
    newline and holding no other newline, in this order: first the border
    line above the first row (renderBorderLine at -1), then for every row
    of the table, from the first to the last, its content lines (what
    renderContentLine returns for the display rows 0, 1, ... up to the
    height of the row) followed by the border line below that row.  Every
    border line begins with '+' and every content line with '|'. *)
Theorem Render_lines {cond : Condition} (t : Table) (out : list Z) :
  Render t = Some out ->
  exists l ls,
    buildLayout t = Some l
    /\ out = unlines ls /\ Forall noNewlineIn ls /\ length ls = lineCount t
    /\ map Some ls = tableLines t l
    /\ map kindOf ls = map Some (lineKinds t).
Proof.
  intros H. pose proof (Render_Some t out H) as Hr.
  destruct (buildLayout_in_range t Hr) as (l & Hb & Hl).
  unfold Render in H. rewrite Hb in H.
  destruct (render_line_order t l Hl Hr) as (ls & Hls & Hnl & Hfrom & Hkinds).
  exists l, ls. split; [exact Hb |]. split; [congruence |]. split; [exact Hnl |].
  split; [| split; [exact Hfrom | exact Hkinds]].
  rewrite <- lineKinds_length, <- (length_map Some (lineKinds t)), <- Hkinds.
  now rewrite length_map.
Qed.

Lemma Render_lines_witness :
  exists out ls,
    @Render sampleCondition headerTable = Some out
    /\ out = unlines ls
    /\ map kindOf ls
       = [Some Border; Some Content; Some Border; Some Content; Some Border].
Proof.
  assert (exists out, @Render sampleCondition headerTable = Some out) as [out Hout]
    by (vm_compute; eauto).
  destruct (Render_lines headerTable out Hout) as (l & ls & _ & Hls & _ & _ & _ & Hk).
  exists out, ls. split; [exact Hout |]. split; [exact Hls | exact Hk].
Defined.

(** X3. In a layout that buildLayout returns there is one width for each
    column, every width is at least 1, and every cell fits: the columns a
    cell spans are together at least as wide as the widest line of its
    text. *)
Theorem buildLayout_cells_fit {cond : Condition} (t : Table) (l : Layout) :
  buildLayout t = Some l ->
  Z.of_nat (length (colWidths l)) = Cols t
  /\ Forall (fun w => 1 <= w) (colWidths l)
  /\ forall id cell,
       Cells t !! id = Some cell -> 1 <= ColSpan cell ->
       maxLineWidth (Split (Text cell) 10)
       <= spannedWidth (colWidths l) (Col cell) (ColSpan cell).
Proof.
  intros H. pose proof (buildLayout_Some t l H) as Hr.
  destruct (buildLayout_in_range t Hr) as (l' & H' & Hl).
  assert (l' = l) as -> by congruence.
  destruct Hl as (_ & _ & _ & [Hlen Hw] & _ & _ & Hfit).
  destruct Hr as (_ & Hcols & _).
  split; [lia |]. split; [exact Hw |].
  intros id cell Hcell Hspan.
  pose proof (Forall_lookup_1 _ _ _ _ Hfit (cellsWithId_at t id cell Hcell)) as Hf.
  unfold fits in Hf. cbn [fst snd] in Hf.
  rewrite (linesOf_cell t id cell Hcell) in Hf. now apply Hf.
Qed.

Lemma buildLayout_cells_fit_witness :
  exists l,
    @buildLayout sampleCondition headerTable = Some l
    /\ 6 <= spannedWidth (colWidths l) 0 2.
Proof.
  assert (exists l, @buildLayout sampleCondition headerTable = Some l) as [l Hl]
    by (vm_compute; eauto).
  exists l. split; [exact Hl |].
  destruct (buildLayout_cells_fit headerTable l Hl) as (_ & _ & Hfit).
  exact (Hfit 0%nat _ eq_refl ltac:(cbn; lia)).
Defined.

(** X4. The height of a row is the largest number of text lines (one more
    than the newlines of the text) among the cells that start in that
    row, and at least 1; a cell that only reaches into the row from above
    does not count. *)
Theorem rowHeight_tallest (t : Table) (row : Z) :
  let h := rowHeight t (splitLines t) row in
  1 <= h
  /\ (forall cell, In cell (Cells t) -> Row cell = row -> textLines (Text cell) <= h)
  /\ (h = 1 \/ exists cell, In cell (Cells t) /\ Row cell = row
                            /\ h = textLines (Text cell)).
Proof.
  cbv zeta. unfold rowHeight.
  destruct (rowHeight_fold_tallest t row (cellsWithId t) (cellsWithId_cells t) 1)
    as (Hge & Hall & Hmax).
  cbv zeta in Hge, Hall, Hmax.
  set (h := fold_left _ (cellsWithId t) 1) in *.
  split; [exact Hge |]. split.
  - intros cell Hin Hrow. apply list_elem_of_In, list_elem_of_lookup in Hin.
    destruct Hin as [id Hid].
    exact (Forall_lookup_1 _ _ _ _ Hall (cellsWithId_at t id cell Hid) Hrow).
  - destruct Hmax as [Heq | ([id cell] & Hin & Hr & Heq)]; [now left |].
    right. exists cell. cbn [snd] in *. split; [| auto].
    apply list_elem_of_In, list_elem_of_lookup in Hin. destruct Hin as [i Hi].
    pose proof (Forall_lookup_1 _ _ _ _ (cellsWithId_cells t) Hi) as Hc.
    cbn [fst snd] in Hc. apply list_elem_of_In, list_elem_of_lookup. eauto.
Qed.

End LayoutFacts.

(** * The record scanner and the paragraph text: errors, framing, round trip *)

Module RecordProps.
Import Record RecordShape.

(** *** Reading from an in-memory reader *)

Lemma ReadFull_ok (r : list Z) (n : nat) (got r' : list Z) :
  ReadFull r n = (got, None, r') -> r = got ++ r' /\ length got = n.
Proof.
  unfold ReadFull. destruct (Nat.leb_spec n (length r)) as [Hle | Hgt].
  - intros H; inversion H; subst. split; [now rewrite take_drop |].
    rewrite length_take. lia.
  - destruct (length r =? 0)%nat; discriminate.
Qed.

Lemma ReadFull_err (r : list Z) (n : nat) (got r' : list Z) (e : error) :
  ReadFull r n = (got, Some e, r') ->
  r' = [] /\ (length r < n)%nat
  /\ ((e = EOF /\ r = []) \/ (e = ErrUnexpectedEOF /\ r <> [])).
Proof.
  unfold ReadFull. destruct (Nat.leb_spec n (length r)) as [Hle | Hgt]; [discriminate |].
  destruct (Nat.eqb_spec (length r) 0) as [H0 | Hpos]; intros Heq; inversion Heq; subst.
  - apply length_zero_iff_nil in H0. subst. auto.
  - split; [reflexivity |]. split; [assumption |]. right. split; [reflexivity |].
    intros ->. now apply Hpos.
Qed.

(** *** Framing *)

Lemma readFrame_ok (s s' : list Z) (base : recHeader) (data : list Z) :
  readFrame s = (Ok (base, data), s') ->
  s = take (headerLength s) s ++ data ++ s'
  /\ length data = Z.to_nat (Size base)
  /\ (headerLength s <= length s)%nat.
Proof.
  unfold readFrame, headerLength.
  destruct (ReadFull s 4) as [[raw [e |]] s1] eqn:H1; [discriminate |].
  apply ReadFull_ok in H1. destruct H1 as [Hs Hraw]. cbv zeta. cbn [Size TagID Level].
  assert (take 4 s = raw) as Htake by (rewrite Hs, <- Hraw; apply take_app_length).
  rewrite Htake.
  destruct (Z.land (Z.shiftr (Uint32 raw) 20) 0xfff =? 0xfff).
  - destruct (ReadFull s1 4) as [[raw2 [e |]] s2] eqn:H2; [discriminate |].
    apply ReadFull_ok in H2. destruct H2 as [Hs1 Hraw2]. cbn [Size].
    destruct (ReadFull s2 _) as [[d [e |]] s3] eqn:H3; [discriminate |].
    apply ReadFull_ok in H3. destruct H3 as [Hs2 Hd].
    intros H; inversion H; subst data s3 base. cbn [Size].
    split; [| split; [exact Hd |]].
    + assert (s = (raw ++ raw2) ++ d ++ s') as Hall
        by (rewrite Hs, Hs1, Hs2; now rewrite <- app_assoc).
      assert (take 8 s = raw ++ raw2) as H8.
      { rewrite Hall. replace 8%nat with (length (raw ++ raw2))
          by (rewrite length_app; lia).
        apply take_app_length. }
      rewrite H8. exact Hall.
    + rewrite Hs, Hs1, !length_app. lia.
  - cbn [Size]. destruct (ReadFull s1 _) as [[d [e |]] s3] eqn:H3; [discriminate |].
    apply ReadFull_ok in H3. destruct H3 as [Hs1 Hd].
    intros H; inversion H; subst data s3 base. cbn [Size].
    split; [| split; [exact Hd |]].
    + rewrite Htake. now rewrite Hs, Hs1.
    + rewrite Hs, length_app. lia.
Qed.

Lemma readFrame_err (s s' : list Z) (e : error) :
  readFrame s = (Err e, s') ->
  s' = []
  /\ ((e = EOF /\ s = [])
      \/ (e = ErrUnexpectedEOF /\ (0 < length s < 4)%nat)
      \/ (exists e', e = ErrWrap "read extended size" e'
                     /\ (e' = EOF \/ e' = ErrUnexpectedEOF)
                     /\ (4 <= length s < 8)%nat)
      \/ (exists e', e = ErrWrap "read record data" e'
                     /\ (e' = EOF \/ e' = ErrUnexpectedEOF)
                     /\ (headerLength s <= length s)%nat)).
Proof.
  unfold readFrame, headerLength.
  destruct (ReadFull s 4) as [[raw [e1 |]] s1] eqn:H1.
  { apply ReadFull_err in H1. destruct H1 as (-> & Hlen & Hcase).
    intros H; inversion H; subst. split; [reflexivity |].
    destruct Hcase as [[-> ->] | [-> Hne]]; [now left |].
    right; left. split; [reflexivity |]. destruct s; [contradiction | cbn in *; lia]. }
  apply ReadFull_ok in H1. destruct H1 as [Hs Hraw]. cbv zeta. cbn [Size TagID Level].
  assert (take 4 s = raw) as Htake by (rewrite Hs, <- Hraw; apply take_app_length).
  rewrite Htake.
  destruct (Z.land (Z.shiftr (Uint32 raw) 20) 0xfff =? 0xfff).
  - destruct (ReadFull s1 4) as [[raw2 [e2 |]] s2] eqn:H2.
    { apply ReadFull_err in H2. destruct H2 as (-> & Hlen & Hcase).
      intros H; inversion H; subst. split; [reflexivity |].
      right; right; left. exists e2. split; [reflexivity |].
      split; [destruct Hcase as [[-> _] | [-> _]]; auto |].
      rewrite length_app. lia. }
    apply ReadFull_ok in H2. destruct H2 as [Hs1 Hraw2]. cbn [Size].
    destruct (ReadFull s2 _) as [[d [e3 |]] s3] eqn:H3; [| discriminate].
    apply ReadFull_err in H3. destruct H3 as (-> & Hlen & Hcase).
    intros H; inversion H; subst. split; [reflexivity |].
    right; right; right. exists e3. split; [reflexivity |].
    split; [destruct Hcase as [[-> _] | [-> _]]; auto |].
    rewrite !length_app. lia.
  - cbn [Size]. destruct (ReadFull s1 _) as [[d [e3 |]] s3] eqn:H3; [| discriminate].
    apply ReadFull_err in H3. destruct H3 as (-> & Hlen & Hcase).
    intros H; inversion H; subst. split; [reflexivity |].
    right; right; right. exists e3. split; [reflexivity |].
    split; [destruct Hcase as [[-> _] | [-> _]]; auto |].
    rewrite length_app. lia.
Qed.

Lemma ScanNext_frame (s : list Z) (res : result Rec) (s' : list Z) :
  ScanNext s = Some (res, s') ->
  match res with
  | Ok rec => exists data, readFrame s = (Ok (header rec, data), s')
                           /\ (forall d, rawData rec = Some d -> d = data)
                           /\ decodeRecord (header rec) data = Some rec
  | Err e => readFrame s = (Err e, s')
  end.
Proof.
  unfold ScanNext. destruct (readFrame s) as [[[base data] | e] s1] eqn:Hf.
  - destruct (RecordFacts.decodeRecord_header base data) as (rec & Hd & Hh & Hraw).
    rewrite Hd. intros H; inversion H; subst. exists data. auto.
  - intros H; inversion H; subst. reflexivity.
Qed.

Lemma decodeRecord_variant (base : recHeader) (data : list Z) (rec : Rec) :
  decodeRecord base data = Some rec ->
  match tagOf rec with
  | Some tag => TagID base = tag
  | None => ~ In (TagID base) typedTags
  end.
Proof.
  unfold decodeRecord, decodeParaTextRecord.
  repeat match goal with
         | |- context [if ?x =? ?y then _ else _] =>
             destruct (Z.eqb_spec x y)
         end;
    try (intros H; inversion H; subst; cbn [tagOf]; assumption).
  - destruct (decodeParaTextElements data); intros H; inversion H; subst.
    cbn [tagOf]. assumption.
  - intros H; inversion H; subst. cbn [tagOf typedTags In]. intuition congruence.
Qed.

(** X5. ScanNext reports a bare end of file exactly on an empty stream: a
    stream that breaks off inside a record gives another error
    (io.ErrUnexpectedEOF inside the header word, wrapped errors inside the
    extended size or the payload), so a caller that takes io.EOF for the
    regular end never takes a truncated stream for a complete one.  After
    any error nothing is left to read. *)
Theorem ScanNext_errors (s s' : list Z) (e : error) :
  ScanNext s = Some (Err e, s') ->
  s' = []
  /\ (e = EOF <-> s = [])
  /\ (s <> [] ->
      (e = ErrUnexpectedEOF /\ (length s < 4)%nat)
      \/ exists e',
           (e = ErrWrap "read extended size" e' \/ e = ErrWrap "read record data" e')
           /\ (e' = EOF \/ e' = ErrUnexpectedEOF)).
Proof.
  intros H. apply ScanNext_frame in H. apply readFrame_err in H.
  destruct H as (-> & Hcase). split; [reflexivity |].
  destruct Hcase as [[-> ->] | [[-> Hlen] | [(e' & -> & He' & Hlen) | (e' & -> & He' & Hlen)]]].
  - split; [tauto | contradiction].
  - split; [split; [discriminate | intros ->; cbn in Hlen; lia] |]. intros _. left.
    split; [reflexivity | lia].
  - split; [split; [discriminate | intros ->; cbn in Hlen; lia] |]. intros _. right.
    exists e'. auto.
  - split; [split; [discriminate |] |].
    + intros ->. unfold headerLength in Hlen. cbn [length] in Hlen.
      destruct (_ =? _) in Hlen; lia.
    + intros _. right. exists e'. auto.
Qed.

Lemma ScanNext_errors_witness :
  ScanNext [0x42; 0; 0] = Some (Err ErrUnexpectedEOF, [])
  /\ (ErrUnexpectedEOF = EOF <-> [0x42; 0; 0] = ([] : list Z)).
Proof.
  split; [reflexivity |].
  exact (proj1 (proj2 (ScanNext_errors [0x42; 0; 0] [] ErrUnexpectedEOF eq_refl))).
Defined.

(** X6. A record that ScanNext returns was read from the front of the
    stream: the stream is the record header (four bytes, eight when the
    size field holds the sentinel 0xfff), then the payload, as long as the
    record's size says, then the stream that is left for the next call;
    the record types that keep the raw payload hold exactly those bytes. *)
Theorem ScanNext_consumes (s s' : list Z) (rec : Rec) :
  ScanNext s = Some (Ok rec, s') ->
  exists payload,
    s = take (headerLength s) s ++ payload ++ s'
    /\ length (take (headerLength s) s) = headerLength s
    /\ length payload = Z.to_nat (Len rec)
    /\ (forall d, rawData rec = Some d -> d = payload).
Proof.
  intros H. apply ScanNext_frame in H. destruct H as (data & Hf & Hraw & _).
  apply readFrame_ok in Hf. destruct Hf as (Hs & Hlen & Hhdr).
  exists data. split; [exact Hs |]. split; [rewrite length_take; lia |].
  split; [exact Hlen | exact Hraw].
Qed.

Lemma ScanNext_consumes_witness :
  exists rec payload,
    ScanNext (encodeInline recTagTable 1 [0; 0; 0; 0; 2; 0; 3; 0] ++ [7; 7])
    = Some (Ok rec, [7; 7])
    /\ length payload = Z.to_nat (Len rec)
    /\ rawData rec = Some payload.
Proof.
  assert (exists rec, ScanNext (encodeInline recTagTable 1 [0; 0; 0; 0; 2; 0; 3; 0]
                                 ++ [7; 7]) = Some (Ok rec, [7; 7])) as [rec Hrec]
    by (vm_compute; eauto).
  destruct (ScanNext_consumes _ _ _ Hrec) as (payload & _ & _ & Hlen & Hraw).
  exists rec, payload. split; [exact Hrec |]. split; [exact Hlen |].
  vm_compute in Hrec. inversion Hrec; subst rec. cbn [rawData] in *.
  f_equal. now apply Hraw.
Defined.

(** X7. The type of the record ScanNext returns tells its tag: each of
    the thirty record types is returned for its own tag only, and
    RecUnknown for the tags that have no type. *)
Theorem ScanNext_variant (s s' : list Z) (rec : Rec) :
  ScanNext s = Some (Ok rec, s') ->
  match tagOf rec with
  | Some tag => Tag rec = tag
  | None => ~ In (Tag rec) typedTags
  end.
Proof.
  intros H. apply ScanNext_frame in H. destruct H as (data & _ & _ & Hd).
  exact (decodeRecord_variant _ _ _ Hd).
Qed.

Lemma ScanNext_variant_witness :
  exists rec,
    ScanNext (encodeInline 0x10 0 [2; 0]) = Some (Ok rec, [])
    /\ tagOf rec = None /\ ~ In (Tag rec) typedTags.
Proof.
  assert (exists rec, ScanNext (encodeInline 0x10 0 [2; 0]) = Some (Ok rec, []))
    as [rec Hrec] by (vm_compute; eauto).
  pose proof (ScanNext_variant _ _ _ Hrec) as Hv.
  exists rec. split; [exact Hrec |].
  vm_compute in Hrec. inversion Hrec; subst rec. cbn [tagOf] in *. auto.
Defined.

(** *** Paragraph text *)

Lemma controlCode_elements (code : Z) (data : list Z) (elements : list ParaTextElement) :
  exists extra, snd (controlCode code data elements) = elements ++ extra
                /\ Forall okElement extra.
Proof.
  unfold controlCode.
  repeat match goal with
         | |- context [if ?x =? ?y then _ else _] =>
             destruct (Z.eqb_spec x y); [subst |]
         | |- context [if ?c then _ else _] => destruct c
         end; cbn [snd];
    first [ exists []; split; [now rewrite app_nil_r | constructor]
          | eexists [_]; split; [reflexivity | constructor; [reflexivity | constructor]] ].
Qed.

Lemma validRune_textRune (u : Z) : 32 <= u -> textRune (validRune u).
Proof.
  intros Hu. unfold textRune, validRune.
  destruct (Z.leb_spec 0xD800 u); destruct (Z.leb_spec u 0xDFFF); cbn [andb]; lia.
Qed.

Lemma flushed_elements (elements : list ParaTextElement) (stringBuffer : list Z) :
  Forall okElement elements -> Forall (fun u => 32 <= u) stringBuffer ->
  Forall okElement (flushed elements stringBuffer).
Proof.
  intros He Hb. destruct stringBuffer as [| u sb]; [exact He |].
  unfold flushed. apply Forall_app. split; [exact He |].
  constructor; [| constructor]. cbn [okElement].
  split; [reflexivity |]. split; [discriminate |].
  unfold stringOfRunes. apply Forall_fmap.
  apply (Forall_impl _ _ _ Hb). intros x Hx. now apply validRune_textRune.
Qed.

Lemma decodeLoop_elements (fuel : nat) :
  forall data elements stringBuffer els,
    Forall okElement elements -> Forall (fun u => 32 <= u) stringBuffer ->
    decodeLoop fuel data elements stringBuffer = Some els ->
    Forall okElement els.
Proof.
  induction fuel as [| fuel IH]; intros data elements sb els He Hb H; [discriminate |].
  destruct data as [| b0 [| b1 rest]].
  - rewrite RecordFacts.decodeLoop_stop in H by (cbn; lia).
    inversion H; subst. now apply flushed_elements.
  - rewrite RecordFacts.decodeLoop_stop in H by (cbn; lia).
    inversion H; subst. now apply flushed_elements.
  - rewrite RecordFacts.decodeLoop_step in H. unfold decodeUnit in H.
    destruct (Z.leb_spec 32 (Uint16 [b0; b1])) as [Hge | Hlt].
    + apply (IH _ _ _ _ He) in H; [exact H |].
      apply Forall_app. split; [exact Hb |]. now constructor.
    + rewrite RecordFacts.flushString_flushed in H.
      destruct (controlCode_elements (Uint16 [b0; b1]) rest (flushed elements sb))
        as (extra & Hx & Hok).
      destruct (controlCode (Uint16 [b0; b1]) rest (flushed elements sb)) as [d e].
      cbn [snd] in Hx. subst e.
      apply (IH _ _ _ _) in H; [exact H | | constructor].
      apply Forall_app. split; [now apply flushed_elements | exact Hok].
Qed.

(** X8. The elements decodeParaTextElements returns: a string element is
    never empty, has the code 0, and holds only runes from 32 up that are
    Unicode scalar values (half a surrogate pair has become U+FFFD);
    every other element is the marker of the control code it carries. *)
Theorem decodeParaTextElements_elements (data : list Z) (els : list ParaTextElement) :
  decodeParaTextElements data = Some els -> Forall okElement els.
Proof.
  intros H. unfold decodeParaTextElements in H.
  refine (decodeLoop_elements _ _ _ _ _ _ _ H); constructor.
Qed.

Lemma decodeParaTextElements_elements_witness :
  exists els,
    decodeParaTextElements [72; 0; 0; 0xD8; 10; 0; 105; 0] = Some els
    /\ Forall okElement els /\ length els = 3%nat.
Proof.
  assert (exists els, decodeParaTextElements [72; 0; 0; 0xD8; 10; 0; 105; 0] = Some els)
    as [els Hels] by (vm_compute; eauto).
  exists els. split; [exact Hels |].
  split; [exact (decodeParaTextElements_elements _ _ Hels) |].
  vm_compute in Hels. now inversion Hels.
Defined.

Lemma Uint16_unit (u : Z) : Uint16 [Z.land u 0xff; Z.shiftr u 8] = u.
Proof.
  unfold Uint16. cbn [nth]. change 0xff with (Z.ones 8). RecordFacts.bits.
Qed.

Lemma paragraphText_snoc (els : list ParaTextElement) (el : ParaTextElement) :
  paragraphText (els ++ [el])
  = paragraphText els
    ++ match el with
       | ParaTextString _ v => v
       | ParaTextLineBreak _ => [10]
       | ParaTextTab _ => [9]
       | _ => []
       end.
Proof.
  unfold paragraphText, Scanner.joinTextParts. rewrite fold_left_app. cbn [fold_left].
  destruct el; cbn [Scanner.appendElement]; rewrite ?concat_app; cbn [concat];
    now rewrite ?app_nil_r.
Qed.

Lemma paragraphText_flushed (els : list ParaTextElement) (sb : list Z) :
  paragraphText (flushed els sb) = paragraphText els ++ stringOfRunes sb.
Proof.
  destruct sb as [| u sb]; [cbn; now rewrite app_nil_r |].
  unfold flushed. now rewrite paragraphText_snoc.
Qed.

Lemma validRune_newline : validRune 10 = 10.
Proof. reflexivity. Qed.

Lemma length_unitsLE (us : list Z) : length (unitsLE us) = (2 * length us)%nat.
Proof.
  induction us as [| u us IH]; [reflexivity |].
  change (unitsLE (u :: us)) with (Z.land u 0xff :: Z.shiftr u 8 :: unitsLE us).
  cbn [length]. lia.
Qed.

Lemma decodeLoop_text (us : list Z) :
  Forall (fun u => u = 10 \/ 32 <= u < 2 ^ 16) us ->
  forall fuel els sb,
    (length us < fuel)%nat ->
    exists res, decodeLoop fuel (unitsLE us) els sb = Some res
                /\ paragraphText res
                   = paragraphText els ++ stringOfRunes sb ++ stringOfRunes us.
Proof.
  induction 1 as [| u us Hu Hus IH]; intros fuel els sb Hf.
  - destruct fuel as [| fuel]; [lia |]. cbn [unitsLE flat_map].
    rewrite RecordFacts.decodeLoop_stop by (cbn; lia).
    eexists. split; [reflexivity |]. cbn [stringOfRunes map].
    now rewrite app_nil_r, paragraphText_flushed.
  - destruct fuel as [| fuel]; [cbn in Hf; lia |].
    cbn [unitsLE flat_map app]. fold (unitsLE us).
    rewrite RecordFacts.decodeLoop_step.
    rewrite Uint16_unit. unfold decodeUnit.
    destruct Hu as [-> | Hu].
    + change (32 <=? 10) with false. cbv iota.
      rewrite RecordFacts.flushString_flushed.
      rewrite RecordFacts.controlCode_table by lia.
      change (memZ 10 blockCodes) with false. cbv iota. rewrite drop_0.
      change (markerOf 10) with (Some (ParaTextLineBreak 10)). cbv iota.
      destruct (IH fuel (flushed els sb ++ [ParaTextLineBreak 10]) [])
        as (res & -> & Hres); [cbn in Hf; lia |].
      exists res. split; [reflexivity |].
      rewrite Hres, paragraphText_snoc, paragraphText_flushed.
      cbn [stringOfRunes map]. rewrite validRune_newline.
      now rewrite <- !app_assoc.
    + destruct (Z.leb_spec 32 u); [| lia].
      destruct (IH fuel els (sb ++ [u])) as (res & -> & Hres); [cbn in Hf; lia |].
      exists res. split; [reflexivity |]. rewrite Hres.
      unfold stringOfRunes. rewrite map_app. cbn [map].
      now rewrite <- !app_assoc.
Qed.

(** X9. Text comes out as it went in.  A paragraph-text payload that is
    the little-endian encoding of 16-bit units, each a character from 32
    up or the line break 10, decodes to elements from which Next builds
    the paragraph text rune for rune: the units themselves, with each half
    of a surrogate pair replaced by U+FFFD (the decoder does not join
    surrogate pairs).  A paragraph header, that paragraph-text record and
    a character-shape record outside a table make Next return the
    paragraph with this text. *)
Theorem paragraph_text_round_trip (us : list Z) :
  Forall (fun u => u = 10 \/ 32 <= u < 2 ^ 16) us ->
  exists els,
    decodeParaTextElements (unitsLE us) = Some els
    /\ paragraphText els = map validRune us
    /\ (Forall (fun u => ~ (0xD800 <= u <= 0xDFFF)) us -> paragraphText els = us)
    /\ forall fuel s b0 b1 b2,
         Scanner.currentTable s = None ->
         exists s1 s2 s3,
           Scanner.process fuel (R_ParaHeader b0) s = Some (Scanner.Continue s1)
           /\ Scanner.process fuel (R_ParaText {| pt_header := b1; Els := els |}) s1
              = Some (Scanner.Continue s2)
           /\ Scanner.process fuel (R_ParaCharShape b2) s2
              = Some (Scanner.Return (Ok (Document.Paragraph (map validRune us))) s3).
Proof.
  intros Hus. unfold decodeParaTextElements.
  destruct (decodeLoop_text us Hus (S (length (unitsLE us))) [] []) as (els & Hels & Htext).
  { rewrite length_unitsLE. lia. }
  exists els. split; [exact Hels |].
  assert (paragraphText els = map validRune us) as Hpt.
  { rewrite Htext. reflexivity. }
  split; [exact Hpt |]. split.
  - intros Hno. rewrite Hpt. clear -Hno.
    induction Hno as [| u us Hu _ IH]; [reflexivity |]. cbn [map]. rewrite IH. f_equal.
    unfold validRune. destruct (Z.leb_spec 0xD800 u); destruct (Z.leb_spec u 0xDFFF);
      cbn [andb]; lia.
  - intros fuel s b0 b1 b2 Htb.
    set (s1 := Scanner.setPara s (Some {| Scanner.textParts := [] |})).
    set (s2 := Scanner.setPara s1
                 (Some {| Scanner.textParts := fold_left Scanner.appendElement els [] |})).
    exists s1, s2, (Scanner.setPara s2 None).
    split; [reflexivity |]. split; [reflexivity |].
    cbn [Scanner.process Scanner.currentPara Scanner.setPara Scanner.currentTable
         Scanner.textParts s1 s2].
    rewrite Htb. fold (paragraphText els). now rewrite Hpt.
Qed.

Lemma paragraph_text_round_trip_witness :
  exists els,
    decodeParaTextElements (unitsLE [0xD55C; 0xAE00; 10; 72; 105]) = Some els
    /\ paragraphText els = [0xD55C; 0xAE00; 10; 72; 105].
Proof.
  destruct (paragraph_text_round_trip [0xD55C; 0xAE00; 10; 72; 105])
    as (els & Hels & _ & Hsame & _).
  { repeat constructor; lia. }
  exists els. split; [exact Hels |]. apply Hsame.
  repeat constructor; lia.
Defined.

End RecordProps.

(** * The assembly state machine: invariants of its states, termination *)

Module ScannerProps.
Import Record Document Scanner Reach.

(** *** The reader never changes *)

Lemma advanceSection_reader (s : ContentScanner) :
  reader (snd (advanceSection s)) = reader s.
Proof.
  unfold advanceSection. destruct (_ <=? _); [reflexivity |].
  destruct (OpenSection _ _); reflexivity.
Qed.

Lemma scanLoop_reader (fuel : nat) :
  forall s res s', scanLoop fuel s = Some (res, s') -> reader s' = reader s.
Proof.
  induction fuel as [| fuel IH]; intros s res s' H; [discriminate |].
  cbn [scanLoop] in H.
  destruct (scanner s) as [rd |]; [| now inversion H].
  destruct (ScanNext rd) as [[[rec | e] rd'] |]; [now inversion H | | discriminate].
  destruct e; try (now inversion H).
  pose proof (advanceSection_reader (setScanner s (Some rd'))) as Hr.
  destruct (advanceSection (setScanner s (Some rd'))) as [[advErr |] s1];
    cbn [snd setScanner setSection reader] in Hr.
  - inversion H; subst. exact Hr.
  - apply IH in H. congruence.
Qed.

Lemma nextRecord_reader (fuel : nat) (s : ContentScanner) res s' :
  nextRecord fuel s = Some (res, s') -> reader s' = reader s.
Proof.
  unfold nextRecord. destruct (buffered s).
  - intros H. now inversion H.
  - apply scanLoop_reader.
Qed.

Lemma skipChildren_reader (fuel : nat) :
  forall s lvl err s', skipChildren fuel s lvl = Some (err, s') -> reader s' = reader s.
Proof.
  induction fuel as [| fuel IH]; intros s lvl err s' H; [discriminate |].
  cbn [skipChildren] in H.
  destruct (nextRecord (S fuel) s) as [[[rec | e] s1] |] eqn:Hn; [| | discriminate].
  - apply nextRecord_reader in Hn.
    destruct (Lvl rec <=? lvl).
    + inversion H; subst. exact Hn.
    + apply IH in H. congruence.
  - apply nextRecord_reader in Hn.
    destruct e; inversion H; subst; exact Hn.
Qed.

Lemma process_reader (fuel : nat) (rec : Rec) (s : ContentScanner) (st : step) :
  process fuel rec s = Some st -> reader (stateOf st) = reader s.
Proof.
  destruct rec; cbn [process]; try (intros H; now inversion H).
  - destruct (currentPara s); intros H; now inversion H.
  - destruct (currentPara s); [| intros H; now inversion H].
    destruct (currentTable (setPara s None)) as [tb |]; [| intros H; now inversion H].
    destruct (currentCell tb); intros H; now inversion H.
  - destruct (currentPara s); [| intros H; now inversion H].
    destruct (currentTable (setPara s None)) as [tb |]; [| intros H; now inversion H].
    destruct (currentCell tb); intros H; now inversion H.
  - destruct (CtrlID rec =? 0x74626c20); [intros H; now inversion H |].
    destruct (CtrlID rec =? 0x67736f20);
      destruct (skipChildren fuel s (Level (ch_header rec))) as [[err s1] |] eqn:Hs;
      try discriminate; intros H; inversion H; subst; cbn [stateOf];
      exact (skipChildren_reader _ _ _ _ _ Hs).
  - destruct (currentTable s); [| intros H; now inversion H].
    destruct (IsCell rec); intros H; now inversion H.
  - destruct (currentTable s); intros H; now inversion H.
Qed.

Lemma iteration_reader (fuel : nat) (s : ContentScanner) (st : step) :
  iteration fuel s = Some st -> reader (stateOf st) = reader s.
Proof.
  unfold iteration.
  destruct (nextRecord fuel s) as [[[rec | e] s1] |] eqn:Hn; [| | discriminate];
    apply nextRecord_reader in Hn.
  - destruct (currentTable s1) as [tb |].
    + destruct (Lvl rec <=? tb_tableLevel tb).
      * intros H; inversion H; subst. exact Hn.
      * intros H. apply process_reader in H. congruence.
    + intros H. apply process_reader in H. congruence.
  - destruct (currentTable s1); intros H; inversion H; subst; exact Hn.
Qed.

(** *** Invariants of the states *)

Section Invariant.
Variable okStream : list Z -> Prop.
Variable okRec : Rec -> Prop.
Variable J : option tableBuilder -> Prop.

Hypothesis scan_ok :
  forall rd res rd',
    okStream rd -> ScanNext rd = Some (res, rd') ->
    okStream rd' /\ forall rec, res = Ok rec -> okRec rec.
Hypothesis J_none : J None.
Hypothesis J_new :
  forall r lvl,
    okRec (R_Table r) ->
    J (Some {| rows := RowCount r; cols := ColCount r; cells := [];
               currentCell := None; tb_tableLevel := lvl |}).
Hypothesis J_cell :
  forall tb r,
    J (Some tb) -> okRec (R_ListHeader r) -> IsCell r = true ->
    let cell := {| Row := RowIndex r; Col := ColIndex r;
                   RowSpan := Record.RowSpan r; ColSpan := Record.ColSpan r;
                   Text := [] |} in
    J (Some {| rows := if RowIndex r + Record.RowSpan r >? rows tb
                       then RowIndex r + Record.RowSpan r else rows tb;
               cols := if ColIndex r + Record.ColSpan r >? cols tb
                       then ColIndex r + Record.ColSpan r else cols tb;
               cells := cells tb ++ [cell];
               currentCell := Some (length (cells tb ++ [cell]) - 1)%nat;
               tb_tableLevel := tb_tableLevel tb |}).
Hypothesis J_text :
  forall tb i text,
    J (Some tb) -> currentCell tb = Some i ->
    J (Some {| rows := rows tb; cols := cols tb;
               cells := alter (appendText text) i (cells tb);
               currentCell := currentCell tb;
               tb_tableLevel := tb_tableLevel tb |}).

Let inv := keeps okStream okRec J.

Lemma advanceSection_keeps (s : ContentScanner) :
  inv s -> inv (snd (advanceSection s)).
Proof.
  intros (Hrd & Hsc & Hbuf & HJ). unfold advanceSection.
  destruct (_ <=? _).
  - repeat split; try assumption. intros rd H. discriminate.
  - destruct (OpenSection (reader s) (currentSection s + 1)) as [bytes | e] eqn:Ho.
    + repeat split; try assumption. intros rd H. cbn in H. inversion H; subst.
      exact (Hrd _ _ Ho).
    + repeat split; try assumption. intros rd H. discriminate.
Qed.

Lemma scanLoop_keeps (fuel : nat) :
  forall s res s',
    inv s -> scanLoop fuel s = Some (res, s') ->
    inv s' /\ forall rec, res = Ok rec -> okRec rec.
Proof.
  induction fuel as [| fuel IH]; intros s res s' Hinv H; [discriminate |].
  cbn [scanLoop] in H.
  destruct (scanner s) as [rd |] eqn:Hs.
  2:{ inversion H; subst. split; [exact Hinv | discriminate]. }
  pose proof Hinv as (Hrd & Hsc & Hbuf & HJ).
  destruct (ScanNext rd) as [[res0 rd'] |] eqn:Hn; [| discriminate].
  destruct (scan_ok rd res0 rd' (Hsc rd Hs) Hn) as [Hrd' Hrec].
  assert (inv (setScanner s (Some rd'))) as Hinv1.
  { repeat split; try assumption. intros rd0 H0. cbn in H0. now inversion H0; subst. }
  destruct res0 as [rec | e].
  - inversion H; subst. split; [exact Hinv1 |]. intros rec0 Heq. apply Hrec. exact Heq.
  - destruct e; try (inversion H; subst; split; [exact Hinv1 | discriminate]).
    pose proof (advanceSection_keeps _ Hinv1) as Hadv.
    destruct (advanceSection (setScanner s (Some rd'))) as [[advErr |] s1]; cbn [snd] in Hadv.
    + inversion H; subst. split; [exact Hadv | discriminate].
    + exact (IH _ _ _ Hadv H).
Qed.

Lemma nextRecord_keeps (fuel : nat) (s : ContentScanner) res s' :
  inv s -> nextRecord fuel s = Some (res, s') ->
  inv s' /\ buffered s' = None /\ forall rec, res = Ok rec -> okRec rec.
Proof.
  intros Hinv H. pose proof (ScannerFacts.nextRecord_buffered_none _ _ _ _ H) as Hnone.
  unfold nextRecord in H. destruct (buffered s) as [rec0 |] eqn:Hb.
  - inversion H; subst. destruct Hinv as (Hrd & Hsc & Hbuf & HJ).
    split; [| split; [reflexivity |]].
    + repeat split; try assumption. intros rec H0. discriminate.
    + intros rec Heq. inversion Heq; subst. now apply Hbuf.
  - destruct (scanLoop_keeps _ _ _ _ Hinv H) as [H1 H2]. auto.
Qed.

Lemma putBack_keeps (s : ContentScanner) (rec : Rec) :
  inv s -> okRec rec -> inv (putBack s rec).
Proof.
  intros (Hrd & Hsc & Hbuf & HJ) Hrec. repeat split; try assumption.
  intros rec0 H. cbn in H. now inversion H; subst.
Qed.

Lemma skipChildren_keeps (fuel : nat) :
  forall s lvl err s', inv s -> skipChildren fuel s lvl = Some (err, s') -> inv s'.
Proof.
  induction fuel as [| fuel IH]; intros s lvl err s' Hinv H; [discriminate |].
  cbn [skipChildren] in H.
  destruct (nextRecord (S fuel) s) as [[[rec | e] s1] |] eqn:Hn; [| | discriminate];
    destruct (nextRecord_keeps _ _ _ _ Hinv Hn) as (Hinv1 & _ & Hrec).
  - destruct (Lvl rec <=? lvl).
    + inversion H; subst. apply putBack_keeps; [exact Hinv1 | now apply Hrec].
    + exact (IH _ _ _ _ Hinv1 H).
  - destruct e; inversion H; subst; exact Hinv1.
Qed.

Lemma keeps_table (s : ContentScanner) (otb : option tableBuilder) :
  inv s -> J otb -> inv (setTable s otb).
Proof. intros (Hrd & Hsc & Hbuf & HJ) Hnew. repeat split; assumption. Qed.

Lemma keeps_para (s : ContentScanner) (p : option paragraphBuilder) :
  inv s -> inv (setPara s p).
Proof. intros (Hrd & Hsc & Hbuf & HJ). repeat split; assumption. Qed.

Lemma keeps_level (s : ContentScanner) (l : Z) : inv s -> inv (setTableLevel s l).
Proof. intros (Hrd & Hsc & Hbuf & HJ). repeat split; assumption. Qed.

Lemma process_keeps (fuel : nat) (rec : Rec) (s : ContentScanner) (st : step) :
  inv s -> okRec rec -> process fuel rec s = Some st -> inv (stateOf st).
Proof.
  intros Hinv Hrec. pose proof Hinv as (Hrd & Hsc & Hbuf & HJ).
  assert (forall b,
    match currentPara s with
    | Some p =>
        let text := joinTextParts (textParts p) in
        let s1 := setPara s None in
        match currentTable s1 with
        | Some tb =>
            match currentCell tb with
            | Some i =>
                Some (Continue (setTable s1 (Some
                  {| rows := rows tb; cols := cols tb;
                     cells := alter (appendText text) i (cells tb);
                     currentCell := currentCell tb;
                     tb_tableLevel := tb_tableLevel tb |})))
            | None => Some (Return (Ok (Paragraph text)) s1)
            end
        | None => Some (Return (Ok (Paragraph text)) s1)
        end
    | None => Some (Continue s)
    end = Some st -> b = tt -> inv (stateOf st)) as Hend.
  { intros b H _. destruct (currentPara s) as [p |]; [| now inversion H; subst].
    cbv zeta in H. cbn [currentTable setPara] in H.
    destruct (currentTable s) as [tb |] eqn:Htb;
      [| inversion H; subst; cbn [stateOf]; now apply keeps_para].
    destruct (currentCell tb) as [i |] eqn:Hcc;
      [| inversion H; subst; cbn [stateOf]; now apply keeps_para].
    inversion H; subst. cbn [stateOf]. apply keeps_table; [now apply keeps_para |].
    rewrite <- Hcc. apply J_text; [exact HJ | exact Hcc]. }
  destruct rec; cbn [process]; try (intros H; inversion H; subst; exact Hinv).
  - destruct (currentPara s); intros H; inversion H; subst; exact Hinv.
  - intros H. exact (Hend tt H eq_refl).
  - intros H. exact (Hend tt H eq_refl).
  - destruct (CtrlID rec =? 0x74626c20);
      [intros H; inversion H; subst; cbn [stateOf]; now apply keeps_level |].
    destruct (CtrlID rec =? 0x67736f20);
      destruct (skipChildren fuel s (Level (ch_header rec))) as [[err s1] |] eqn:Hs;
      try discriminate; intros H; inversion H; subst; cbn [stateOf];
      exact (skipChildren_keeps _ _ _ _ _ Hinv Hs).
  - destruct (currentTable s) as [tb |] eqn:Htb; [| intros H; inversion H; subst; exact Hinv].
    destruct (IsCell rec) eqn:Hcell; [| intros H; inversion H; subst; exact Hinv].
    intros H; inversion H; subst. cbn [stateOf]. apply keeps_table; [exact Hinv |].
    now apply J_cell.
  - destruct (currentTable s) as [tb |] eqn:Htb; intros H; inversion H; subst;
      [exact Hinv |].
    cbn [stateOf]. apply keeps_table; [exact Hinv |]. now apply J_new.
Qed.

Lemma iteration_keeps (fuel : nat) (s : ContentScanner) (st : step) :
  inv s -> iteration fuel s = Some st -> inv (stateOf st).
Proof.
  intros Hinv. unfold iteration.
  destruct (nextRecord fuel s) as [[[rec | e] s1] |] eqn:Hn; [| | discriminate];
    destruct (nextRecord_keeps _ _ _ _ Hinv Hn) as (Hinv1 & _ & Hrec).
  - specialize (Hrec rec eq_refl).
    destruct (currentTable s1) as [tb |].
    + destruct (Lvl rec <=? tb_tableLevel tb).
      * intros H; inversion H; subst. cbn [stateOf].
        apply putBack_keeps; [| exact Hrec]. now apply keeps_table.
      * now apply process_keeps.
    + now apply process_keeps.
  - destruct (currentTable s1); intros H; inversion H; subst; cbn [stateOf];
      [now apply keeps_table | exact Hinv1].
Qed.

Lemma Open_keeps (rd : Reader) (s : ContentScanner) :
  okReader okStream rd -> Open rd = Ok s -> inv s /\ reader s = rd.
Proof.
  intros Hrd. unfold Open, advanceSection.
  cbn [reader currentSection setSection].
  destruct (_ <=? _); [discriminate |].
  destruct (OpenSection rd (-1 + 1)) as [bytes | e] eqn:Ho; [| discriminate].
  intros H; inversion H; subst. split; [| reflexivity].
  repeat split; cbn; try assumption.
  - intros rd0 H0. inversion H0; subst. exact (Hrd _ _ Ho).
  - discriminate.
Qed.

Lemma tracks_keeps (s : ContentScanner) (d : option (Z * Z)) :
  tracks s d -> okReader okStream (reader s) -> inv s.
Proof.
  induction 1 as [rd s Hopen | fuel s d st _ IH Hit]; intros Hrd.
  - destruct (Open_keeps rd s) as [Hinv Heq]; [| exact Hopen | exact Hinv].
    unfold Open in Hopen.
    match type of Hopen with
    | context [advanceSection ?s0] =>
        pose proof (advanceSection_reader s0) as Hr;
        destruct (advanceSection s0) as [[e |] s1]; [discriminate |];
        inversion Hopen; subst; cbn [snd reader] in Hr; now rewrite <- Hr
    end.
  - apply (iteration_keeps fuel s st); [| exact Hit].
    apply IH. now rewrite <- (iteration_reader _ _ _ Hit).
Qed.

End Invariant.

(** *** The cell that text goes to *)

Lemma alter_nil {A} (f : A -> A) (i : nat) (l : list A) :
  match alter f i l with [] => l = [] | _ :: _ => l <> [] end.
Proof. destruct l as [| x l]; [reflexivity |]. destruct i; cbn; discriminate. Qed.

Lemma tracks_lastCell (s : ContentScanner) (d : option (Z * Z)) :
  tracks s d -> lastCell (currentTable s).
Proof.
  intros Ht.
  refine (proj2 (proj2 (proj2 (tracks_keeps (fun _ => True) (fun _ => True) lastCell
                                 _ _ _ _ _ s d Ht _)))).
  - intros rd res rd' _ _. split; [exact I | intros; exact I].
  - exact I.
  - intros r lvl _. reflexivity.
  - intros tb r _ _ _. cbn. destruct (cells tb); reflexivity.
  - intros tb i text Hj Hcc. cbn in *. rewrite Hj.
    rewrite length_alter.
    pose proof (alter_nil (appendText text) i (cells tb)) as Ha.
    destruct (alter (appendText text) i (cells tb)); destruct (cells tb);
      congruence.
  - intros i bytes _. exact I.
Qed.

(** X10. While a table is in progress, currentCell is nil until the first
    cell is added and from then on points at the last element of cells, in
    every state the scanner goes through from Open.  So the text of a
    paragraph that ends inside a table goes to the cell that was started
    last, and a paragraph that ends before the table's first cell is
    returned as a Paragraph node. *)
Theorem currentCell_is_last_cell (s : ContentScanner) (d : option (Z * Z)) :
  tracks s d ->
  forall tb,
    currentTable s = Some tb ->
    currentCell tb = match cells tb with
                     | [] => None
                     | _ => Some (length (cells tb) - 1)%nat
                     end
    /\ forall fuel b p,
         currentPara s = Some p ->
         let text := joinTextParts (textParts p) in
         process fuel (R_ParaCharShape b) s
         = Some (match cells tb with
                 | [] => Return (Ok (Paragraph text)) (setPara s None)
                 | _ =>
                     Continue (setTable (setPara s None) (Some
                       {| rows := rows tb; cols := cols tb;
                          cells := alter (appendText text)
                                     (length (cells tb) - 1)%nat (cells tb);
                          currentCell := currentCell tb;
                          tb_tableLevel := tb_tableLevel tb |}))
                 end).
Proof.
  intros Ht tb Htb. pose proof (tracks_lastCell s d Ht) as Hl.
  rewrite Htb in Hl. cbn [lastCell] in Hl. split; [exact Hl |].
  intros fuel b p Hp. cbv zeta. cbn [process]. rewrite Hp.
  cbn [currentTable setPara]. rewrite Htb, Hl.
  destruct (cells tb); reflexivity.
Qed.

Lemma currentCell_is_last_cell_witness :
  exists tb,
    currentTable (fst (rounds 4 10 (sampleStart sampleSection) None)) = Some tb
    /\ length (cells tb) = 1%nat /\ currentCell tb = Some 0%nat.
Proof.
  pose proof (ScannerFacts.tracks_rounds 4 10 (sampleStart sampleSection) None
                (tracks_Open (sampleReader sampleSection) _ eq_refl)) as Ht.
  assert (exists tb, currentTable (fst (rounds 4 10 (sampleStart sampleSection) None))
                     = Some tb /\ length (cells tb) = 1%nat) as (tb & Htb & Hlen)
    by (vm_compute; eauto).
  exists tb. split; [exact Htb |]. split; [exact Hlen |].
  destruct (currentCell_is_last_cell _ _ Ht tb Htb) as [Hcc _].
  rewrite Hcc. destruct (cells tb) as [| c l]; [discriminate Hlen |].
  cbn [length] in *. f_equal. lia.
Defined.

(** *** Records decoded from bytes *)

Lemma nth_byte (l : list Z) (k : nat) : Forall is_byte l -> 0 <= nth k l 0 < 256.
Proof.
  intros Hl. revert k. induction Hl as [| x l Hx _ IH]; intros [| k]; cbn [nth];
    try lia; [exact Hx | apply IH].
Qed.

Lemma lor_range (a b n : Z) :
  0 <= n -> 0 <= a < 2 ^ n -> 0 <= b < 2 ^ n -> 0 <= Z.lor a b < 2 ^ n.
Proof.
  intros Hn Ha Hb. split; [apply Z.lor_nonneg; lia |].
  destruct (Z.eq_dec (Z.lor a b) 0) as [-> | Hne]; [lia |].
  apply Z.log2_lt_pow2; [pose proof (Z.lor_nonneg a b); lia |].
  rewrite Z.log2_lor by lia.
  destruct (Z.eq_dec a 0) as [-> | Ha0]; destruct (Z.eq_dec b 0) as [-> | Hb0].
  - now rewrite Z.lor_0_l in Hne.
  - cbn. rewrite Z.max_r by apply Z.log2_nonneg. apply Z.log2_lt_pow2; lia.
  - rewrite Z.max_l by apply Z.log2_nonneg. apply Z.log2_lt_pow2; lia.
  - apply Z.max_lub_lt; apply Z.log2_lt_pow2; lia.
Qed.

Lemma Uint16_range (l : list Z) : Forall is_byte l -> 0 <= Uint16 l < 65536.
Proof.
  intros Hl. unfold Uint16.
  pose proof (nth_byte l 0 Hl) as H0. pose proof (nth_byte l 1 Hl) as H1.
  change 65536 with (2 ^ 16). apply lor_range; [lia | lia |].
  rewrite Z.shiftl_mul_pow2 by lia. lia.
Qed.

Lemma decodeRecord_bytes (base : recHeader) (data : list Z) (rec : Rec) :
  Forall is_byte data -> decodeRecord base data = Some rec -> byteRec rec.
Proof.
  intros Hd. unfold decodeRecord, decodeParaTextRecord.
  repeat match goal with
         | |- context [if ?x =? ?y then _ else _] => destruct (x =? y)
         end;
    try (intros H; inversion H; subst; exact I).
  - destruct (decodeParaTextElements data); intros H; inversion H; subst. exact I.
  - intros H; inversion H; subst. cbn [byteRec]. unfold decodeListHeaderRecord.
    destruct (33 <=? length data)%nat eqn:H33; [| cbn; discriminate].
    assert (Forall is_byte (take 26 (drop 7 data))) as Hc
      by now apply Forall_take, Forall_drop.
    destruct (8 <=? length (take 26 (drop 7 data)))%nat eqn:H8.
    + cbn [IsCell RowIndex ColIndex Record.RowSpan Record.ColSpan]. intros _.
      pose proof (nth_byte _ 1 Hc). pose proof (nth_byte _ 3 Hc).
      pose proof (nth_byte _ 5 Hc). pose proof (nth_byte _ 7 Hc).
      repeat split; try lia;
        match goal with
        | |- context [if ?x =? 0 then _ else _] => destruct (Z.eqb_spec x 0); lia
        end.
    + exfalso. apply Nat.leb_le in H33. apply Nat.leb_gt in H8.
      rewrite length_take, length_drop in H8. lia.
  - intros H; inversion H; subst. cbn [byteRec]. unfold decodeTableRecord.
    cbn [RowCount ColCount].
    destruct (8 <=? length data)%nat; [| lia].
    split; apply Uint16_range; now apply Forall_drop.
Qed.

Lemma ScanNext_bytes (rd : list Z) (res : result Rec) (rd' : list Z) :
  Forall is_byte rd -> ScanNext rd = Some (res, rd') ->
  Forall is_byte rd' /\ forall rec, res = Ok rec -> byteRec rec.
Proof.
  intros Hrd H. apply RecordProps.ScanNext_frame in H. destruct res as [rec | e].
  - destruct H as (data & Hf & _ & Hd).
    apply RecordProps.readFrame_ok in Hf. destruct Hf as (Hs & _ & _).
    rewrite Hs in Hrd. apply Forall_app in Hrd. destruct Hrd as [_ Hrd].
    apply Forall_app in Hrd. destruct Hrd as [Hdata Hrest].
    split; [exact Hrest |]. intros rec0 Heq. inversion Heq; subst.
    exact (decodeRecord_bytes _ _ _ Hdata Hd).
  - apply RecordProps.readFrame_err in H. destruct H as [-> _].
    split; [constructor | discriminate].
Qed.

Lemma appendText_wf (text : list Z) (c : Cell) : wfCell c -> wfCell (appendText text c).
Proof. unfold wfCell. now destruct c. Qed.

Lemma tracks_wfTable (s : ContentScanner) (d : option (Z * Z)) :
  tracks s d -> okReader (Forall is_byte) (reader s) -> wfTable (currentTable s).
Proof.
  intros Ht Hrd.
  refine (proj2 (proj2 (proj2 (tracks_keeps (Forall is_byte) byteRec wfTable
                                 ScanNext_bytes _ _ _ _ s d Ht Hrd)))).
  - exact I.
  - intros r lvl [Hr Hc]. cbn. split; [lia |]. split; [lia | constructor].
  - intros tb r (Hrows & Hcols & Hcells) Hrec Hcell. cbn in Hrec.
    destruct (Hrec Hcell) as (Hri & Hci & Hrs & Hcs). cbn.
    split; [destruct (_ >? _); lia |]. split; [destruct (_ >? _); lia |].
    apply Forall_app. split; [exact Hcells |]. constructor; [| constructor].
    unfold wfCell. cbn. lia.
  - intros tb i text (Hrows & Hcols & Hcells) _. cbn.
    split; [exact Hrows |]. split; [exact Hcols |].
    apply Forall_alter; [exact Hcells |]. intros c _. apply appendText_wf.
Qed.

(** *** The tables Next returns *)

Lemma Next_round (fuel : nat) :
  forall s d r s',
    tracks s d -> Next fuel s = Some (r, s') ->
    exists s0 d0 fuel0,
      tracks s0 d0 /\ reader s0 = reader s
      /\ iteration fuel0 s0 = Some (Return r s').
Proof.
  induction fuel as [| fuel IH]; intros s d r s' Ht HN; [discriminate |].
  rewrite ScannerFacts.Next_unfold in HN.
  destruct (iteration (S fuel) s) as [[s1 | r1 s1] |] eqn:Hit; [| | discriminate].
  - destruct (IH s1 (declaredNext (S fuel) s d) r s') as (s0 & d0 & fuel0 & H0 & Hr & Hi);
      [exact (tracks_iteration (S fuel) s d (Continue s1) Ht Hit) | exact HN |].
    exists s0, d0, fuel0. split; [exact H0 |]. split; [| exact Hi].
    rewrite Hr. exact (iteration_reader _ _ _ Hit).
  - inversion HN; subst. exists s, d, (S fuel). auto.
Qed.

Lemma Next_tracks (fuel : nat) :
  forall s d r s',
    tracks s d -> Next fuel s = Some (r, s') ->
    exists d', tracks s' d' /\ reader s' = reader s.
Proof.
  intros s d r s' Ht HN.
  destruct (Next_round fuel s d r s' Ht HN) as (s0 & d0 & fuel0 & H0 & Hr & Hi).
  exists (declaredNext fuel0 s0 d0). split.
  - exact (tracks_iteration fuel0 s0 d0 (Return r s') H0 Hi).
  - rewrite <- Hr. exact (iteration_reader _ _ _ Hi).
Qed.

(** The cells of a table that Next returns, read from bytes. *)
Lemma emitted_cells (s : ContentScanner) (d : option (Z * Z)) (fuel : nat)
  (t : Table) (s' : ContentScanner) :
  tracks s d -> okReader (Forall is_byte) (reader s) ->
  Next fuel s = Some (Ok (TableNode t), s') ->
  0 <= Rows t /\ 0 <= Cols t
  /\ Forall (fun c => wfCell c /\ Row c + RowSpan c <= Rows t
                      /\ Col c + ColSpan c <= Cols t) (Cells t).
Proof.
  intros Ht Hrd HN.
  destruct (Next_round fuel s d _ s' Ht HN) as (s0 & d0 & fuel0 & H0 & Hr & Hi).
  rewrite <- Hr in Hrd.
  pose proof (tracks_wfTable s0 d0 H0 Hrd) as Hwf.
  pose proof (ScannerFacts.tracks_tracked s0 d0 H0) as Htr.
  destruct (ScannerFacts.iteration_emits _ _ _ _ Hi) as (tb & Htb & ->).
  unfold tracked in Htr. rewrite Htb in Hwf, Htr. cbn [wfTable] in Hwf.
  destruct Hwf as (Hrows & Hcols & Hcells).
  destruct Htr as (dd & _ & _ & _ & Hbounds). cbn [Rows Cols Cells].
  split; [exact Hrows |]. split; [exact Hcols |].
  apply Forall_lookup_2. intros i c Hi0.
  pose proof (Forall_lookup_1 _ _ _ _ Hcells Hi0) as H1.
  pose proof (Forall_lookup_1 _ _ _ _ Hbounds Hi0) as H2.
  unfold cellInBounds in H2. tauto.
Qed.

Lemma emitted_renders (t : Table) :
  0 <= Rows t -> 0 <= Cols t ->
  Forall (fun c => wfCell c /\ Row c + RowSpan c <= Rows t
                   /\ Col c + ColSpan c <= Cols t) (Cells t) ->
  Shape.renders (Text.layoutTable t).
Proof.
  intros Hr Hc Hcells. split; [exact Hr |]. split; [exact Hc |].
  unfold Text.layoutTable. cbn [Render.Cells]. apply Forall_fmap.
  apply (Forall_impl _ _ _ Hcells). intros c ((H1 & H2 & H3 & H4) & H5 & H6).
  unfold Shape.cellRenders. cbn. lia.
Qed.

(** X11. A table that Next returns for a document read from bytes can be
    rendered.  In every state the scanner goes through from Open, with
    section streams of bytes: each cell of a Table node that Next returns
    lies in the grid (row and column not negative, spans at least 1, and
    row + rowSpan and col + colSpan within the node's row and column
    counts), and Render returns a string for the table renderTable makes
    of it: it does not panic. *)
Theorem emitted_tables_render {cond : Render.Condition}
  (s : ContentScanner) (d : option (Z * Z)) :
  tracks s d -> okReader (Forall is_byte) (reader s) ->
  forall fuel t s',
    Next fuel s = Some (Ok (TableNode t), s') ->
    Forall (fun c => 0 <= Row c /\ 0 <= Col c /\ 1 <= RowSpan c /\ 1 <= ColSpan c
                     /\ Row c + RowSpan c <= Rows t
                     /\ Col c + ColSpan c <= Cols t) (Cells t)
    /\ exists out, Render.Render (Text.layoutTable t) = Some out.
Proof.
  intros Ht Hrd fuel t s' HN.
  destruct (emitted_cells s d fuel t s' Ht Hrd HN) as (Hr & Hc & Hcells).
  split.
  - apply (Forall_impl _ _ _ Hcells). unfold wfCell. tauto.
  - destruct (LayoutFacts.Render_in_range _ (emitted_renders t Hr Hc Hcells))
      as (ls & Hout & _). eauto.
Qed.

Lemma emitted_tables_render_witness :
  exists t s' out,
    Next 10 (sampleStart sampleSection) = Some (Ok (TableNode t), s')
    /\ @Render.Render Render.sampleCondition (Text.layoutTable t) = Some out.
Proof.
  assert (exists t s', Next 10 (sampleStart sampleSection) = Some (Ok (TableNode t), s'))
    as (t & s' & HN) by (vm_compute; eauto).
  assert (okReader (Forall is_byte) (reader (sampleStart sampleSection))) as Hbytes.
  { intros i bytes Hb. vm_compute in Hb. inversion Hb; subst.
    repeat constructor; unfold is_byte; lia. }
  destruct (@emitted_tables_render Render.sampleCondition (sampleStart sampleSection) None
              (tracks_Open (sampleReader sampleSection) _ eq_refl) Hbytes 10%nat t s' HN)
    as [_ [out Hout]].
  exists t, s', out. split; [exact HN | exact Hout].
Defined.

(** *** Next returns *)

Lemma ScanNext_shrinks (rd : list Z) (res : result Rec) (rd' : list Z) :
  ScanNext rd = Some (res, rd') ->
  match res with
  | Ok _ => (length rd' + 4 <= length rd)%nat
  | Err _ => rd' = []
  end.
Proof.
  intros H. apply RecordProps.ScanNext_frame in H. destruct res as [rec | e].
  - destruct H as (data & Hf & _). apply RecordProps.readFrame_ok in Hf.
    destruct Hf as (Hs & _ & Hh).
    assert (4 <= RecordShape.headerLength rd)%nat as H4
      by (unfold RecordShape.headerLength; destruct (_ =? _); lia).
    apply (f_equal length) in Hs. rewrite !length_app, length_take in Hs. lia.
  - apply RecordProps.readFrame_err in H. tauto.
Qed.

Lemma weight_setScanner (s : ContentScanner) (rd rd' : list Z) :
  scanner s = Some rd ->
  weight (setScanner s (Some rd')) = (weight s + length rd' - length rd)%nat
  /\ (length rd <= weight s)%nat.
Proof.
  intros Hs. unfold weight. cbn [setScanner setSection buffered scanner reader currentSection].
  rewrite Hs. destruct (buffered s); lia.
Qed.

Lemma advanceSection_weight (s : ContentScanner) (rd : list Z) :
  scanner s = Some rd -> (weight (snd (advanceSection s)) < weight s)%nat.
Proof.
  intros Hs. unfold advanceSection, weight. rewrite Hs.
  destruct (Z.leb_spec (SectionCount (reader s)) (currentSection s + 1)) as [Hle | Hgt];
    cbn [snd setSection buffered scanner reader currentSection].
  - destruct (buffered s); lia.
  - replace (Z.to_nat (SectionCount (reader s) - currentSection s - 1))
      with (S (Z.to_nat (SectionCount (reader s) - (currentSection s + 1) - 1))) by lia.
    cbn [sectionsLeft].
    destruct (OpenSection (reader s) (currentSection s + 1)) as [bytes | e];
      cbn [snd setSection buffered scanner reader currentSection];
      destruct (buffered s); lia.
Qed.

Lemma scanLoop_weight (fuel : nat) :
  forall s res s',
    scanLoop fuel s = Some (res, s') ->
    (weight s' <= weight s)%nat
    /\ forall rec, res = Ok rec -> (weight s' < weight s)%nat.
Proof.
  induction fuel as [| fuel IH]; intros s res s' H; [discriminate |].
  cbn [scanLoop] in H.
  destruct (scanner s) as [rd |] eqn:Hs.
  2:{ inversion H; subst. split; [lia | discriminate]. }
  destruct (ScanNext rd) as [[res0 rd'] |] eqn:Hn; [| discriminate].
  pose proof (ScanNext_shrinks _ _ _ Hn) as Hsh.
  destruct (weight_setScanner s rd rd' Hs) as [Hw Hle].
  destruct res0 as [rec | e].
  - inversion H; subst. split; [lia |]. intros; lia.
  - subst rd'. cbn [length] in Hw.
    destruct e; try (inversion H; subst; split; [lia | discriminate]).
    pose proof (advanceSection_weight (setScanner s (Some [])) [] eq_refl) as Hadv.
    destruct (advanceSection (setScanner s (Some []))) as [[advErr |] s1]; cbn [snd] in Hadv.
    + inversion H; subst. split; [lia | discriminate].
    + destruct (IH _ _ _ H) as [H1 H2]. split; [lia |].
      intros rec Heq. specialize (H2 rec Heq). lia.
Qed.

Lemma scanLoop_enough (fuel : nat) :
  forall s, (weight s < fuel)%nat -> exists res, scanLoop fuel s = Some res.
Proof.
  induction fuel as [| fuel IH]; intros s Hf; [lia |].
  cbn [scanLoop]. destruct (scanner s) as [rd |] eqn:Hs; [| eauto].
  destruct (ScannerFacts.ScanNext_total rd) as [[res0 rd'] Hn]. rewrite Hn.
  pose proof (ScanNext_shrinks _ _ _ Hn) as Hsh.
  destruct (weight_setScanner s rd rd' Hs) as [Hw Hle].
  destruct res0 as [rec | e]; [eauto |].
  subst rd'. cbn [length] in Hw.
  destruct e; eauto.
  pose proof (advanceSection_weight (setScanner s (Some [])) [] eq_refl) as Hadv.
  destruct (advanceSection (setScanner s (Some []))) as [[advErr |] s1]; cbn [snd] in Hadv;
    [eauto |].
  apply IH. lia.
Qed.

Lemma nextRecord_weight (fuel : nat) (s : ContentScanner) res s' :
  nextRecord fuel s = Some (res, s') ->
  (weight s' <= weight s)%nat
  /\ forall rec, res = Ok rec -> (weight s' < weight s)%nat.
Proof.
  unfold nextRecord. destruct (buffered s) as [rec0 |] eqn:Hb.
  - intros H; inversion H; subst. unfold weight.
    cbn [setBuffered buffered scanner reader currentSection]. rewrite Hb.
    split; [lia |]. intros; lia.
  - apply scanLoop_weight.
Qed.

Lemma nextRecord_enough (fuel : nat) (s : ContentScanner) :
  (weight s < fuel)%nat -> exists res, nextRecord fuel s = Some res.
Proof.
  intros Hf. unfold nextRecord. destruct (buffered s); [eauto |].
  now apply scanLoop_enough.
Qed.

Lemma weight_putBack (s : ContentScanner) (rec : Rec) :
  buffered s = None -> weight (putBack s rec) = S (weight s).
Proof.
  intros Hb. unfold weight, putBack.
  cbn [setBuffered buffered scanner reader currentSection]. rewrite Hb. lia.
Qed.

Lemma skipChildren_weight (fuel : nat) :
  forall s lvl err s',
    skipChildren fuel s lvl = Some (err, s') -> (weight s' <= weight s)%nat.
Proof.
  induction fuel as [| fuel IH]; intros s lvl err s' H; [discriminate |].
  cbn [skipChildren] in H.
  destruct (nextRecord (S fuel) s) as [[[rec | e] s1] |] eqn:Hn; [| | discriminate];
    pose proof (ScannerFacts.nextRecord_buffered_none _ _ _ _ Hn) as Hb;
    destruct (nextRecord_weight _ _ _ _ Hn) as [Hle Hlt].
  - specialize (Hlt rec eq_refl). destruct (Lvl rec <=? lvl).
    + inversion H; subst. rewrite weight_putBack by exact Hb. lia.
    + apply IH in H. lia.
  - destruct e; inversion H; subst; exact Hle.
Qed.

Lemma skipChildren_enough (fuel : nat) :
  forall s lvl, (weight s < fuel)%nat -> exists res, skipChildren fuel s lvl = Some res.
Proof.
  induction fuel as [| fuel IH]; intros s lvl Hf; [lia |].
  cbn [skipChildren].
  destruct (nextRecord_enough (S fuel) s Hf) as [[[rec | e] s1] Hn]; rewrite Hn.
  - destruct (nextRecord_weight _ _ _ _ Hn) as [_ Hlt]. specialize (Hlt rec eq_refl).
    destruct (Lvl rec <=? lvl); [eauto |]. apply IH. lia.
  - destruct e; eauto.
Qed.

Lemma process_weight (fuel : nat) (rec : Rec) (s : ContentScanner) (st : step) :
  process fuel rec s = Some st -> (weight (stateOf st) <= weight s)%nat.
Proof.
  destruct rec; cbn [process]; try (intros H; inversion H; subst; cbn [stateOf]; reflexivity).
  - destruct (currentPara s); intros H; inversion H; subst; reflexivity.
  - destruct (currentPara s); [| intros H; inversion H; subst; reflexivity].
    destruct (currentTable (setPara s None)) as [tb |];
      [| intros H; inversion H; subst; reflexivity].
    destruct (currentCell tb); intros H; inversion H; subst; reflexivity.
  - destruct (currentPara s); [| intros H; inversion H; subst; reflexivity].
    destruct (currentTable (setPara s None)) as [tb |];
      [| intros H; inversion H; subst; reflexivity].
    destruct (currentCell tb); intros H; inversion H; subst; reflexivity.
  - destruct (CtrlID rec =? 0x74626c20); [intros H; inversion H; subst; reflexivity |].
    destruct (CtrlID rec =? 0x67736f20);
      destruct (skipChildren fuel s (Level (ch_header rec))) as [[err s1] |] eqn:Hs;
      try discriminate; intros H; inversion H; subst; cbn [stateOf];
      exact (skipChildren_weight _ _ _ _ _ Hs).
  - destruct (currentTable s); [| intros H; inversion H; subst; reflexivity].
    destruct (IsCell rec); intros H; inversion H; subst; reflexivity.
  - destruct (currentTable s); intros H; inversion H; subst; reflexivity.
Qed.

Lemma process_enough (fuel : nat) (rec : Rec) (s : ContentScanner) :
  (weight s < fuel)%nat -> exists st, process fuel rec s = Some st.
Proof.
  intros Hf. destruct rec; cbn [process]; eauto.
  - destruct (currentPara s); eauto.
  - destruct (currentPara s); eauto.
    destruct (currentTable (setPara s None)) as [tb |]; eauto.
    destruct (currentCell tb); eauto.
  - destruct (currentPara s); eauto.
    destruct (currentTable (setPara s None)) as [tb |]; eauto.
    destruct (currentCell tb); eauto.
  - destruct (CtrlID rec =? 0x74626c20); eauto.
    destruct (skipChildren_enough fuel s (Level (ch_header rec)) Hf) as [[err s1] ->].
    destruct (CtrlID rec =? 0x67736f20); eauto.
  - destruct (currentTable s); eauto. destruct (IsCell rec); eauto.
  - destruct (currentTable s); eauto.
Qed.

Lemma iteration_enough (fuel : nat) (s : ContentScanner) :
  (weight s < fuel)%nat ->
  exists st, iteration fuel s = Some st
             /\ forall s', st = Continue s' -> (weight s' < weight s)%nat.
Proof.
  intros Hf. unfold iteration.
  destruct (nextRecord_enough fuel s Hf) as [[[rec | e] s1] Hn]; rewrite Hn;
    destruct (nextRecord_weight _ _ _ _ Hn) as [Hle Hlt].
  - specialize (Hlt rec eq_refl).
    assert (exists st, process fuel rec s1 = Some st
                       /\ forall s', st = Continue s' -> (weight s' < weight s)%nat)
      as Hproc.
    { destruct (process_enough fuel rec s1 ltac:(lia)) as [st Hst].
      exists st. split; [exact Hst |]. intros s' ->.
      apply process_weight in Hst. cbn [stateOf] in Hst. lia. }
    destruct (currentTable s1) as [tb |]; [| exact Hproc].
    destruct (Lvl rec <=? tb_tableLevel tb); [| exact Hproc].
    eexists. split; [reflexivity | discriminate].
  - destruct (currentTable s1); eexists; (split; [reflexivity | discriminate]).
Qed.

Lemma Next_enough (fuel : nat) :
  forall s, (weight s < fuel)%nat -> exists res, Next fuel s = Some res.
Proof.
  induction fuel as [| fuel IH]; intros s Hf; [lia |].
  rewrite ScannerFacts.Next_unfold.
  destruct (iteration_enough (S fuel) s Hf) as (st & -> & Hst).
  destruct st as [s1 | r s1]; [| eauto].
  apply IH. specialize (Hst s1 eq_refl). lia.
Qed.

(** X12. Next always returns.  What is left to read (the record in the
    lookahead buffer, the bytes of the open section and of the sections
    after it, and one for each of these sections) bounds the rounds of
    every loop: each record read takes at least the four bytes of its
    header, each section is opened once, and a record put back was read
    before.  With more fuel than that, Next, nextRecord and skipChildren
    return a result. *)
Theorem Next_returns (s : ContentScanner) (fuel : nat) :
  (weight s < fuel)%nat ->
  (exists r s', Next fuel s = Some (r, s'))
  /\ (exists res s', nextRecord fuel s = Some (res, s'))
  /\ (forall lvl, exists err s', skipChildren fuel s lvl = Some (err, s')).
Proof.
  intros Hf. split; [| split].
  - destruct (Next_enough fuel s Hf) as [[r s'] H]. eauto.
  - destruct (nextRecord_enough fuel s Hf) as [[r s'] H]. eauto.
  - intros lvl. destruct (skipChildren_enough fuel s lvl Hf) as [[r s'] H]. eauto.
Qed.

Lemma Next_returns_witness :
  weight (sampleStart sampleSection) = 78%nat
  /\ exists r s', Next 79 (sampleStart sampleSection) = Some (r, s').
Proof.
  split; [vm_compute; reflexivity |].
  apply (Next_returns (sampleStart sampleSection) 79). vm_compute. lia.
Defined.

(** *** Controls *)

Lemma scanLoop_currentPara (fuel : nat) :
  forall s res s', scanLoop fuel s = Some (res, s') -> currentPara s' = currentPara s.
Proof.
  induction fuel as [| fuel IH]; intros s res s' H; [discriminate |].
  cbn [scanLoop] in H.
  destruct (scanner s) as [rd |]; [| now inversion H].
  destruct (ScanNext rd) as [[[rec | e] rd'] |]; [now inversion H | | discriminate].
  destruct e; try (now inversion H).
  unfold advanceSection in H. cbn [reader currentSection setScanner setSection] in H.
  destruct (_ <=? _); [now inversion H |].
  destruct (OpenSection _ _); [| now inversion H].
  apply IH in H. exact H.
Qed.

Lemma nextRecord_currentPara (fuel : nat) (s : ContentScanner) res s' :
  nextRecord fuel s = Some (res, s') -> currentPara s' = currentPara s.
Proof.
  unfold nextRecord. destruct (buffered s).
  - intros H. now inversion H.
  - apply scanLoop_currentPara.
Qed.

Lemma skipChildren_currentPara (fuel : nat) :
  forall s lvl err s',
    skipChildren fuel s lvl = Some (err, s') -> currentPara s' = currentPara s.
Proof.
  induction fuel as [| fuel IH]; intros s lvl err s' H; [discriminate |].
  cbn [skipChildren] in H.
  destruct (nextRecord (S fuel) s) as [[[rec | e] s1] |] eqn:Hn; [| | discriminate].
  - apply nextRecord_currentPara in Hn.
    destruct (Lvl rec <=? lvl).
    + inversion H; subst. exact Hn.
    + apply IH in H. congruence.
  - apply nextRecord_currentPara in Hn.
    destruct e; inversion H; subst; exact Hn.
Qed.

Lemma skipChildren_stops (fuel : nat) :
  forall s lvl err s',
    skipChildren fuel s lvl = Some (err, s') ->
    match buffered s' with
    | Some rec => Lvl rec <= lvl /\ err = None
    | None => err = None -> scanner s' = None
    end.
Proof.
  induction fuel as [| fuel IH]; intros s lvl err s' H; [discriminate |].
  cbn [skipChildren] in H.
  destruct (nextRecord (S fuel) s) as [[[rec | e] s1] |] eqn:Hn; [| | discriminate].
  - destruct (Z.leb_spec (Lvl rec) lvl).
    + inversion H; subst. cbn. auto.
    + exact (IH _ _ _ _ H).
  - pose proof (ScannerFacts.nextRecord_buffered_none _ _ _ _ Hn) as Hb.
    destruct e; inversion H; subst; rewrite Hb; try discriminate.
    intros _. now apply ScannerFacts.nextRecord_end in Hn.
Qed.

(** More fuel does not change what nextRecord returns. *)
Lemma scanLoop_more (fuel : nat) :
  forall fuel' s res,
    scanLoop fuel s = Some res -> (fuel <= fuel')%nat -> scanLoop fuel' s = Some res.
Proof.
  induction fuel as [| fuel IH]; intros fuel' s res H Hle; [discriminate |].
  destruct fuel' as [| fuel']; [lia |].
  cbn [scanLoop] in *.
  destruct (scanner s) as [rd |]; [| exact H].
  destruct (ScanNext rd) as [[[rec | e] rd'] |]; [exact H | | discriminate].
  destruct e; try exact H.
  destruct (advanceSection (setScanner s (Some rd'))) as [[advErr |] s1]; [exact H |].
  apply IH; [exact H | lia].
Qed.

Lemma nextRecord_more (fuel fuel' : nat) (s : ContentScanner) res :
  nextRecord fuel s = Some res -> (fuel <= fuel')%nat -> nextRecord fuel' s = Some res.
Proof.
  unfold nextRecord. destruct (buffered s); [auto |]. apply scanLoop_more.
Qed.

Lemma scanLoop_tableLevel (fuel : nat) :
  forall s res s', scanLoop fuel s = Some (res, s') -> tableLevel s' = tableLevel s.
Proof.
  induction fuel as [| fuel IH]; intros s res s' H; [discriminate |].
  cbn [scanLoop] in H.
  destruct (scanner s) as [rd |]; [| now inversion H].
  destruct (ScanNext rd) as [[[rec | e] rd'] |]; [now inversion H | | discriminate].
  destruct e; try (now inversion H).
  unfold advanceSection in H. cbn [reader currentSection setScanner setSection] in H.
  destruct (_ <=? _); [now inversion H |].
  destruct (OpenSection _ _); [| now inversion H].
  apply IH in H. exact H.
Qed.

Lemma nextRecord_tableLevel (fuel : nat) (s : ContentScanner) res s' :
  nextRecord fuel s = Some (res, s') -> tableLevel s' = tableLevel s.
Proof.
  unfold nextRecord. destruct (buffered s).
  - intros H. now inversion H.
  - apply scanLoop_tableLevel.
Qed.

Lemma skipChildren_tableLevel (fuel : nat) :
  forall s lvl err s',
    skipChildren fuel s lvl = Some (err, s') -> tableLevel s' = tableLevel s.
Proof.
  induction fuel as [| fuel IH]; intros s lvl err s' H; [discriminate |].
  cbn [skipChildren] in H.
  destruct (nextRecord (S fuel) s) as [[[rec | e] s1] |] eqn:Hn; [| | discriminate].
  - apply nextRecord_tableLevel in Hn.
    destruct (Lvl rec <=? lvl).
    + inversion H; subst. exact Hn.
    + apply IH in H. congruence.
  - apply nextRecord_tableLevel in Hn.
    destruct e; inversion H; subst; exact Hn.
Qed.

(** A record that was put back is the next one nextRecord returns. *)
Lemma putBack_next (fuel : nat) (s : ContentScanner) (rec : Rec) :
  buffered s = None -> nextRecord fuel (putBack s rec) = Some (Ok rec, s).
Proof.
  intros Hb. unfold nextRecord, putBack. cbn [buffered setBuffered].
  destruct s; cbn in *. now subst.
Qed.

(** What skipChildren reads: records above the parent level, which it
    drops, up to the first record that is not, which it puts back, or up
    to the first error. *)
Lemma skipChildren_reads (fuel : nat) :
  forall top s lvl err s',
    (fuel <= top)%nat ->
    skipChildren fuel s lvl = Some (err, s') ->
    exists skipped s1,
      readRecords top (length skipped) s = Some (skipped, s1)
      /\ Forall (fun rec => lvl < Lvl rec) skipped
      /\ ((exists rec s2,
             nextRecord top s1 = Some (Ok rec, s2)
             /\ Lvl rec <= lvl /\ err = None /\ s' = putBack s2 rec)
          \/ (exists e s2,
                nextRecord top s1 = Some (Err e, s2)
                /\ s' = s2
                /\ err = match e with EOF => None | _ => Some e end)).
Proof.
  induction fuel as [| fuel IH]; intros top s lvl err s' Hle H; [discriminate |].
  cbn [skipChildren] in H.
  destruct (nextRecord (S fuel) s) as [[[rec | e] s1] |] eqn:Hn; [| | discriminate];
    pose proof (nextRecord_more _ top _ _ Hn Hle) as Hn'.
  - destruct (Z.leb_spec (Lvl rec) lvl).
    + inversion H; subst. exists [], s. split; [reflexivity |]. split; [constructor |].
      left. exists rec, s1. auto.
    + destruct (IH top s1 lvl err s' ltac:(lia) H) as (skipped & s2 & Hread & Hall & Hstop).
      exists (rec :: skipped), s2. split; [| split; [| exact Hstop]].
      * cbn [length readRecords]. now rewrite Hn', Hread.
      * constructor; [lia | exact Hall].
  - exists [], s. split; [reflexivity |]. split; [constructor |].
    right. exists e, s1. split; [exact Hn' |].
    destruct e; inversion H; subst; auto.
Qed.

(** X13. A control other than the table control has the records below it
    skipped.  Next takes records from nextRecord one after another and
    drops every one whose level is above the control's; the first record
    whose level is not above the control's ends the skipping and is put
    back into the lookahead buffer, so that the next call of nextRecord
    returns this very record; if nextRecord returns an error before such
    a record (the end of the content included), the skipping ends there
    with the buffer empty and the error is dropped.  The paragraph and the
    table in progress and the table level are not touched.  For a drawing
    object Next then returns an Image node, for any other control it goes
    on with the next round. *)
Theorem controls_are_skipped (fuel : nat) (r : RecCtrlHeader) (s : ContentScanner)
  (st : step) :
  CtrlID r <> 0x74626c20 ->
  process fuel (R_CtrlHeader r) s = Some st ->
  st = (if CtrlID r =? 0x67736f20 then Return (Ok Image) (stateOf st)
        else Continue (stateOf st))
  /\ (exists skipped s1,
        readRecords fuel (length skipped) s = Some (skipped, s1)
        /\ Forall (fun rec => Level (ch_header r) < Lvl rec) skipped
        /\ ((exists rec s2,
               nextRecord fuel s1 = Some (Ok rec, s2)
               /\ Lvl rec <= Level (ch_header r)
               /\ stateOf st = putBack s2 rec
               /\ nextRecord fuel (stateOf st) = Some (Ok rec, s2))
            \/ (exists e s2,
                  nextRecord fuel s1 = Some (Err e, s2)
                  /\ stateOf st = s2 /\ buffered s2 = None)))
  /\ (forall rec, buffered (stateOf st) = Some rec -> Lvl rec <= Level (ch_header r))
  /\ currentTable (stateOf st) = currentTable s
  /\ currentPara (stateOf st) = currentPara s
  /\ tableLevel (stateOf st) = tableLevel s
  /\ reader (stateOf st) = reader s.
Proof.
  intros Hid. cbn [process]. destruct (Z.eqb_spec (CtrlID r) 0x74626c20); [contradiction |].
  set (lvl := Level (ch_header r)).
  assert (forall err s',
            skipChildren fuel s lvl = Some (err, s') ->
            (exists skipped s1,
               readRecords fuel (length skipped) s = Some (skipped, s1)
               /\ Forall (fun rec => lvl < Lvl rec) skipped
               /\ ((exists rec s2,
                      nextRecord fuel s1 = Some (Ok rec, s2)
                      /\ Lvl rec <= lvl
                      /\ s' = putBack s2 rec
                      /\ nextRecord fuel s' = Some (Ok rec, s2))
                   \/ (exists e s2,
                         nextRecord fuel s1 = Some (Err e, s2)
                         /\ s' = s2 /\ buffered s2 = None)))
            /\ (forall rec, buffered s' = Some rec -> Lvl rec <= lvl)
            /\ currentTable s' = currentTable s
            /\ currentPara s' = currentPara s
            /\ tableLevel s' = tableLevel s
            /\ reader s' = reader s) as Hskip.
  { intros err s' Hs. split; [| split; [| split; [| split; [| split]]]].
    - destruct (skipChildren_reads fuel fuel s lvl err s' (Nat.le_refl _) Hs)
        as (skipped & s1 & Hread & Hall & Hstop).
      exists skipped, s1. split; [exact Hread |]. split; [exact Hall |].
      destruct Hstop as [(rec & s2 & Hn & Hlvl & _ & ->) | (e & s2 & Hn & -> & _)].
      + left. exists rec, s2. split; [exact Hn |]. split; [exact Hlvl |].
        split; [reflexivity |]. apply putBack_next.
        exact (ScannerFacts.nextRecord_buffered_none _ _ _ _ Hn).
      + right. exists e, s2. split; [exact Hn |]. split; [reflexivity |].
        exact (ScannerFacts.nextRecord_buffered_none _ _ _ _ Hn).
    - intros rec Hb. pose proof (skipChildren_stops _ _ _ _ _ Hs) as Hst.
      rewrite Hb in Hst. tauto.
    - exact (ScannerFacts.skipChildren_currentTable _ _ _ _ _ Hs).
    - exact (skipChildren_currentPara _ _ _ _ _ Hs).
    - exact (skipChildren_tableLevel _ _ _ _ _ Hs).
    - exact (skipChildren_reader _ _ _ _ _ Hs). }
  destruct (Z.eqb_spec (CtrlID r) 0x67736f20);
    destruct (skipChildren fuel s lvl) as [[err s1] |] eqn:Hs;
    try discriminate; intros H; inversion H; subst; cbn [stateOf];
    (split; [reflexivity | exact (Hskip err s1 eq_refl)]).
Qed.

Lemma controls_are_skipped_witness :
  nextRecord 60 (sampleStart sampleDrawing)
  = Some (Ok (R_CtrlHeader gsoHeader), drawingState)
  /\ match readRecords 60 2 drawingState with
     | Some (recs, s1) =>
         map Lvl recs = [1; 2]
         /\ match nextRecord 60 s1 with
            | Some (Ok rec, _) => Lvl rec = 0
            | _ => False
            end
     | None => False
     end
  /\ exists st,
       process 60 (R_CtrlHeader gsoHeader) drawingState = Some st
       /\ st = Return (Ok Image) (stateOf st)
       /\ (exists skipped s1,
             readRecords 60 (length skipped) drawingState = Some (skipped, s1)
             /\ Forall (fun rec => 0 < Lvl rec) skipped
             /\ ((exists rec s2,
                    nextRecord 60 s1 = Some (Ok rec, s2)
                    /\ Lvl rec <= 0
                    /\ stateOf st = putBack s2 rec
                    /\ nextRecord 60 (stateOf st) = Some (Ok rec, s2))
                 \/ (exists e s2,
                       nextRecord 60 s1 = Some (Err e, s2)
                       /\ stateOf st = s2 /\ buffered s2 = None))).
Proof.
  split; [vm_compute; reflexivity |].
  split; [vm_compute; split; reflexivity |].
  assert (exists st, process 60 (R_CtrlHeader gsoHeader) drawingState = Some st)
    as [st Hst] by (vm_compute; eauto).
  destruct (controls_are_skipped 60 gsoHeader drawingState st
              ltac:(vm_compute; discriminate) Hst) as (Hshape & Hskip & _).
  exists st. split; [exact Hst |]. split; [exact Hshape | exact Hskip].
Defined.

(** *** The end of the content *)

Lemma process_returns (fuel : nat) (rec : Rec) (s s' : ContentScanner)
  (r : result ContentNode) :
  process fuel rec s = Some (Return r s') ->
  (exists node, r = Ok node) /\ currentTable s' = currentTable s.
Proof.
  destruct rec; cbn [process]; try discriminate.
  - destruct (currentPara s); discriminate.
  - destruct (currentPara s); [| discriminate].
    destruct (currentTable (setPara s None)) as [tb |] eqn:Htb.
    + destruct (currentCell tb); [discriminate |].
      intros H; inversion H; subst. eauto.
    + intros H; inversion H; subst. eauto.
  - destruct (currentPara s); [| discriminate].
    destruct (currentTable (setPara s None)) as [tb |] eqn:Htb.
    + destruct (currentCell tb); [discriminate |].
      intros H; inversion H; subst. eauto.
    + intros H; inversion H; subst. eauto.
  - destruct (CtrlID rec =? 0x74626c20); [discriminate |].
    destruct (CtrlID rec =? 0x67736f20);
      destruct (skipChildren fuel s (Level (ch_header rec))) as [[err s1] |] eqn:Hs;
      try discriminate.
    intros H; inversion H; subst. split; [eauto |].
    exact (ScannerFacts.skipChildren_currentTable _ _ _ _ _ Hs).
  - destruct (currentTable s); [| discriminate].
    destruct (IsCell rec); discriminate.
  - destruct (currentTable s); discriminate.
Qed.

Lemma iteration_end (fuel : nat) (s s' : ContentScanner) :
  iteration fuel s = Some (Return (Err EOF) s') ->
  scanner s' = None /\ buffered s' = None /\ currentTable s' = None.
Proof.
  unfold iteration.
  destruct (nextRecord fuel s) as [[[rec | e] s1] |] eqn:Hn; [| | discriminate].
  - assert (process fuel rec s1 <> Some (Return (Err EOF) s')) as Hno.
    { intros H. apply process_returns in H. destruct H as [[node H] _]. discriminate. }
    destruct (currentTable s1) as [tb |]; [| intros H; contradiction].
    destruct (Lvl rec <=? tb_tableLevel tb); [discriminate | intros H; contradiction].
  - destruct (currentTable s1) as [tb |] eqn:Ht; [discriminate |].
    intros H; inversion H; subst.
    apply ScannerFacts.nextRecord_end in Hn. tauto.
Qed.

Lemma Next_end (fuel : nat) :
  forall s s', Next fuel s = Some (Err EOF, s') ->
               scanner s' = None /\ buffered s' = None /\ currentTable s' = None.
Proof.
  induction fuel as [| fuel IH]; intros s s' H; [discriminate |].
  rewrite ScannerFacts.Next_unfold in H.
  destruct (iteration (S fuel) s) as [[s1 | r s1] |] eqn:Hit; [| | discriminate].
  - exact (IH _ _ H).
  - inversion H; subst. exact (iteration_end _ _ _ Hit).
Qed.

(** X14. The end of the content is final: once Next has returned io.EOF,
    every later call returns io.EOF again and leaves the scanner as it
    is; no section is open, nothing is in the lookahead buffer and no
    table is in progress. *)
Theorem Next_end_is_final (fuel : nat) (s s' : ContentScanner) :
  Next fuel s = Some (Err EOF, s') ->
  scanner s' = None /\ buffered s' = None /\ currentTable s' = None
  /\ forall fuel', Next (S fuel') s' = Some (Err EOF, s').
Proof.
  intros H. destruct (Next_end fuel s s' H) as (Hs & Hb & Ht).
  repeat split; try assumption.
  intros fuel'. now apply ScannerFacts.Next_at_end.
Qed.

Lemma Next_end_is_final_witness :
  exists s',
    Next 10 (sampleStart (encodeInline recTagParaHeader 0 [])) = Some (Err EOF, s')
    /\ Next 1 s' = Some (Err EOF, s').
Proof.
  assert (exists s', Next 10 (sampleStart (encodeInline recTagParaHeader 0 []))
                     = Some (Err EOF, s')) as [s' Hs'] by (vm_compute; eauto).
  exists s'. split; [exact Hs' |].
  destruct (Next_end_is_final _ _ _ Hs') as (_ & _ & _ & Hagain). apply Hagain.
Defined.

(** *** What a call of Next uses up *)

Lemma iteration_measure (fuel : nat) (s : ContentScanner) (st : step) :
  iteration fuel s = Some st ->
  match st with
  | Continue s' => (measure s' <= measure s)%nat
  | Return (Ok _) s' => (measure s' < measure s)%nat
  | Return (Err _) s' => True
  end.
Proof.
  unfold iteration.
  destruct (nextRecord fuel s) as [[[rec | e] s1] |] eqn:Hn; [| | discriminate];
    pose proof (ScannerFacts.nextRecord_currentTable _ _ _ _ Hn) as Ht;
    pose proof (ScannerFacts.nextRecord_buffered_none _ _ _ _ Hn) as Hb;
    destruct (nextRecord_weight _ _ _ _ Hn) as [Hle Hlt].
  - specialize (Hlt rec eq_refl).
    assert (process fuel rec s1 = Some st ->
            match st with
            | Continue s' => (measure s' <= measure s)%nat
            | Return (Ok _) s' => (measure s' < measure s)%nat
            | Return (Err _) s' => True
            end) as Hproc.
    { intros H. pose proof (process_weight _ _ _ _ H) as Hw.
      destruct st as [s' | r s']; cbn [stateOf] in Hw.
      - unfold measure. destruct (currentTable s'); destruct (currentTable s); lia.
      - apply process_returns in H. destruct H as [[node ->] Htab].
        unfold measure. rewrite Htab, Ht. lia. }
    destruct (currentTable s1) as [tb |] eqn:Ht1; [| exact Hproc].
    destruct (Lvl rec <=? tb_tableLevel tb); [| exact Hproc].
    intros H; inversion H; subst. unfold measure.
    rewrite weight_putBack by exact Hb.
    cbn [putBack setBuffered setTable currentTable]. rewrite <- Ht.
    assert (weight (setTable s1 None) = weight s1) as -> by reflexivity. lia.
  - destruct (currentTable s1) as [tb |] eqn:Ht1; intros H; inversion H; subst; [| exact I].
    unfold measure. cbn [setTable currentTable]. rewrite <- Ht.
    assert (weight (setTable s1 None) = weight s1) as -> by reflexivity. lia.
Qed.

Lemma Next_measure (fuel : nat) :
  forall s node s', Next fuel s = Some (Ok node, s') -> (measure s' < measure s)%nat.
Proof.
  induction fuel as [| fuel IH]; intros s node s' H; [discriminate |].
  rewrite ScannerFacts.Next_unfold in H.
  destruct (iteration (S fuel) s) as [[s1 | r s1] |] eqn:Hit; [| | discriminate];
    apply iteration_measure in Hit.
  - apply IH in H. lia.
  - inversion H; subst. exact Hit.
Qed.

End ScannerProps.

(** * Rendering a document to plain text *)

Module TextFacts.
Import Document Text.

(** *** Trimming *)

Lemma TrimLeftFunc_split (f : Z -> bool) (s : list Z) :
  exists cut, s = cut ++ TrimLeftFunc f s
              /\ Forall (fun c => f c = true) cut
              /\ match TrimLeftFunc f s with
                 | [] => True
                 | c :: _ => f c = false
                 end.
Proof.
  induction s as [| c s (cut & Hs & Hcut & Hhead)]; cbn [TrimLeftFunc].
  - exists []. repeat split. constructor.
  - destruct (f c) eqn:Hc.
    + exists (c :: cut). cbn [app]. split; [congruence |]. split; [now constructor | exact Hhead].
    + exists []. repeat split; [constructor | exact Hc].
Qed.

Lemma TrimRightFunc_split (f : Z -> bool) (s : list Z) :
  exists cut, s = TrimRightFunc f s ++ cut
              /\ Forall (fun c => f c = true) cut
              /\ forall c, last (TrimRightFunc f s) = Some c -> f c = false.
Proof.
  unfold TrimRightFunc.
  destruct (TrimLeftFunc_split f (rev s)) as (cut & Hs & Hcut & Hhead).
  exists (rev cut). split; [| split].
  - rewrite <- rev_app_distr, <- Hs. now rewrite rev_involutive.
  - now apply Forall_rev.
  - intros c Hlast. destruct (TrimLeftFunc f (rev s)) as [| x l]; [discriminate |].
    cbn [rev] in Hlast. rewrite last_snoc in Hlast. now inversion Hlast; subst.
Qed.

Lemma TrimLeftFunc_skip (f : Z -> bool) (cut s : list Z) :
  Forall (fun c => f c = true) cut -> TrimLeftFunc f (cut ++ s) = TrimLeftFunc f s.
Proof.
  induction 1 as [| c cut Hc _ IH]; [reflexivity |].
  cbn [app TrimLeftFunc]. now rewrite Hc.
Qed.

Lemma TrimRight_newlines (s : list Z) (n : nat) :
  TrimRight (s ++ replicate n 10) 10 = TrimRight s 10.
Proof.
  unfold TrimRight, TrimRightFunc. rewrite rev_app_distr. f_equal.
  apply TrimLeftFunc_skip. apply Forall_rev, Forall_replicate. reflexivity.
Qed.

(** X15. A paragraph is written as one line: its text without the
    newlines at its end, then one newline; only newlines are cut off, so
    the line never ends in an empty line of the text's own, and a
    paragraph whose text is empty or all newlines gives an empty line.
    Newlines added at the end of the text do not change the output. *)
Theorem renderParagraph_line (para : list Z) (w : list Z) :
  @renderParagraph _ bufferWriter para w = (None, w ++ TrimRight para 10 ++ [10])
  /\ (exists n, para = TrimRight para 10 ++ replicate n 10)
  /\ last (TrimRight para 10) <> Some 10
  /\ forall n, @renderParagraph _ bufferWriter (para ++ replicate n 10) w
               = @renderParagraph _ bufferWriter para w.
Proof.
  assert (forall p, @renderParagraph _ bufferWriter p w
                    = (None, w ++ TrimRight p 10 ++ [10])) as Hout.
  { intros p. unfold renderParagraph, Fprintln. cbn [Write bufferWriter].
    destruct (TrimRight p 10); reflexivity. }
  split; [apply Hout |].
  destruct (TrimRightFunc_split (Z.eqb 10) para) as (cut & Hs & Hcut & Hlast).
  split; [| split].
  - exists (length cut). rewrite Hs at 1. f_equal.
    clear -Hcut. induction Hcut as [| c cut Hc _ IH]; [reflexivity |].
    apply Z.eqb_eq in Hc. subst c. cbn [length replicate]. f_equal. exact IH.
  - intros H. apply Hlast in H. discriminate.
  - intros n. now rewrite !Hout, TrimRight_newlines.
Qed.

(** *** The output of RenderText *)

Section Output.
Context {cond : Render.Condition} {Sc : Type} {sc : ContentNodeScanner Sc}.

Lemma renderTable_text (t : Table) (w : list Z) :
  match @renderTable cond _ bufferWriter t w with
  | Some (err, w') =>
      err = None /\ exists text, nodeText (TableNode t) = Some text
                                 /\ w' ++ [10] = w ++ text
  | None => nodeText (TableNode t) = None
  end.
Proof.
  unfold renderTable, nodeText, Fprint. cbn [Write bufferWriter].
  destruct (Cells t) as [| c cs] eqn:Hc; cbn [length Nat.eqb].
  - split; [reflexivity |]. exists [10]. auto.
  - destruct (Render.Render (layoutTable t)) as [out |]; [| reflexivity].
    split; [reflexivity |]. exists (out ++ [10]). split; [reflexivity |].
    now rewrite app_assoc.
Qed.

End Output.

(** X16. What RenderText writes to a writer that does not fail: the text
    of the nodes the scanner yields, in their order: for a paragraph its
    line, for a table its rendering and an empty line (the empty line
    alone for a table without cells), for an image the line [IMAGE].  It
    stops at the first error of the scanner and returns nil for io.EOF and
    the error wrapped as "error reading content" otherwise; it panics
    exactly if the renderer panics on one of the tables. *)
Theorem RenderText_output {cond : Render.Condition} {Sc : Type}
  {sc : ContentNodeScanner Sc} (fuel : nat) (s : Sc) (w : list Z) :
  @RenderText cond Sc sc _ bufferWriter fuel s w
  = match drain fuel s with
    | Some (nodes, err, s') =>
        match documentText nodes with
        | Some text => Some (err, s', w ++ text)
        | None => None
        end
    | None => None
    end.
Proof.
  revert s w.
  induction fuel as [| fuel IH]; intros s w; [reflexivity |].
  cbn [RenderText drain].
  destruct (Next (S fuel) s) as [[[node | e] s1] |]; [| | reflexivity].
  - destruct node as [text | t |].
    + unfold renderParagraph, Fprintln. cbn [Write bufferWriter].
      assert ((if negb (length (TrimRight text 10) =? 0)%nat
               then (None, w ++ TrimRight text 10 ++ [10])
               else (None, w ++ [] ++ [10]))
              = (@None error, w ++ TrimRight text 10 ++ [10])) as ->
        by (destruct (TrimRight text 10); reflexivity).
      rewrite IH. destruct (drain fuel s1) as [[[nodes err] s2] |]; [| reflexivity].
      cbn [documentText nodeText].
      destruct (documentText nodes); [| reflexivity]. now rewrite <- !app_assoc.
    + pose proof (renderTable_text t w) as Ht.
      destruct (@renderTable cond _ bufferWriter t w) as [[err w1] |].
      * destruct Ht as (-> & text & Htext & Hw).
        unfold Fprintln. cbn [Write bufferWriter snd app]. rewrite IH.
        destruct (drain fuel s1) as [[[nodes err] s2] |].
        -- cbn [documentText]. rewrite Htext.
           destruct (documentText nodes); [| reflexivity].
           now rewrite Hw, <- app_assoc.
        -- reflexivity.
      * destruct (drain fuel s1) as [[[nodes err] s2] |]; [| reflexivity].
        cbn [documentText]. now rewrite Ht.
    + unfold renderImage, Fprintln. cbn [Write bufferWriter]. rewrite IH.
      destruct (drain fuel s1) as [[[nodes err] s2] |]; [| reflexivity].
      cbn [documentText nodeText].
      destruct (documentText nodes); [| reflexivity]. now rewrite <- !app_assoc.
  - destruct e; cbn [documentText]; now rewrite ?app_nil_r.
Qed.

(** *** A document of the binary format *)

(** X17. Rendering a document of the binary format ends and does not
    panic.  From every state the scanner goes through from Open, with
    section streams of bytes and a writer that does not fail, RenderText
    returns once the fuel exceeds what is left to read: every table the
    scanner yields can be laid out, every call of Next returns and uses up
    part of what is left.  It returns nil at the end of the content, or
    the scanner's error wrapped as "error reading content". *)
Theorem RenderText_binary_returns {cond : Render.Condition}
  (s : Scanner.ContentScanner) (d : option (Z * Z)) (fuel : nat) (w : list Z) :
  Scanner.tracks s d ->
  Reach.okReader (Forall is_byte) (Scanner.reader s) ->
  (Reach.measure s < fuel)%nat ->
  exists err s' w',
    @RenderText cond _ v5Scanner _ bufferWriter fuel s w = Some (err, s', w')
    /\ (err = None
        \/ exists e, err = Some (ErrWrap "error reading content" e) /\ e <> EOF).
Proof.
  revert s d w. induction fuel as [| fuel IH]; intros s d w Ht Hrd Hf; [lia |].
  cbn [RenderText]. cbn [Text.Next v5Scanner].
  destruct (ScannerProps.Next_enough (S fuel) s) as [[r s1] HN];
    [unfold Reach.measure in Hf; lia |].
  rewrite HN. destruct r as [node | e].
  - destruct (ScannerProps.Next_tracks _ _ _ _ _ Ht HN) as (d1 & Ht1 & Hr1).
    pose proof (ScannerProps.Next_measure _ _ _ _ HN) as Hm.
    rewrite <- Hr1 in Hrd.
    assert (forall w1, exists err s' w',
              @RenderText cond _ v5Scanner _ bufferWriter fuel s1 w1 = Some (err, s', w')
              /\ (err = None
                  \/ exists e, err = Some (ErrWrap "error reading content" e) /\ e <> EOF))
      as Hrest by (intros w1; apply (IH s1 d1 w1 Ht1 Hrd); lia).
    destruct node as [text | t |].
    + unfold renderParagraph, Fprintln. cbn [Write bufferWriter].
      destruct (negb _); apply Hrest.
    + rewrite Hr1 in Hrd.
      destruct (ScannerProps.emitted_cells s d _ t s1 Ht Hrd HN) as (Hr & Hc & Hcells).
      destruct (LayoutFacts.Render_in_range _ (ScannerProps.emitted_renders t Hr Hc Hcells))
        as (ls & Hout & _).
      unfold renderTable, Fprint. rewrite Hout. cbn [Write bufferWriter].
      destruct (length (Cells t) =? 0)%nat; apply Hrest.
    + unfold renderImage, Fprintln. cbn [Write bufferWriter]. apply Hrest.
  - destruct e; eexists _, _, _; (split; [reflexivity |]);
      first [now left | right; eexists; split; [reflexivity | discriminate]].
Qed.

Lemma RenderText_binary_returns_witness :
  exists s' w',
    @RenderText Render.sampleCondition _ v5Scanner _ bufferWriter 80
      (Scanner.sampleStart Scanner.sampleSection) []
    = Some (None, s', w')
    /\ w' <> [].
Proof.
  destruct (@RenderText_binary_returns Render.sampleCondition
              (Scanner.sampleStart Scanner.sampleSection) None 80 [])
    as (err & s' & w' & Hrun & _).
  - exact (Scanner.tracks_Open (Scanner.sampleReader Scanner.sampleSection) _ eq_refl).
  - intros i bytes Hb. vm_compute in Hb. inversion Hb; subst.
    repeat constructor; unfold is_byte; lia.
  - vm_compute. lia.
  - vm_compute in Hrun. inversion Hrun; subst. eexists _, _.
    split; [vm_compute; reflexivity | discriminate].
Defined.

End TextFacts.

(** * One call of the streaming decryptor *)

Module DecryptorProps.
Import Crypto Decryptor.

Section Calls.
Context {B : Block} (laws : BlockLaws B).

Lemma okCrypto_new (stream : list Z) : okCrypto (newCryptoReader stream).
Proof. split; cbn; lia. Qed.

Lemma Read_call (cr : cryptoReader) (lenp fuel : nat) :
  okCrypto cr -> (0 < lenp)%nat ->
  exists data err cr',
    Read (S (S fuel)) cr lenp = Some (data, err, cr')
    /\ okCrypto cr'
    /\ match err with
       | None =>
           (0 < length data <= Nat.min lenp 16)%nat
           /\ pending cr = data ++ pending cr'
           /\ (r cr' = r cr \/ r cr' = drop 16 (r cr))
       | Some e =>
           data = [] /\ pending cr = [] /\ e = finalError (r cr)
           /\ r cr' = [] /\ buf cr' = buf cr /\ ptr cr' = ptr cr
       end.
Proof.
  intros [Hptr Hbuf] Hn. unfold pending.
  destruct (Nat.lt_ge_cases (ptr cr) (length (buf cr))) as [Hp | Hp].
  - rewrite (CryptoFacts.Read_buffered (S fuel) cr lenp Hp).
    eexists _, _, _. split; [reflexivity |]. unfold okCrypto. cbn [buf ptr r].
    assert (length (take lenp (drop (ptr cr) (buf cr)))
            = Nat.min lenp (length (buf cr) - ptr cr)) as Hlen
        by (now rewrite length_take, length_drop).
    split; [split; lia |]. split; [lia |]. split; [| now left].
    rewrite app_assoc, <- drop_drop. f_equal.
    symmetry. apply CryptoFacts.take_then_rest.
  - rewrite (drop_ge (buf cr)) by lia. cbn [app].
    destruct (Nat.lt_ge_cases (length (r cr)) 16) as [Hshort | Hfull].
    + cbn [Read]. destruct (Nat.ltb_spec (ptr cr) (length (buf cr))) as [Hlt | _]; [lia |].
      unfold ReadFull. destruct (Nat.leb_spec 16 (length (r cr))) as [Hle | _]; [lia |].
      rewrite (CryptoFacts.ecb_short _ _ Hshort). unfold finalError.
      rewrite Nat.mod_small by exact Hshort.
      destruct (Nat.eqb_spec (length (r cr)) 0) as [Hz | Hnz].
      * eexists _, _, _. split; [reflexivity |]. unfold okCrypto. cbn [buf ptr r].
        repeat split; try lia; try reflexivity; try assumption.
        now apply length_zero_iff_nil.
      * eexists _, _, _. split; [reflexivity |]. unfold okCrypto. cbn [buf ptr r].
        repeat split; try lia; try reflexivity; assumption.
    + rewrite (CryptoFacts.Read_refill laws fuel cr lenp Hp Hfull).
      set (blk := Decrypt (take 16 (r cr))).
      assert (length blk = 16%nat) as Hblk
          by (unfold blk; rewrite (Decrypt_length B laws), length_take; lia).
      eexists _, _, _. split; [reflexivity |]. unfold okCrypto. cbn [buf ptr r].
      assert (length (take lenp blk) = Nat.min lenp 16) as Hlen
          by (now rewrite length_take, Hblk).
      split; [split; lia |]. split; [lia |]. split; [| now right].
      rewrite (CryptoFacts.ecb_step Decrypt (r cr) Hfull). fold blk.
      rewrite !app_assoc. f_equal. symmetry. apply CryptoFacts.take_then_rest.
Qed.

Lemma Read_after_error (cr : cryptoReader) (lenp fuel : nat) :
  (length (buf cr) <= ptr cr)%nat -> r cr = [] ->
  Read (S fuel) cr lenp = Some ([], Some EOF, cr).
Proof.
  intros Hp Hr. cbn [Read].
  destruct (Nat.ltb_spec (ptr cr) (length (buf cr))) as [Hlt | _]; [lia |].
  rewrite Hr. cbn. rewrite <- Hr. now destruct cr.
Qed.

End Calls.

(** X18. One call of cryptoReader.Read with a buffer that is not empty,
    for a block cipher that keeps the length of a block: the call returns
    (the recursion goes one level deep at most), and it returns either
    between 1 and min(len(p), 16) bytes with a nil error, the next bytes
    of the plaintext, taking at most one block from the stream below; or
    no byte and an error, which happens only when all the plaintext has
    been delivered: io.EOF if the stream below is at its end, the error of
    a stream that is not block-aligned if fewer than 16 bytes are left.
    The error of alignment is reported once: every call after an error
    returns no byte and io.EOF. *)
Theorem Read_contract {B : Block} (cr : cryptoReader) (lenp fuel : nat) :
  BlockLaws B -> okCrypto cr -> (0 < lenp)%nat ->
  exists data err cr',
    Read (S (S fuel)) cr lenp = Some (data, err, cr')
    /\ okCrypto cr'
    /\ match err with
       | None =>
           (0 < length data <= Nat.min lenp 16)%nat
           /\ pending cr = data ++ pending cr'
           /\ (r cr' = r cr \/ r cr' = drop 16 (r cr))
       | Some e =>
           data = [] /\ pending cr = []
           /\ e = (if (length (r cr) =? 0)%nat then EOF
                   else ErrNew "encrypted stream not aligned to block size")
           /\ (length (r cr) < 16)%nat
           /\ forall fuel' n, Read (S fuel') cr' n = Some ([], Some EOF, cr')
       end.
Proof.
  intros laws Hok Hn.
  destruct (Read_call laws cr lenp fuel Hok Hn) as (data & err & cr' & HR & Hok' & H).
  exists data, err, cr'. split; [exact HR |]. split; [exact Hok' |].
  destruct err as [e |]; [| exact H].
  destruct H as (Hd & Hpend & He & Hr' & Hb' & Hp').
  assert (length (buf cr) <= ptr cr /\ length (r cr) < 16)%nat as [Hp Hshort].
  { unfold pending in Hpend. apply app_eq_nil in Hpend as [Hdrop Hecb].
    apply (f_equal length) in Hdrop. rewrite length_drop in Hdrop. cbn [length] in Hdrop.
    split; [lia |].
    destruct (Nat.lt_ge_cases (length (r cr)) 16) as [Hs | Hfull]; [exact Hs |].
    rewrite (CryptoFacts.ecb_step Decrypt (r cr) Hfull) in Hecb.
    apply app_eq_nil in Hecb as [Hblk _]. apply (f_equal length) in Hblk.
    rewrite (Decrypt_length B laws), length_take in Hblk. cbn [length] in Hblk. lia. }
  repeat split; try assumption.
  - rewrite He. unfold finalError. rewrite Nat.mod_small by exact Hshort. reflexivity.
  - intros fuel' n. apply Read_after_error; [rewrite Hb', Hp'; exact Hp | exact Hr'].
Qed.

Lemma Read_contract_witness :
  exists data err cr',
    @Read xorCipher 2 (newCryptoReader sampleStream) 100 = Some (data, err, cr')
    /\ okCrypto cr'
    /\ match err with
       | None =>
           (0 < length data <= Nat.min 100 16)%nat
           /\ @pending xorCipher (newCryptoReader sampleStream)
              = data ++ @pending xorCipher cr'
           /\ (r cr' = r (newCryptoReader sampleStream)
               \/ r cr' = drop 16 (r (newCryptoReader sampleStream)))
       | Some e =>
           data = [] /\ @pending xorCipher (newCryptoReader sampleStream) = []
           /\ e = (if (length (r (newCryptoReader sampleStream)) =? 0)%nat then EOF
                   else ErrNew "encrypted stream not aligned to block size")
           /\ (length (r (newCryptoReader sampleStream)) < 16)%nat
           /\ forall fuel' n, @Read xorCipher (S fuel') cr' n = Some ([], Some EOF, cr')
       end.
Proof.
  apply (@Read_contract xorCipher (newCryptoReader sampleStream) 100 0
           CryptoFacts.xorCipher_laws (okCrypto_new sampleStream)).
  lia.
Defined.

End DecryptorProps.

(** * Reading the FileHeader stream *)

Module FileHeaderFacts.
Import FileHeader.

Lemma ReadFull_drop (s : list Z) (k n : nat) :
  (0 < n)%nat ->
  ReadFull (drop k s) n
  = if (k + n <=? length s)%nat then (take n (drop k s), None, drop (k + n) s)
    else if (length s <=? k)%nat then ([], Some EOF, [])
    else (drop k s, Some ErrUnexpectedEOF, []).
Proof.
  intros Hn. unfold ReadFull. rewrite length_drop.
  destruct (Nat.leb_spec n (length s - k)) as [Hle | Hgt].
  - destruct (Nat.leb_spec (k + n) (length s)) as [_ | Hgt]; [| lia].
    now rewrite drop_drop.
  - destruct (Nat.leb_spec (k + n) (length s)) as [Hle | _]; [lia |].
    destruct (Nat.eqb_spec (length s - k) 0) as [H0 | Hpos];
      destruct (Nat.leb_spec (length s) k) as [Hk | Hk]; try lia.
    + now rewrite drop_ge by lia.
    + reflexivity.
Qed.

Lemma ReadUint32_drop (s : list Z) (k : nat) :
  ReadUint32 (drop k s)
  = if (k + 4 <=? length s)%nat
    then (Ok (Uint32 (take 4 (drop k s))), drop (k + 4) s)
    else (Err (if (length s <=? k)%nat then EOF else ErrUnexpectedEOF), []).
Proof.
  unfold ReadUint32. rewrite ReadFull_drop by lia.
  destruct (k + 4 <=? length s)%nat; [reflexivity |].
  destruct (length s <=? k)%nat; reflexivity.
Qed.

Lemma ReadByte_drop (s : list Z) (k : nat) :
  ReadByte (drop k s)
  = if (k + 1 <=? length s)%nat
    then (Ok (nth k s 0), drop (k + 1) s)
    else (Err (if (length s <=? k)%nat then EOF else ErrUnexpectedEOF), []).
Proof.
  unfold ReadByte. rewrite ReadFull_drop by lia.
  destruct (Nat.leb_spec (k + 1) (length s)) as [Hle | Hgt].
  - f_equal. f_equal. rewrite <- (take_drop k s) at 2.
    rewrite app_nth2 by (rewrite length_take; lia).
    rewrite length_take, Nat.min_l, Nat.sub_diag by lia.
    destruct (drop k s); reflexivity.
  - destruct (length s <=? k)%nat; reflexivity.
Qed.

(** *** The signature *)

Lemma TrimRight_zeros (s : list Z) (n : nat) :
  Text.TrimRight (s ++ replicate n 0) 0 = Text.TrimRight s 0.
Proof.
  unfold Text.TrimRight, Text.TrimRightFunc. rewrite rev_app_distr. f_equal.
  apply TextFacts.TrimLeftFunc_skip. apply Forall_rev, Forall_replicate. reflexivity.
Qed.

Lemma signature_accepted (sig : list Z) :
  length sig = 32%nat ->
  Text.TrimRight sig 0 = signatureText <-> sig = signatureField.
Proof.
  intros Hlen. split.
  - intros Htrim.
    destruct (TextFacts.TrimRightFunc_split (Z.eqb 0) sig) as (cut & Hs & Hcut & _).
    fold (Text.TrimRight sig 0) in Hs. rewrite Htrim in Hs.
    assert (cut = replicate (length cut) 0) as Hz.
    { clear -Hcut. induction Hcut as [| c cut Hc _ IH]; [reflexivity |].
      apply Z.eqb_eq in Hc. subst c. cbn [length replicate]. f_equal. exact IH. }
    assert (length cut = 15%nat) as Hc15.
    { apply (f_equal length) in Hs. rewrite length_app, Hlen in Hs.
      change (length signatureText) with 17%nat in Hs. lia. }
    rewrite Hs, Hz, Hc15. reflexivity.
  - intros ->. unfold signatureField. rewrite TrimRight_zeros. reflexivity.
Qed.

(** *** The reading, field by field *)

Lemma readFileHeader_short (s : list Z) :
  (length s < 32)%nat ->
  readFileHeader s
  = (zeroHeader, Some (ErrWrap "read signature" (truncation (length s))), []).
Proof.
  intros Hlen. unfold readFileHeader.
  pose proof (ReadFull_drop s 0 32 ltac:(lia)) as Hsig32.
  rewrite drop_0 in Hsig32. cbn [Nat.add] in Hsig32. rewrite Hsig32. clear Hsig32.
  destruct (Nat.leb_spec 32 (length s)) as [Hle | _]; [lia |].
  destruct (Nat.leb_spec (length s) 0) as [Hz | Hpos].
  - assert (length s = 0)%nat as -> by lia. reflexivity.
  - do 3 f_equal. unfold truncation, fieldStarts. cbn [existsb].
    destruct (Nat.eqb_spec (length s) 0) as [H0 | _]; [lia |].
    repeat match goal with
           | |- context [Nat.eqb (length s) ?k] =>
               destruct (Nat.eqb_spec (length s) k) as [Hk | _]; [lia |]
           end.
    reflexivity.
Qed.

Lemma readFileHeader_signature (s : list Z) :
  (32 <= length s)%nat -> take 32 s <> signatureField ->
  readFileHeader s
  = (setSignature zeroHeader (Text.TrimRight (take 32 s) 0),
     Some (ErrNew "unexpected signature"), drop 32 s).
Proof.
  intros Hlen Hsig. unfold readFileHeader.
  pose proof (ReadFull_drop s 0 32 ltac:(lia)) as Hsig32.
  rewrite drop_0 in Hsig32. cbn [Nat.add] in Hsig32. rewrite Hsig32. clear Hsig32.
  destruct (Nat.leb_spec 32 (length s)) as [_ | Hgt]; [| lia].
  cbn [Signature setSignature].
  destruct (bool_decide_reflect (Text.TrimRight (take 32 s) 0 = signatureText))
    as [Heq | Hne]; [| reflexivity].
  apply signature_accepted in Heq; [contradiction |].
  rewrite length_take. lia.
Qed.

Ltac by_length s :=
  unfold missingField, truncation, fieldStarts; cbn [existsb];
  repeat match goal with
         | |- context [Nat.ltb (length s) ?b] =>
             destruct (Nat.ltb_spec (length s) b); try lia
         | |- context [Nat.eqb (length s) ?b] =>
             destruct (Nat.eqb_spec (length s) b); try lia
         | |- context [Nat.leb (length s) ?b] =>
             destruct (Nat.leb_spec (length s) b); try lia
         | |- context [Nat.leb ?b (length s)] =>
             destruct (Nat.leb_spec b (length s)); try lia
         end;
  cbn [orb].

Lemma readFileHeader_fields (s : list Z) :
  (256 <= length s)%nat -> take 32 s = signatureField ->
  readFileHeader s = (headerOf s, None, drop 256 s).
Proof.
  intros Hlen Hsig. unfold readFileHeader.
  pose proof (ReadFull_drop s 0 32 ltac:(lia)) as Hsig32.
  rewrite drop_0 in Hsig32. cbn [Nat.add] in Hsig32. rewrite Hsig32. clear Hsig32.
  destruct (Nat.leb_spec 32 (length s)) as [_ | Hgt]; [| lia].
  cbn [Signature setSignature].
  destruct (bool_decide_reflect (Text.TrimRight (take 32 s) 0 = signatureText))
    as [Heq | Hne].
  2: { exfalso. apply Hne. apply signature_accepted; [rewrite length_take; lia | exact Hsig]. }
  cbn [negb]. rewrite Heq.
  rewrite ReadUint32_drop. cbn [Nat.add].
  destruct (Nat.leb_spec 36 (length s)) as [_ | Hk]; [| lia].
  rewrite ReadUint32_drop. cbn [Nat.add].
  destruct (Nat.leb_spec 40 (length s)) as [_ | Hk]; [| lia].
  rewrite ReadUint32_drop. cbn [Nat.add].
  destruct (Nat.leb_spec 44 (length s)) as [_ | Hk]; [| lia].
  rewrite ReadUint32_drop. cbn [Nat.add].
  destruct (Nat.leb_spec 48 (length s)) as [_ | Hk]; [| lia].
  rewrite ReadByte_drop. cbn [Nat.add].
  destruct (Nat.leb_spec 49 (length s)) as [_ | Hk]; [| lia].
  rewrite ReadFull_drop by lia. cbn [Nat.add].
  destruct (Nat.leb_spec 256 (length s)) as [_ | Hk]; [| lia].
  unfold headerOf, setReserved, setKoglLicenseCode, setEncryptVersion,
    setSecondFlags, setProperties, setVersion, setSignature.
  cbn [Signature HVersion Properties SecondFlags EncryptVersion KoglLicenseCode
       Reserved zeroHeader].
  replace (drop (length (take 207 (drop 49 s))) (replicate 207 0)) with (@nil Z).
  - now rewrite app_nil_r.
  - symmetry. apply drop_ge. rewrite length_take, length_drop, length_replicate. lia.
Qed.

Lemma readFileHeader_truncated (s : list Z) :
  (32 <= length s < 256)%nat -> take 32 s = signatureField ->
  exists hdr,
    readFileHeader s
    = (hdr, Some (ErrWrap (missingField (length s)) (truncation (length s))), [])
    /\ Signature hdr = signatureText.
Proof.
  intros Hlen Hsig. unfold readFileHeader.
  pose proof (ReadFull_drop s 0 32 ltac:(lia)) as Hsig32.
  rewrite drop_0 in Hsig32. cbn [Nat.add] in Hsig32. rewrite Hsig32. clear Hsig32.
  destruct (Nat.leb_spec 32 (length s)) as [_ | Hgt]; [| lia].
  cbn [Signature setSignature].
  destruct (bool_decide_reflect (Text.TrimRight (take 32 s) 0 = signatureText))
    as [Heq | Hne].
  2: { exfalso. apply Hne. apply signature_accepted; [rewrite length_take; lia | exact Hsig]. }
  cbn [negb]. rewrite Heq.
  rewrite ReadUint32_drop. cbn [Nat.add].
  destruct (Nat.leb_spec 36 (length s)) as [H36 | Hk];
    [| by_length s; eexists; split; reflexivity].
  rewrite ReadUint32_drop. cbn [Nat.add].
  destruct (Nat.leb_spec 40 (length s)) as [H40 | Hk];
    [| by_length s; eexists; split; reflexivity].
  rewrite ReadUint32_drop. cbn [Nat.add].
  destruct (Nat.leb_spec 44 (length s)) as [H44 | Hk];
    [| by_length s; eexists; split; reflexivity].
  rewrite ReadUint32_drop. cbn [Nat.add].
  destruct (Nat.leb_spec 48 (length s)) as [H48 | Hk];
    [| by_length s; eexists; split; reflexivity].
  rewrite ReadByte_drop. cbn [Nat.add].
  destruct (Nat.leb_spec 49 (length s)) as [H49 | Hk];
    [| by_length s; eexists; split; reflexivity].
  rewrite ReadFull_drop by lia. cbn [Nat.add].
  destruct (Nat.leb_spec 256 (length s)) as [Hk | _]; [lia |].
  by_length s; eexists; split; reflexivity.
Qed.

(** *** The bytes of the fields *)

Lemma Uint32_bytes (b0 b1 b2 b3 : Z) :
  is_byte b0 -> is_byte b1 -> is_byte b2 -> is_byte b3 ->
  let ver := Uint32 [b0; b1; b2; b3] in
  byte (Z.shiftr ver 24) = b3 /\ byte (Z.shiftr ver 16) = b2
  /\ byte (Z.shiftr ver 8) = b1 /\ byte ver = b0
  /\ Z.testbit ver 0 = Z.testbit b0 0 /\ Z.testbit ver 1 = Z.testbit b0 1
  /\ Z.testbit ver 2 = Z.testbit b0 2.
Proof.
  unfold is_byte, byte, Uint32. cbn [nth]. intros H0 H1 H2 H3.
  change 256 with (2 ^ 8).
  rewrite <- (Z.mod_small b0 (2 ^ 8)), <- (Z.mod_small b1 (2 ^ 8)),
    <- (Z.mod_small b2 (2 ^ 8)), <- (Z.mod_small b3 (2 ^ 8)) by lia.
  repeat split; try solve [RecordFacts.bits];
    rewrite !Z.lor_spec, !Z.shiftl_spec by lia;
    repeat match goal with
           | |- context [Z.testbit ?a (?k - ?m)] =>
               rewrite (Z.testbit_neg_r a (k - m)) by lia
           end;
    now rewrite !orb_false_r.
Qed.

Lemma take4_drop (s : list Z) (k : nat) :
  (k + 4 <= length s)%nat ->
  take 4 (drop k s)
  = [nth k s 0; nth (k + 1) s 0; nth (k + 2) s 0; nth (k + 3) s 0].
Proof.
  revert s. induction k as [| k IH]; intros s Hlen.
  - destruct s as [| a [| b [| c [| d s]]]]; cbn [length] in Hlen; try lia. reflexivity.
  - destruct s as [| a s]; cbn [length] in Hlen; [lia |].
    cbn [drop Nat.add nth]. apply IH. lia.
Qed.

Lemma flag_bit (x k : Z) :
  0 <= k -> negb (Z.land x (2 ^ k) =? 0) = Z.testbit x k.
Proof.
  intros Hk. destruct (Z.testbit x k) eqn:Hb.
  - destruct (Z.eqb_spec (Z.land x (2 ^ k)) 0) as [Hz | _]; [| reflexivity].
    apply (f_equal (fun v => Z.testbit v k)) in Hz.
    rewrite Z.land_spec, Hb, Z.pow2_bits_true, Z.bits_0 in Hz by lia. discriminate.
  - replace (Z.land x (2 ^ k)) with 0; [reflexivity |].
    symmetry. apply Z.bits_inj'. intros n Hn.
    rewrite Z.land_spec, Z.bits_0, Z.pow2_bits_eqb by lia.
    destruct (Z.eqb_spec k n) as [-> | _]; [now rewrite Hb | apply andb_false_r].
Qed.

(** X19. readFileHeader accepts a stream exactly if it holds 256 bytes or
    more and starts with the signature HWP Document File filled up with
    NUL bytes to 32 bytes; it then reads exactly 256 bytes and leaves the
    rest of the stream.  A shorter signature field, other bytes after the
    signature, or a stream that ends before the 256 bytes is an error. *)
Theorem readFileHeader_accepts (s : list Z) :
  ((exists hdr rest, readFileHeader s = (hdr, None, rest))
   <-> (256 <= length s)%nat /\ take 32 s = signatureField)
  /\ forall hdr rest,
       readFileHeader s = (hdr, None, rest) ->
       rest = drop 256 s /\ Signature hdr = signatureText
       /\ length (Reserved hdr) = 207%nat.
Proof.
  assert ((256 <= length s)%nat /\ take 32 s = signatureField ->
          readFileHeader s = (headerOf s, None, drop 256 s)) as Hyes
      by (intros [Hlen Hsig]; now apply readFileHeader_fields).
  assert (forall hdr rest, readFileHeader s = (hdr, None, rest) ->
                           (256 <= length s)%nat /\ take 32 s = signatureField) as Hno.
  { intros hdr rest Hrd.
    destruct (Nat.lt_ge_cases (length s) 32) as [Hshort | Hlong].
    - rewrite (readFileHeader_short s Hshort) in Hrd. discriminate.
    - destruct (decide (take 32 s = signatureField)) as [Hsig | Hsig].
      + destruct (Nat.lt_ge_cases (length s) 256) as [Htrunc | Hfull]; [| auto].
        destruct (readFileHeader_truncated s (conj Hlong Htrunc) Hsig) as (hdr' & Heq & _).
        rewrite Heq in Hrd. discriminate.
      + rewrite (readFileHeader_signature s Hlong Hsig) in Hrd. discriminate. }
  split; [split |].
  - intros (hdr & rest & Hrd). exact (Hno hdr rest Hrd).
  - intros H. eexists _, _. exact (Hyes H).
  - intros hdr rest Hrd. pose proof (Hno hdr rest Hrd) as H.
    rewrite (Hyes H) in Hrd. inversion Hrd; subst. clear Hrd.
    split; [reflexivity |]. split; [reflexivity |].
    cbn [Reserved headerOf]. rewrite length_take, length_drop. lia.
Qed.

(** X20. Where the fields of an accepted header come from, for a stream of
    bytes: the version is stored with its last part first (revision at
    offset 32, then patch, minor and major at offset 35); the properties,
    the second flags and the encryption version are the little-endian
    words at offsets 36, 40 and 44, the licence code is the byte at offset
    48 and the reserved field the 207 bytes from offset 49.  Compressed
    and Encrypted are bits 0 and 1 of the byte at offset 36. *)
Theorem readFileHeader_layout (s : list Z) (hdr : FileHeader) (rest : list Z) :
  Forall is_byte s ->
  readFileHeader s = (hdr, None, rest) ->
  HVersion hdr = {| Major := nth 35 s 0; Minor := nth 34 s 0;
                    Patch := nth 33 s 0; Rev := nth 32 s 0 |}
  /\ Raw (Properties hdr) = Uint32 [nth 36 s 0; nth 37 s 0; nth 38 s 0; nth 39 s 0]
  /\ Compressed (Properties hdr) = Z.testbit (nth 36 s 0) 0
  /\ Encrypted (Properties hdr) = Z.testbit (nth 36 s 0) 1
  /\ SecondFlags hdr = Uint32 [nth 40 s 0; nth 41 s 0; nth 42 s 0; nth 43 s 0]
  /\ EncryptVersion hdr = Uint32 [nth 44 s 0; nth 45 s 0; nth 46 s 0; nth 47 s 0]
  /\ KoglLicenseCode hdr = nth 48 s 0
  /\ Reserved hdr = take 207 (drop 49 s).
Proof.
  intros Hbytes Hrd.
  assert ((256 <= length s)%nat /\ take 32 s = signatureField) as [Hlen Hsig].
  { destruct (Nat.lt_ge_cases (length s) 32) as [Hshort | Hlong].
    - rewrite (readFileHeader_short s Hshort) in Hrd. discriminate.
    - destruct (decide (take 32 s = signatureField)) as [Hsig | Hsig].
      + destruct (Nat.lt_ge_cases (length s) 256) as [Htrunc | Hfull]; [| auto].
        destruct (readFileHeader_truncated s (conj Hlong Htrunc) Hsig) as (hdr' & Heq & _).
        rewrite Heq in Hrd. discriminate.
      + rewrite (readFileHeader_signature s Hlong Hsig) in Hrd. discriminate. }
  rewrite (readFileHeader_fields s Hlen Hsig) in Hrd. inversion Hrd; subst. clear Hrd.
  unfold headerOf.
  cbn [HVersion Properties Raw SecondFlags EncryptVersion KoglLicenseCode Reserved].
  rewrite !take4_drop by lia. cbn [Nat.add].
  pose proof (ScannerProps.nth_byte s) as Hb.
  destruct (Uint32_bytes (nth 32 s 0) (nth 33 s 0) (nth 34 s 0) (nth 35 s 0))
    as (H3 & H2 & H1 & H0 & _); try (apply Hb; exact Hbytes).
  destruct (Uint32_bytes (nth 36 s 0) (nth 37 s 0) (nth 38 s 0) (nth 39 s 0))
    as (_ & _ & _ & _ & Hc & He & _); try (apply Hb; exact Hbytes).
  cbv zeta in H3, H2, H1, H0, Hc, He.
  rewrite H3, H2, H1, H0.
  unfold Compressed, Encrypted. cbn [Raw].
  set (raw := Uint32 [nth 36 s 0; nth 37 s 0; nth 38 s 0; nth 39 s 0]) in *.
  pose proof (flag_bit raw 0 ltac:(lia)) as F0.
  pose proof (flag_bit raw 1 ltac:(lia)) as F1.
  change (2 ^ 0) with 1 in F0. change (2 ^ 1) with 2 in F1.
  rewrite F0, F1, Hc, He.
  repeat split; reflexivity.
Qed.

Lemma readFileHeader_layout_witness :
  exists hdr,
    readFileHeader sampleHeader = (hdr, None, [])
    /\ HVersion hdr = {| Major := 5; Minor := 1; Patch := 0; Rev := 1 |}
    /\ Compressed (Properties hdr) = true
    /\ Encrypted (Properties hdr) = false.
Proof.
  assert (Forall is_byte sampleHeader) as Hbytes
      by (repeat constructor; unfold is_byte; lia).
  exists (headerOf sampleHeader).
  assert (readFileHeader sampleHeader = (headerOf sampleHeader, None, [])) as Hrd
      by (vm_compute; reflexivity).
  destruct (readFileHeader_layout sampleHeader (headerOf sampleHeader) [] Hbytes Hrd)
    as (Hv & _ & Hc & He & _).
  split; [exact Hrd |]. split; [exact Hv |]. split; [exact Hc | exact He].
Defined.

(** X21. How readFileHeader rejects a stream.  With fewer than 32 bytes
    the error is that of reading the signature.  With 32 bytes or more that
    are not the signature field the error is that of the signature,
    whatever the length of the stream, and only those 32 bytes are read.
    With the signature in place and fewer than 256 bytes the error names
    the first field whose bytes are missing.  The error wrapped for a field
    is io.EOF if the stream ends where the field starts and
    io.ErrUnexpectedEOF if it ends inside the field. *)
Theorem readFileHeader_rejects (s : list Z) (hdr : FileHeader) (e : error)
  (rest : list Z) :
  readFileHeader s = (hdr, Some e, rest) ->
  ((length s < 32)%nat
   /\ e = ErrWrap "read signature" (truncation (length s))
   /\ hdr = zeroHeader /\ rest = [])
  \/ ((32 <= length s)%nat /\ take 32 s <> signatureField
      /\ e = ErrNew "unexpected signature"
      /\ Signature hdr = Text.TrimRight (take 32 s) 0 /\ rest = drop 32 s)
  \/ ((32 <= length s < 256)%nat /\ take 32 s = signatureField
      /\ e = ErrWrap (missingField (length s)) (truncation (length s))
      /\ Signature hdr = signatureText /\ rest = []).
Proof.
  intros Hrd.
  destruct (Nat.lt_ge_cases (length s) 32) as [Hshort | Hlong].
  - left. rewrite (readFileHeader_short s Hshort) in Hrd.
    inversion Hrd; subst. auto.
  - right. destruct (decide (take 32 s = signatureField)) as [Hsig | Hsig].
    + right. destruct (Nat.lt_ge_cases (length s) 256) as [Htrunc | Hfull].
      * destruct (readFileHeader_truncated s (conj Hlong Htrunc) Hsig)
          as (hdr' & Heq & Hsg).
        rewrite Heq in Hrd. inversion Hrd; subst. auto.
      * rewrite (readFileHeader_fields s Hfull Hsig) in Hrd. discriminate.
    + left. rewrite (readFileHeader_signature s Hlong Hsig) in Hrd.
      inversion Hrd; subst. auto.
Qed.

Lemma readFileHeader_rejects_witness :
  exists hdr,
    readFileHeader (take 40 sampleHeader)
    = (hdr, Some (ErrWrap "read second properties" EOF), []).
Proof.
  assert (exists hdr e rest,
             readFileHeader (take 40 sampleHeader) = (hdr, Some e, rest))
    as (hdr & e & rest & Hrd) by (vm_compute; eauto).
  exists hdr.
  destruct (readFileHeader_rejects _ hdr e rest Hrd)
    as [(Hl & _) | [(_ & Hsig & _) | (_ & _ & -> & _ & ->)]].
  - vm_compute in Hl. lia.
  - exfalso. apply Hsig. vm_compute. reflexivity.
  - exact Hrd.
Defined.

End FileHeaderFacts.

(** * The nodes of an HWPX section *)

Module HwpxFacts.
Import Hwpx.

(** *** Text *)

Lemma Join_empty_sep (parts : list (list Z)) : Join parts [] = concat parts.
Proof.
  induction parts as [| part [| next rest] IH]; cbn [Join concat app] in *.
  - reflexivity.
  - now rewrite app_nil_r.
  - now rewrite IH.
Qed.

Lemma collect_map {A B : Type} (f : A -> B) (l : list A) (acc : list B) :
  fold_left (fun parts x => parts ++ [f x]) l acc = acc ++ map f l.
Proof.
  revert acc. induction l as [| x l IH]; intros acc; cbn [fold_left map].
  - now rewrite app_nil_r.
  - rewrite IH, <- app_assoc. reflexivity.
Qed.

Lemma collect_filter {A : Type} (f : A -> list Z) (l : list A) (acc : list (list Z)) :
  fold_left (fun parts x => let text := f x in
                            if nonEmpty text then parts ++ [text] else parts) l acc
  = acc ++ filter (fun text => nonEmpty text = true) (map f l).
Proof.
  revert acc. induction l as [| x l IH]; intros acc; cbn [fold_left map].
  - now rewrite app_nil_r.
  - rewrite IH. cbv zeta. rewrite filter_cons.
    destruct (nonEmpty (f x)) eqn:Hx.
    + destruct (decide (true = true)) as [_ | Hne]; [| contradiction].
      now rewrite <- app_assoc.
    + destruct (decide (false = true)) as [Heq | _]; [discriminate | reflexivity].
Qed.

Lemma concat_filter_nonEmpty (parts : list (list Z)) :
  concat (filter (fun text => nonEmpty text = true) parts) = concat parts.
Proof.
  induction parts as [| part parts IH]; [reflexivity |].
  rewrite filter_cons. destruct part as [| c part].
  - cbn. destruct (decide (false = true)) as [Heq | _]; [discriminate | exact IH].
  - cbn [nonEmpty length Nat.eqb negb].
    destruct (decide (true = true)) as [_ | Hne]; [| contradiction].
    cbn [concat]. now rewrite IH.
Qed.

Lemma Run_extractText_runText (r : Run) : Run_extractText r = runText r.
Proof.
  unfold Run_extractText, runText. rewrite collect_map. cbn [app].
  destruct (LineBreak r); rewrite Join_empty_sep.
  - rewrite concat_app. cbn [concat]. now rewrite app_nil_r.
  - now rewrite app_nil_r.
Qed.

Lemma extractText_paragraphText (p : ParagraphElement) :
  extractText p = paragraphText p.
Proof.
  unfold extractText, paragraphText.
  rewrite (collect_filter Run_extractText). cbn [app].
  rewrite Join_empty_sep, concat_filter_nonEmpty. f_equal.
  apply map_ext. exact Run_extractText_runText.
Qed.

(** *** Cells and tables *)

Lemma parseCell_cellOf (tc : TableCell) : parseCell tc = Some (cellOf tc).
Proof.
  unfold parseCell, cellOf, cellText, spanOf. cbv zeta.
  rewrite (collect_filter extractText). cbn [app].
  do 3 f_equal. f_equal. apply map_ext. exact extractText_paragraphText.
Qed.

Lemma row_cells (cells : list TableCell) (acc : list Document.Cell) :
  fold_left (fun cells tc => match parseCell tc with
                             | Some cell => cells ++ [cell]
                             | None => cells
                             end) cells acc
  = acc ++ map cellOf cells.
Proof.
  revert acc. induction cells as [| tc cells IH]; intros acc; cbn [fold_left map].
  - now rewrite app_nil_r.
  - rewrite parseCell_cellOf, IH, <- app_assoc. reflexivity.
Qed.

Lemma table_cells (rows : list TableRow) (acc : list Document.Cell) :
  fold_left (fun cells tr =>
               fold_left (fun cells tc => match parseCell tc with
                                          | Some cell => cells ++ [cell]
                                          | None => cells
                                          end) (Cells tr) cells) rows acc
  = acc ++ map cellOf (concat (map Cells rows)).
Proof.
  revert acc. induction rows as [| tr rows IH]; intros acc;
    cbn [fold_left map concat].
  - now rewrite app_nil_r.
  - rewrite IH, row_cells, map_app, app_assoc. reflexivity.
Qed.

Lemma parseTableElement_table (tbl : TableElement) :
  parseTableElement tbl
  = if (RowCnt tbl =? 0) || (ColCnt tbl =? 0) then Ok None
    else Ok (Some (Document.TableNode
                     {| Document.Rows := RowCnt tbl; Document.Cols := ColCnt tbl;
                        Document.Cells := map cellOf (tableCells tbl) |})).
Proof.
  unfold parseTableElement, tableCells. cbv zeta. now rewrite table_cells.
Qed.

Lemma spanOf_nonzero (n : Z) : spanOf n <> 0.
Proof. unfold spanOf. destruct (Z.eqb_spec n 0); lia. Qed.

Lemma cellText_lines (tc : TableCell) :
  Forall (fun line => line <> [])
         (filter (fun text => nonEmpty text = true)
                 (map paragraphText (Paragraphs (TcSubList tc)))).
Proof.
  induction (map paragraphText (Paragraphs (TcSubList tc))) as [| part parts IH];
    [constructor |].
  rewrite filter_cons. destruct (decide (nonEmpty part = true)) as [Hne | _];
    [| exact IH].
  constructor; [| exact IH]. intros ->. discriminate.
Qed.

(** X22. What parseTableElement makes of a table element: no node if the
    row count or the column count is 0 (the attribute is missing or 0);
    else a Table node with the counts as they are declared, which may be
    negative, and one cell for every tc element, row after row in the
    order of the document, whatever the counts say.  A cell takes its
    address as it is written and its spans with 0 replaced by 1, so no
    cell has a span of 0; a negative span stays. *)
Theorem parseTableElement_node (tbl : TableElement) :
  parseTableElement tbl
  = (if (RowCnt tbl =? 0) || (ColCnt tbl =? 0) then Ok None
     else Ok (Some (Document.TableNode
                      {| Document.Rows := RowCnt tbl; Document.Cols := ColCnt tbl;
                         Document.Cells := map cellOf (tableCells tbl) |})))
  /\ length (map cellOf (tableCells tbl))
     = list_sum (map (fun tr => length (Cells tr)) (Rows tbl))
  /\ Forall (fun cell => Document.RowSpan cell <> 0 /\ Document.ColSpan cell <> 0)
            (map cellOf (tableCells tbl)).
Proof.
  split; [apply parseTableElement_table |]. split.
  - rewrite length_map. unfold tableCells.
    induction (Rows tbl) as [| tr rows IH]; [reflexivity |].
    cbn [map concat list_sum]. unfold list_sum in *. cbn [fold_right].
    now rewrite length_app, IH.
  - apply Forall_map. apply Forall_forall. intros tc _. cbn [cellOf Document.RowSpan Document.ColSpan].
    split; apply spanOf_nonzero.
Qed.

(** *** Rendering *)

Lemma cellRenders_inGrid {cond : Render.Condition} (tbl : TableElement)
  (t : Document.Table) (tc : TableCell) :
  Document.Rows t = RowCnt tbl -> Document.Cols t = ColCnt tbl ->
  Shape.cellRenders (Text.layoutTable t)
    {| Render.Row := Document.Row (cellOf tc);
       Render.Col := Document.Col (cellOf tc);
       Render.Text := Text.TrimSpace (Document.Text (cellOf tc));
       Render.RowSpan := Document.RowSpan (cellOf tc);
       Render.ColSpan := Document.ColSpan (cellOf tc) |}
  <-> inGrid tbl tc.
Proof.
  intros Hr Hc. unfold Shape.cellRenders, inGrid, Text.layoutTable.
  cbn [Render.Row Render.Col Render.RowSpan Render.ColSpan Render.Rows Render.Cols
       cellOf Document.Row Document.Col Document.RowSpan Document.ColSpan].
  rewrite Hr, Hc. reflexivity.
Qed.

Lemma renders_inGrid {cond : Render.Condition} (tbl : TableElement) :
  let t := {| Document.Rows := RowCnt tbl; Document.Cols := ColCnt tbl;
              Document.Cells := map cellOf (tableCells tbl) |} in
  Shape.renders (Text.layoutTable t)
  <-> 0 <= RowCnt tbl /\ 0 <= ColCnt tbl /\ Forall (inGrid tbl) (tableCells tbl).
Proof.
  intros t. unfold Shape.renders.
  cbn [Text.layoutTable Render.Rows Render.Cols Render.Cells t
       Document.Rows Document.Cols Document.Cells].
  rewrite map_map.
  assert (Forall (Shape.cellRenders (Text.layoutTable t))
                 (map (fun tc =>
                         {| Render.Row := Document.Row (cellOf tc);
                            Render.Col := Document.Col (cellOf tc);
                            Render.Text := Text.TrimSpace (Document.Text (cellOf tc));
                            Render.RowSpan := Document.RowSpan (cellOf tc);
                            Render.ColSpan := Document.ColSpan (cellOf tc) |})
                      (tableCells tbl))
          <-> Forall (inGrid tbl) (tableCells tbl)) as Hcells.
  { induction (tableCells tbl) as [| tc tcs IH]; cbn [map].
    - split; constructor.
    - split; intros H; inversion H; subst; constructor;
        try (apply IH; assumption);
        now apply (cellRenders_inGrid tbl t tc eq_refl eq_refl). }
  unfold Text.layoutTable in Hcells at 1.
  cbn [Document.Rows Document.Cols Document.Cells t] in Hcells.
  split; intros (H1 & H2 & H3); (split; [exact H1 |]); (split; [exact H2 |]);
    apply Hcells; exact H3.
Qed.

(** X23. When a table of an HWPX section can be rendered.  The scanner
    takes the cell addresses and the counts as the document gives them, so
    for the Table node of a table element renderTable returns, and does
    not panic, exactly in two cases: the element holds no tc element; or
    its row and column counts are positive and every tc element that
    spans a column lies in the declared columns (column address not
    negative, address plus span within the column count) and has no
    negative row address that would own a grid position.  A cell beyond
    the last declared column makes the renderer panic. *)
Theorem hwpx_table_renders_iff {cond : Render.Condition} (tbl : TableElement)
  (t : Document.Table) (w : list Z) :
  parseTableElement tbl = Ok (Some (Document.TableNode t)) ->
  (exists r, @Text.renderTable cond _ Text.bufferWriter t w = Some r)
  <-> (tableCells tbl = []
       \/ (0 < RowCnt tbl /\ 0 < ColCnt tbl /\ Forall (inGrid tbl) (tableCells tbl))).
Proof.
  rewrite parseTableElement_table.
  destruct (Z.eqb_spec (RowCnt tbl) 0) as [Hr0 | Hr0]; cbn [orb]; [discriminate |].
  destruct (Z.eqb_spec (ColCnt tbl) 0) as [Hc0 | Hc0]; [discriminate |].
  intros Heq. inversion Heq; subst t; clear Heq.
  unfold Text.renderTable. cbn [Document.Cells]. rewrite length_map.
  destruct (tableCells tbl) as [| tc tcs] eqn:Htcs.
  - cbn [length Nat.eqb]. split; [auto | eauto].
  - cbn [length Nat.eqb]. rewrite <- Htcs.
    pose proof (renders_inGrid tbl) as Hiff. cbv zeta in Hiff.
    split.
    + intros [r Hrun]. right.
      destruct (Render.Render _) as [out |] eqn:Hout; [| discriminate].
      apply LayoutFacts.Render_Some, Hiff in Hout. destruct Hout as (H1 & H2 & H3).
      split; [lia |]. split; [lia | exact H3].
    + intros [Hnil | (Hr & Hc & Hin)]; [rewrite Htcs in Hnil; discriminate |].
      assert (0 <= RowCnt tbl /\ 0 <= ColCnt tbl /\ Forall (inGrid tbl) (tableCells tbl))
        as Hgrid by (split; [lia |]; split; [lia | exact Hin]).
      apply Hiff in Hgrid.
      destruct (LayoutFacts.Render_in_range _ Hgrid) as (ls & -> & _).
      eauto.
Qed.

Lemma hwpx_table_renders_iff_witness :
  (exists t r,
      parseTableElement sampleTbl = Ok (Some (Document.TableNode t))
      /\ @Text.renderTable Render.sampleCondition _ Text.bufferWriter t [] = Some r)
  /\ (exists t,
        parseTableElement strayTable = Ok (Some (Document.TableNode t))
        /\ @Text.renderTable Render.sampleCondition _ Text.bufferWriter t [] = None).
Proof.
  split.
  - eexists. 
    assert (parseTableElement sampleTbl
            = Ok (Some (Document.TableNode
                          {| Document.Rows := 1; Document.Cols := 2;
                             Document.Cells := map cellOf (tableCells sampleTbl) |})))
      as Hp by reflexivity.
    destruct (proj2 (hwpx_table_renders_iff (cond := Render.sampleCondition)
                       sampleTbl _ [] Hp)) as [r Hr].
    + right. split; [cbn; lia |]. split; [cbn; lia |].
      repeat constructor; cbn; lia.
    + exists r. split; [exact Hp | exact Hr].
  - eexists. split; [reflexivity |].
    destruct (Text.renderTable _ _) as [r |] eqn:Hrun; [| reflexivity].
    exfalso.
    destruct (proj1 (hwpx_table_renders_iff (cond := Render.sampleCondition)
                       strayTable _ [] eq_refl) (ex_intro _ r Hrun))
      as [Hnil | (_ & _ & Hin)]; [discriminate Hnil |].
    inversion Hin as [| tc0 l0 _ Hrest]; subst.
    inversion Hrest as [| tc1 l1 [Hcol _] _]; subst.
    cbn in Hcol. lia.
Defined.

(** *** Paragraphs *)

Lemma paragraphText_empty (p : ParagraphElement) :
  paragraphText p = []
  <-> Forall (fun run => LineBreak run = false
                         /\ Forall (fun t => Text t = []) (TextNodes run)) (Runs p).
Proof.
  unfold paragraphText. induction (Runs p) as [| run runs IH]; cbn [map concat].
  - split; [constructor | reflexivity].
  - split.
    + intros H. apply app_eq_nil in H as [Hrun Hrest]. constructor; [| now apply IH].
      unfold runText in Hrun. apply app_eq_nil in Hrun as [Hnodes Hbr].
      split; [destruct (LineBreak run); [discriminate | reflexivity] |].
      clear -Hnodes. induction (TextNodes run) as [| t ts IHt]; [constructor |].
      cbn [map concat] in Hnodes. apply app_eq_nil in Hnodes as [Ht Hts].
      constructor; [exact Ht | now apply IHt].
    + intros H. inversion H as [| r0 l0 [Hbr Hnodes] Hrest]; subst.
      rewrite (proj2 IH Hrest), app_nil_r. unfold runText. rewrite Hbr, app_nil_r.
      clear -Hnodes. induction Hnodes as [| t ts Ht _ IHt]; [reflexivity |].
      cbn [map concat]. now rewrite Ht, IHt.
Qed.

(** X24. What parseParagraph makes of a paragraph element.  Without a
    table in its runs it gives a Paragraph node whose text is the text
    nodes of its runs in their order, each run's line break as a newline
    after the run's text nodes; and no node at all exactly if every text
    node is empty and no run holds a line break.  With a table in a run it
    gives what parseTableElement makes of the first such table, and
    nothing else: the text of the paragraph and the tables of later runs
    are dropped. *)
Theorem parseParagraph_node (para : ParagraphElement) :
  (forall tbl, firstTable (Runs para) = Some tbl ->
               parseParagraph (Ok para) = parseTableElement tbl)
  /\ (firstTable (Runs para) = None ->
      (parseParagraph (Ok para) = Ok None
       <-> Forall (fun run => LineBreak run = false
                              /\ Forall (fun t => Text t = []) (TextNodes run))
                  (Runs para))
      /\ (parseParagraph (Ok para) = Ok None
          \/ parseParagraph (Ok para)
             = Ok (Some (Document.Paragraph (paragraphText para)))))
  /\ (firstTable (Runs para) = None
      <-> Forall (fun run => Table run = None) (Runs para)).
Proof.
  split; [| split].
  - intros tbl Hft. unfold parseParagraph. now rewrite Hft.
  - intros Hft. unfold parseParagraph. rewrite Hft. cbv zeta.
    rewrite extractText_paragraphText, <- paragraphText_empty.
    destruct (paragraphText para) as [| c text] eqn:Htext; cbn [length Nat.eqb].
    + split; [tauto | now left].
    + split; [| now right]. split; discriminate.
  - induction (Runs para) as [| run runs IH]; cbn [firstTable].
    + split; [constructor | reflexivity].
    + destruct (Table run) as [tbl |] eqn:Ht.
      * split; [discriminate |]. intros H. inversion H; subst. congruence.
      * rewrite IH. split; [now constructor |]. intros H. now inversion H.
Qed.

End HwpxFacts.

(** * Opening a document and the section of a distribution document *)

Module ContainerFacts.
Import FileHeader Container.

(** *** The section count *)

Lemma scanDocInfo_enough (fuel : nat) :
  forall s, (length s < fuel)%nat -> exists res, scanDocInfo fuel s = Some res.
Proof.
  induction fuel as [| fuel IH]; intros s Hf; [lia |].
  cbn [scanDocInfo].
  destruct (ScannerFacts.ScanNext_total s) as [[res s'] HS]. rewrite HS.
  pose proof (ScannerProps.ScanNext_shrinks s res s' HS) as Hshrink.
  destruct res as [rec | e].
  - destruct (Record.Tag rec =? HWPTAG_DOCUMENT_PROPERTIES).
    + destruct rec; eauto.
      destruct (2 <=? length (Record.un_Data rec))%nat; eauto.
    + apply IH. lia.
  - destruct e; eauto.
Qed.

Lemma scanDocInfo_range (fuel : nat) :
  forall s count,
    Forall is_byte s -> scanDocInfo fuel s = Some (Ok count) -> 0 <= count < 65536.
Proof.
  induction fuel as [| fuel IH]; intros s count Hs H; [discriminate |].
  cbn [scanDocInfo] in H.
  destruct (Record.ScanNext s) as [[[rec | e] s'] |] eqn:HS; [| | discriminate].
  - pose proof (RecordProps.ScanNext_frame s (Ok rec) s' HS) as (data & Hf & Hraw & _).
    apply RecordProps.readFrame_ok in Hf. destruct Hf as (Hsplit & _ & _).
    rewrite Hsplit in Hs. apply Forall_app in Hs as [_ Hs].
    apply Forall_app in Hs as [Hdata Hrest].
    destruct (Record.Tag rec =? HWPTAG_DOCUMENT_PROPERTIES).
    + destruct rec; try (inversion H; subst; lia).
      destruct (2 <=? length (Record.un_Data rec))%nat;
        [| inversion H; subst; lia].
      inversion H; subst. apply ScannerProps.Uint16_range.
      rewrite (Hraw _ eq_refl). now apply Forall_take.
    + exact (IH s' count Hrest H).
  - destruct e; inversion H; subst; lia.
Qed.

(** X25. The Reader that OpenReader returns.  OpenReader returns once the
    fuel exceeds the length of the DocInfo stream.  When it returns a
    Reader, the FileHeader stream has been accepted by readFileHeader, the
    document is not password-encrypted (bit 1 of the properties is clear),
    a DocInfo stream exists, and, the records of DocInfo being bytes,
    SectionCount is between 1 and 65535: it is never 0, whatever DocInfo
    holds. *)
Theorem OpenReader_reader {L : Libraries} (fuel : nat) (file : File) :
  (forall docInfo, openStream file "DocInfo" = Ok docInfo ->
                   (length docInfo < fuel /\ length (inflate docInfo) < fuel)%nat) ->
  (exists res, OpenReader fuel file = Some res)
  /\ forall r,
       OpenReader fuel file = Some (Ok r) ->
       exists headerStream docInfo,
         openStream file "FileHeader" = Ok headerStream
         /\ readFileHeader headerStream = (Header r, None, drop 256 headerStream)
         /\ (256 <= length headerStream)%nat
         /\ Encrypted (Properties (Header r)) = false
         /\ openStream file "DocInfo" = Ok docInfo
         /\ ra r = file
         /\ SectionCount r <> 0
         /\ (Forall is_byte (if Compressed (Properties (Header r))
                             then inflate docInfo else docInfo) ->
             1 <= SectionCount r <= 65535).
Proof.
  intros Hfuel. unfold OpenReader.
  destruct (openStream file "FileHeader") as [headerStream | e] eqn:Hh;
    [| split; [eauto | discriminate]].
  destruct (readFileHeader headerStream) as [[hdr [e |]] rest] eqn:Hrd;
    [split; [eauto | discriminate] |].
  destruct (Encrypted (Properties hdr)) eqn:Henc; [split; [eauto | discriminate] |].
  destruct (openStream file "DocInfo") as [docInfo | e] eqn:Hd;
    [| split; [eauto | discriminate]].
  destruct (Hfuel docInfo eq_refl) as [Hf1 Hf2].
  set (decoded := if Compressed (Properties hdr) then inflate docInfo else docInfo).
  assert (length decoded < fuel)%nat as Hdec
      by (unfold decoded; destruct (Compressed (Properties hdr)); assumption).
  destruct (scanDocInfo_enough fuel decoded Hdec) as [res Hscan]. rewrite Hscan.
  split; [destruct res; eauto |].
  intros r Hr. destruct res as [count | e]; [| discriminate].
  inversion Hr; subst r; clear Hr. cbn [Header ra SectionCount sectionCount].
  assert ((256 <= length headerStream)%nat /\ rest = drop 256 headerStream)
    as [Hlen ->].
  { destruct (Nat.lt_ge_cases (length headerStream) 32) as [Hshort | Hlong].
    - rewrite (FileHeaderFacts.readFileHeader_short _ Hshort) in Hrd. discriminate.
    - destruct (decide (take 32 headerStream = signatureField)) as [Hsig | Hsig].
      + destruct (Nat.lt_ge_cases (length headerStream) 256) as [Htrunc | Hfull].
        * destruct (FileHeaderFacts.readFileHeader_truncated _ (conj Hlong Htrunc) Hsig)
            as (hdr' & Heq & _).
          rewrite Heq in Hrd. discriminate.
        * rewrite (FileHeaderFacts.readFileHeader_fields _ Hfull Hsig) in Hrd.
          inversion Hrd; subst. auto.
      + rewrite (FileHeaderFacts.readFileHeader_signature _ Hlong Hsig) in Hrd.
        discriminate. }
  exists headerStream, docInfo.
  repeat (split; [first [reflexivity | assumption] |]).
  split.
  - destruct (Z.eqb_spec count 0); lia.
  - intros Hbytes. pose proof (scanDocInfo_range fuel decoded count Hbytes Hscan).
    destruct (Z.eqb_spec count 0); lia.
Qed.

Lemma OpenReader_reader_witness :
  exists r,
    @OpenReader sampleLibraries 10 distFile = Some (Ok r)
    /\ 1 <= SectionCount r <= 65535.
Proof.
  destruct (@OpenReader_reader sampleLibraries 10 distFile) as [[res Hres] Hprop].
  - intros docInfo Hd. vm_compute in Hd. inversion Hd; subst.
    cbn [inflate sampleLibraries]. vm_compute. lia.
  - assert (exists r, res = Ok r) as [r ->].
    { vm_compute in Hres. inversion Hres; subst. eauto. }
    exists r. split; [exact Hres |].
    destruct (Hprop r Hres) as (hs & di & _ & _ & _ & _ & Hd & _ & _ & Hrange).
    apply Hrange. vm_compute in Hd. inversion Hd; subst.
    replace (Compressed (Properties (Header r))) with false.
    + repeat constructor; unfold is_byte; lia.
    + vm_compute in Hres. inversion Hres; subst. reflexivity.
Defined.

(** *** The section of a distribution document *)

Lemma Sprintf_distribution (r : Reader) (index : Z) :
  IsDistributionDoc r = true ->
  streamNameOf r index = ("ViewText/Section" ++ itoa index)%string.
Proof. intros Hd. unfold streamNameOf. now rewrite Hd. Qed.

(** X26. A section of a distribution document.  OpenSection looks for the
    stream ViewText/Section with the index in decimal, and of a stream it
    finds it reads 260 bytes: a record header word, of which only the tag
    (0x1C) and the 12-bit size (256) are looked at, the level is not, and
    the 256 bytes of distribution data.  It fails if the stream is shorter
    or the header word is another; it never fails in deriving the key or
    in creating the cipher, since deriveKey accepts every 256 bytes and
    gives a key of 16 bytes, a size aes.NewCipher accepts.  The reader it
    returns decrypts the stream from byte 260 on with the key derived from
    bytes 4 to 259. *)
Theorem OpenSection_distribution {L : Libraries} (fuel : nat) (r : Reader)
  (index : Z) (raw : list Z) :
  (forall key, length key = 16%nat -> exists block, NewCipher key = Ok block) ->
  IsDistributionDoc r = true ->
  openStream (ra r) ("ViewText/Section" ++ itoa index) = Ok raw ->
  (256 <= fuel)%nat ->
  let key := Crypto.spec_deriveKey (take 256 (drop 4 raw)) in
  let tagVal := Uint32 (take 4 raw) in
  if (length raw <? 4)%nat then
    OpenSection fuel r index
    = Some (Err (ErrWrap "failed to read distribute doc header"
                   (if (length raw =? 0)%nat then EOF else ErrUnexpectedEOF)))
  else if negb ((Z.land tagVal 0x3FF =? 0x1C) && (Z.shiftr tagVal 20 =? 256)) then
    OpenSection fuel r index
    = Some (Err (ErrNew "invalid distribution document stream"))
  else if (length raw <? 260)%nat then
    OpenSection fuel r index
    = Some (Err (ErrWrap "failed to read distribute doc data"
                   (if (length raw =? 4)%nat then EOF else ErrUnexpectedEOF)))
  else
    exists block,
      length key = 16%nat
      /\ NewCipher key = Ok block
      /\ OpenSection fuel r index
         = Some (Ok {| below := drop 260 raw; cipher := Some (key, block);
                       deflated := Compressed (Properties (Header r)) |}).
Proof.
  intros Haes Hdist Hopen Hfuel key tagVal.
  unfold OpenSection. rewrite (Sprintf_distribution r index Hdist), Hopen, Hdist.
  pose proof (FileHeaderFacts.ReadFull_drop raw 0 4 ltac:(lia)) as H4.
  rewrite drop_0 in H4. cbn [Nat.add] in H4. rewrite H4. clear H4.
  destruct (Nat.ltb_spec (length raw) 4) as [Hshort | Hlong].
  - destruct (Nat.leb_spec 4 (length raw)) as [Hle | _]; [lia |].
    destruct (Nat.leb_spec (length raw) 0) as [Hz | Hnz];
      destruct (Nat.eqb_spec (length raw) 0) as [Hz' | Hnz']; try lia; reflexivity.
  - destruct (Nat.leb_spec 4 (length raw)) as [_ | Hgt]; [| lia].
    fold tagVal. unfold HWPTAG_DISTRIBUTE_DOC_DATA.
    destruct ((Z.land tagVal 1023 =? 28) && (Z.shiftr tagVal 20 =? 256)); cbn [negb];
      [| reflexivity].
    rewrite (FileHeaderFacts.ReadFull_drop raw 4 256) by lia. cbn [Nat.add].
    destruct (Nat.ltb_spec (length raw) 260) as [Htrunc | Hfull].
    + destruct (Nat.leb_spec 260 (length raw)) as [Hle | _]; [lia |].
      destruct (Nat.leb_spec (length raw) 4) as [Hz | Hnz];
        destruct (Nat.eqb_spec (length raw) 4) as [Hz' | Hnz']; try lia; reflexivity.
    + destruct (Nat.leb_spec 260 (length raw)) as [_ | Hgt]; [| lia].
      assert (length (take 256 (drop 4 raw)) = 256%nat) as Hdata
          by (rewrite length_take, length_drop; lia).
      rewrite (CryptoFacts.deriveKey_eq fuel (take 256 (drop 4 raw)) Hdata Hfuel).
      fold key.
      assert (length key = 16%nat) as Hkey
          by (apply CryptoFacts.spec_deriveKey_length; exact Hdata).
      destruct (Haes key Hkey) as [block Hblock]. rewrite Hblock.
      exists block. repeat split; assumption.
Qed.

Lemma OpenSection_distribution_witness :
  exists block,
    @OpenSection sampleLibraries 256 distReader 0
    = Some (Ok {| below := replicate 16 0;
                  cipher := Some (Crypto.spec_deriveKey Crypto.sampleDistData, block);
                  deflated := false |}).
Proof.
  assert (forall key, length key = 16%nat ->
                      exists block, @NewCipher sampleLibraries key = Ok block) as Haes.
  { intros key Hk. cbn [NewCipher sampleLibraries existsb]. rewrite Hk. cbn. eauto. }
  pose proof (@OpenSection_distribution sampleLibraries 256 distReader 0 distSection
                Haes ltac:(vm_compute; reflexivity) ltac:(vm_compute; reflexivity)
                ltac:(lia)) as H.
  cbv zeta in H.
  replace (length distSection <? 4)%nat with false in H by (vm_compute; reflexivity).
  replace (length distSection <? 260)%nat with false in H by (vm_compute; reflexivity).
  replace (negb _) with false in H by (vm_compute; reflexivity).
  destruct H as (block & _ & _ & H). exists block. rewrite H.
  do 3 f_equal.
Defined.

End ContainerFacts.

(** * The rendering of a tiled table is a rectangle *)

Module AlignFacts.
Import Render Shape Tiles.

Lemma coversb_covers (cell : Cell) (r c : Z) :
  coversb cell r c = true <-> covers cell r c.
Proof.
  unfold coversb, covers. rewrite !andb_true_iff, !Z.leb_le, !Z.ltb_lt. tauto.
Qed.

(** *** The ownership grid *)

Section Grid.
Variable t : Table.

Lemma ownerAt_shaped (grid : list (list (option nat))) (r c : Z) :
  shaped t grid -> 0 <= r < Rows t -> 0 <= c < Cols t ->
  exists o, ownerAt grid r c = Some o.
Proof.
  intros [Hlen Hrows] Hr Hc. unfold ownerAt.
  destruct (LayoutFacts.index_in_range grid r) as (line & -> & Hline); [lia |].
  pose proof (Forall_lookup_1 _ _ _ _ Hrows Hline) as Hll. cbn beta in Hll.
  destruct (LayoutFacts.index_in_range line c) as (o & -> & _); [lia |]. eauto.
Qed.

Lemma ownerAt_store (grid : list (list (option nat))) (line : list (option nat))
  (r0 c0 : Z) (x : option nat) (r c : Z) :
  index grid r0 = Some line ->
  0 <= r0 < Z.of_nat (length grid) -> 0 <= c0 < Z.of_nat (length line) ->
  0 <= r -> 0 <= c ->
  ownerAt (<[Z.to_nat r0 := <[Z.to_nat c0 := x]> line]> grid) r c
  = if (r =? r0) && (c =? c0) then Some x else ownerAt grid r c.
Proof.
  intros Hline Hr0 Hc0 Hr Hc. unfold ownerAt, index in *.
  destruct (Z.ltb_spec r0 0); [lia |].
  destruct (Z.ltb_spec r 0); [lia |].
  destruct (Z.ltb_spec c 0); [lia |].
  destruct (Z.eqb_spec r r0) as [-> | Hne]; cbn [andb].
  - rewrite list_lookup_insert_eq by lia. rewrite Hline.
    destruct (Z.eqb_spec c c0) as [-> | Hne].
    + now rewrite list_lookup_insert_eq by lia.
    + now rewrite list_lookup_insert_ne by lia.
  - now rewrite list_lookup_insert_ne by lia.
Qed.

Lemma ownCols_at (cell : Cell) (id : nat) (r0 : Z) :
  forall n c0 grid grid',
    shaped t grid -> 0 <= Col cell + c0 ->
    ownCols n c0 t cell id r0 grid = Some grid' ->
    forall r c, 0 <= r < Rows t -> 0 <= c < Cols t ->
      ownerAt grid' r c
      = if (r =? Row cell + r0) && (Col cell + c0 <=? c)
           && (c <? Col cell + c0 + Z.of_nat n)
        then Some (Some id) else ownerAt grid r c.
Proof.
  induction n as [| n IH]; intros c0 grid grid' Hs Hc0 H r c Hr Hc; cbn [ownCols] in H.
  - inversion H; subst.
    destruct ((r =? Row cell + r0) && (Col cell + c0 <=? c)) eqn:Hb; cbn [andb];
      [| reflexivity].
    destruct (Z.ltb_spec c (Col cell + c0 + Z.of_nat 0)) as [Hlt |]; [| reflexivity].
    apply andb_true_iff in Hb as [_ Hle]. apply Z.leb_le in Hle. lia.
  - destruct (Z.ltb_spec (Col cell + c0) (Cols t)) as [Hlt | Hge].
    + destruct (index grid (Row cell + r0)) as [line |] eqn:Hi; [| discriminate].
      destruct (store line (Col cell + c0) (Some id)) as [line' |] eqn:Hs1; [| discriminate].
      destruct (store grid (Row cell + r0) line') as [grid1 |] eqn:Hs2; [| discriminate].
      assert (0 <= Row cell + r0 < Z.of_nat (length grid)) as Hrow.
      { unfold store in Hs2.
        destruct (Z.leb_spec 0 (Row cell + r0)); cbn [andb] in Hs2; [| discriminate].
        destruct (Z.ltb_spec (Row cell + r0) (Z.of_nat (length grid)));
          [lia | discriminate]. }
      assert (0 <= Col cell + c0 < Z.of_nat (length line)) as Hcol.
      { unfold store in Hs1.
        destruct (Z.leb_spec 0 (Col cell + c0)); cbn [andb] in Hs1; [| discriminate].
        destruct (Z.ltb_spec (Col cell + c0) (Z.of_nat (length line)));
          [lia | discriminate]. }
      rewrite LayoutFacts.store_in_range in Hs1 by exact Hcol.
      rewrite LayoutFacts.store_in_range in Hs2 by exact Hrow.
      inversion Hs1; subst line'. inversion Hs2; subst grid1. clear Hs1 Hs2.
      assert (shaped t (<[Z.to_nat (Row cell + r0) :=
                           <[Z.to_nat (Col cell + c0) := Some id]> line]> grid)) as Hs'.
      { destruct Hs as [Hlen Hrows]. split; [now rewrite length_insert |].
        apply Forall_insert; [exact Hrows |]. rewrite length_insert.
        unfold index in Hi. destruct (Row cell + r0 <? 0); [discriminate |].
        exact (Forall_lookup_1 _ _ _ _ Hrows Hi). }
      rewrite (IH (c0 + 1) _ grid' Hs' ltac:(lia) H r c Hr Hc).
      rewrite (ownerAt_store grid line _ _ (Some id) r c Hi Hrow Hcol) by lia.
      destruct (Z.eqb_spec r (Row cell + r0)) as [-> | Hne]; cbn [andb]; [| reflexivity].
      destruct (Z.leb_spec (Col cell + (c0 + 1)) c);
        destruct (Z.ltb_spec c (Col cell + (c0 + 1) + Z.of_nat n));
        destruct (Z.leb_spec (Col cell + c0) c);
        destruct (Z.ltb_spec c (Col cell + c0 + Z.of_nat (S n)));
        destruct (Z.eqb_spec c (Col cell + c0)); cbn [andb]; try lia; reflexivity.
    + inversion H; subst.
      destruct (Z.eqb_spec r (Row cell + r0)); cbn [andb]; [| reflexivity].
      destruct (Z.leb_spec (Col cell + c0) c); cbn [andb]; [lia | reflexivity].
Qed.

Lemma ownRows_at (cell : Cell) (id : nat) :
  0 <= Col cell \/ ColSpan cell < 1 ->
  forall n r0 grid grid',
    shaped t grid ->
    ownRows n r0 t cell id grid = Some grid' ->
    forall r c, 0 <= r < Rows t -> 0 <= c < Cols t ->
      ownerAt grid' r c
      = if (Row cell + r0 <=? r) && (r <? Row cell + r0 + Z.of_nat n)
           && (Col cell <=? c) && (c <? Col cell + ColSpan cell)
        then Some (Some id) else ownerAt grid r c.
Proof.
  intros Hcol. induction n as [| n IH]; intros r0 grid grid' Hs H r c Hr Hc;
    cbn [ownRows] in H.
  - inversion H; subst.
    destruct (Z.leb_spec (Row cell + r0) r);
      destruct (Z.ltb_spec r (Row cell + r0 + Z.of_nat 0)); cbn [andb]; try lia;
      reflexivity.
  - destruct (Z.ltb_spec (Row cell + r0) (Rows t)) as [Hlt | Hge].
    + destruct (ownCols _ 0 t cell id r0 grid) as [grid1 |] eqn:Hc1; [| discriminate].
      pose proof (LayoutFacts.ownCols_shape t _ _ _ _ _ _ _ Hs Hc1) as Hs1.
      rewrite (IH (r0 + 1) grid1 grid' Hs1 H r c Hr Hc).
      destruct (Z_lt_le_dec (ColSpan cell) 1) as [Hno | Hspan].
      * replace (Z.to_nat (ColSpan cell)) with 0%nat in Hc1 by lia.
        cbn [ownCols] in Hc1. inversion Hc1; subst grid1.
        destruct (Z.leb_spec (Col cell) c);
          destruct (Z.ltb_spec c (Col cell + ColSpan cell));
          rewrite ?andb_false_r; cbn [andb]; try lia; reflexivity.
      * rewrite (ownCols_at cell id r0 _ 0 grid grid1 Hs ltac:(lia) Hc1 r c Hr Hc).
        rewrite Z.add_0_r, Z2Nat.id by lia.
        destruct (Z.leb_spec (Row cell + (r0 + 1)) r);
          destruct (Z.ltb_spec r (Row cell + (r0 + 1) + Z.of_nat n));
          destruct (Z.leb_spec (Row cell + r0) r);
          destruct (Z.ltb_spec r (Row cell + r0 + Z.of_nat (S n)));
          destruct (Z.eqb_spec r (Row cell + r0));
          destruct (Z.leb_spec (Col cell) c);
          destruct (Z.ltb_spec c (Col cell + ColSpan cell));
          cbn [andb]; try lia; reflexivity.
    + inversion H; subst.
      destruct (Z.leb_spec (Row cell + r0) r); cbn [andb]; [lia | reflexivity].
Qed.

Lemma ownCell_at (grid grid' : list (list (option nat))) (ic : nat * Cell) :
  shaped t grid -> cellRenders t (snd ic) ->
  ownCell t grid ic = Some grid' ->
  forall r c, 0 <= r < Rows t -> 0 <= c < Cols t ->
    ownerAt grid' r c = lastOwner r c (ownerAt grid r c) ic.
Proof.
  intros Hs [Hcols _] H r c Hr Hc. unfold ownCell in H. unfold lastOwner, coversb.
  assert (0 <= Col (snd ic) \/ ColSpan (snd ic) < 1) as Hcol
      by (destruct (Z_lt_le_dec (ColSpan (snd ic)) 1); [right; lia | left; apply Hcols; lia]).
  rewrite (ownRows_at (snd ic) (fst ic) Hcol _ 0 grid grid' Hs H r c Hr Hc).
  rewrite Z.add_0_r.
  destruct (Z_lt_le_dec (RowSpan (snd ic)) 1) as [Hno | Hspan].
  - replace (Z.of_nat (Z.to_nat (RowSpan (snd ic)))) with 0 by lia.
    destruct (Z.leb_spec (Row (snd ic)) r);
      destruct (Z.ltb_spec r (Row (snd ic) + 0));
      destruct (Z.ltb_spec r (Row (snd ic) + RowSpan (snd ic)));
      cbn [andb]; try lia; reflexivity.
  - now rewrite Z2Nat.id by lia.
Qed.

Lemma foldM_at (l : list (nat * Cell)) :
  Forall (fun ic => cellRenders t (snd ic)) l ->
  forall grid grid',
    shaped t grid -> foldM (ownCell t) l grid = Some grid' ->
    forall r c, 0 <= r < Rows t -> 0 <= c < Cols t ->
      ownerAt grid' r c = fold_left (lastOwner r c) l (ownerAt grid r c).
Proof.
  induction 1 as [| ic l Hic _ IH]; intros grid grid' Hs H r c Hr Hc; cbn [foldM] in H.
  - now inversion H; subst.
  - destruct (ownCell t grid ic) as [grid1 |] eqn:H1; [| discriminate].
    cbn [fold_left]. rewrite <- (ownCell_at grid grid1 ic Hs Hic H1 r c Hr Hc).
    exact (IH grid1 grid' (LayoutFacts.ownCell_shape t _ _ _ Hs H1) H r c Hr Hc).
Qed.

Lemma lastOwner_unique (r c : Z) (id : nat) (l : list (nat * Cell)) :
  (forall ic, In ic l -> covers (snd ic) r c -> fst ic = id) ->
  forall o, (o = Some (Some id) \/ exists ic, In ic l /\ covers (snd ic) r c) ->
            fold_left (lastOwner r c) l o = Some (Some id).
Proof.
  induction l as [| ic l IH]; intros Huniq o Ho; cbn [fold_left].
  - destruct Ho as [-> | (ic & [] & _)]. reflexivity.
  - apply IH; [intros ic' Hin; apply Huniq; now right |].
    unfold lastOwner. destruct (coversb (snd ic) r c) eqn:Hcov.
    + left. apply coversb_covers in Hcov.
      rewrite (Huniq ic (or_introl eq_refl) Hcov). reflexivity.
    + destruct Ho as [-> | (ic' & [<- | Hin] & Hcov')]; [now left | | right; eauto].
      apply coversb_covers in Hcov'. congruence.
Qed.

End Grid.

(** *** The owners in a table that is tiled *)

Section Tiled.
Context {cond : Condition}.
Variable t : Table.
Variable l : Layout.
Hypothesis Hbuild : buildLayout t = Some l.
Hypothesis Htiles : tiles t.

Lemma buildLayout_owner :
  exists grid0,
    shaped t grid0
    /\ (forall r c, 0 <= r < Rows t -> 0 <= c < Cols t -> ownerAt grid0 r c = Some None)
    /\ foldM (ownCell t) (cellsWithId t) grid0 = Some (cellOwner l).
Proof.
  pose proof (LayoutFacts.buildLayout_Some t l Hbuild) as (Hrows & Hcols & _).
  destruct (LayoutFacts.grid0_shaped t Hrows Hcols) as (Hmk & Hs0 & _).
  unfold buildLayout in Hbuild. rewrite Hmk in Hbuild.
  destruct (make (Cols t) 0) as [cw0 |]; [| discriminate].
  destruct (foldM (ownCell t) (cellsWithId t) _) as [grid |] eqn:Hfold; [| discriminate].
  destruct (computeColWidths t _ cw0) as [cw |]; [| discriminate].
  inversion Hbuild; subst l. cbn [cellOwner].
  eexists. split; [exact Hs0 |]. split; [| exact Hfold].
  intros r c Hr Hc. unfold ownerAt, index.
  destruct (Z.ltb_spec r 0); [lia |]. destruct (Z.ltb_spec c 0); [lia |].
  rewrite lookup_replicate_2 by lia. now rewrite lookup_replicate_2 by lia.
Qed.

Lemma tiles_owner (r c : Z) :
  0 <= r < Rows t -> 0 <= c < Cols t ->
  exists id cell,
    ownerAt (cellOwner l) r c = Some (Some id)
    /\ Cells t !! id = Some cell /\ covers cell r c
    /\ forall id' cell', Cells t !! id' = Some cell' -> covers cell' r c -> id' = id.
Proof.
  intros Hr Hc. destruct (Htiles r c Hr Hc) as (id & cell & Hid & Hcov & Huniq).
  exists id, cell. split; [| auto].
  destruct buildLayout_owner as (grid0 & Hs0 & Hnone & Hfold).
  pose proof (LayoutFacts.buildLayout_Some t l Hbuild) as (_ & _ & Hcells).
  assert (Forall (fun ic => cellRenders t (snd ic)) (cellsWithId t)) as Hren.
  { pose proof (LayoutFacts.cellsWithId_cells t) as Hids.
    apply Forall_lookup_2. intros i ic Hi.
    pose proof (Forall_lookup_1 _ _ _ _ Hids Hi) as Hic. cbn beta in Hic.
    exact (Forall_lookup_1 _ _ _ _ Hcells Hic). }
  rewrite (foldM_at t (cellsWithId t) Hren grid0 (cellOwner l) Hs0 Hfold r c Hr Hc).
  apply lastOwner_unique.
  - intros ic Hin Hcov'. apply list_elem_of_In, list_elem_of_lookup in Hin.
    destruct Hin as [i Hi].
    pose proof (Forall_lookup_1 _ _ _ _ (LayoutFacts.cellsWithId_cells t) Hi) as Hic.
    exact (Huniq _ _ Hic Hcov').
  - right. exists (id, cell). split; [| exact Hcov].
    apply list_elem_of_In, list_elem_of_lookup. exists id.
    now apply LayoutFacts.cellsWithId_at.
Qed.

End Tiled.

(** *** The width of a line *)

Lemma sumZ_app (a b : list Z) : sumZ (a ++ b) = sumZ a + sumZ b.
Proof. unfold sumZ. induction a as [| x a IH]; cbn [app fold_right]; lia. Qed.

Lemma sumZ_nonneg (l : list Z) : Forall (fun w => 1 <= w) l -> 0 <= sumZ l.
Proof. unfold sumZ. induction 1 as [| w l Hw _ IH]; cbn [fold_right]; lia. Qed.

Lemma maxLineWidth_fold {cond : Condition} (lines : list (list Z)) :
  forall m,
    m <= fold_left (fun maxWidth line =>
                      if displayWidth line >? maxWidth then displayWidth line
                      else maxWidth) lines m
    /\ Forall (fun line =>
                 displayWidth line
                 <= fold_left (fun maxWidth line =>
                                 if displayWidth line >? maxWidth then displayWidth line
                                 else maxWidth) lines m) lines.
Proof.
  induction lines as [| line lines IH]; intros m; cbn [fold_left].
  - split; [lia | constructor].
  - destruct (IH (if displayWidth line >? m then displayWidth line else m)) as [Hm Hall].
    destruct (Z.gtb_spec (displayWidth line) m) as [Hgt | Hle].
    + split; [lia |]. constructor; [lia | exact Hall].
    + split; [lia |]. constructor; [lia | exact Hall].
Qed.

Lemma index_lookup {A} (l : list A) (i : Z) (x : A) :
  index l i = Some x -> 0 <= i /\ l !! Z.to_nat i = Some x.
Proof. unfold index. destruct (Z.ltb_spec i 0); [discriminate | auto]. Qed.

Section Widths.
Context {cond : Condition}.
Variable t : Table.
Variable l : Layout.
Hypothesis Hbuild : buildLayout t = Some l.
Hypothesis Htiles : tiles t.
Hypothesis Hascii : asciiWidths.

Lemma built_renders : renders t.
Proof. exact (LayoutFacts.buildLayout_Some t l Hbuild). Qed.

Lemma built_layoutOK : layoutOK t l.
Proof.
  destruct (LayoutFacts.buildLayout_in_range t built_renders) as (l' & Hb & Hok).
  rewrite Hbuild in Hb. now inversion Hb; subst.
Qed.

Lemma widths_length : Z.of_nat (length (colWidths l)) = Cols t.
Proof.
  destruct built_layoutOK as (_ & _ & _ & [Hlen _] & _).
  destruct built_renders as (_ & Hcols & _). lia.
Qed.

Lemma borderLoop_width (rowIdx : Z) :
  -1 <= rowIdx < Rows t ->
  forall n colIdx sb,
    0 <= colIdx -> colIdx + Z.of_nat n = Cols t ->
    exists ext,
      borderLoop n l rowIdx colIdx sb = Some (sb ++ ext)
      /\ displayWidth ext
         = sumZ (drop (Z.to_nat colIdx) (colWidths l)) + 3 * Z.of_nat n
           - (if (n =? 0)%nat then 0 else 1).
Proof.
  intros Hrow. pose proof built_layoutOK as Hl. pose proof widths_length as Hlen.
  destruct Hascii as (Hplus & Hminus & Hbar & Hspace).
  induction n as [| n IH]; intros colIdx sb Hc Hn; cbn [borderLoop].
  - exists []. rewrite app_nil_r. split; [reflexivity |].
    rewrite drop_ge by lia. reflexivity.
  - destruct (LayoutFacts.needsHorizontalLine_in_range t l Hl rowIdx colIdx)
      as (h & ->); [lia | lia |].
    destruct (LayoutFacts.width_lookup t l Hl colIdx) as (w & Hw & Hw1); [lia |].
    rewrite Hw. apply index_lookup in Hw as [_ Hlook].
    rewrite (drop_S _ _ _ Hlook). rewrite RenderFacts.sumZ_cons.
    unfold Repeat. destruct (Z.ltb_spec (w + 2) 0); [lia |].
    assert (displayWidth (replicate (Z.to_nat (w + 2)) (if h then 45 else 32)) = w + 2)
      as Hseg.
    { rewrite RenderFacts.displayWidth_replicate. destruct h; lia. }
    destruct Hl as (Ht & _). rewrite Ht.
    destruct (Z.ltb_spec colIdx (Cols t - 1)) as [Hmore | Hlast].
    + destruct (LayoutFacts.needsVerticalLine_in_range t l built_layoutOK rowIdx colIdx)
        as (v & ->); [lia | lia |].
      destruct (IH (colIdx + 1)
                  (sb ++ replicate (Z.to_nat (w + 2)) (if h then 45 else 32)
                      ++ [if v then 43 else 45])) as (ext & -> & Hext); [lia | lia |].
      eexists. rewrite <- !app_assoc. split; [reflexivity |].
      rewrite !RenderFacts.displayWidth_app, Hseg, RenderFacts.displayWidth_single, Hext.
      replace (Z.to_nat (colIdx + 1)) with (S (Z.to_nat colIdx)) by lia.
      destruct n as [| n']; [lia |]. cbn [Nat.eqb]. destruct v; lia.
    + destruct (IH (colIdx + 1)
                  (sb ++ replicate (Z.to_nat (w + 2)) (if h then 45 else 32)))
        as (ext & -> & Hext); [lia | lia |].
      eexists. rewrite <- !app_assoc. split; [reflexivity |].
      rewrite !RenderFacts.displayWidth_app, Hseg, Hext.
      replace (Z.to_nat (colIdx + 1)) with (S (Z.to_nat colIdx)) by lia.
      assert (n = 0)%nat as -> by lia. cbn [Nat.eqb]. lia.
Qed.

Lemma renderBorderLine_width (rowIdx : Z) (line : list Z) :
  1 <= Cols t -> -1 <= rowIdx < Rows t ->
  renderBorderLine l rowIdx = Some line ->
  displayWidth line = tableWidth (colWidths l).
Proof.
  intros Hcols Hrow. unfold renderBorderLine.
  destruct built_layoutOK as (Ht & _). rewrite Ht.
  destruct (borderLoop_width rowIdx Hrow (Z.to_nat (Cols t)) 0 [43])
    as (ext & -> & Hext); [lia | lia |].
  intros H. inversion H; subst line.
  destruct Hascii as (Hplus & _).
  change (43 :: ext ++ [43]) with ([43] ++ ext ++ [43]).
  rewrite !RenderFacts.displayWidth_app, !RenderFacts.displayWidth_single, Hext, Hplus.
  unfold tableWidth. rewrite widths_length.
  change (Z.to_nat 0) with 0%nat. rewrite drop_0.
  destruct (Nat.eqb_spec (Z.to_nat (Cols t)) 0); lia.
Qed.

(** The text a cell shows is not wider than the columns it spans. *)
Lemma cellText_fits (id : nat) (owner : Cell) (rowIdx displayRowIdx : Z)
  (text : list Z) :
  Cells t !! id = Some owner -> 1 <= ColSpan owner ->
  cellText l id owner rowIdx displayRowIdx = Some text ->
  displayWidth text <= spannedWidth (colWidths l) (Col owner) (ColSpan owner).
Proof.
  intros Hid Hspan Htext.
  destruct built_layoutOK as (_ & _ & _ & [_ Hw] & _ & Hlines & Hfits).
  pose proof (Forall_lookup_1 _ _ _ _ Hfits (LayoutFacts.cellsWithId_at t id owner Hid))
    as Hfit.
  unfold fits in Hfit. cbn [fst snd] in Hfit. specialize (Hfit Hspan).
  unfold cellText in Htext. rewrite Hlines in Htext.
  destruct (maxLineWidth_fold (linesOf (splitLines t) id) 0) as [H0 Hall].
  fold (maxLineWidth (linesOf (splitLines t) id)) in H0, Hall.
  assert (displayWidth (@nil Z) <= spannedWidth (colWidths l) (Col owner) (ColSpan owner))
    as Hnil by (change (displayWidth (@nil Z)) with 0; lia).
  destruct (Row owner =? rowIdx); [| inversion Htext; subst; exact Hnil].
  destruct (displayRowIdx <? Z.of_nat (length (linesOf (splitLines t) id)));
    [| inversion Htext; subst; exact Hnil].
  apply index_lookup in Htext as [_ Hlook].
  pose proof (Forall_lookup_1 _ _ _ _ Hall Hlook) as Hline. cbn beta in Hline. lia.
Qed.

(** In a row, the cell after a cell starts where that cell ends. *)
Lemma next_start (rowIdx colIdx : Z) (id : nat) (cell : Cell) :
  0 <= rowIdx < Rows t -> 0 <= colIdx ->
  Cells t !! id = Some cell -> covers cell rowIdx colIdx -> Col cell = colIdx ->
  colIdx + ColSpan cell < Cols t ->
  exists id' cell',
    ownerAt (cellOwner l) rowIdx (colIdx + ColSpan cell) = Some (Some id')
    /\ Cells t !! id' = Some cell' /\ covers cell' rowIdx (colIdx + ColSpan cell)
    /\ Col cell' = colIdx + ColSpan cell.
Proof.
  intros Hrow Hc Hid Hcov Hcol Hnext.
  assert (1 <= ColSpan cell) as Hspan by (destruct Hcov as [_ ?]; lia).
  destruct (tiles_owner t l Hbuild Htiles rowIdx (colIdx + ColSpan cell))
    as (id' & cell' & Hown & Hid' & Hcov' & _); [lia | lia |].
  exists id', cell'. repeat split; try assumption; try apply Hcov'.
  destruct (Z_lt_le_dec (Col cell') (colIdx + ColSpan cell)) as [Hlt | Hge];
    [| destruct Hcov' as [_ ?]; lia].
  exfalso.
  destruct (Htiles rowIdx (colIdx + ColSpan cell - 1)) as (i & ci & _ & _ & Huniq);
    [lia | lia |].
  assert (id = i) as Hi.
  { apply (Huniq id cell Hid). destruct Hcov as [Hr _]. split; [exact Hr | lia]. }
  assert (id' = i) as Hi'.
  { apply (Huniq id' cell' Hid'). destruct Hcov' as [Hr ?]. split; [exact Hr | lia]. }
  subst i. subst id'. rewrite Hid in Hid'. inversion Hid'; subst cell'.
  destruct Hcov' as [_ ?]. lia.
Qed.

Lemma first_start (rowIdx : Z) :
  0 <= rowIdx < Rows t -> 1 <= Cols t ->
  exists id cell,
    ownerAt (cellOwner l) rowIdx 0 = Some (Some id)
    /\ Cells t !! id = Some cell /\ covers cell rowIdx 0 /\ Col cell = 0.
Proof.
  intros Hrow Hcols.
  destruct (tiles_owner t l Hbuild Htiles rowIdx 0)
    as (id & cell & Hown & Hid & Hcov & _); [lia | lia |].
  exists id, cell. repeat split; try assumption; try apply Hcov.
  destruct built_renders as (_ & _ & Hcells).
  destruct (Forall_lookup_1 _ _ _ _ Hcells Hid) as [Hc _].
  destruct Hcov as [_ ?]. specialize (Hc ltac:(lia)). lia.
Qed.

Lemma contentLoop_width (rowIdx displayRowIdx : Z) :
  0 <= rowIdx < Rows t -> 0 <= displayRowIdx ->
  forall fuel colIdx sb,
    0 <= colIdx <= Cols t -> Cols t - colIdx < Z.of_nat fuel ->
    (colIdx < Cols t ->
     exists id cell,
       ownerAt (cellOwner l) rowIdx colIdx = Some (Some id)
       /\ Cells t !! id = Some cell /\ covers cell rowIdx colIdx
       /\ Col cell = colIdx) ->
    exists ext,
      contentLoop fuel l rowIdx displayRowIdx colIdx sb = Some (sb ++ ext)
      /\ displayWidth ext
         = if colIdx <? Cols t
           then sumZ (drop (Z.to_nat colIdx) (colWidths l))
                + 3 * (Cols t - colIdx) - 1
           else 0.
Proof.
  intros Hrow Hd. pose proof built_layoutOK as Hl. pose proof Hl as (Ht & _).
  pose proof widths_length as Hlen.
  destruct Hascii as (Hplus & Hminus & Hbar & Hspace).
  induction fuel as [| fuel IH]; intros colIdx sb Hc Hf Hstart.
  - cbn [contentLoop]. rewrite Ht. destruct (Z.ltb_spec colIdx (Cols t)); [lia |].
    exists []. rewrite app_nil_r. split; reflexivity.
  - cbn [contentLoop]. rewrite Ht. destruct (Z.ltb_spec colIdx (Cols t)) as [Hlt | Hge].
    2:{ exists []. rewrite app_nil_r. split; reflexivity. }
    destruct (Hstart Hlt) as (id & owner & Hown & Hid & Hcov & Hcol).
    unfold ownerAt in Hown.
    destruct (index (cellOwner l) rowIdx) as [line |]; [| discriminate].
    rewrite Hown, Hid.
    destruct (Z.eqb_spec (Col owner) colIdx) as [_ | Hne]; [| contradiction].
    assert (1 <= ColSpan owner) as Hspan by (destruct Hcov as [_ ?]; lia).
    destruct built_renders as (_ & _ & Hcells).
    destruct (Forall_lookup_1 _ _ _ _ Hcells Hid) as [Hcols _].
    destruct (Hcols Hspan) as [_ Hend]. rewrite Hcol in Hend.
    rewrite (LayoutFacts.sumWidths_in_range t l Hl colIdx (Z.to_nat (ColSpan owner)))
      by lia.
    rewrite Z2Nat.id by lia.
    destruct (LayoutFacts.cellText_in_range t l Hl id owner rowIdx displayRowIdx Hd)
      as (text & Htext & _).
    rewrite Htext.
    pose proof (cellText_fits id owner rowIdx displayRowIdx text Hid Hspan Htext) as Hfit.
    rewrite Hcol in Hfit.
    set (spanned := spannedWidth (colWidths l) colIdx (ColSpan owner)) in *.
    set (total := if ColSpan owner >? 1 then spanned + (ColSpan owner - 1) * 3
                  else spanned).
    assert (total = spanned + 3 * (ColSpan owner - 1)) as Htotal
        by (unfold total; destruct (Z.gtb_spec (ColSpan owner) 1); lia).
    assert ((if total - displayWidth text <? 0 then 0 else total - displayWidth text)
            = total - displayWidth text) as ->
        by (destruct (Z.ltb_spec (total - displayWidth text) 0); lia).
    unfold Repeat. destruct (Z.ltb_spec (total - displayWidth text) 0); [lia |].
    set (pad := replicate (Z.to_nat (total - displayWidth text)) 32).
    assert (displayWidth ([32] ++ text ++ pad ++ [32]) = total + 2) as Hfield.
    { rewrite !RenderFacts.displayWidth_app, !RenderFacts.displayWidth_single.
      unfold pad. rewrite RenderFacts.displayWidth_replicate. lia. }
    assert (sumZ (drop (Z.to_nat colIdx) (colWidths l))
            = spanned + sumZ (drop (Z.to_nat (colIdx + ColSpan owner)) (colWidths l)))
      as Hsum.
    { unfold spanned, spannedWidth.
      rewrite <- (take_drop (Z.to_nat (ColSpan owner)) (drop (Z.to_nat colIdx) (colWidths l)))
        at 1.
      rewrite sumZ_app, drop_drop.
      replace (Z.to_nat (colIdx + ColSpan owner))
        with (Z.to_nat colIdx + Z.to_nat (ColSpan owner))%nat by lia.
      reflexivity. }
    destruct (Z.ltb_spec (colIdx + ColSpan owner) (Cols t)) as [Hnext | Hdone].
    + destruct (IH (colIdx + ColSpan owner) (sb ++ ([32] ++ text ++ pad ++ [32]) ++ [124]))
        as (ext & -> & Hext); [lia | lia | |].
      { intros _. exact (next_start rowIdx colIdx id owner Hrow ltac:(lia) Hid Hcov Hcol Hnext). }
      exists ((([32] ++ text ++ pad ++ [32]) ++ [124]) ++ ext).
      split; [now rewrite <- !app_assoc |].
      rewrite RenderFacts.displayWidth_app, (RenderFacts.displayWidth_app _ [124]),
        Hfield, RenderFacts.displayWidth_single, Hext.
      destruct (Z.ltb_spec (colIdx + ColSpan owner) (Cols t)); lia.
    + destruct (IH (colIdx + ColSpan owner) (sb ++ ([32] ++ text ++ pad ++ [32])))
        as (ext & -> & Hext); [lia | lia | lia |].
      exists (([32] ++ text ++ pad ++ [32]) ++ ext).
      split; [now rewrite <- !app_assoc |].
      rewrite RenderFacts.displayWidth_app, Hfield, Hext.
      destruct (Z.ltb_spec (colIdx + ColSpan owner) (Cols t)); [lia |].
      rewrite (drop_ge _ (Z.to_nat (colIdx + ColSpan owner))) in Hsum by lia.
      change (sumZ []) with 0 in Hsum. lia.
Qed.

Lemma renderContentLine_width (rowIdx displayRowIdx : Z) (line : list Z) :
  1 <= Cols t -> 0 <= rowIdx < Rows t -> 0 <= displayRowIdx ->
  renderContentLine l rowIdx displayRowIdx = Some line ->
  displayWidth line = tableWidth (colWidths l).
Proof.
  intros Hcols Hrow Hd. unfold renderContentLine.
  destruct built_layoutOK as (Ht & _). rewrite Ht.
  destruct (contentLoop_width rowIdx displayRowIdx Hrow Hd
              (S (Z.to_nat (Cols t))) 0 [124]) as (ext & -> & Hext); [lia | lia | |].
  { intros _. exact (first_start rowIdx Hrow Hcols). }
  intros H. inversion H; subst line.
  destruct Hascii as (_ & _ & Hbar & _).
  change (124 :: ext ++ [124]) with ([124] ++ ext ++ [124]).
  rewrite !RenderFacts.displayWidth_app, !RenderFacts.displayWidth_single, Hext, Hbar.
  unfold tableWidth. rewrite widths_length.
  change (Z.to_nat 0) with 0%nat. rewrite drop_0.
  destruct (Z.ltb_spec 0 (Cols t)); lia.
Qed.

(** *** Where the lines of the rendering come from *)

Lemma contentLines_from (rowIdx : Z) :
  0 <= rowIdx < Rows t ->
  forall n d sb out,
    0 <= d -> contentLines n l rowIdx d sb = Some out ->
    exists ls, out = sb ++ unlines ls /\ Forall (isLine t l) ls.
Proof.
  intros Hrow. induction n as [| n IH]; intros d sb out Hd H; cbn [contentLines] in H.
  - inversion H; subst. exists []. cbn. now rewrite app_nil_r.
  - destruct (renderContentLine l rowIdx d) as [line |] eqn:Hline; [| discriminate].
    destruct (IH (d + 1) _ out ltac:(lia) H) as (ls & -> & Hls).
    exists (line :: ls). split.
    + change (line :: ls) with ([line] ++ ls).
      now rewrite LayoutFacts.unlines_app, LayoutFacts.unlines_one, <- !app_assoc.
    + constructor; [| exact Hls]. right. exists rowIdx, d. auto.
Qed.

Lemma renderRows_from :
  forall n rowIdx sb out,
    0 <= rowIdx -> rowIdx + Z.of_nat n <= Rows t ->
    renderRows n l rowIdx sb = Some out ->
    exists ls, out = sb ++ unlines ls /\ Forall (isLine t l) ls.
Proof.
  induction n as [| n IH]; intros rowIdx sb out Hrow Hn H; cbn [renderRows] in H.
  - inversion H; subst. exists []. cbn. now rewrite app_nil_r.
  - destruct (index (rowHeights l) rowIdx) as [displayRows |]; [| discriminate].
    destruct (contentLines _ l rowIdx 0 sb) as [sb1 |] eqn:Hrows; [| discriminate].
    destruct (renderBorderLine l rowIdx) as [border |] eqn:Hborder; [| discriminate].
    destruct (contentLines_from rowIdx ltac:(lia) _ 0 sb sb1 ltac:(lia) Hrows)
      as (ls1 & -> & Hls1).
    destruct (IH (rowIdx + 1) _ out ltac:(lia) ltac:(lia) H) as (ls2 & -> & Hls2).
    exists (ls1 ++ [border] ++ ls2). split.
    + now rewrite !LayoutFacts.unlines_app, LayoutFacts.unlines_one, <- !app_assoc.
    + apply Forall_app. split; [exact Hls1 |]. constructor; [| exact Hls2].
      left. exists rowIdx. split; [lia | exact Hborder].
Qed.

Lemma render_from (out : list Z) :
  render l = Some out -> exists ls, out = unlines ls /\ Forall (isLine t l) ls.
Proof.
  unfold render. destruct built_layoutOK as (Ht & _). rewrite Ht.
  destruct built_renders as (Hrows & _).
  destruct (renderBorderLine l (-1)) as [top |] eqn:Htop; [| discriminate].
  intros H.
  destruct (renderRows_from (Z.to_nat (Rows t)) 0 (top ++ [10]) out) as (ls & -> & Hls);
    [lia | lia | exact H |].
  exists (top :: ls). split.
  - change (top :: ls) with ([top] ++ ls).
    now rewrite LayoutFacts.unlines_app, LayoutFacts.unlines_one.
  - constructor; [| exact Hls]. left. exists (-1). split; [lia | exact Htop].
Qed.

Lemma isLine_aligned (line : list Z) :
  1 <= Cols t -> isLine t l line ->
  noNewlineIn line /\ displayWidth line = tableWidth (colWidths l).
Proof.
  intros Hcols [(r & Hr & Hline) | (r & d & Hr & Hd & Hline)].
  - split; [| exact (renderBorderLine_width r line Hcols Hr Hline)].
    destruct (LayoutFacts.renderBorderLine_in_range t l built_layoutOK built_renders r Hr)
      as (line' & Hline' & Hnl).
    rewrite Hline in Hline'. now inversion Hline'; subst.
  - split; [| exact (renderContentLine_width r d line Hcols Hr Hd Hline)].
    destruct (LayoutFacts.renderContentLine_in_range t l built_layoutOK built_renders
                r d Hr Hd) as (line' & Hline' & Hnl).
    rewrite Hline in Hline'. now inversion Hline'; subst.
Qed.

End Widths.

(** X27. The rendering of a table is a rectangle.  If the cells tile the
    grid (every position of the grid is covered by exactly one cell, with
    or without merged cells) and the table has at least one column, all
    the lines that Render returns, border lines and content lines, have
    the same display width: the sum of the column widths, plus 3 for each
    column, plus 1.  The display width of a string is the sum of the
    widths of its characters, the characters '+', '-', '|' and ' ' being
    one column wide. *)
Theorem Render_aligned {cond : Condition} (t : Table) (out : list Z) :
  asciiWidths -> tiles t -> 1 <= Cols t ->
  Render t = Some out ->
  exists l ls,
    buildLayout t = Some l
    /\ out = unlines ls
    /\ Forall (fun line => noNewlineIn line
                           /\ displayWidth line = tableWidth (colWidths l)) ls.
Proof.
  intros Hascii Htiles Hcols Hrender. unfold Render in Hrender.
  destruct (buildLayout t) as [l |] eqn:Hbuild; [| discriminate].
  destruct (render_from t l Hbuild out Hrender) as (ls & -> & Hls).
  exists l, ls. split; [reflexivity |]. split; [reflexivity |].
  apply Forall_lookup_2. intros i line Hi.
  exact (isLine_aligned t l Hbuild Htiles Hascii line Hcols
           (Forall_lookup_1 _ _ _ _ Hls Hi)).
Qed.

Lemma headerTable_tiles : tiles headerTable.
Proof.
  intros r c Hr Hc. cbn [headerTable Rows Cols] in Hr, Hc.
  assert (r = 0 \/ r = 1) as [-> | ->] by lia;
    assert (c = 0 \/ c = 1) as [-> | ->] by lia;
    [exists 0%nat | exists 0%nat | exists 1%nat | exists 2%nat];
    (eexists; split; [reflexivity |]; split; [unfold covers; cbn; lia |]);
    intros [| [| [| id']]] cell' Hlook Hcov; cbn in Hlook; inversion Hlook; subst;
    unfold covers in Hcov; cbn in Hcov; first [reflexivity | lia].
Qed.

Lemma Render_aligned_witness :
  exists out l ls,
    @Render sampleCondition headerTable = Some out
    /\ @buildLayout sampleCondition headerTable = Some l
    /\ out = unlines ls
    /\ Forall (fun line => noNewlineIn line
                           /\ @displayWidth sampleCondition line
                              = tableWidth (colWidths l)) ls.
Proof.
  assert (exists out, @Render sampleCondition headerTable = Some out) as [out Hout]
      by (vm_compute; eauto).
  destruct (@Render_aligned sampleCondition headerTable out
              RenderFacts.sampleCondition_ascii headerTable_tiles
              ltac:(cbn; lia) Hout) as (l & ls & Hl & Hls & Hall).
  exists out, l, ls. auto.
Defined.

End AlignFacts.

(** * The column widths of a table without merged columns are tight *)

Module TightFacts.
Import Render Shape SingleWidths.

Section Single.
Context {cond : Condition}.
Variable lines : list (list (list Z)).

Lemma widenSingle_at (cw cw' : list Z) (ic : nat * Cell) :
  widenSingle lines cw ic = Some cw' ->
  forall c : nat, cw' !! c = (fun w => grow lines (Z.of_nat c) w ic) <$> cw !! c.
Proof.
  unfold widenSingle, grow. intros H c.
  destruct (Z.eqb_spec (ColSpan (snd ic)) 1) as [Hone | Hmore]; cbn [andb].
  2:{ inversion H; subst. now destruct (cw' !! c). }
  destruct (index cw (Col (snd ic))) as [w0 |] eqn:Hi; [| discriminate].
  apply AlignFacts.index_lookup in Hi as [Hcol Hlook].
  destruct (Z.gtb_spec (maxLineWidth (linesOf lines (fst ic))) w0) as [Hgt | Hle].
  - rewrite LayoutFacts.store_in_range in H
      by (apply lookup_lt_Some in Hlook; lia).
    inversion H; subst cw'. clear H.
    destruct (Z.eqb_spec (Col (snd ic)) (Z.of_nat c)) as [Heq | Hne].
    + replace (Z.to_nat (Col (snd ic))) with c in * by lia.
      rewrite list_lookup_insert_eq by (now apply lookup_lt_Some in Hlook).
      rewrite Hlook. cbn. f_equal. lia.
    + rewrite list_lookup_insert_ne by lia. now destruct (cw !! c).
  - inversion H; subst cw'. clear H.
    destruct (Z.eqb_spec (Col (snd ic)) (Z.of_nat c)) as [Heq | Hne].
    + replace (Z.to_nat (Col (snd ic))) with c in * by lia.
      rewrite Hlook. cbn. f_equal. lia.
    + now destruct (cw !! c).
Qed.

Lemma foldM_widenSingle_at (l : list (nat * Cell)) :
  forall cw cw',
    foldM (widenSingle lines) l cw = Some cw' ->
    forall c : nat,
      cw' !! c = (fun w => fold_left (grow lines (Z.of_nat c)) l w) <$> cw !! c.
Proof.
  induction l as [| ic l IH]; intros cw cw' H c; cbn [foldM] in H.
  - inversion H; subst. cbn [fold_left]. now destruct (cw' !! c).
  - destruct (widenSingle lines cw ic) as [cw1 |] eqn:H1; [| discriminate].
    rewrite (IH cw1 cw' H c), (widenSingle_at cw cw1 ic H1 c).
    cbn [fold_left]. now destruct (cw !! c).
Qed.

Lemma foldM_widenSpan_single (l : list (nat * Cell)) :
  Forall (fun ic => ColSpan (snd ic) <= 1) l ->
  forall cw, foldM (widenSpan lines) l cw = Some cw.
Proof.
  induction 1 as [| ic l Hic _ IH]; intros cw; cbn [foldM]; [reflexivity |].
  unfold widenSpan. destruct (Z.gtb_spec (ColSpan (snd ic)) 1); [lia |]. apply IH.
Qed.

(** The fold of [grow]: an upper bound that is attained. *)
Lemma grow_fold (c : Z) (l : list (nat * Cell)) :
  forall w0,
    let w := fold_left (grow lines c) l w0 in
    w0 <= w
    /\ Forall (fun ic => ColSpan (snd ic) = 1 -> Col (snd ic) = c ->
                         maxLineWidth (linesOf lines (fst ic)) <= w) l
    /\ (w = w0 \/ exists ic, In ic l /\ ColSpan (snd ic) = 1 /\ Col (snd ic) = c
                             /\ maxLineWidth (linesOf lines (fst ic)) = w).
Proof.
  induction l as [| ic l IH]; intros w0; cbn [fold_left].
  - split; [lia |]. split; [constructor | now left].
  - destruct (IH (grow lines c w0 ic)) as (Hge & Hall & Hmax). cbv zeta in *.
    set (w := fold_left (grow lines c) l (grow lines c w0 ic)) in *.
    assert (w0 <= grow lines c w0 ic) as Hgrow
        by (unfold grow; destruct (_ && _); lia).
    split; [lia |]. split.
    + constructor; [| exact Hall]. intros Hone Hcol.
      assert (maxLineWidth (linesOf lines (fst ic)) <= grow lines c w0 ic); [| lia].
      unfold grow. rewrite Hone, Hcol, !Z.eqb_refl. cbn [andb]. lia.
    + destruct Hmax as [Heq | (ic' & Hin & H1 & H2 & H3)].
      * unfold grow in Heq, Hgrow.
        destruct (Z.eqb_spec (ColSpan (snd ic)) 1) as [Hone |]; cbn [andb] in *;
          [| now left].
        destruct (Z.eqb_spec (Col (snd ic)) c) as [Hcol |]; [| now left].
        destruct (Z.max_spec w0 (maxLineWidth (linesOf lines (fst ic))))
          as [[_ Hm] | [_ Hm]]; rewrite Hm in Heq.
        -- right. exists ic. split; [now left | auto].
        -- now left.
      * right. exists ic'. split; [now right | auto].
Qed.

End Single.

(** X29. The column widths of a table without merged columns are tight.
    If no cell spans more than one column, the width that buildLayout
    computes for a column is the display width of the widest line among
    the cells of that column that span one column, and 1 if that is more:
    no line of such a cell is wider than the column, and either the width
    is 1 or a line of one of these cells has exactly that width. *)
Theorem colWidths_tight {cond : Condition} (t : Table) (l : Layout) (c : Z) :
  buildLayout t = Some l ->
  Forall (fun cell => ColSpan cell <= 1) (Cells t) ->
  0 <= c < Cols t ->
  exists w,
    colWidths l !! Z.to_nat c = Some w
    /\ 1 <= w
    /\ (forall id cell,
          Cells t !! id = Some cell -> ColSpan cell = 1 -> Col cell = c ->
          maxLineWidth (Split (Text cell) 10) <= w)
    /\ (w = 1
        \/ exists id cell,
             Cells t !! id = Some cell /\ ColSpan cell = 1 /\ Col cell = c
             /\ maxLineWidth (Split (Text cell) 10) = w).
Proof.
  intros Hbuild Hsingle Hc.
  pose proof (LayoutFacts.buildLayout_Some t l Hbuild) as (Hrows & Hcols & _).
  unfold buildLayout in Hbuild.
  destruct (make (Rows t) _) as [grid0 |]; [| discriminate].
  unfold make in Hbuild. destruct (Z.ltb_spec (Cols t) 0); [lia |].
  destruct (foldM (ownCell t) (cellsWithId t) grid0) as [grid |]; [| discriminate].
  destruct (computeColWidths t _ _) as [cw |] eqn:Hcw; [| discriminate].
  inversion Hbuild; subst l. clear Hbuild. cbn [colWidths].
  fold (splitLines t) in Hcw. unfold computeColWidths in Hcw.
  destruct (foldM (widenSingle (splitLines t)) (cellsWithId t) _) as [cw2 |] eqn:H1;
    [| discriminate].
  rewrite foldM_widenSpan_single in Hcw.
  2:{ apply Forall_lookup_2. intros i ic Hi.
      pose proof (Forall_lookup_1 _ _ _ _ (LayoutFacts.cellsWithId_cells t) Hi) as Hic.
      exact (Forall_lookup_1 _ _ _ _ Hsingle Hic). }
  inversion Hcw; subst cw2. clear Hcw.
  pose proof (foldM_widenSingle_at (splitLines t) _ _ _ H1 (Z.to_nat c)) as Hat.
  rewrite list_lookup_fmap, lookup_replicate_2 in Hat by lia. cbn in Hat.
  rewrite Z2Nat.id in Hat by lia.
  destruct (grow_fold (splitLines t) c (cellsWithId t) 1) as (Hge & Hall & Hmax).
  cbv zeta in Hge, Hall, Hmax.
  eexists. split; [exact Hat |]. split; [exact Hge |]. split.
  - intros id cell Hid Hone Hcol.
    pose proof (Forall_lookup_1 _ _ _ _ Hall (LayoutFacts.cellsWithId_at t id cell Hid))
      as Hle.
    cbn [fst snd] in Hle. rewrite (LayoutFacts.linesOf_cell t id cell Hid) in Hle. auto.
  - destruct Hmax as [Heq | ([id cell] & Hin & Hone & Hcol & Heq)]; [now left |].
    right. exists id, cell. cbn [fst snd] in *.
    apply list_elem_of_In, list_elem_of_lookup in Hin. destruct Hin as [i Hi].
    pose proof (Forall_lookup_1 _ _ _ _ (LayoutFacts.cellsWithId_cells t) Hi) as Hid.
    cbn [fst snd] in Hid. rewrite (LayoutFacts.linesOf_cell t id cell Hid) in Heq. auto.
Qed.

Lemma colWidths_tight_witness :
  exists l w,
    @buildLayout sampleCondition (rowMajorGrid 97 98 99 100 101 102) = Some l
    /\ colWidths l !! 1%nat = Some w /\ 1 <= w.
Proof.
  assert (exists l, @buildLayout sampleCondition (rowMajorGrid 97 98 99 100 101 102)
                    = Some l) as [l Hl] by (vm_compute; eauto).
  destruct (@colWidths_tight sampleCondition _ l 1 Hl) as (w & Hw & H1 & _).
  - repeat constructor; cbn; lia.
  - cbn; lia.
  - exists l, w. auto.
Defined.

End TightFacts.
